(* ===== verification/_CoqProject ===== *)
-Q . S2P
Prelude.v
Common.v
Sizes.v
Machine.v
Wp.v
Dll.v
Testbed.v
Security.v
Rtree.v
Vmm.v
VmmSpec.v
Provision.v
Telemetry.v
Span.v
SpanSpec.v
Slab.v
Tlh.v
SlabSpec.v
BinSpec.v
HeapSpec.v
TlhSpec.v
RemoteSpec.v
Lzmalloc.v
PosixHooks.v
HooksSpec.v
LzmallocSpec.v
WorldSpec.v
WorldSend.v
WorldLife.v
WorldDirect.v
ApiSpec.v
ApiLife.v
ClientSpec.v
TypeSpec.v
Frame.v
BaseFrame.v
HooksView.v
HooksClient.v
Interleave.v
BaseRace.v
RtreeRace.v
MailRace.v
MailProgress.v
RegistryRace.v
RegistryProgress.v
VmmRace.v
VmmRaceSpec.v
VmmAlone.v
VmmAtomic.v
