(* ===== verification/Prelude.v ===== *)
(** * lzmalloc: a verification development

    lzmalloc is a drop-in memory allocator.  This library models its
    implementation (src/src, the public header src/include/lzmalloc.h) and
    proves what its client relies on: the calls answer, the objects in use are
    aligned, disjoint and keep their contents, and memory moves between the
    components without being lost or shared.

    ** The program

    Memory comes from the kernel in 64 MiB extents, cut into 2 MiB chunks that
    wait in one global list and in a small cache per NUMA node
    (engines/vmm.c, internal/topology.c).  Every chunk starts with a header
    with a checksum (core/chunk.h, core/security.c) and is registered in a
    two-level index from addresses to headers (core/rtree.c), which is how
    free finds the owner of a pointer.  A chunk is formatted as a slab, objects
    of one size class (engines/slab.c, internal/sizes.h), or as a span, runs of
    pages under a bitmap (engines/span.c).  A thread-local heap (tlh/tlh.c)
    holds slabs in one bin per class, allocates and frees in them, and hands
    objects of other heaps over through a batch and the mailbox of their owner.
    The API (hooks/lzmalloc.c) routes a request by its size to a slab, a span
    or a mapping of its own, attaches threads to heaps and keeps the heaps of
    dead threads for adoption.  hooks/posix_hooks.c interposes the C symbols and
    serves what comes before initialisation from a static array.
    internal/telemetry.c keeps statistics in shared memory.

    ** The model

    The effects of the C code are explicit state passing with hard stops
    (Machine.v): a computation [M A] takes the state of the process and ends in
    [Done], with a result and the next state, or in a stop, with the state it
    stops in: an invalid access, a trap, a lock that cannot be acquired, an
    abort.  The state holds the
    global variables, the mapped ranges, the metadata records by address
    (chunk headers, slabs and spans, heaps, tree leaves), the bytes of all
    other memory, and the thread-local pointers.  Metadata and link words are
    read at their addresses, so a dangling or overlapping pointer shows up as a
    stop or as a wrong value, and never as a missing case.  Integers are [Z]
    with the wrap-around of their C type written at every operation that can
    leave it ([u32], [u64], [i64] below).

    The operating system and the logging submodule, which the sources only
    call, are the fields of the class [Env]; the documented contracts of mmap,
    getcpu and getpid are the class [EnvLaws], and Testbed.v gives an instance
    of both, with which the witnesses run.  Every system call gets a fresh tick
    of a clock, so its answers may change over time, and mmap may fail at any
    call.  The state keeps a record of the failed ones ([st_refused], tick and
    length, written by mmap alone and read by no code): theorems that let a call
    return NULL, skip a registration or trap because the kernel refused memory
    say which refusal of the run it was ([refused_since], [leaf_refused_since],
    [tlh_refused]).  LZ_FATAL returns or ends the process as the environment says.  The
    theorems about the C symbols also use the class [BaseLaws]: the linker
    places the static array at a multiple of 16 inside the user address space,
    mmap keeps clear of it, and the page size is 4096 or unknown.

    ** Files

    - Prelude.v, Common.v: machine integers, automation, generic lemmas; the
      constants of the default build and the macros of internal/common.h.
    - Machine.v, Wp.v, Dll.v, Testbed.v: data, state, effects and environment;
      a total weakest precondition with its rules; doubly linked lists; the
      concrete environment.
    - Sizes.v (internal/sizes.h), Security.v (core/chunk.h, core/security.[ch]),
      Rtree.v (core/rtree.[ch]), Vmm.v and VmmSpec.v (internal/topology.[ch],
      engines/vmm.[ch]), Telemetry.v (internal/telemetry.[ch]), Span.v and
      SpanSpec.v (engines/span.[ch]), Slab.v and SlabSpec.v (engines/slab.[ch]),
      Tlh.v, BinSpec.v, HeapSpec.v, TlhSpec.v and RemoteSpec.v (tlh/tlh.[ch]),
      Lzmalloc.v and LzmallocSpec.v (hooks/lzmalloc.c), PosixHooks.v and
      HooksSpec.v (hooks/posix_hooks.c).  The first file of each has the
      operations, under the names of the source, the others what they promise.
      Provision.v has what both engines do to take and return a chunk.
    - WorldSpec.v, WorldSend.v, WorldLife.v, WorldDirect.v: the invariant of a
      whole process, with all heaps, batches, mailboxes, large objects and the
      registry of heaps, and the steps that preserve it.
    - ApiSpec.v, ApiLife.v: every entry point against that invariant.
      ClientSpec.v: the abstract allocator, its refinement, client programs.
      TypeSpec.v: the ranges of the bookkeeping fields.
    - Frame.v: relations between states that all operations on chunks, index,
      slabs, spans and heaps respect, proved once for every such relation.
      BaseFrame.v: nothing but the bootstrap code touches the static array.
      HooksView.v, HooksClient.v: programs that call the C symbols, before and
      after the constructor, against the abstract allocator.
    - Interleave.v: threads that run at the same time, one access to shared
      memory per step.  BaseRace.v, RtreeRace.v, MailRace.v: the three lock-free
      protocols of the program (the offset of the bootstrap array, the
      publication of tree leaves, the mailbox).  RegistryRace.v: the registry of
      heaps under its lock.  VmmRace.v, VmmRaceSpec.v, VmmAlone.v: the chunk
      manager under its 17 locks, its code cut into actions, the theorems, and
      the agreement with Vmm.v.  VmmAtomic.v: the atomic chunk manager that the
      racing one refines.  MailProgress.v, RegistryProgress.v: bounds on the work
      of threads that race on a mailbox and on the registry.

    ** What the theorems show

    - The C symbols.  [hooks_refine]: a client program that calls the
      interposed symbols from its first request on, through initialisation,
      with objects of the static array passed to the later calls, runs to its
      end and leaves what the abstract allocator permits; [hook_call_refines]:
      the same for one call; [hook_objects_disjoint]: whatever the program
      did, the objects it holds are aligned, accessible and disjoint.
    - The whole allocator.  [client_refines]: a client program that uses only
      live objects runs to its end from the start of the process and leaves
      what the abstract allocator permits; [call_refines]: the same for one
      call in any state of the process; [objects_disjoint_everywhere]; the
      field ranges [program_types].  The abstract allocator is a finite map
      from addresses to sizes with the contents of the objects, the objects
      that are lost (the index has no entry for their chunk) and the record of
      refusals.  A call grants an object that is disjoint from all others,
      removes the one it is asked to remove, or answers NULL, which takes a
      refusal on record during the call, and keeps all other contents.  A lost
      object is one whose chunk found no room in the index when the kernel
      refused a leaf (rtree.c:57); free and realloc do nothing for it, and it
      stays lost for its life.  The one other outcome is the trap taken when
      the kernel has just refused the pages of a thread heap.
    - Components.  Each is refined to a small abstract object: chunk manager to
      stacks of chunks, index to a flat map, span and heap to sets of disjoint
      objects, mailbox and batch to sequences of pending frees.  An operation
      adds and removes exactly what it should and leaves the bytes of
      everything else alone, on every branch, failures included.
    - Arithmetic.  The class of a request is the smallest that fits, class and
      size are inverse, the bitmap search is first-fit and complete, extents
      are trimmed exactly, the checksum and the masked links detect a change.
    - Interleavings.  The blocks of the bootstrap array are disjoint and the
      loop ends within n (n + 3) steps for n threads; every interleaving of
      index calls is a history of the flat map, with a dropped registration for
      each leaf the kernel refused and no other, and a leaf that loses the race
      is unmapped; objects freed by other threads are each in exactly one place
      until the owner reaps them, no step touches an object in use, a push
      that runs alone ends, and n senders together take at most 2 n^2 + 6 n
      actions between two steps of the owner ([mailbox_lock_free]).  Heaps are
      registered once or belong to one thread ([registry_race_safe]), and the
      lock of the registry is released ([registry_lock_released]).  Chunks are
      each in exactly one place and none is lost ([vmm_race_safe]), calls of the
      chunk manager take a bounded number of actions and cannot deadlock
      ([vmm_race_terminates]), every lock is released ([vmm_lock_released]), and
      every execution is one of a manager whose operations are atomic
      ([vmm_race_refines]).  The machines of these files are tied to
      the sequential definitions: run alone, they compute the same results
      ([vmm_race_includes_sequential] for the chunk manager, over the actions
      of one thread and nothing in between).
    - Where the code does not do what its documentation says (sizes near
      SIZE_MAX, zero-sized aligned requests, very large alignments, an
      allocation that finds its extent taken, a collector that meets a heap in
      use) a theorem states the actual behaviour.

    ** Bounds

    Loops over linked data take a bound from the state they start in:
    [walk_bound], one more than the number of slab and span records, for the
    active spans of a heap; [node_bound], one more than the number of written
    bytes, for the chain taken from a mailbox; [heap_bound], one more than the
    number of heaps, for the registry.  The lists of the invariants have no duplicates
    and their members are such records, so the bounds are never reached; the
    theorems about these loops state that they return, not only what holds if
    they do.  A bound that runs out is a stop of its own ([NoFuel]), which the
    refinement theorems exclude.  The purge takes at most 33 chunks per node, one
    more than the capacity of a cache.  Loops over constant tables (bins, nodes, bitmap words) recurse
    on their length.

    Client programs are bounded by sizes of at most 2^46 bytes and alignments
    of at most 2 MiB; the theorems named above say what happens beyond.

    ** Not modelled

    - The logging submodule, whose sources are not in the repository; tests,
      benchmarks and the build, beyond the default values of its options.
    - Registration of the thread-exit destructor with pthread (the destructor
      itself is modelled, and a client program runs it at thread exit).
    - Interleavings of whole API calls: [client_refines] and [hooks_refine] are
      about calls of many threads one after the other, the race files about the
      words and lists that threads share.  In VmmRace.v mapping and trimming an
      extent is one action, as are the writes to a chunk that only one thread
      has; in RegistryRace.v so are the operations on a heap (a flush, a reap)
      and the purge, and a new heap is placed where no heap is, since the code
      never unmaps one.
    - Weak memory orders: an atomic access is sequentially consistent.
    - Compiler hints, the pause instruction and padding bytes, which have no
      observable effect.

    What is left open is the composition of the race files: a thread that works
    on its heap is a client in VmmRace.v and the owner in MailRace.v, each of
    which allows the other what it does ([clients_act], the isolation theorems),
    but no single machine interleaves both. *)

From Stdlib Require Export ZArith Lia.
From stdpp Require Export base numbers option list gmap strings.

#[global] Open Scope Z_scope.

(** ** Machine integers

    Every C integer of the sources is a [Z] kept at its width: an operation
    that can leave the range of its type is followed by the wrap-around of
    that type. *)
Definition u16 (x : Z) : Z := x mod 2 ^ 16.
Definition u32 (x : Z) : Z := x mod 2 ^ 32.
Definition u64 (x : Z) : Z := x mod 2 ^ 64.

(** Bitwise complement at 64 bits ([~x] on a [size_t] / [uintptr_t]). *)
Definition lnot64 (x : Z) : Z := u64 (Z.lnot x).

(** Conversion of a 64-bit pattern to [int64_t] (two's complement). *)
Definition i64 (x : Z) : Z := (x + 2 ^ 63) mod 2 ^ 64 - 2 ^ 63.

Definition SIZE_MAX : Z := 2 ^ 64 - 1.
Abbreviation NULL := 0 (only parsing).

Declare Scope lz_scope.
Delimit Scope lz_scope with lz.
Notation "x .& y" := (Z.land x y) (at level 40, left associativity) : lz_scope.
Notation "x .| y" := (Z.lor x y) (at level 50, left associativity) : lz_scope.
Notation "x .^ y" := (Z.lxor x y) (at level 48, left associativity) : lz_scope.
Notation "x <<. n" := (Z.shiftl x n) (at level 38, left associativity) : lz_scope.
Notation "x >>. n" := (Z.shiftr x n) (at level 38, left associativity) : lz_scope.
#[global] Open Scope lz_scope.

(** Hint database of the development: side conditions about ranges and
    alignment that the components share. *)
Create HintDb lz.
Create Rewrite HintDb lz_simpl.

(** ** Tactics *)

(** Linear arithmetic over [/] and [mod] by constants. *)
Ltac dlia := Z.to_euclidean_division_equations; lia.

(** Case analysis on the boolean integer tests of the code. *)
Ltac ztest :=
  match goal with
  | |- context [?a =? ?b] => destruct (Z.eqb_spec a b)
  | |- context [?a <? ?b] => destruct (Z.ltb_spec a b)
  | |- context [?a <=? ?b] => destruct (Z.leb_spec a b)
  | H : context [?a =? ?b] |- _ => destruct (Z.eqb_spec a b)
  | H : context [?a <? ?b] |- _ => destruct (Z.ltb_spec a b)
  | H : context [?a <=? ?b] |- _ => destruct (Z.leb_spec a b)
  end.

(** Rewrites a boolean test to the value its Prop reading has in context. *)
Ltac ztrue t := let H := fresh in assert (H : t = true) by
  (first [apply Z.eqb_eq | apply Z.ltb_lt | apply Z.leb_le]; lia);
  rewrite H; clear H.
Ltac zfalse t := let H := fresh in assert (H : t = false) by
  (first [apply Z.eqb_neq | apply Z.ltb_ge | apply Z.leb_gt]; lia);
  rewrite H; clear H.

(** ** Wrap-around *)

Lemma u64_small x : 0 <= x < 2 ^ 64 -> u64 x = x.
Proof. apply Z.mod_small. Qed.

Lemma u32_small x : 0 <= x < 2 ^ 32 -> u32 x = x.
Proof. apply Z.mod_small. Qed.

Lemma u16_small x : 0 <= x < 2 ^ 16 -> u16 x = x.
Proof. apply Z.mod_small. Qed.

Lemma u64_range x : 0 <= u64 x < 2 ^ 64.
Proof. apply Z.mod_pos_bound. lia. Qed.

Lemma u32_range x : 0 <= u32 x < 2 ^ 32.
Proof. apply Z.mod_pos_bound. lia. Qed.

Lemma u64_land x : u64 x = x .& Z.ones 64.
Proof. unfold u64. rewrite Z.land_ones by lia. done. Qed.

#[export] Hint Resolve u64_range u32_range : lz.
#[export] Hint Rewrite u64_small u32_small u16_small using lia : lz_simpl.

(** ** Masks and alignment *)

Lemma land_pow2_mask x k : 0 <= k -> x .& (2 ^ k - 1) = x mod 2 ^ k.
Proof.
  intros. rewrite <- Z.land_ones by done. f_equal.
  rewrite Z.ones_equiv. lia.
Qed.

(** [x & ~(2^k - 1)] on 64-bit operands rounds [x] down to a multiple. *)
Lemma land_lnot64_mask x k :
  0 <= k <= 64 -> 0 <= x < 2 ^ 64 ->
  x .& lnot64 (2 ^ k - 1) = x / 2 ^ k * 2 ^ k.
Proof.
  intros Hk Hx. unfold lnot64. rewrite u64_land.
  replace (2 ^ k - 1) with (Z.ones k) by (rewrite Z.ones_equiv; lia).
  rewrite (Z.land_comm (Z.lnot _)), Z.land_assoc.
  rewrite <- u64_land, u64_small by done.
  rewrite <- Z.ldiff_land, Z.ldiff_ones_r by lia.
  rewrite Z.shiftr_div_pow2, Z.shiftl_mul_pow2 by lia. done.
Qed.

Lemma pow2_pos k : 0 <= k -> 0 < 2 ^ k.
Proof. intros. apply Z.pow_pos_nonneg; lia. Qed.
#[export] Hint Resolve pow2_pos : lz.

Lemma pow2_split a b : 0 <= a -> 0 <= b -> 2 ^ (a + b) = 2 ^ a * 2 ^ b.
Proof. intros. apply Z.pow_add_r; done. Qed.

(** A multiple of [2^b] is a multiple of [2^a] for [a <= b]. *)
Lemma mod_pow2_weaken x a b :
  0 <= a <= b -> x mod 2 ^ b = 0 -> x mod 2 ^ a = 0.
Proof.
  intros Hab Hx. apply Z.mod_divide in Hx as [q ->]; [|lia].
  replace b with ((b - a) + a) by lia. rewrite pow2_split by lia.
  rewrite Z.mul_assoc. apply Z.mod_mul. lia.
Qed.

Lemma mod_mul_add a b m : m <> 0 -> a mod m = 0 -> b mod m = 0 -> (a + b) mod m = 0.
Proof. intros Hm Ha Hb. rewrite Z.add_mod, Ha, Hb by done. apply Z.mod_0_l. done. Qed.

(** ** Lists of lists *)

(** Taking a prefix of one component out of a concatenation. *)
Lemma concat_insert_perm {A} (P : list (list A)) n x l :
  P !! n = Some (x ++ l) -> concat P ≡ₚ x ++ concat (<[n := l]> P).
Proof.
  revert n. induction P as [|a P IH]; intros [|n] HP; cbn in *; simplify_eq.
  - by rewrite app_assoc.
  - rewrite (IH n HP). apply Permutation_app_swap_app.
Qed.

Lemma elem_of_concat_lookup {A} (P : list (list A)) n l x :
  P !! n = Some l -> x ∈ l -> x ∈ concat P.
Proof.
  intros HP Hx. apply list_elem_of_In, in_concat. exists l.
  rewrite <- !list_elem_of_In. split; [by eapply list_elem_of_lookup_2|done].
Qed.

Lemma elem_of_app_left {A} (x : A) l l' : x ∈ l -> x ∈ l ++ l'.
Proof. intros. apply elem_of_app. by left. Qed.

Lemma elem_of_app_right {A} (x : A) l l' : x ∈ l' -> x ∈ l ++ l'.
Proof. intros. apply elem_of_app. by right. Qed.
#[export] Hint Resolve elem_of_app_left elem_of_app_right elem_of_concat_lookup : lz.

(** Writing back the value a list already has. *)
Lemma insert_back {A} (l : list A) n x y :
  l !! n = Some x -> <[n := x]> (<[n := y]> l) = l.
Proof. intros Hl. by rewrite list_insert_insert_eq, list_insert_id. Qed.

(** Distinct components of a duplicate-free concatenation are disjoint. *)
Lemma NoDup_concat_disj {A} (P : list (list A)) i j l l' x :
  NoDup (concat P) -> i <> j -> P !! i = Some l -> P !! j = Some l' ->
  x ∈ l -> x ∈ l' -> False.
Proof.
  revert i j. induction P as [|q P IH]; intros i j Hnd Hne Hi Hj Hx Hx'; [done|].
  cbn in Hnd. apply NoDup_app in Hnd as (_ & Hd & Hnd).
  destruct i as [|i], j as [|j]; cbn in *; simplify_eq.
  - eapply Hd; [exact Hx|]. by eapply elem_of_concat_lookup.
  - eapply Hd; [exact Hx'|]. by eapply elem_of_concat_lookup.
  - eapply (IH i j); eauto.
Qed.
