(* ===== verification/Common.v ===== *)
(** * common.h and the generated lz_config.h

    The build-time constants (the defaults of CMakeLists.txt for a Linux
    x86_64 target, substituted into lz_config.h.in) and the bit-arithmetic
    macros of src/internal/common.h, with the arithmetic facts the other
    files use about them. *)

From S2P Require Import Prelude.

(** ** lz_config.h *)
Definition LZ_CACHE_LINE_SIZE : Z := 64.
Definition LZ_PAGE_SIZE : Z := 4096.
Definition LZ_HUGE_PAGE_SIZE : Z := 2097152.
Definition LZ_MAX_NUMA_NODES : Z := 16.
Definition LZ_VMM_MAX_CACHED_CHUNKS : Z := 32.
Definition LZ_CHUNK_SHIFT : Z := 21.
Definition LZ_BATCH_MAX_SIZE : Z := 64.
Definition LZ_MAX_TELEMETRY_SLOTS : Z := 4096.
Definition LZ_MAX_SLAB_OBJ_SIZE : Z := 32768.

(** ** Bit arithmetic *)

(** [LZ_IS_POWER_OF_TWO(x)] on a [size_t]. *)
Definition LZ_IS_POWER_OF_TWO (x : Z) : bool :=
  negb (x =? 0) && (x .& u64 (x - 1) =? 0).

(** [LZ_ALIGN_UP(size, align)] on 64-bit operands. *)
Definition LZ_ALIGN_UP (size align : Z) : Z :=
  u64 (size + (align - 1)) .& lnot64 (align - 1).

(** [LZ_ALIGN_DOWN(size, align)] on 64-bit operands. *)
Definition LZ_ALIGN_DOWN (size align : Z) : Z := size .& lnot64 (align - 1).

(** ** Facts *)

Lemma LZ_ALIGN_UP_wrap size k :
  0 <= k <= 64 ->
  LZ_ALIGN_UP size (2 ^ k) = u64 (size + (2 ^ k - 1)) / 2 ^ k * 2 ^ k.
Proof. intros. apply land_lnot64_mask; auto with lz. Qed.


(** Below the overflow point the macro is the least multiple above. *)
Lemma LZ_ALIGN_UP_spec size k :
  0 <= k <= 64 -> 0 <= size -> size + (2 ^ k - 1) < 2 ^ 64 ->
  LZ_ALIGN_UP size (2 ^ k) mod 2 ^ k = 0 /\
  size <= LZ_ALIGN_UP size (2 ^ k) < size + 2 ^ k.
Proof.
  intros Hk H0 H1. pose proof (pow2_pos k ltac:(lia)).
  rewrite LZ_ALIGN_UP_wrap by done.
  rewrite u64_small by lia. split; [apply Z.mod_mul; lia|].
  pose proof (Z.div_mod (size + (2 ^ k - 1)) (2 ^ k) ltac:(lia)).
  pose proof (Z.mod_pos_bound (size + (2 ^ k - 1)) (2 ^ k) ltac:(lia)). nia.
Qed.

(** It is the least such multiple. *)
Lemma LZ_ALIGN_UP_least size k b :
  0 <= k <= 64 -> 0 <= size <= b -> size + (2 ^ k - 1) < 2 ^ 64 -> b mod 2 ^ k = 0 ->
  LZ_ALIGN_UP size (2 ^ k) <= b.
Proof.
  intros Hk Hb Hw Hm. destruct (LZ_ALIGN_UP_spec size k) as [Ha Hr]; [lia..|].
  pose proof (pow2_pos k ltac:(lia)) as Hp. set (z := 2 ^ k) in *. set (u := LZ_ALIGN_UP size z) in *.
  clearbody u z. clear Hk. apply Z.div_exact in Ha, Hm; [|lia..].
  assert (u / z < b / z + 1); [|nia]. apply (Z.mul_lt_mono_pos_l z); lia.
Qed.

Lemma LZ_ALIGN_UP_id size k :
  0 <= k <= 64 -> 0 <= size -> size + (2 ^ k - 1) < 2 ^ 64 ->
  size mod 2 ^ k = 0 -> LZ_ALIGN_UP size (2 ^ k) = size.
Proof.
  intros Hk H0 H1 Hm. pose proof (pow2_pos k ltac:(lia)).
  rewrite LZ_ALIGN_UP_wrap, u64_small by lia.
  apply Z.mod_divide in Hm as [q ->]; [|lia].
  rewrite Z.div_add_l, (Z.div_small (2 ^ k - 1)) by lia. lia.
Qed.

(** The test recognises exactly the powers of two of the type. *)
Lemma LZ_IS_POWER_OF_TWO_spec x :
  0 <= x < 2 ^ 64 ->
  LZ_IS_POWER_OF_TWO x = true <-> exists k, 0 <= k < 64 /\ x = 2 ^ k.
Proof.
  intros Hx. unfold LZ_IS_POWER_OF_TWO.
  rewrite andb_true_iff, negb_true_iff, Z.eqb_neq, Z.eqb_eq. split.
  - intros [H0 Hl]. rewrite u64_small in Hl by lia.
    pose proof (Z.log2_spec x ltac:(lia)) as [Hlo Hhi].
    exists (Z.log2 x). split.
    + split; [apply Z.log2_nonneg|]. apply Z.log2_lt_pow2; lia.
    + (* x and x - 1 share the top bit unless x is that bit alone *)
      destruct (Z.eq_dec x (2 ^ Z.log2 x)) as [|Hne]; [done|exfalso].
      pose proof (Z.log2_nonneg x).
      assert (Hx1 : Z.log2 (x - 1) = Z.log2 x).
      { apply Z.log2_unique; [done|]. rewrite Z.pow_succ_r in * by done. lia. }
      assert (Z.testbit (x .& (x - 1)) (Z.log2 x) = true) as Hb.
      { rewrite Z.land_spec, Z.bit_log2 by lia. simpl.
        rewrite <- Hx1. apply Z.bit_log2. lia. }
      rewrite Hl, Z.bits_0 in Hb. done.
  - intros (k & Hk & ->). pose proof (pow2_pos k ltac:(lia)).
    split; [lia|]. rewrite u64_small by lia.
    rewrite land_pow2_mask by lia. apply Z.mod_same. lia.
Qed.
