(* ===== verification/Sizes.v ===== *)
(** * sizes.h: the size classes

    The two closed-form translations of src/internal/sizes.h between byte
    sizes and size-class indices, at the widths of the C types. *)

From S2P Require Import Prelude Common.

(** ** Operations *)

Definition LZ_MIN_ALLOC_SIZE : Z := 16.
Definition LZ_SMALL_LINEAR_MAX : Z := 128.
Definition LZ_MAX_SIZE_CLASSES : Z := 88.

(** [__builtin_clzll], defined on a non-zero 64-bit operand. *)
Definition builtin_clzll (x : Z) : Z := 63 - Z.log2 x.

Definition lz_fls (x : Z) : Z :=
  if x =? 0 then 0 else u32 (63 - builtin_clzll x).

Definition lz_size_to_class (size : Z) : Z :=
  if size <=? LZ_MIN_ALLOC_SIZE then 0
  else
    let s := u64 (size - 1) in
    if s <? LZ_SMALL_LINEAR_MAX then u32 (s >>. 4)
    else
      let msb := lz_fls s in
      let shift := u32 (msb - 2) in
      let base := u32 (u32 (msb - 7) <<. 2) in
      let offset := u32 ((s >>. shift) .& 3) in
      u32 (8 + base + offset).

Definition lz_class_to_size (class_idx : Z) : Z :=
  if class_idx <? 8 then u32 (u32 (class_idx + 1) <<. 4)
  else
    let base_idx := u32 (class_idx - 8) in
    let group := base_idx >>. 2 in
    let shift := u32 (group + 5) in
    let offset := base_idx .& 3 in
    u64 (u32 (5 + offset) <<. shift).

(** ** Closed forms without wrap-around *)

(** The largest request for which the class arithmetic stays in range. *)
Definition class_size_limit : Z := 2 ^ 63.

Lemma lz_fls_log2 x : 0 < x < 2 ^ 64 -> lz_fls x = Z.log2 x.
Proof.
  intros Hx. unfold lz_fls, builtin_clzll. zfalse (x =? 0).
  pose proof (Z.log2_nonneg x).
  assert (Z.log2 x < 64) by (apply Z.log2_lt_pow2; lia).
  rewrite u32_small; lia.
Qed.

Lemma size_to_class_linear size :
  0 < size <= 128 -> lz_size_to_class size = (size - 1) / 16.
Proof.
  intros Hs. unfold lz_size_to_class, LZ_MIN_ALLOC_SIZE, LZ_SMALL_LINEAR_MAX.
  destruct (Z.leb_spec size 16); [dlia|].
  rewrite u64_small by lia. ztrue (size - 1 <? 128).
  rewrite Z.shiftr_div_pow2, u32_small by dlia. done.
Qed.

(** The position of a large size: its leading three bits [q] and the number
    [sh] of bits below them. *)
Lemma log_position size :
  128 < size <= class_size_limit ->
  let sh := Z.log2 (size - 1) - 2 in
  let q := (size - 1) / 2 ^ sh in
  5 <= sh <= 60 /\ 4 <= q < 8 /\ q * 2 ^ sh <= size - 1 < (q + 1) * 2 ^ sh.
Proof.
  intros Hs sh q. unfold class_size_limit in Hs.
  pose proof (Z.log2_spec (size - 1) ltac:(lia)) as [Hlo Hhi].
  assert (Z.log2 (size - 1) < 63) by (apply Z.log2_lt_pow2; lia).
  assert (7 <= Z.log2 (size - 1)) by (apply Z.log2_le_pow2; lia).
  replace (Z.log2 (size - 1)) with (sh + 2) in Hlo, Hhi by lia.
  rewrite <- Z.add_succ_r in Hhi. rewrite !pow2_split in * by lia.
  pose proof (pow2_pos sh ltac:(lia)).
  pose proof (Z.div_mod (size - 1) (2 ^ sh) ltac:(lia)).
  pose proof (Z.mod_pos_bound (size - 1) (2 ^ sh) ltac:(lia)).
  repeat split; unfold q; nia.
Qed.

Lemma size_to_class_log size :
  128 < size <= class_size_limit ->
  let sh := Z.log2 (size - 1) - 2 in
  lz_size_to_class size = 8 + 4 * (sh - 5) + ((size - 1) / 2 ^ sh - 4).
Proof.
  intros Hs sh. destruct (log_position size Hs) as (Hsh & Hq & _). fold sh in Hsh, Hq.
  unfold class_size_limit in Hs.
  unfold lz_size_to_class, LZ_MIN_ALLOC_SIZE, LZ_SMALL_LINEAR_MAX.
  zfalse (size <=? 16). rewrite u64_small by lia. zfalse (size - 1 <? 128).
  rewrite lz_fls_log2 by lia. cbv zeta.
  replace (Z.log2 (size - 1)) with (sh + 2) by lia.
  replace (sh + 2 - 2) with sh by lia.
  rewrite (u32_small sh), (u32_small (sh + 2 - 7)) by lia.
  rewrite Z.shiftr_div_pow2, Z.shiftl_mul_pow2 by lia.
  change 3 with (2 ^ 2 - 1). rewrite land_pow2_mask by lia.
  set (q := (size - 1) / 2 ^ sh) in *. clearbody q sh.
  assert (q mod 2 ^ 2 = q - 4) as -> by dlia.
  rewrite (u32_small (q - 4)), (u32_small (_ * 2 ^ 2)), u32_small; lia.
Qed.

Lemma class_to_size_linear c : 0 <= c < 8 -> lz_class_to_size c = 16 * (c + 1).
Proof.
  intros Hc. unfold lz_class_to_size. ztrue (c <? 8).
  rewrite Z.shiftl_mul_pow2, (u32_small (c + 1)), u32_small; lia.
Qed.

Lemma class_to_size_log g o :
  0 <= g <= 55 -> 0 <= o <= 3 ->
  lz_class_to_size (8 + 4 * g + o) = (5 + o) * 2 ^ (g + 5).
Proof.
  intros Hg Ho. unfold lz_class_to_size. zfalse (8 + 4 * g + o <? 8).
  rewrite (u32_small (8 + 4 * g + o - 8)) by lia.
  rewrite Z.shiftr_div_pow2 by lia.
  change 3 with (2 ^ 2 - 1). rewrite land_pow2_mask by lia. cbv zeta.
  replace (8 + 4 * g + o - 8) with (o + g * 2 ^ 2) by lia.
  rewrite Z.div_add, Z.mod_add, Z.div_small, Z.mod_small by lia.
  rewrite !u32_small, Z.shiftl_mul_pow2 by lia.
  rewrite u64_small; [done|]. rewrite Z.add_0_l.
  assert (2 ^ (g + 5) <= 2 ^ 60) by (apply Z.pow_le_mono_r; lia).
  pose proof (pow2_pos (g + 5) ltac:(lia)). nia.
Qed.

(** Every class index decomposes as a group and an offset. *)
Lemma class_split c :
  8 <= c <= 231 -> exists g o, 0 <= g <= 55 /\ 0 <= o <= 3 /\ c = 8 + 4 * g + o.
Proof. intros. exists ((c - 8) / 4), ((c - 8) mod 4). dlia. Qed.

Lemma class_to_size_bounds c :
  0 <= c <= 231 -> 16 <= lz_class_to_size c <= class_size_limit.
Proof.
  intros Hc. unfold class_size_limit.
  destruct (Z.ltb_spec c 8); [rewrite class_to_size_linear by lia; lia|].
  destruct (class_split c) as (g & o & Hg & Ho & ->); [lia|].
  rewrite class_to_size_log by done.
  assert (2 ^ 5 <= 2 ^ (g + 5) <= 2 ^ 60) by (split; apply Z.pow_le_mono_r; lia).
  nia.
Qed.

(** A large request, in group/offset form. *)
Lemma size_to_class_pos size :
  128 < size <= class_size_limit ->
  exists g o, 0 <= g <= 55 /\ 0 <= o <= 3 /\
    lz_size_to_class size = 8 + 4 * g + o /\
    (4 + o) * 2 ^ (g + 5) <= size - 1 < (5 + o) * 2 ^ (g + 5).
Proof.
  intros Hs. pose proof (size_to_class_log size Hs) as Hc.
  destruct (log_position size Hs) as (Hsh & Hq & Hr). cbv zeta in *.
  set (sh := Z.log2 (size - 1) - 2) in *.
  exists (sh - 5), ((size - 1) / 2 ^ sh - 4).
  replace (sh - 5 + 5) with sh by lia.
  replace (4 + ((size - 1) / 2 ^ sh - 4)) with ((size - 1) / 2 ^ sh) by lia.
  replace (5 + ((size - 1) / 2 ^ sh - 4)) with ((size - 1) / 2 ^ sh + 1) by lia.
  repeat split; lia.
Qed.

(** Two positions compare lexicographically by group and offset. *)
Lemma log_group_order g o g' o' s :
  0 <= g -> 0 <= g' -> 0 <= o <= 3 -> 0 <= o' <= 3 ->
  (4 + o) * 2 ^ (g + 5) <= s < (5 + o) * 2 ^ (g + 5) ->
  s < (5 + o') * 2 ^ (g' + 5) <-> 4 * g + o <= 4 * g' + o'.
Proof.
  intros Hg Hg' Ho Ho' Hs.
  pose proof (pow2_pos (g + 5) ltac:(lia)). pose proof (pow2_pos (g' + 5) ltac:(lia)).
  assert (g < g' \/ g = g' \/ g' < g) as [Hlt|[->|Hlt]] by lia.
  - assert (2 * 2 ^ (g + 5) <= 2 ^ (g' + 5)).
    { rewrite <- Z.pow_succ_r by lia. apply Z.pow_le_mono_r; lia. }
    split; [lia|nia].
  - split; nia.
  - assert (2 * 2 ^ (g' + 5) <= 2 ^ (g + 5)).
    { rewrite <- Z.pow_succ_r by lia. apply Z.pow_le_mono_r; lia. }
    split; [nia|lia].
Qed.

Lemma class_to_size_large_lower c : 8 <= c <= 231 -> 160 <= lz_class_to_size c.
Proof.
  intros (g & o & Hg & Ho & ->)%class_split. rewrite class_to_size_log by done.
  assert (2 ^ 5 <= 2 ^ (g + 5)) by (apply Z.pow_le_mono_r; lia). nia.
Qed.

Lemma size_to_class_large_lower size :
  128 < size <= class_size_limit -> 8 <= lz_size_to_class size <= 231.
Proof. intros (g & o & Hg & Ho & -> & _)%size_to_class_pos. lia. Qed.

(** A class is large enough for a request exactly when it is at or above the
    class the request is mapped to. *)
Lemma size_class_adjoint size c :
  0 <= size <= class_size_limit -> 0 <= c <= 231 ->
  (size <= lz_class_to_size c <-> lz_size_to_class size <= c).
Proof.
  intros Hs Hc.
  destruct (Z.leb_spec size 0).
  { assert (size = 0) as -> by lia. change (lz_size_to_class 0) with 0.
    destruct (Z.ltb_spec c 8); [rewrite class_to_size_linear by lia; lia|].
    pose proof (class_to_size_large_lower c). lia. }
  destruct (Z.leb_spec size 128), (Z.ltb_spec c 8).
  - rewrite size_to_class_linear, class_to_size_linear by lia. dlia.
  - pose proof (class_to_size_large_lower c).
    rewrite size_to_class_linear by lia. dlia.
  - pose proof (size_to_class_large_lower size).
    rewrite class_to_size_linear by lia. lia.
  - destruct (class_split c) as (g' & o' & Hg' & Ho' & ->); [lia|].
    destruct (size_to_class_pos size) as (g & o & Hg & Ho & -> & Hr); [lia|].
    rewrite class_to_size_log by done.
    pose proof (log_group_order g o g' o' (size - 1)). lia.
Qed.

(** ** Theorems *)

(** The fitting half of the connection, used by the allocation paths. *)
Lemma size_class_fits size :
  0 <= size <= class_size_limit ->
  0 <= lz_size_to_class size <= 231 /\ size <= lz_class_to_size (lz_size_to_class size).
Proof.
  intros Hs.
  assert (0 <= lz_size_to_class size <= 231) as Hc.
  { destruct (Z.leb_spec size 0); [assert (size = 0) as -> by lia; done|].
    destruct (Z.leb_spec size 128); [rewrite size_to_class_linear by lia; dlia|].
    pose proof (size_to_class_large_lower size). lia. }
  split; [done|].
  destruct (Z.leb_spec size 0); [assert (size = 0) as -> by lia; done|].
  destruct (Z.leb_spec size 128).
  - rewrite size_to_class_linear by lia.
    rewrite class_to_size_linear by dlia. dlia.
  - destruct (size_to_class_pos size) as (g & o & Hg & Ho & -> & Hr); [lia|].
    rewrite class_to_size_log by done. lia.
Qed.

(** The block size of a class is mapped back to that class. *)
Lemma class_to_size_inverse c :
  0 <= c <= 231 -> lz_size_to_class (lz_class_to_size c) = c.
Proof.
  intros Hc. destruct (Z.ltb_spec c 8).
  - rewrite class_to_size_linear, size_to_class_linear by lia. dlia.
  - destruct (class_split c) as (g & o & Hg & Ho & ->); [lia|].
    rewrite class_to_size_log by done.
    assert (2 ^ 5 <= 2 ^ (g + 5)) by (apply Z.pow_le_mono_r; lia).
    assert (2 ^ (g + 5) <= 2 ^ 60) by (apply Z.pow_le_mono_r; lia).
    destruct (size_to_class_pos ((5 + o) * 2 ^ (g + 5)))
      as (g' & o' & Hg' & Ho' & -> & Hr); [unfold class_size_limit; nia|].
    pose proof (log_group_order g' o' g o ((5 + o) * 2 ^ (g + 5) - 1)
      ltac:(lia) ltac:(lia) ltac:(lia) ltac:(lia) Hr).
    pose proof (log_group_order g o g' o' ((5 + o) * 2 ^ (g + 5) - 1)
      ltac:(lia) ltac:(lia) ltac:(lia) ltac:(lia) ltac:(nia)). lia.
Qed.

(** C30. Best fit: the class a request is mapped to is large enough for it, and
    every smaller class is too small. *)
Theorem size_to_class_best_fit size :
  0 <= size <= class_size_limit ->
  let c := lz_size_to_class size in
  0 <= c <= 231 /\ size <= lz_class_to_size c /\
  (forall c', 0 <= c' < c -> lz_class_to_size c' < size).
Proof.
  intros Hs c. destruct (size_class_fits size Hs) as [Hc Hf]. fold c in Hc, Hf.
  repeat split; [lia..|]. intros c' Hc'.
  pose proof (size_class_adjoint size c' Hs ltac:(lia)). lia.
Qed.

Lemma size_to_class_best_fit_witness :
  let c := lz_size_to_class 5000 in
  0 <= c <= 231 /\ 5000 <= lz_class_to_size c /\
  (forall c', 0 <= c' < c -> lz_class_to_size c' < 5000).
Proof. apply size_to_class_best_fit. unfold class_size_limit. lia. Defined.

(** The translations are inverse on classes and strictly ordered: the block
    size of a class is mapped back to that class, and distinct classes have
    distinct block sizes in the order of their indices. *)
Theorem class_size_roundtrip c c' :
  0 <= c <= 231 -> 0 <= c' <= 231 ->
  lz_size_to_class (lz_class_to_size c) = c /\
  (c < c' <-> lz_class_to_size c < lz_class_to_size c').
Proof.
  intros Hc Hc'. split; [by apply class_to_size_inverse|].
  pose proof (class_to_size_bounds c' Hc').
  pose proof (size_class_adjoint (lz_class_to_size c') c ltac:(lia) Hc) as Ha.
  rewrite class_to_size_inverse in Ha by done. lia.
Qed.

Lemma class_size_roundtrip_witness :
  lz_size_to_class (lz_class_to_size 39) = 39 /\
  (39 < 40 <-> lz_class_to_size 39 < lz_class_to_size 40).
Proof. apply class_size_roundtrip; lia. Defined.

(** The requests the slab engine serves use the first forty classes. *)
Lemma slab_class_bound size :
  0 <= size <= LZ_MAX_SLAB_OBJ_SIZE -> 0 <= lz_size_to_class size <= 39.
Proof.
  intros Hs. unfold LZ_MAX_SLAB_OBJ_SIZE in Hs.
  destruct (size_class_fits size) as [Hb _]; [unfold class_size_limit; lia|].
  split; [lia|]. apply size_class_adjoint; unfold class_size_limit; [lia..|].
  change (lz_class_to_size 39) with 32768. lia.
Qed.

(** Block sizes grow with the class index. *)
Lemma class_to_size_mono c c' :
  0 <= c <= c' -> c' <= 231 -> lz_class_to_size c <= lz_class_to_size c'.
Proof.
  intros Hc Hc'. pose proof (class_to_size_bounds c ltac:(lia)) as Hb.
  apply size_class_adjoint; [lia..|]. rewrite class_to_size_inverse; lia.
Qed.

(** Every block size is a multiple of 16. *)
Lemma class_size_mult16 c : 0 <= c <= 231 -> lz_class_to_size c mod 16 = 0.
Proof.
  intros Hc. destruct (Z.ltb_spec c 8).
  { rewrite class_to_size_linear, Z.mul_comm by lia. by apply Z.mod_mul. }
  destruct (class_split c) as (g & o & Hg & Ho & ->); [lia|].
  rewrite class_to_size_log by done.
  apply (mod_pow2_weaken _ 4 (g + 5)); [lia|]. apply Z.mod_mul.
  pose proof (pow2_pos (g + 5)). lia.
Qed.

(** A request the router sends to the slab engine ([size <= 32 KiB])
    selects a bin inside the 88-entry table of the thread-local heap, and the
    block it receives is between the request and 32 KiB, never smaller than
    the 16 bytes an intrusive free-list node needs, and a multiple of 16. *)
Theorem slab_request_class size :
  0 <= size <= LZ_MAX_SLAB_OBJ_SIZE ->
  let c := lz_size_to_class size in
  0 <= c < LZ_MAX_SIZE_CLASSES /\
  size <= lz_class_to_size c /\
  LZ_MIN_ALLOC_SIZE <= lz_class_to_size c <= LZ_MAX_SLAB_OBJ_SIZE /\
  lz_class_to_size c mod 16 = 0.
Proof.
  intros Hs c. pose proof (slab_class_bound size Hs) as Hc. fold c in Hc.
  unfold LZ_MAX_SIZE_CLASSES, LZ_MIN_ALLOC_SIZE, LZ_MAX_SLAB_OBJ_SIZE in *.
  pose proof (class_to_size_mono 0 c ltac:(lia) ltac:(lia)).
  pose proof (class_to_size_mono c 39 ltac:(lia) ltac:(lia)).
  change (lz_class_to_size 0) with 16 in *. change (lz_class_to_size 39) with 32768 in *.
  destruct (size_class_fits size) as [_ Hf]; [unfold class_size_limit; lia|].
  fold c in Hf. clearbody c. repeat split; try lia. apply class_size_mult16. lia.
Qed.

Lemma slab_request_class_witness :
  let c := lz_size_to_class 20000 in
  0 <= c < LZ_MAX_SIZE_CLASSES /\ 20000 <= lz_class_to_size c /\
  LZ_MIN_ALLOC_SIZE <= lz_class_to_size c <= LZ_MAX_SLAB_OBJ_SIZE /\
  lz_class_to_size c mod 16 = 0.
Proof. apply slab_request_class. unfold LZ_MAX_SLAB_OBJ_SIZE. lia. Defined.

(** Internal fragmentation: a request above 128 bytes wastes less than a
    quarter of its own size, and a smaller one less than 16 bytes. *)
Theorem size_class_waste size :
  0 < size <= class_size_limit ->
  let waste := lz_class_to_size (lz_size_to_class size) - size in
  0 <= waste /\ (if size <=? 128 then waste < 16 else 4 * waste < size).
Proof.
  intros Hs waste. destruct (size_class_fits size) as [_ Hf]; [lia|].
  split; [lia|]. unfold waste. destruct (Z.leb_spec size 128).
  - rewrite size_to_class_linear, class_to_size_linear by dlia. dlia.
  - destruct (size_to_class_pos size) as (g & o & Hg & Ho & -> & Hr); [lia|].
    rewrite class_to_size_log by done. pose proof (pow2_pos (g + 5)). nia.
Qed.

Lemma size_class_waste_witness :
  let waste := lz_class_to_size (lz_size_to_class 1025) - 1025 in
  0 <= waste /\ (if 1025 <=? 128 then waste < 16 else 4 * waste < 1025).
Proof. apply size_class_waste. unfold class_size_limit. lia. Defined.

(** A request that is a positive multiple of an alignment up to a cache
    line is served by a class whose block size is again a multiple of that
    alignment: blocks packed from a 64-byte aligned base keep it. *)
Lemma size_class_alignment size k :
  0 <= k <= 6 -> 0 < size <= class_size_limit -> size mod 2 ^ k = 0 ->
  lz_class_to_size (lz_size_to_class size) mod 2 ^ k = 0.
Proof.
  intros Hk Hs Hm. destruct (Z.leb_spec size 128).
  - rewrite size_to_class_linear, class_to_size_linear by dlia.
    destruct (Z.leb_spec k 4).
    + apply (mod_pow2_weaken _ k 4); [lia|]. dlia.
    + assert (size mod 16 = 0) by (apply (mod_pow2_weaken _ 4 k); lia).
      replace (16 * ((size - 1) / 16 + 1)) with size by dlia. done.
  - destruct (size_to_class_pos size) as (g & o & Hg & Ho & -> & Hr); [lia|].
    rewrite class_to_size_log by done. pose proof (pow2_pos (g + 5)).
    destruct (Z.leb_spec k (g + 5)).
    + apply (mod_pow2_weaken _ k (g + 5)); [lia|]. apply Z.mod_mul. lia.
    + (* only k = 6 in the first group: the request is itself a class size *)
      assert (g = 0) as -> by lia. assert (k = 6) as -> by lia.
      change (2 ^ (0 + 5)) with 32 in *.
      replace ((5 + o) * 32) with size by dlia. done.
Qed.
