(* ===== verification/Machine.v ===== *)
(** * The machine: data, state, errors and the environment

    The C structures of the program as records, the whole mutable state of a
    process, and the effects of the code: explicit state passing with hard
    stops (an invalid access, a trap, a lock that can no longer be acquired).
    The operating system and the logging submodule are the fields of a class:
    every definition that calls them takes an instance. *)

From S2P Require Import Prelude Common.

(** ** Structures *)

(** src/core/chunk.h, `lz_chunk_header_t`: the 64-byte metadata line at the
    start of every chunk (the padding bytes are not represented). *)
Record lz_chunk_header_t := mk_chunk {
  chunk_next : Z;
  owning_tlh : Z;
  magic : Z;
  canary : Z;
  node_id : Z;
  checksum : Z;
  chunk_type : Z;
}.

(** src/engines/slab.h, `lz_slab_t`. *)
Record lz_slab_t := mk_slab {
  slab_next : Z;
  slab_prev : Z;
  memory_base : Z;
  memory_end : Z;
  bump_ptr : Z;
  free_list_head : Z;
  size_class : Z;
  block_size : Z;
  max_objects : Z;
  used_objects : Z;
}.

(** src/engines/span.h, `lz_span_t`: the bitmap is a list of 64-bit words
    (bit set = page free) and the length table a list of 16-bit counts. *)
Record lz_span_t := mk_span {
  span_next : Z;
  span_prev : Z;
  free_bitmap : list Z;
  used_pages : Z;
  alloc_size_pages : list Z;
}.

(** What the bytes after the chunk header hold: nothing yet, a slab, a span,
    or the two size words of a directly mapped object. *)
Inductive chunk_body :=
  | BZero
  | BSlab (slab : lz_slab_t)
  | BSpan (span : lz_span_t)
  | BDirect (total_bytes size : Z).

(** src/tlh/tlh.h, `lz_bin_t`. *)
Record lz_bin_t := mk_bin {
  current_slab : Z;
  partial_list : Z;
  full_list : Z;
}.

(** src/tlh/tlh.h, `lz_batch_t`. *)
Record lz_batch_t := mk_batch {
  target_tlh : Z;
  batch_head : Z;
  batch_tail : Z;
  batch_count : Z;
}.

(** src/tlh/tlh.h, `lz_tlh_t`. *)
Record lz_tlh_t := mk_tlh {
  bins : list lz_bin_t;
  active_spans : Z;
  remote_free_head : Z;
  outgoing_batch : lz_batch_t;
  thread_id : Z;
  is_zombie : Z;
  local_bytes_alloc_batch : Z;
  local_bytes_free_batch : Z;
  bytes_allocated : Z;
  next_zombie : Z;
  stat_slot : Z;
}.

(** src/internal/telemetry.h, `lz_stat_counters_t`. *)
Record lz_stat_counters_t := mk_stat {
  stat_bytes_requested : Z;
  stat_bytes_allocated : Z;
  stat_active_objects : Z;
  stat_events : Z;
}.

(** src/internal/topology.h, `lz_numa_pool_t`. *)
Record lz_numa_pool_t := mk_pool {
  free_chunks : Z;
  available_count : Z;
}.

(** The state of the process: the kernel's view of the address space, the
    typed memory, and the static variables of every source file. *)
Record state := mk_state {
  st_clock : nat;  (* number of calls made to the environment *)
  st_mapped : list (Z * Z);  (* mapped address ranges [lo, hi) *)
  st_refused : list (nat * Z);  (* calls of mmap that failed: tick and length, last first *)
  h_bytes : gmap Z Z;  (* payload bytes (absent = 0) *)
  h_chunks : gmap Z lz_chunk_header_t;  (* chunk headers by address (absent = zeroed) *)
  h_bodies : gmap Z chunk_body;  (* what follows the header line, by address *)
  h_leaves : gmap Z (gmap Z Z);  (* radix-tree leaves by address *)
  h_tlhs : gmap Z lz_tlh_t;  (* thread-local heaps by address *)
  h_stats : gmap Z lz_stat_counters_t;  (* telemetry slots by address *)
  g_rtree_root : gmap Z Z;  (* rtree.c (absent = NULL) *)
  g_numa_node_count : Z;  (* topology.c *)
  g_numa_pools : list lz_numa_pool_t;  (* topology.c *)
  g_pool_locks : list bool;  (* vmm.c *)
  g_global_pool_lock : bool;  (* vmm.c *)
  g_global_free_chunks : Z;  (* vmm.c *)
  g_lz_global_secret : Z;  (* security.c *)
  g_telemetry_matrix : Z;  (* telemetry.c *)
  g_shm_name : list Z;  (* telemetry.c, the bytes before the NUL *)
  tls_tlh_ptr : gmap Z Z;  (* lzmalloc.c, by thread (absent = NULL) *)
  g_thread_counter : Z;  (* lzmalloc.c *)
  g_zombie_tlhs : Z;  (* lzmalloc.c *)
  g_zombie_lock : bool;  (* lzmalloc.c *)
  g_base_offset : Z;  (* posix_hooks.c *)
  g_lz_ready : Z;  (* posix_hooks.c *)
  h_base_sizes : gmap Z Z;  (* posix_hooks.c, exact_size by header address *)
}.

(** ** Field updates *)

Definition set_chunk_next (v : Z) (c : lz_chunk_header_t) : lz_chunk_header_t :=
  mk_chunk v (owning_tlh c) (magic c) (canary c) (node_id c) (checksum c)
    (chunk_type c).
Definition set_owning_tlh (v : Z) (c : lz_chunk_header_t) : lz_chunk_header_t :=
  mk_chunk (chunk_next c) v (magic c) (canary c) (node_id c) (checksum c)
    (chunk_type c).
Definition set_magic (v : Z) (c : lz_chunk_header_t) : lz_chunk_header_t :=
  mk_chunk (chunk_next c) (owning_tlh c) v (canary c) (node_id c) (checksum
    c) (chunk_type c).
Definition set_canary (v : Z) (c : lz_chunk_header_t) : lz_chunk_header_t :=
  mk_chunk (chunk_next c) (owning_tlh c) (magic c) v (node_id c) (checksum
    c) (chunk_type c).
Definition set_node_id (v : Z) (c : lz_chunk_header_t) : lz_chunk_header_t :=
  mk_chunk (chunk_next c) (owning_tlh c) (magic c) (canary c) v (checksum c)
    (chunk_type c).
Definition set_checksum (v : Z) (c : lz_chunk_header_t) : lz_chunk_header_t :=
  mk_chunk (chunk_next c) (owning_tlh c) (magic c) (canary c) (node_id c) v
    (chunk_type c).
Definition set_chunk_type (v : Z) (c : lz_chunk_header_t) : lz_chunk_header_t :=
  mk_chunk (chunk_next c) (owning_tlh c) (magic c) (canary c) (node_id c)
    (checksum c) v.

Definition set_slab_next (v : Z) (b : lz_slab_t) : lz_slab_t :=
  mk_slab v (slab_prev b) (memory_base b) (memory_end b) (bump_ptr b)
    (free_list_head b) (size_class b) (block_size b) (max_objects b)
    (used_objects b).
Definition set_slab_prev (v : Z) (b : lz_slab_t) : lz_slab_t :=
  mk_slab (slab_next b) v (memory_base b) (memory_end b) (bump_ptr b)
    (free_list_head b) (size_class b) (block_size b) (max_objects b)
    (used_objects b).
Definition set_bump_ptr (v : Z) (b : lz_slab_t) : lz_slab_t :=
  mk_slab (slab_next b) (slab_prev b) (memory_base b) (memory_end b) v
    (free_list_head b) (size_class b) (block_size b) (max_objects b)
    (used_objects b).
Definition set_free_list_head (v : Z) (b : lz_slab_t) : lz_slab_t :=
  mk_slab (slab_next b) (slab_prev b) (memory_base b) (memory_end b)
    (bump_ptr b) v (size_class b) (block_size b) (max_objects b)
    (used_objects b).
Definition set_used_objects (v : Z) (b : lz_slab_t) : lz_slab_t :=
  mk_slab (slab_next b) (slab_prev b) (memory_base b) (memory_end b)
    (bump_ptr b) (free_list_head b) (size_class b) (block_size b)
    (max_objects b) v.

Definition set_span_next (v : Z) (p : lz_span_t) : lz_span_t :=
  mk_span v (span_prev p) (free_bitmap p) (used_pages p) (alloc_size_pages
    p).
Definition set_span_prev (v : Z) (p : lz_span_t) : lz_span_t :=
  mk_span (span_next p) v (free_bitmap p) (used_pages p) (alloc_size_pages
    p).
Definition set_free_bitmap (v : list Z) (p : lz_span_t) : lz_span_t :=
  mk_span (span_next p) (span_prev p) v (used_pages p) (alloc_size_pages p).
Definition set_used_pages (v : Z) (p : lz_span_t) : lz_span_t :=
  mk_span (span_next p) (span_prev p) (free_bitmap p) v (alloc_size_pages
    p).
Definition set_alloc_size_pages (v : list Z) (p : lz_span_t) : lz_span_t :=
  mk_span (span_next p) (span_prev p) (free_bitmap p) (used_pages p) v.

Definition set_current_slab (v : Z) (b : lz_bin_t) : lz_bin_t :=
  mk_bin v (partial_list b) (full_list b).
Definition set_partial_list (v : Z) (b : lz_bin_t) : lz_bin_t :=
  mk_bin (current_slab b) v (full_list b).
Definition set_full_list (v : Z) (b : lz_bin_t) : lz_bin_t :=
  mk_bin (current_slab b) (partial_list b) v.

Definition set_target_tlh (v : Z) (b : lz_batch_t) : lz_batch_t :=
  mk_batch v (batch_head b) (batch_tail b) (batch_count b).

Definition set_bins (v : list lz_bin_t) (t : lz_tlh_t) : lz_tlh_t :=
  mk_tlh v (active_spans t) (remote_free_head t) (outgoing_batch t)
    (thread_id t) (is_zombie t) (local_bytes_alloc_batch t)
    (local_bytes_free_batch t) (bytes_allocated t) (next_zombie t)
    (stat_slot t).
Definition set_active_spans (v : Z) (t : lz_tlh_t) : lz_tlh_t :=
  mk_tlh (bins t) v (remote_free_head t) (outgoing_batch t) (thread_id t)
    (is_zombie t) (local_bytes_alloc_batch t) (local_bytes_free_batch t)
    (bytes_allocated t) (next_zombie t) (stat_slot t).
Definition set_remote_free_head (v : Z) (t : lz_tlh_t) : lz_tlh_t :=
  mk_tlh (bins t) (active_spans t) v (outgoing_batch t) (thread_id t)
    (is_zombie t) (local_bytes_alloc_batch t) (local_bytes_free_batch t)
    (bytes_allocated t) (next_zombie t) (stat_slot t).
Definition set_outgoing_batch (v : lz_batch_t) (t : lz_tlh_t) : lz_tlh_t :=
  mk_tlh (bins t) (active_spans t) (remote_free_head t) v (thread_id t)
    (is_zombie t) (local_bytes_alloc_batch t) (local_bytes_free_batch t)
    (bytes_allocated t) (next_zombie t) (stat_slot t).
Definition set_thread_id (v : Z) (t : lz_tlh_t) : lz_tlh_t :=
  mk_tlh (bins t) (active_spans t) (remote_free_head t) (outgoing_batch t) v
    (is_zombie t) (local_bytes_alloc_batch t) (local_bytes_free_batch t)
    (bytes_allocated t) (next_zombie t) (stat_slot t).
Definition set_is_zombie (v : Z) (t : lz_tlh_t) : lz_tlh_t :=
  mk_tlh (bins t) (active_spans t) (remote_free_head t) (outgoing_batch t)
    (thread_id t) v (local_bytes_alloc_batch t) (local_bytes_free_batch t)
    (bytes_allocated t) (next_zombie t) (stat_slot t).
Definition set_local_bytes_alloc_batch (v : Z) (t : lz_tlh_t) : lz_tlh_t :=
  mk_tlh (bins t) (active_spans t) (remote_free_head t) (outgoing_batch t)
    (thread_id t) (is_zombie t) v (local_bytes_free_batch t)
    (bytes_allocated t) (next_zombie t) (stat_slot t).
Definition set_local_bytes_free_batch (v : Z) (t : lz_tlh_t) : lz_tlh_t :=
  mk_tlh (bins t) (active_spans t) (remote_free_head t) (outgoing_batch t)
    (thread_id t) (is_zombie t) (local_bytes_alloc_batch t) v
    (bytes_allocated t) (next_zombie t) (stat_slot t).
Definition set_bytes_allocated (v : Z) (t : lz_tlh_t) : lz_tlh_t :=
  mk_tlh (bins t) (active_spans t) (remote_free_head t) (outgoing_batch t)
    (thread_id t) (is_zombie t) (local_bytes_alloc_batch t)
    (local_bytes_free_batch t) v (next_zombie t) (stat_slot t).
Definition set_next_zombie (v : Z) (t : lz_tlh_t) : lz_tlh_t :=
  mk_tlh (bins t) (active_spans t) (remote_free_head t) (outgoing_batch t)
    (thread_id t) (is_zombie t) (local_bytes_alloc_batch t)
    (local_bytes_free_batch t) (bytes_allocated t) v (stat_slot t).
Definition set_stat_slot (v : Z) (t : lz_tlh_t) : lz_tlh_t :=
  mk_tlh (bins t) (active_spans t) (remote_free_head t) (outgoing_batch t)
    (thread_id t) (is_zombie t) (local_bytes_alloc_batch t)
    (local_bytes_free_batch t) (bytes_allocated t) (next_zombie t) v.

Definition set_stat_bytes_allocated (v : Z) (c : lz_stat_counters_t) : lz_stat_counters_t :=
  mk_stat (stat_bytes_requested c) v (stat_active_objects c) (stat_events
    c).

Definition set_free_chunks (v : Z) (p : lz_numa_pool_t) : lz_numa_pool_t :=
  mk_pool v (available_count p).
Definition set_available_count (v : Z) (p : lz_numa_pool_t) : lz_numa_pool_t :=
  mk_pool (free_chunks p) v.

Definition set_st_clock (v : nat) (s : state) : state :=
  mk_state v (st_mapped s) (st_refused s) (h_bytes s) (h_chunks s) (h_bodies s) (h_leaves
    s) (h_tlhs s) (h_stats s) (g_rtree_root s) (g_numa_node_count s)
    (g_numa_pools s) (g_pool_locks s) (g_global_pool_lock s)
    (g_global_free_chunks s) (g_lz_global_secret s) (g_telemetry_matrix s)
    (g_shm_name s) (tls_tlh_ptr s) (g_thread_counter s) (g_zombie_tlhs s)
    (g_zombie_lock s) (g_base_offset s) (g_lz_ready s) (h_base_sizes s).
Definition set_st_mapped (v : list (Z * Z)) (s : state) : state :=
  mk_state (st_clock s) v (st_refused s) (h_bytes s) (h_chunks s) (h_bodies s) (h_leaves s)
    (h_tlhs s) (h_stats s) (g_rtree_root s) (g_numa_node_count s)
    (g_numa_pools s) (g_pool_locks s) (g_global_pool_lock s)
    (g_global_free_chunks s) (g_lz_global_secret s) (g_telemetry_matrix s)
    (g_shm_name s) (tls_tlh_ptr s) (g_thread_counter s) (g_zombie_tlhs s)
    (g_zombie_lock s) (g_base_offset s) (g_lz_ready s) (h_base_sizes s).
Definition set_st_refused (v : list (nat * Z)) (s : state) : state :=
  mk_state (st_clock s) (st_mapped s) v (h_bytes s) (h_chunks s) (h_bodies s)
    (h_leaves s) (h_tlhs s) (h_stats s) (g_rtree_root s) (g_numa_node_count s)
    (g_numa_pools s) (g_pool_locks s) (g_global_pool_lock s)
    (g_global_free_chunks s) (g_lz_global_secret s) (g_telemetry_matrix s)
    (g_shm_name s) (tls_tlh_ptr s) (g_thread_counter s) (g_zombie_tlhs s)
    (g_zombie_lock s) (g_base_offset s) (g_lz_ready s) (h_base_sizes s).
Definition set_h_bytes (v : gmap Z Z) (s : state) : state :=
  mk_state (st_clock s) (st_mapped s) (st_refused s) v (h_chunks s) (h_bodies s) (h_leaves
    s) (h_tlhs s) (h_stats s) (g_rtree_root s) (g_numa_node_count s)
    (g_numa_pools s) (g_pool_locks s) (g_global_pool_lock s)
    (g_global_free_chunks s) (g_lz_global_secret s) (g_telemetry_matrix s)
    (g_shm_name s) (tls_tlh_ptr s) (g_thread_counter s) (g_zombie_tlhs s)
    (g_zombie_lock s) (g_base_offset s) (g_lz_ready s) (h_base_sizes s).
Definition set_h_chunks (v : gmap Z lz_chunk_header_t) (s : state) : state :=
  mk_state (st_clock s) (st_mapped s) (st_refused s) (h_bytes s) v (h_bodies s) (h_leaves
    s) (h_tlhs s) (h_stats s) (g_rtree_root s) (g_numa_node_count s)
    (g_numa_pools s) (g_pool_locks s) (g_global_pool_lock s)
    (g_global_free_chunks s) (g_lz_global_secret s) (g_telemetry_matrix s)
    (g_shm_name s) (tls_tlh_ptr s) (g_thread_counter s) (g_zombie_tlhs s)
    (g_zombie_lock s) (g_base_offset s) (g_lz_ready s) (h_base_sizes s).
Definition set_h_bodies (v : gmap Z chunk_body) (s : state) : state :=
  mk_state (st_clock s) (st_mapped s) (st_refused s) (h_bytes s) (h_chunks s) v (h_leaves
    s) (h_tlhs s) (h_stats s) (g_rtree_root s) (g_numa_node_count s)
    (g_numa_pools s) (g_pool_locks s) (g_global_pool_lock s)
    (g_global_free_chunks s) (g_lz_global_secret s) (g_telemetry_matrix s)
    (g_shm_name s) (tls_tlh_ptr s) (g_thread_counter s) (g_zombie_tlhs s)
    (g_zombie_lock s) (g_base_offset s) (g_lz_ready s) (h_base_sizes s).
Definition set_h_leaves (v : gmap Z (gmap Z Z)) (s : state) : state :=
  mk_state (st_clock s) (st_mapped s) (st_refused s) (h_bytes s) (h_chunks s) (h_bodies s)
    v (h_tlhs s) (h_stats s) (g_rtree_root s) (g_numa_node_count s)
    (g_numa_pools s) (g_pool_locks s) (g_global_pool_lock s)
    (g_global_free_chunks s) (g_lz_global_secret s) (g_telemetry_matrix s)
    (g_shm_name s) (tls_tlh_ptr s) (g_thread_counter s) (g_zombie_tlhs s)
    (g_zombie_lock s) (g_base_offset s) (g_lz_ready s) (h_base_sizes s).
Definition set_h_tlhs (v : gmap Z lz_tlh_t) (s : state) : state :=
  mk_state (st_clock s) (st_mapped s) (st_refused s) (h_bytes s) (h_chunks s) (h_bodies s)
    (h_leaves s) v (h_stats s) (g_rtree_root s) (g_numa_node_count s)
    (g_numa_pools s) (g_pool_locks s) (g_global_pool_lock s)
    (g_global_free_chunks s) (g_lz_global_secret s) (g_telemetry_matrix s)
    (g_shm_name s) (tls_tlh_ptr s) (g_thread_counter s) (g_zombie_tlhs s)
    (g_zombie_lock s) (g_base_offset s) (g_lz_ready s) (h_base_sizes s).
Definition set_h_stats (v : gmap Z lz_stat_counters_t) (s : state) : state :=
  mk_state (st_clock s) (st_mapped s) (st_refused s) (h_bytes s) (h_chunks s) (h_bodies s)
    (h_leaves s) (h_tlhs s) v (g_rtree_root s) (g_numa_node_count s)
    (g_numa_pools s) (g_pool_locks s) (g_global_pool_lock s)
    (g_global_free_chunks s) (g_lz_global_secret s) (g_telemetry_matrix s)
    (g_shm_name s) (tls_tlh_ptr s) (g_thread_counter s) (g_zombie_tlhs s)
    (g_zombie_lock s) (g_base_offset s) (g_lz_ready s) (h_base_sizes s).
Definition set_g_rtree_root (v : gmap Z Z) (s : state) : state :=
  mk_state (st_clock s) (st_mapped s) (st_refused s) (h_bytes s) (h_chunks s) (h_bodies s)
    (h_leaves s) (h_tlhs s) (h_stats s) v (g_numa_node_count s)
    (g_numa_pools s) (g_pool_locks s) (g_global_pool_lock s)
    (g_global_free_chunks s) (g_lz_global_secret s) (g_telemetry_matrix s)
    (g_shm_name s) (tls_tlh_ptr s) (g_thread_counter s) (g_zombie_tlhs s)
    (g_zombie_lock s) (g_base_offset s) (g_lz_ready s) (h_base_sizes s).
Definition set_g_numa_node_count (v : Z) (s : state) : state :=
  mk_state (st_clock s) (st_mapped s) (st_refused s) (h_bytes s) (h_chunks s) (h_bodies s)
    (h_leaves s) (h_tlhs s) (h_stats s) (g_rtree_root s) v (g_numa_pools s)
    (g_pool_locks s) (g_global_pool_lock s) (g_global_free_chunks s)
    (g_lz_global_secret s) (g_telemetry_matrix s) (g_shm_name s)
    (tls_tlh_ptr s) (g_thread_counter s) (g_zombie_tlhs s) (g_zombie_lock s)
    (g_base_offset s) (g_lz_ready s) (h_base_sizes s).
Definition set_g_numa_pools (v : list lz_numa_pool_t) (s : state) : state :=
  mk_state (st_clock s) (st_mapped s) (st_refused s) (h_bytes s) (h_chunks s) (h_bodies s)
    (h_leaves s) (h_tlhs s) (h_stats s) (g_rtree_root s) (g_numa_node_count
    s) v (g_pool_locks s) (g_global_pool_lock s) (g_global_free_chunks s)
    (g_lz_global_secret s) (g_telemetry_matrix s) (g_shm_name s)
    (tls_tlh_ptr s) (g_thread_counter s) (g_zombie_tlhs s) (g_zombie_lock s)
    (g_base_offset s) (g_lz_ready s) (h_base_sizes s).
Definition set_g_pool_locks (v : list bool) (s : state) : state :=
  mk_state (st_clock s) (st_mapped s) (st_refused s) (h_bytes s) (h_chunks s) (h_bodies s)
    (h_leaves s) (h_tlhs s) (h_stats s) (g_rtree_root s) (g_numa_node_count
    s) (g_numa_pools s) v (g_global_pool_lock s) (g_global_free_chunks s)
    (g_lz_global_secret s) (g_telemetry_matrix s) (g_shm_name s)
    (tls_tlh_ptr s) (g_thread_counter s) (g_zombie_tlhs s) (g_zombie_lock s)
    (g_base_offset s) (g_lz_ready s) (h_base_sizes s).
Definition set_g_global_pool_lock (v : bool) (s : state) : state :=
  mk_state (st_clock s) (st_mapped s) (st_refused s) (h_bytes s) (h_chunks s) (h_bodies s)
    (h_leaves s) (h_tlhs s) (h_stats s) (g_rtree_root s) (g_numa_node_count
    s) (g_numa_pools s) (g_pool_locks s) v (g_global_free_chunks s)
    (g_lz_global_secret s) (g_telemetry_matrix s) (g_shm_name s)
    (tls_tlh_ptr s) (g_thread_counter s) (g_zombie_tlhs s) (g_zombie_lock s)
    (g_base_offset s) (g_lz_ready s) (h_base_sizes s).
Definition set_g_global_free_chunks (v : Z) (s : state) : state :=
  mk_state (st_clock s) (st_mapped s) (st_refused s) (h_bytes s) (h_chunks s) (h_bodies s)
    (h_leaves s) (h_tlhs s) (h_stats s) (g_rtree_root s) (g_numa_node_count
    s) (g_numa_pools s) (g_pool_locks s) (g_global_pool_lock s) v
    (g_lz_global_secret s) (g_telemetry_matrix s) (g_shm_name s)
    (tls_tlh_ptr s) (g_thread_counter s) (g_zombie_tlhs s) (g_zombie_lock s)
    (g_base_offset s) (g_lz_ready s) (h_base_sizes s).
Definition set_g_lz_global_secret (v : Z) (s : state) : state :=
  mk_state (st_clock s) (st_mapped s) (st_refused s) (h_bytes s) (h_chunks s) (h_bodies s)
    (h_leaves s) (h_tlhs s) (h_stats s) (g_rtree_root s) (g_numa_node_count
    s) (g_numa_pools s) (g_pool_locks s) (g_global_pool_lock s)
    (g_global_free_chunks s) v (g_telemetry_matrix s) (g_shm_name s)
    (tls_tlh_ptr s) (g_thread_counter s) (g_zombie_tlhs s) (g_zombie_lock s)
    (g_base_offset s) (g_lz_ready s) (h_base_sizes s).
Definition set_g_telemetry_matrix (v : Z) (s : state) : state :=
  mk_state (st_clock s) (st_mapped s) (st_refused s) (h_bytes s) (h_chunks s) (h_bodies s)
    (h_leaves s) (h_tlhs s) (h_stats s) (g_rtree_root s) (g_numa_node_count
    s) (g_numa_pools s) (g_pool_locks s) (g_global_pool_lock s)
    (g_global_free_chunks s) (g_lz_global_secret s) v (g_shm_name s)
    (tls_tlh_ptr s) (g_thread_counter s) (g_zombie_tlhs s) (g_zombie_lock s)
    (g_base_offset s) (g_lz_ready s) (h_base_sizes s).
Definition set_g_shm_name (v : list Z) (s : state) : state :=
  mk_state (st_clock s) (st_mapped s) (st_refused s) (h_bytes s) (h_chunks s) (h_bodies s)
    (h_leaves s) (h_tlhs s) (h_stats s) (g_rtree_root s) (g_numa_node_count
    s) (g_numa_pools s) (g_pool_locks s) (g_global_pool_lock s)
    (g_global_free_chunks s) (g_lz_global_secret s) (g_telemetry_matrix s) v
    (tls_tlh_ptr s) (g_thread_counter s) (g_zombie_tlhs s) (g_zombie_lock s)
    (g_base_offset s) (g_lz_ready s) (h_base_sizes s).
Definition set_tls_tlh_ptr (v : gmap Z Z) (s : state) : state :=
  mk_state (st_clock s) (st_mapped s) (st_refused s) (h_bytes s) (h_chunks s) (h_bodies s)
    (h_leaves s) (h_tlhs s) (h_stats s) (g_rtree_root s) (g_numa_node_count
    s) (g_numa_pools s) (g_pool_locks s) (g_global_pool_lock s)
    (g_global_free_chunks s) (g_lz_global_secret s) (g_telemetry_matrix s)
    (g_shm_name s) v (g_thread_counter s) (g_zombie_tlhs s) (g_zombie_lock
    s) (g_base_offset s) (g_lz_ready s) (h_base_sizes s).
Definition set_g_thread_counter (v : Z) (s : state) : state :=
  mk_state (st_clock s) (st_mapped s) (st_refused s) (h_bytes s) (h_chunks s) (h_bodies s)
    (h_leaves s) (h_tlhs s) (h_stats s) (g_rtree_root s) (g_numa_node_count
    s) (g_numa_pools s) (g_pool_locks s) (g_global_pool_lock s)
    (g_global_free_chunks s) (g_lz_global_secret s) (g_telemetry_matrix s)
    (g_shm_name s) (tls_tlh_ptr s) v (g_zombie_tlhs s) (g_zombie_lock s)
    (g_base_offset s) (g_lz_ready s) (h_base_sizes s).
Definition set_g_zombie_tlhs (v : Z) (s : state) : state :=
  mk_state (st_clock s) (st_mapped s) (st_refused s) (h_bytes s) (h_chunks s) (h_bodies s)
    (h_leaves s) (h_tlhs s) (h_stats s) (g_rtree_root s) (g_numa_node_count
    s) (g_numa_pools s) (g_pool_locks s) (g_global_pool_lock s)
    (g_global_free_chunks s) (g_lz_global_secret s) (g_telemetry_matrix s)
    (g_shm_name s) (tls_tlh_ptr s) (g_thread_counter s) v (g_zombie_lock s)
    (g_base_offset s) (g_lz_ready s) (h_base_sizes s).
Definition set_g_zombie_lock (v : bool) (s : state) : state :=
  mk_state (st_clock s) (st_mapped s) (st_refused s) (h_bytes s) (h_chunks s) (h_bodies s)
    (h_leaves s) (h_tlhs s) (h_stats s) (g_rtree_root s) (g_numa_node_count
    s) (g_numa_pools s) (g_pool_locks s) (g_global_pool_lock s)
    (g_global_free_chunks s) (g_lz_global_secret s) (g_telemetry_matrix s)
    (g_shm_name s) (tls_tlh_ptr s) (g_thread_counter s) (g_zombie_tlhs s) v
    (g_base_offset s) (g_lz_ready s) (h_base_sizes s).
Definition set_g_base_offset (v : Z) (s : state) : state :=
  mk_state (st_clock s) (st_mapped s) (st_refused s) (h_bytes s) (h_chunks s) (h_bodies s)
    (h_leaves s) (h_tlhs s) (h_stats s) (g_rtree_root s) (g_numa_node_count
    s) (g_numa_pools s) (g_pool_locks s) (g_global_pool_lock s)
    (g_global_free_chunks s) (g_lz_global_secret s) (g_telemetry_matrix s)
    (g_shm_name s) (tls_tlh_ptr s) (g_thread_counter s) (g_zombie_tlhs s)
    (g_zombie_lock s) v (g_lz_ready s) (h_base_sizes s).
Definition set_g_lz_ready (v : Z) (s : state) : state :=
  mk_state (st_clock s) (st_mapped s) (st_refused s) (h_bytes s) (h_chunks s) (h_bodies s)
    (h_leaves s) (h_tlhs s) (h_stats s) (g_rtree_root s) (g_numa_node_count
    s) (g_numa_pools s) (g_pool_locks s) (g_global_pool_lock s)
    (g_global_free_chunks s) (g_lz_global_secret s) (g_telemetry_matrix s)
    (g_shm_name s) (tls_tlh_ptr s) (g_thread_counter s) (g_zombie_tlhs s)
    (g_zombie_lock s) (g_base_offset s) v (h_base_sizes s).
Definition set_h_base_sizes (v : gmap Z Z) (s : state) : state :=
  mk_state (st_clock s) (st_mapped s) (st_refused s) (h_bytes s) (h_chunks s) (h_bodies s)
    (h_leaves s) (h_tlhs s) (h_stats s) (g_rtree_root s) (g_numa_node_count
    s) (g_numa_pools s) (g_pool_locks s) (g_global_pool_lock s)
    (g_global_free_chunks s) (g_lz_global_secret s) (g_telemetry_matrix s)
    (g_shm_name s) (tls_tlh_ptr s) (g_thread_counter s) (g_zombie_tlhs s)
    (g_zombie_lock s) (g_base_offset s) (g_lz_ready s) v.

(** States with equal fields are equal. *)
Lemma state_ext s s' :
  st_clock s = st_clock s' ->
  st_mapped s = st_mapped s' ->
  st_refused s = st_refused s' ->
  h_bytes s = h_bytes s' ->
  h_chunks s = h_chunks s' ->
  h_bodies s = h_bodies s' ->
  h_leaves s = h_leaves s' ->
  h_tlhs s = h_tlhs s' ->
  h_stats s = h_stats s' ->
  g_rtree_root s = g_rtree_root s' ->
  g_numa_node_count s = g_numa_node_count s' ->
  g_numa_pools s = g_numa_pools s' ->
  g_pool_locks s = g_pool_locks s' ->
  g_global_pool_lock s = g_global_pool_lock s' ->
  g_global_free_chunks s = g_global_free_chunks s' ->
  g_lz_global_secret s = g_lz_global_secret s' ->
  g_telemetry_matrix s = g_telemetry_matrix s' ->
  g_shm_name s = g_shm_name s' ->
  tls_tlh_ptr s = tls_tlh_ptr s' ->
  g_thread_counter s = g_thread_counter s' ->
  g_zombie_tlhs s = g_zombie_tlhs s' ->
  g_zombie_lock s = g_zombie_lock s' ->
  g_base_offset s = g_base_offset s' ->
  g_lz_ready s = g_lz_ready s' ->
  h_base_sizes s = h_base_sizes s' ->
  s = s'.
Proof. destruct s, s'. cbn. intros. by subst. Qed.

(** ** Effects *)

(** Why a run stops before the function returns; the state is the one it
    stops in. *)
Inductive stop_reason :=
  | Segv        (* access outside the mapped memory or through a wrong pointer *)
  | Trap        (* __builtin_trap *)
  | Abort       (* the logger ends the process *)
  | Spin        (* a lock that no running code will release *)
  | NoFuel.     (* a loop bound of the model is too small *)

Inductive outcome (A : Type) :=
  | Done (a : A) (s : state)
  | Stop (r : stop_reason) (s : state).
Arguments Done {A} a s.
Arguments Stop {A} r s.

Definition M (A : Type) : Type := state -> outcome A.

#[export] Instance M_ret : MRet M := fun A a s => Done a s.
#[export] Instance M_bind : MBind M := fun A B f m s =>
  match m s with Done a s' => f a s' | Stop r s' => Stop r s' end.

Definition fetch {A} (f : state -> A) : M A := fun s => Done (f s) s.
Definition modify (f : state -> state) : M unit := fun s => Done tt (f s).
Definition stop {A} (r : stop_reason) : M A := fun s => Stop r s.

(** ** The environment

    System calls and the logger.  Each call receives the number of calls made
    so far, so an instance describes any sequence of answers. *)
Class Env := {
  (** mmap(NULL, len, ...): the address chosen for [len] bytes given the
      ranges in use, or [None] for MAP_FAILED *)
  sys_mmap : nat -> list (Z * Z) -> Z -> option Z;
  (** getcpu(&cpu, &node): the pair, or [None] when the call fails *)
  sys_getcpu : nat -> option (Z * Z);
  (** getrandom and read of /dev/urandom into an 8-byte buffer: the returned
      count and the buffer's new value, from its old value *)
  sys_getrandom : nat -> Z -> Z * Z;
  sys_open_urandom : nat -> Z;
  sys_read_urandom : nat -> Z -> Z * Z;
  sys_time : nat -> Z;
  sys_getpid : Z;
  (** address of the local variable used as an entropy source *)
  stack_var_addr : Z;
  (** sysconf(_SC_PAGESIZE) *)
  sys_pagesize : Z;
  (** the environment strings, [None] when [environ] is NULL *)
  environ : option (list string);
  (** shm_open, ftruncate of the telemetry file (-1 on error), and its mmap *)
  sys_shm_open : nat -> list Z -> Z;
  sys_ftruncate : nat -> Z -> Z -> Z;
  (** whether LZ_FATAL of the logging submodule returns to its caller *)
  lz_fatal_returns : bool;
  (** address of the static array g_base_heap *)
  g_base_heap : Z
}.

(** Bytes are rounded up to whole pages by the kernel. *)
Definition page_round (len : Z) : Z := (len + 4095) / 4096 * 4096.

(** [a] lies in one of the ranges. *)
Definition in_ranges (rs : list (Z * Z)) (a : Z) : bool :=
  existsb (fun '(lo, hi) => (lo <=? a) && (a <? hi)) rs.

(** The documented contracts: mmap without an address hint returns a
    page-aligned, non-null range of user space that overlaps no existing
    mapping, getcpu stores an [unsigned], and process ids are positive ints. *)
Class EnvLaws `{Env} := {
  mmap_fresh : forall k rs len a, sys_mmap k rs len = Some a ->
    0 < len /\ 0 < a /\ a mod 4096 = 0 /\ a + page_round len <= 2 ^ 47 /\
    forall x, a <= x < a + page_round len -> in_ranges rs x = false;
  getcpu_unsigned : forall k cpu node, sys_getcpu k = Some (cpu, node) -> 0 <= node;
  getpid_int : 0 < sys_getpid < 2 ^ 31
}.

Section machine.
Context `{Env}.

Definition tick : M nat := fun s => Done (st_clock s) (set_st_clock (S (st_clock s)) s).

(** LZ_FATAL(msg) *)
Definition LZ_FATAL (msg : string) : M unit :=
  if lz_fatal_returns then mret tt else stop Abort.

(** ** Address space *)

Definition clear_range {V} (lo hi : Z) (m : gmap Z V) : gmap Z V :=
  filter (fun kv => negb ((lo <=? kv.1) && (kv.1 <? hi)) = true) m.

(** Fresh anonymous pages read as zeroes. *)
Definition zero_range (lo hi : Z) (s : state) : state :=
  set_h_bytes (clear_range lo hi (h_bytes s))
    (set_h_chunks (clear_range lo hi (h_chunks s))
      (set_h_bodies (clear_range lo hi (h_bodies s)) s)).

(** mmap(NULL, len, PROT_READ | PROT_WRITE, MAP_PRIVATE | MAP_ANONYMOUS); a
    refusal is recorded with the tick of the call. *)
Definition mmap (len : Z) : M (option Z) :=
  k ← tick;
  rs ← fetch st_mapped;
  match sys_mmap k rs len with
  | None =>
      modify (fun s => set_st_refused ((k, len) :: st_refused s) s);;
      mret None
  | Some a =>
      modify (fun s =>
        zero_range a (a + page_round len)
          (set_st_mapped ((a, a + page_round len) :: st_mapped s) s));;
      mret (Some a)
  end.

Definition cut_range (lo hi : Z) (r : Z * Z) : list (Z * Z) :=
  filter (fun '(l, h) => (l <? h) = true)
    [(r.1, Z.min r.2 lo); (Z.max r.1 hi, r.2)].

(** munmap(a, len) *)
Definition munmap (a len : Z) : M unit :=
  _ ← tick;
  modify (fun s =>
    set_st_mapped (st_mapped s ≫= cut_range a (a + page_round len)) s).

Definition mapped (s : state) (a : Z) : bool := in_ranges (st_mapped s) a.

(** madvise(a, len, MADV_DONTNEED): the anonymous pages mapped there read as
    zeroes again.  MADV_HUGEPAGE has no effect on contents. *)
Definition madvise_dontneed (a len : Z) : M unit :=
  _ ← tick;
  modify (fun s => set_h_bytes
    (filter (fun kv => negb ((a <=? kv.1) && (kv.1 <? a + len) && mapped s kv.1) = true) (h_bytes s)) s).
Definition madvise_hugepage (a len : Z) : M unit := _ ← tick; mret tt.

(** ** Typed access *)

Definition check_mapped (a : Z) : M unit :=
  fun s => if mapped s a then Done tt s else Stop Segv s.

Definition zero_chunk : lz_chunk_header_t := mk_chunk 0 0 0 0 0 0 0.
Definition chunk_of (s : state) (a : Z) : lz_chunk_header_t :=
  default zero_chunk (h_chunks s !! a).
Definition chunk_at (a : Z) : M lz_chunk_header_t :=
  check_mapped a;; fetch (fun s => chunk_of s a).
Definition update_chunk (a : Z) (f : lz_chunk_header_t -> lz_chunk_header_t) : M unit :=
  check_mapped a;;
  modify (fun s => set_h_chunks (<[a := f (chunk_of s a)]> (h_chunks s)) s).

Definition body_of (s : state) (p : Z) : chunk_body := default BZero (h_bodies s !! p).
Definition store_body (p : Z) (b : chunk_body) : M unit :=
  check_mapped p;; modify (fun s => set_h_bodies (<[p := b]> (h_bodies s)) s).
Definition slab_at (p : Z) : M lz_slab_t :=
  check_mapped p;;
  b ← fetch (fun s => body_of s p);
  match b with BSlab sl => mret sl | _ => stop Segv end.
Definition update_slab (p : Z) (f : lz_slab_t -> lz_slab_t) : M unit :=
  sl ← slab_at p; store_body p (BSlab (f sl)).
Definition span_at (p : Z) : M lz_span_t :=
  check_mapped p;;
  b ← fetch (fun s => body_of s p);
  match b with BSpan sp => mret sp | _ => stop Segv end.
Definition update_span (p : Z) (f : lz_span_t -> lz_span_t) : M unit :=
  sp ← span_at p; store_body p (BSpan (f sp)).

Definition tlh_at (t : Z) : M lz_tlh_t :=
  o ← fetch (fun s => h_tlhs s !! t);
  match o with Some x => mret x | None => stop Segv end.
Definition update_tlh (t : Z) (f : lz_tlh_t -> lz_tlh_t) : M unit :=
  x ← tlh_at t; modify (fun s => set_h_tlhs (<[t := f x]> (h_tlhs s)) s).

(** 8-byte little-endian words of payload memory.  A word touches at most two
    pages, so it is mapped when its first and last bytes are. *)
Definition byte_of (s : state) (a : Z) : Z := default 0 (h_bytes s !! a).
Fixpoint le_bytes (m : gmap Z Z) (a : Z) (n : nat) : Z :=
  match n with
  | O => 0
  | S n => default 0 (m !! a) + 256 * le_bytes m (a + 1) n
  end.
Fixpoint set_le_bytes (m : gmap Z Z) (a v : Z) (n : nat) : gmap Z Z :=
  match n with
  | O => m
  | S n => <[a := v mod 256]> (set_le_bytes m (a + 1) (v / 256) n)
  end.
Definition load64 (a : Z) : M Z :=
  check_mapped a;; check_mapped (a + 7);; fetch (fun s => le_bytes (h_bytes s) a 8).
Definition store64 (a v : Z) : M unit :=
  check_mapped a;; check_mapped (a + 7);;
  modify (fun s => set_h_bytes (set_le_bytes (h_bytes s) a v 8) s).

(** [for (i = lo; i < lo + n; ++i) body] *)
Fixpoint for_loop (n : nat) (i : Z) (body : Z -> M unit) : M unit :=
  match n with
  | O => mret tt
  | S n => body i;; for_loop n (i + 1) body
  end.

End machine.
