(* ===== verification/Wp.v ===== *)
(** * Reasoning about runs

    A total weakest precondition for the effects of Machine.v ([wp m Q s]: the
    run of [m] from [s] returns and its result satisfies [Q]), its rules, and
    the facts about memory contents and address ranges that the components
    share. *)

From S2P Require Import Prelude Common Machine.

Definition wp {A} (m : M A) (Q : A -> state -> Prop) (s : state) : Prop :=
  match m s with Done a s' => Q a s' | Stop _ _ => False end.

(** ** Rules *)


Lemma wp_ret {A} (a : A) Q s : Q a s -> wp (mret a) Q s.
Proof. done. Qed.

Lemma wp_bind {A B} (m : M A) (f : A -> M B) Q s :
  wp m (fun a s' => wp (f a) Q s') s -> wp (m ≫= f) Q s.
Proof. unfold wp, mbind, M_bind. by destruct (m s). Qed.


(** Regroup two steps that a lemma describes together. *)
Lemma wp_assoc {A B C} (m1 : M A) (m2 : A -> M B) (k : B -> M C) Q s :
  wp ((m1 ≫= m2) ≫= k) Q s -> wp (m1 ≫= fun a => m2 a ≫= k) Q s.
Proof. unfold wp, mbind, M_bind. by destruct (m1 s). Qed.

Lemma wp_mono {A} (m : M A) (P Q : A -> state -> Prop) s :
  wp m P s -> (forall a s', P a s' -> Q a s') -> wp m Q s.
Proof. unfold wp. destruct (m s); naive_solver. Qed.

Lemma wp_fetch {A} (f : state -> A) Q s : Q (f s) s -> wp (fetch f) Q s.
Proof. done. Qed.

Lemma wp_modify f Q s : Q tt (f s) -> wp (modify f) Q s.
Proof. done. Qed.

Lemma wp_check_mapped a Q s : mapped s a = true -> Q tt s -> wp (check_mapped a) Q s.
Proof. unfold wp, check_mapped. by intros ->. Qed.

Lemma wp_tick Q s : Q (st_clock s) (set_st_clock (S (st_clock s)) s) -> wp tick Q s.
Proof. done. Qed.

(** One step of symbolic execution. *)
Ltac wp_step :=
  lazymatch goal with
  | |- wp (mbind _ _) _ _ => apply wp_bind
  | |- wp (mret _) _ _ => apply wp_ret
  | |- wp (fetch _) _ _ => apply wp_fetch
  | |- wp (modify _) _ _ => apply wp_modify
  | |- wp (check_mapped _) _ _ => apply wp_check_mapped; [try done|]
  | |- wp tick _ _ => apply wp_tick
  end; cbv beta.
Ltac wp_steps := repeat wp_step.

(** Runs that may also end in the trap of an exhausted system: [T] is what
    holds of the state the trap stops in. *)
Definition wpt {A} (T : state -> Prop) (m : M A) (Q : A -> state -> Prop) (s : state) : Prop :=
  match m s with Done a s' => Q a s' | Stop Trap s' => T s' | Stop _ _ => False end.

Lemma wpt_wp {A} T (m : M A) Q s : wp m Q s -> wpt T m Q s.
Proof. unfold wp, wpt. by destruct (m s). Qed.

Lemma wpt_bind {A B} T (m : M A) (f : A -> M B) Q s :
  wpt T m (fun a s' => wpt T (f a) Q s') s -> wpt T (m ≫= f) Q s.
Proof. unfold wpt, mbind, M_bind. by destruct (m s) as [|[]]. Qed.

Lemma wpt_mono {A} T (m : M A) (P Q : A -> state -> Prop) s :
  wpt T m P s -> (forall a s', P a s' -> Q a s') -> wpt T m Q s.
Proof. unfold wpt. destruct (m s) as [|[]]; naive_solver. Qed.

Lemma wpt_weaken {A} (T T' : state -> Prop) (m : M A) Q s :
  wpt T m Q s -> (forall s', T s' -> T' s') -> wpt T' m Q s.
Proof. unfold wpt. destruct (m s) as [|[]]; naive_solver. Qed.

Lemma wpt_trap {A} (T : state -> Prop) Q s : T s -> wpt T (stop (A := A) Trap) Q s.
Proof. done. Qed.

(** Equality of states built by field updates: compare the fields. *)
Ltac state_eq := apply state_ext; try reflexivity.

(** ** Typed access *)

Lemma wp_chunk_at a Q s :
  mapped s a = true -> Q (chunk_of s a) s -> wp (chunk_at a) Q s.
Proof. intros. unfold chunk_at. wp_steps. done. Qed.

Lemma wp_update_chunk a f Q s :
  mapped s a = true ->
  Q tt (set_h_chunks (<[a := f (chunk_of s a)]> (h_chunks s)) s) ->
  wp (update_chunk a f) Q s.
Proof. intros. unfold update_chunk. wp_steps. done. Qed.

Lemma wp_store_body p b Q s :
  mapped s p = true ->
  Q tt (set_h_bodies (<[p := b]> (h_bodies s)) s) -> wp (store_body p b) Q s.
Proof. intros. unfold store_body. wp_steps. done. Qed.

Lemma wp_slab_at p sl Q s :
  mapped s p = true -> body_of s p = BSlab sl -> Q sl s -> wp (slab_at p) Q s.
Proof. intros Hm Hb HQ. unfold slab_at. wp_steps. by rewrite Hb. Qed.

Lemma wp_update_slab p f sl Q s :
  mapped s p = true -> body_of s p = BSlab sl ->
  Q tt (set_h_bodies (<[p := BSlab (f sl)]> (h_bodies s)) s) ->
  wp (update_slab p f) Q s.
Proof.
  intros Hm Hb HQ. unfold update_slab. apply wp_bind.
  eapply wp_slab_at; [done..|]. by apply wp_store_body.
Qed.

Lemma wp_span_at p sp Q s :
  mapped s p = true -> body_of s p = BSpan sp -> Q sp s -> wp (span_at p) Q s.
Proof. intros Hm Hb HQ. unfold span_at. wp_steps. by rewrite Hb. Qed.

Lemma wp_update_span p f sp Q s :
  mapped s p = true -> body_of s p = BSpan sp ->
  Q tt (set_h_bodies (<[p := BSpan (f sp)]> (h_bodies s)) s) ->
  wp (update_span p f) Q s.
Proof.
  intros Hm Hb HQ. unfold update_span. apply wp_bind.
  eapply wp_span_at; [done..|]. by apply wp_store_body.
Qed.

Lemma wp_tlh_at t x Q s : h_tlhs s !! t = Some x -> Q x s -> wp (tlh_at t) Q s.
Proof. intros Ht HQ. unfold tlh_at. wp_steps. by rewrite Ht. Qed.

Lemma wp_update_tlh t f x Q s :
  h_tlhs s !! t = Some x ->
  Q tt (set_h_tlhs (<[t := f x]> (h_tlhs s)) s) -> wp (update_tlh t f) Q s.
Proof.
  intros Ht HQ. unfold update_tlh. apply wp_bind.
  eapply wp_tlh_at; [done|]. by wp_steps.
Qed.

Lemma wp_load64 a Q s :
  mapped s a = true -> mapped s (a + 7) = true -> Q (le_bytes (h_bytes s) a 8) s -> wp (load64 a) Q s.
Proof. intros. unfold load64. wp_steps. done. Qed.

Lemma wp_store64 a v Q s :
  mapped s a = true -> mapped s (a + 7) = true ->
  Q tt (set_h_bytes (set_le_bytes (h_bytes s) a v 8) s) -> wp (store64 a v) Q s.
Proof. intros. unfold store64. wp_steps. done. Qed.

(** Reading back headers and bodies after an update. *)
Lemma chunk_of_insert s a c a' :
  chunk_of (set_h_chunks (<[a := c]> (h_chunks s)) s) a' =
  if decide (a = a') then c else chunk_of s a'.
Proof.
  unfold chunk_of. simpl. rewrite lookup_insert. by destruct (decide (a = a')).
Qed.

Lemma body_of_insert s p b p' :
  body_of (set_h_bodies (<[p := b]> (h_bodies s)) s) p' =
  if decide (p = p') then b else body_of s p'.
Proof.
  unfold body_of. simpl. rewrite lookup_insert. by destruct (decide (p = p')).
Qed.

(** [s'] differs from [s] at most in the header [c]. *)
Definition only_chunk (c : Z) (s s' : state) : Prop :=
  s' = set_h_chunks (h_chunks s') s /\ forall x, x <> c -> chunk_of s' x = chunk_of s x.

Lemma only_chunk_refl c s : only_chunk c s s.
Proof. split; [by destruct s|done]. Qed.

Lemma wp_update_only c f Q s0 s :
  only_chunk c s0 s -> mapped s0 c = true ->
  (forall s', only_chunk c s0 s' -> chunk_of s' c = f (chunk_of s c) -> Q tt s') ->
  wp (update_chunk c f) Q s.
Proof.
  intros [Es Ex] Hm HQ. apply wp_update_chunk; [by rewrite Es|]. apply HQ.
  - split; [by rewrite Es|]. intros x Hx. rewrite chunk_of_insert, decide_False; auto.
  - by rewrite chunk_of_insert, decide_True.
Qed.

(** ** Words in byte memory *)


Lemma set_le_bytes_ne m a v n x :
  x < a \/ a + Z.of_nat n <= x -> set_le_bytes m a v n !! x = m !! x.
Proof.
  revert a v. induction n as [|n IH]; intros a v Hx; [done|]. cbn [set_le_bytes].
  rewrite lookup_insert_ne by lia. apply IH. lia.
Qed.

Lemma le_bytes_ext m m' a n :
  (forall x, a <= x < a + Z.of_nat n -> m !! x = m' !! x) ->
  le_bytes m a n = le_bytes m' a n.
Proof.
  revert a. induction n as [|n IH]; intros a Hx; [done|]. cbn [le_bytes].
  rewrite (Hx a) by lia. f_equal. f_equal. apply IH. intros. apply Hx. lia.
Qed.

Lemma le_bytes_set_eq m a v n :
  0 <= v < 256 ^ Z.of_nat n -> le_bytes (set_le_bytes m a v n) a n = v.
Proof.
  revert a v. induction n as [|n IH]; intros a v Hv.
  { change (256 ^ Z.of_nat 0) with 1 in Hv. cbn. lia. }
  rewrite Nat2Z.inj_succ, Z.pow_succ_r in Hv by lia. cbn [le_bytes set_le_bytes].
  rewrite lookup_insert_eq. cbn [default].
  rewrite (le_bytes_ext _ (set_le_bytes m (a + 1) (v / 256) n)).
  - rewrite IH; [|split; [apply Z.div_pos; lia|apply Z.div_lt_upper_bound; lia]].
    simpl. pose proof (Z.div_mod v 256). lia.
  - intros x Hx. by rewrite lookup_insert_ne by lia.
Qed.

Lemma le_bytes_set_ne m a v n a' n' :
  a + Z.of_nat n <= a' \/ a' + Z.of_nat n' <= a ->
  le_bytes (set_le_bytes m a v n) a' n' = le_bytes m a' n'.
Proof. intros. apply le_bytes_ext. intros. apply set_le_bytes_ne. lia. Qed.

(** Written bytes are present, and bytes that are present stay so. *)
Lemma set_le_bytes_some m a v n x :
  is_Some (m !! x) \/ a <= x < a + Z.of_nat n -> is_Some (set_le_bytes m a v n !! x).
Proof.
  revert a v. induction n as [|n IH]; intros a v Hx; [destruct Hx; [done|lia]|]. cbn [set_le_bytes].
  rewrite lookup_insert. case_decide; [done|]. apply IH. destruct Hx; [by left|right; lia].
Qed.

(** ** Address ranges *)

Lemma in_ranges_iff rs a :
  in_ranges rs a = true <-> exists lo hi, (lo, hi) ∈ rs /\ lo <= a < hi.
Proof.
  unfold in_ranges. rewrite existsb_exists. split.
  - intros ([lo hi] & Hin & Hb). exists lo, hi.
    rewrite list_elem_of_In. split; [done|]. lia.
  - intros (lo & hi & Hin & Hb). exists (lo, hi).
    rewrite <- list_elem_of_In. split; [done|]. lia.
Qed.

Lemma in_ranges_cut lo hi rs a :
  in_ranges (rs ≫= cut_range lo hi) a = in_ranges rs a && negb ((lo <=? a) && (a <? hi)).
Proof.
  induction rs as [|[l h] rs IH]; [done|].
  rewrite bind_cons. unfold in_ranges in *. rewrite existsb_app, IH.
  cbn [existsb]. rewrite andb_orb_distrib_l. f_equal.
  unfold cut_range. rewrite !filter_cons, filter_nil. cbn [fst snd].
  repeat case_decide; cbn [existsb]; lia.
Qed.

Lemma clear_range_lookup {V} lo hi (m : gmap Z V) k :
  clear_range lo hi m !! k = if (lo <=? k) && (k <? hi) then None else m !! k.
Proof.
  unfold clear_range. rewrite map_lookup_filter.
  destruct (m !! k) as [v|] eqn:E; cbn.
  - destruct ((lo <=? k) && (k <? hi)) eqn:Eb; case_guard; naive_solver.
  - by destruct (_ && _).
Qed.

(** Dropping the pages of a range touches nothing outside it. *)
Lemma drop_mapped_other (s : state) a len (m : gmap Z Z) x :
  ~ (a <= x < a + len) ->
  filter (fun kv => negb ((a <=? kv.1) && (kv.1 <? a + len) && mapped s kv.1) = true) m !! x = m !! x.
Proof.
  intros Hx. rewrite map_lookup_filter. destruct (m !! x) as [v|]; [|done]. cbn.
  rewrite option_guard_True; [done|]. cbn. lia.
Qed.

Lemma page_round_le len : len <= page_round len < len + 4096.
Proof. unfold page_round. dlia. Qed.

Lemma page_round_id len : len mod 4096 = 0 -> page_round len = len.
Proof. unfold page_round. intros. dlia. Qed.

(** ** Frames

    The static variables grouped by the component that owns them, and the
    growth of memory by a fresh mapping: everything that was mapped keeps its
    contents. *)
Definition rtree_part (s : state) := (h_leaves s, g_rtree_root s).
Definition vmm_part (s : state) :=
  (g_numa_node_count s, g_numa_pools s, g_pool_locks s, g_global_pool_lock s,
   g_global_free_chunks s).
Definition thread_part (s : state) :=
  (h_tlhs s, h_stats s, g_lz_global_secret s, g_telemetry_matrix s, g_shm_name s,
   tls_tlh_ptr s, g_thread_counter s, g_zombie_tlhs s, g_zombie_lock s,
   g_base_offset s, g_lz_ready s, h_base_sizes s).

(** The statics that belong to no heap. *)
Definition global_part (s : state) :=
  (g_lz_global_secret s, g_telemetry_matrix s, g_shm_name s,
   tls_tlh_ptr s, g_thread_counter s, g_zombie_tlhs s, g_zombie_lock s,
   g_base_offset s, g_lz_ready s, h_base_sizes s).

Lemma thread_global s s' : thread_part s' = thread_part s ->
  global_part s' = global_part s /\ h_tlhs s' = h_tlhs s /\ h_stats s' = h_stats s.
Proof.
  unfold thread_part, global_part. intros E. injection E as E1 E2 E3 E4 E5 E6 E7 E8 E9 E10 E11 E12.
  rewrite E1, E2, E3, E4, E5, E6, E7, E8, E9, E10, E11, E12. done.
Qed.

(** Refused mappings stay on record; [refused_since]: there is a new one. *)
Definition log_grows (s s' : state) : Prop := st_refused s `suffix_of` st_refused s'.
Definition refused_since (s s' : state) : Prop :=
  exists e l, st_refused s' = e :: l ++ st_refused s.

#[export] Instance log_grows_pre : PreOrder log_grows.
Proof. unfold log_grows. split; [by intros s|]. intros s1 s2 s3 H1 H2. by etrans. Qed.

Lemma log_grows_same s s' : st_refused s' = st_refused s -> log_grows s s'.
Proof. intros E. red. by rewrite E. Qed.
#[export] Hint Extern 0 (log_grows _ _) => exact (log_grows_same _ _ eq_refl) : core.

Lemma refused_since_grows s s' : refused_since s s' -> log_grows s s'.
Proof. intros (e & l & E). exists (e :: l). done. Qed.

Lemma refused_since_after s1 s2 s3 : log_grows s1 s2 -> refused_since s2 s3 -> refused_since s1 s3.
Proof. intros [l1 E1] (e & l2 & E2). exists e, (l2 ++ l1). by rewrite E2, E1, app_assoc. Qed.

Lemma refused_since_before s1 s2 s3 : refused_since s1 s2 -> log_grows s2 s3 -> refused_since s1 s3.
Proof.
  intros (e & l1 & E1) [l2 E2]. destruct l2 as [|e' l2].
  - exists e, l1. by rewrite E2, E1.
  - exists e', (l2 ++ e :: l1). rewrite E2, E1. cbn. by rewrite <- app_assoc.
Qed.

(** No refusal happens without a call. *)
Lemma refused_since_irrefl s : ~ refused_since s s.
Proof. intros (e & l & E). apply (f_equal length) in E. cbn in E. rewrite length_app in E. lia. Qed.

(** Leaves of the index are only added in memory that was not mapped, and
    refusals are only added to the log. *)
Record only_grows (s s' : state) : Prop := {
  og_leaves : forall i a x, g_rtree_root s' !! i = Some a -> a <= x < a + 2 ^ 17 -> mapped s x = true ->
    g_rtree_root s !! i = Some a;
  og_log : log_grows s s'
}.

Lemma only_grows_same s s' :
  g_rtree_root s' = g_rtree_root s -> st_refused s' = st_refused s -> only_grows s s'.
Proof. intros E El. split; [intros i a x; by rewrite E|by apply log_grows_same]. Qed.
#[export] Hint Extern 0 (only_grows _ _) => exact (only_grows_same _ _ eq_refl eq_refl) : core.

Lemma only_grows_trans s1 s2 s3 : (forall x, mapped s1 x = true -> mapped s2 x = true) ->
  only_grows s1 s2 -> only_grows s2 s3 -> only_grows s1 s3.
Proof. intros Hm [H12 L12] [H23 L23]. split; [eauto|by etrans]. Qed.

Record mem_ext (s s' : state) : Prop := {
  ext_mapped : forall a, mapped s a = true -> mapped s' a = true;
  ext_chunk : forall a, mapped s a = true -> chunk_of s' a = chunk_of s a;
  ext_body : forall a, mapped s a = true -> body_of s' a = body_of s a;
  ext_byte : forall a, mapped s a = true -> h_bytes s' !! a = h_bytes s !! a;
  ext_leaves : only_grows s s'
}.

#[export] Instance mem_ext_refl : Reflexive mem_ext.
Proof. by constructor. Qed.

#[export] Instance mem_ext_trans : Transitive mem_ext.
Proof.
  intros s1 s2 s3 [M1 C1 B1 D1 L1] [M2 C2 B2 D2 L2]. constructor.
  - eauto.
  - intros a Ha. rewrite C2; eauto.
  - intros a Ha. rewrite B2; eauto.
  - intros a Ha. rewrite D2; eauto.
  - by eapply only_grows_trans.
Qed.

(** Preservation of memory outside given sets of headers, bodies and bytes. *)
Record mem_frame (H B D : Z -> Prop) (s s' : state) : Prop := {
  frame_mapped : forall a, mapped s a = true -> mapped s' a = true;
  frame_chunk : forall a, mapped s a = true -> ~ H a -> chunk_of s' a = chunk_of s a;
  frame_body : forall a, mapped s a = true -> ~ B a -> body_of s' a = body_of s a;
  frame_byte : forall a, mapped s a = true -> ~ D a -> h_bytes s' !! a = h_bytes s !! a;
  frame_leaves : only_grows s s'
}.

Definition nowhere : Z -> Prop := fun _ => False.
Lemma not_nowhere a : ~ nowhere a.
Proof. intros []. Qed.
#[export] Hint Resolve not_nowhere : core.

Lemma mem_ext_frame H B D s s' : mem_ext s s' -> mem_frame H B D s s'.
Proof. intros [? ? ? ? ?]. constructor; auto. Qed.

Lemma mem_frame_trans (H B D : Z -> Prop) s1 s2 s3 :
  mem_frame H B D s1 s2 -> mem_frame H B D s2 s3 -> mem_frame H B D s1 s3.
Proof.
  intros [M1 C1 B1 D1 L1] [M2 C2 B2 D2 L2]. constructor; [auto|..].
  - intros. rewrite C2; auto.
  - intros. rewrite B2; auto.
  - intros. rewrite D2; auto.
  - by eapply only_grows_trans.
Qed.

Lemma mem_frame_weaken (H B D H' B' D' : Z -> Prop) s s' :
  (forall a, H a -> H' a) -> (forall a, B a -> B' a) -> (forall a, D a -> D' a) ->
  mem_frame H B D s s' -> mem_frame H' B' D' s s'.
Proof. intros HH HB HD [? ? ? ? ?]. constructor; auto. Qed.

(** Loops: an invariant indexed by the counter. *)
Lemma wp_for_loop (I : Z -> state -> Prop) body n i Q s :
  I i s ->
  (forall j s, i <= j < i + Z.of_nat n -> I j s -> wp (body j) (fun _ s' => I (j + 1) s') s) ->
  (forall s', I (i + Z.of_nat n) s' -> Q tt s') ->
  wp (for_loop n i body) Q s.
Proof.
  revert i s. induction n as [|n IH]; intros i s HI Hb HQ; cbn [for_loop].
  - apply HQ. by replace (i + Z.of_nat 0) with i by lia.
  - wp_step. eapply wp_mono; [apply Hb; [lia|done]|]. intros [] s' HI'.
    apply IH; [done|intros; apply Hb; [lia|done]|].
    intros s'' HI''. apply HQ. by replace (i + Z.of_nat (S n)) with (i + 1 + Z.of_nat n) by lia.
Qed.

Section mmap_rules.
Context `{EnvLaws}.

(** The state after a successful mmap of [len] bytes at [a]. *)
Definition mmap_state (s : state) (a len : Z) : state :=
  zero_range a (a + page_round len)
    (set_st_mapped ((a, a + page_round len) :: st_mapped s)
      (set_st_clock (S (st_clock s)) s)).

(** The state after a refused one. *)
Definition mmap_failed (s : state) (len : Z) : state :=
  set_st_refused ((st_clock s, len) :: st_refused s) (set_st_clock (S (st_clock s)) s).

Lemma mmap_failed_since s len : refused_since s (mmap_failed s len).
Proof. by exists (st_clock s, len), []. Qed.

Lemma mmap_failed_ext s len : mem_ext s (mmap_failed s len).
Proof. constructor; [done..|]. split; [done|]. apply refused_since_grows, mmap_failed_since. Qed.

Lemma wp_mmap len Q s :
  match sys_mmap (st_clock s) (st_mapped s) len with
  | None => Q None (mmap_failed s len)
  | Some a => Q (Some a) (mmap_state s a len)
  end -> wp (mmap len) Q s.
Proof.
  intros HQ. unfold mmap. wp_steps. cbn in *.
  destruct (sys_mmap _ _ _); wp_steps; done.
Qed.

Lemma wp_munmap a len Q s :
  Q tt (set_st_mapped (st_mapped s ≫= cut_range a (a + page_round len))
          (set_st_clock (S (st_clock s)) s)) ->
  wp (munmap a len) Q s.
Proof. intros HQ. unfold munmap. wp_steps. done. Qed.

Lemma mapped_mmap_state s a len x :
  mapped (mmap_state s a len) x =
  ((a <=? x) && (x <? a + page_round len)) || mapped s x.
Proof. done. Qed.

(** A successful mmap extends memory and yields a zeroed range. *)
Lemma mmap_state_ext s a len :
  sys_mmap (st_clock s) (st_mapped s) len = Some a -> mem_ext s (mmap_state s a len).
Proof.
  intros Ha. destruct (mmap_fresh _ _ _ _ Ha) as (_ & _ & _ & _ & Hf).
  assert (forall x, mapped s x = true ->
    (a <=? x) && (x <? a + page_round len) = false) as Hout.
  { intros x Hx. destruct (Z.leb_spec a x), (Z.ltb_spec x (a + page_round len)); try done.
    unfold mapped in Hx. rewrite Hf in Hx by lia. done. }
  constructor; [..|by apply only_grows_same]; intros x Hx; specialize (Hout x Hx).
  - rewrite mapped_mmap_state, Hx. apply orb_true_r.
  - unfold chunk_of. cbn. by rewrite clear_range_lookup, Hout.
  - unfold body_of. cbn. by rewrite clear_range_lookup, Hout.
  - cbn. by rewrite clear_range_lookup, Hout.
Qed.

Lemma mmap_state_zero s a len x :
  a <= x < a + page_round len ->
  let s' := mmap_state s a len in
  mapped s' x = true /\ chunk_of s' x = zero_chunk /\ body_of s' x = BZero /\
  h_bytes s' !! x = None.
Proof.
  intros Hx s'.
  assert ((a <=? x) && (x <? a + page_round len) = true) as Hin by lia.
  unfold s'. rewrite mapped_mmap_state, Hin. unfold chunk_of, body_of. cbn.
  by rewrite !clear_range_lookup, Hin.
Qed.

End mmap_rules.
