(* ===== verification/Dll.v ===== *)
(** * Doubly linked lists of slabs and spans

    Slabs hang off the bins of a thread-local heap and spans off its list of
    active spans, both as NULL-terminated doubly linked lists through the
    [next] and [prev] words of their metadata.  This file has the list
    predicate and what the two pointer surgeries of the code, push at the
    front and unlink, do to it. *)

From S2P Require Import Prelude Common Machine Wp.

(** The [next] and [prev] words of a node. *)
Definition body_links (b : chunk_body) : option (Z * Z) :=
  match b with
  | BSlab sl => Some (slab_next sl, slab_prev sl)
  | BSpan sp => Some (span_next sp, span_prev sp)
  | _ => None
  end.
Definition links (s : state) (p : Z) : option (Z * Z) := body_links (body_of s p).

(** [a] heads the list [l], whose first node points back to [prev]. *)
Fixpoint dll (lk : Z -> option (Z * Z)) (prev a : Z) (l : list Z) : Prop :=
  match l with
  | [] => a = NULL
  | p :: l => a = p /\ p <> NULL /\ exists next, lk p = Some (next, prev) /\ dll lk p next l
  end.

(** Overwriting one word of one node. *)
Definition lk_set_next (p v : Z) (lk : Z -> option (Z * Z)) (q : Z) : option (Z * Z) :=
  if decide (p = q) then (fun x => (v, x.2)) <$> lk q else lk q.
Definition lk_set_prev (p v : Z) (lk : Z -> option (Z * Z)) (q : Z) : option (Z * Z) :=
  if decide (p = q) then (fun x => (x.1, v)) <$> lk q else lk q.

Lemma dll_ext lk lk' prev a l :
  (forall p, p ∈ l -> lk' p = lk p) -> dll lk prev a l -> dll lk' prev a l.
Proof.
  revert prev a. induction l as [|p l IH]; intros prev a Hl; [done|].
  cbn. intros (-> & Hp & next & Hlk & Hd). split_and!; [done..|]. exists next.
  rewrite Hl by set_solver. split; [done|]. apply IH; [set_solver|done].
Qed.

Lemma dll_nil lk prev l : dll lk prev NULL l -> l = [].
Proof. destruct l; cbn; naive_solver. Qed.

Lemma dll_head lk prev a l : dll lk prev a l -> a <> NULL -> exists l', l = a :: l'.
Proof. destruct l; cbn; naive_solver. Qed.

Lemma dll_nonnull lk prev a l p : dll lk prev a l -> p ∈ l -> p <> NULL.
Proof.
  revert prev a. induction l as [|q l IH]; intros prev a Hd Hp; [set_solver|].
  destruct Hd as (-> & Hq & next & _ & Hd). apply elem_of_cons in Hp as [->|Hp]; [done|].
  by eapply IH.
Qed.


(** The words of the node between [l1] and [l2]. *)
Lemma dll_node lk prev a l1 p l2 :
  dll lk prev a (l1 ++ p :: l2) ->
  lk p = Some (default NULL (head l2), default prev (last l1)) /\
  dll lk p (default NULL (head l2)) l2.
Proof.
  revert prev a. induction l1 as [|q l1 IH]; intros prev a.
  - cbn. intros (_ & _ & next & Hlk & Hd).
    assert (default NULL (head l2) = next) as E.
    { destruct l2; cbn in *; [done|]. symmetry. apply Hd. }
    rewrite E. done.
  - cbn [app dll]. intros (_ & _ & next & _ & Hd). destruct (IH _ _ Hd) as [Hp Hd'].
    split; [|done]. rewrite Hp, last_cons. by destruct (last l1).
Qed.

(** Setting the back pointer of the first node. *)
Lemma dll_set_prev lk prev prev' a l :
  NoDup l -> dll lk prev a l ->
  dll (if a =? NULL then lk else lk_set_prev a prev' lk) prev' a l.
Proof.
  destruct l as [|p l]; cbn; [intros _ ->; done|].
  intros [Hn _]%NoDup_cons (-> & Hp & next & Hlk & Hd). zfalse (p =? NULL).
  split_and!; [done..|]. exists next. unfold lk_set_prev at 1. rewrite decide_True, Hlk by done.
  split; [done|]. eapply dll_ext; [|exact Hd]. intros q Hq. unfold lk_set_prev.
  rewrite decide_False; [done|]. by intros ->.
Qed.

(** Push at the front: the code sets the words of [p] and the back pointer of
    the old head. *)
Lemma dll_push lk lk' p a l :
  NoDup l -> p ∉ l -> p <> NULL -> dll lk NULL a l ->
  lk' p = Some (a, NULL) ->
  (forall q, q ∈ l -> lk' q = (if a =? NULL then lk else lk_set_prev a p lk) q) ->
  dll lk' NULL p (p :: l).
Proof.
  intros Hnd Hp Hp0 Hd Hlk Hl. cbn. split_and!; [done..|]. exists a. split; [done|].
  eapply dll_ext; [exact Hl|]. by eapply dll_set_prev.
Qed.

(** The effect of unlinking [p] with words [(next, prev)] on the other
    nodes. *)
Definition lk_unlink (next prev : Z) (lk : Z -> option (Z * Z)) : Z -> option (Z * Z) :=
  let lk := if prev =? NULL then lk else lk_set_next prev next lk in
  if next =? NULL then lk else lk_set_prev next prev lk.

(** Unlink from the front: the next node becomes the head. *)
Lemma dll_unlink_head lk p next l :
  NoDup (p :: l) -> dll lk NULL p (p :: l) -> lk p = Some (next, NULL) ->
  dll (lk_unlink next NULL lk) NULL next l.
Proof.
  intros [_ Hnd]%NoDup_cons (_ & _ & next' & Hlk & Hd) Hp.
  rewrite Hp in Hlk. injection Hlk as <-.
  unfold lk_unlink. cbn. by eapply dll_set_prev.
Qed.

Lemma dll_unlink_tail lk prev0 a l1 q p l2 next :
  NoDup (l1 ++ q :: p :: l2) -> dll lk prev0 a (l1 ++ q :: p :: l2) ->
  lk p = Some (next, q) ->
  dll (lk_unlink next q lk) prev0 a (l1 ++ q :: l2).
Proof.
  revert prev0 a. induction l1 as [|x l1 IH]; intros prev0 a Hnd.
  - cbn [app] in *. intros (-> & Hq & np & Hlk & (-> & Hp & nx & Hlp & Hd)) Hpp.
    rewrite Hpp in Hlp. injection Hlp as <-.
    apply NoDup_cons in Hnd as [Hqn [Hpn Hnd]%NoDup_cons].
    unfold lk_unlink. zfalse (q =? NULL). cbn [dll]. split_and!; [done..|].
    assert (forall x, x ∈ l2 -> lk_set_next q next lk x = lk x) as Hsame.
    { intros x Hx. unfold lk_set_next. rewrite decide_False; [done|]. set_solver. }
    exists next. split.
    + assert (lk_set_next q next lk q = Some (next, prev0)) as E.
      { unfold lk_set_next. by rewrite decide_True, Hlk. }
      destruct (Z.eqb_spec next NULL); [done|]. unfold lk_set_prev. rewrite decide_False; [done|].
      apply dll_head in Hd as [l' ->]; [|done]. set_solver.
    + apply (dll_ext _ (lk_set_next q next lk)) in Hd; [|done].
      by apply (dll_set_prev _ _ q) in Hd.
  - cbn [app] in *. intros (-> & Hx & nx & Hlk & Hd) Hpp.
    apply NoDup_cons in Hnd as [Hxn Hnd]. cbn [dll].
    split_and!; [done..|]. exists nx. split; [|by apply IH].
    assert (x <> q) by set_solver. unfold lk_unlink.
    assert ((if q =? NULL then lk else lk_set_next q next lk) x = Some (nx, prev0)) as E.
    { destruct (q =? NULL); [done|]. unfold lk_set_next. by rewrite decide_False. }
    destruct (Z.eqb_spec next NULL); [done|]. unfold lk_set_prev. rewrite decide_False; [done|].
    assert (next ∈ l2).
    { destruct (dll_node lk x nx (l1 ++ [q]) p l2) as [Hlp _]; [by rewrite <- app_assoc|].
      rewrite Hpp in Hlp. destruct l2; cbn in Hlp; simplify_eq. set_solver. }
    set_solver.
Qed.

(** Unlinking any node; the head moves when the node was the first one. *)
Lemma dll_unlink lk a l1 p l2 next prev :
  NoDup (l1 ++ p :: l2) -> dll lk NULL a (l1 ++ p :: l2) -> lk p = Some (next, prev) ->
  dll (lk_unlink next prev lk) NULL (if prev =? NULL then next else a) (l1 ++ l2) /\
  (prev = NULL <-> l1 = []) /\ (next <> NULL -> next ∈ l2) /\ (prev <> NULL -> prev ∈ l1).
Proof.
  intros Hnd Hd Hp. destruct (dll_node _ _ _ _ _ _ Hd) as [Hp' _].
  rewrite Hp in Hp'. injection Hp' as -> ->.
  assert (default NULL (head l2) <> NULL -> default NULL (head l2) ∈ l2).
  { destruct l2; [done|]. set_solver. }
  destruct l1 as [|q l1 _] using rev_ind.
  - cbn in *. split_and!; [|done..]. eapply dll_unlink_head; [exact Hnd| |done].
    destruct Hd as (-> & ?). done.
  - rewrite last_snoc in *. change (default NULL (Some q)) with q in *. rewrite <- app_assoc in *. cbn [app] in *.
    assert (q <> NULL) by (eapply dll_nonnull; [exact Hd|set_solver]).
    zfalse (q =? NULL).
    split_and!; [by eapply dll_unlink_tail| |done|set_solver].
    split; [done|]. by destruct l1.
Qed.

(** The words after [p] is put in front of the list headed by [a]. *)
Definition lk_front (p a : Z) (lk : Z -> option (Z * Z)) : Z -> option (Z * Z) :=
  let lk := lk_set_prev p NULL (lk_set_next p a lk) in
  if a =? NULL then lk else lk_set_prev a p lk.

Lemma lk_front_ne p a lk q : q <> p -> (a <> NULL -> q <> a) -> lk_front p a lk q = lk q.
Proof.
  intros Hp Ha. unfold lk_front. destruct (Z.eqb_spec a NULL); unfold lk_set_prev, lk_set_next;
    rewrite !decide_False; auto using not_eq_sym.
Qed.

Lemma lk_unlink_ne next prev lk q :
  (next <> NULL -> q <> next) -> (prev <> NULL -> q <> prev) -> lk_unlink next prev lk q = lk q.
Proof.
  intros Hn Hp. unfold lk_unlink.
  destruct (Z.eqb_spec next NULL), (Z.eqb_spec prev NULL); unfold lk_set_prev, lk_set_next;
    rewrite ?decide_False; auto using not_eq_sym.
Qed.

Lemma dll_front lk p a l :
  NoDup l -> p ∉ l -> p <> NULL -> is_Some (lk p) -> dll lk NULL a l ->
  dll (lk_front p a lk) NULL p (p :: l).
Proof.
  intros Hnd Hp Hp0 [[n v] Hl] Hd.
  assert (a <> NULL -> a ∈ l) as Ha by (intros ?; apply dll_head in Hd as [? ->]; set_solver).
  eapply dll_push; [exact Hnd|done|done|exact Hd|..].
  - unfold lk_front. assert (lk_set_prev p NULL (lk_set_next p a lk) p = Some (a, NULL)) as E.
    { unfold lk_set_prev, lk_set_next. by rewrite !decide_True, Hl. }
    destruct (Z.eqb_spec a NULL); [done|]. unfold lk_set_prev at 1. rewrite decide_False; [done|].
    intros ->. auto.
  - intros q Hq. assert (p <> q) by (by intros ->). unfold lk_front, lk_set_prev, lk_set_next.
    destruct (a =? NULL); rewrite !(decide_False (P := p = q)) by done; done.
Qed.
