(* ===== verification/Testbed.v ===== *)
(** * A concrete environment and the initial state

    An instance of the environment class (a kernel that places mappings above
    all existing ones, one NUMA node, working random source) that satisfies
    the documented contract, and the state of a process before any
    initialisation.  They instantiate the parameters of the theorems. *)

From S2P Require Import Prelude Common Machine Wp.

Definition top_of (rs : list (Z * Z)) : Z :=
  foldr (fun r acc => Z.max r.2 acc) 0x7f0000000000 rs.

Definition test_mmap (k : nat) (rs : list (Z * Z)) (len : Z) : option Z :=
  let a := page_round (top_of rs) in
  if (0 <? len) && (a + page_round len <=? 2 ^ 47) then Some a else None.

#[export] Instance test_env : Env := {|
  sys_mmap := test_mmap;
  sys_getcpu := fun _ => Some (0, 0);
  sys_getrandom := fun _ _ => (8, 0x0123456789abcdef);
  sys_open_urandom := fun _ => 3;
  sys_read_urandom := fun _ _ => (8, 0x0123456789abcdef);
  sys_time := fun _ => 1700000000;
  sys_getpid := 4242;
  stack_var_addr := 0x7ffd00001000;
  sys_pagesize := 4096;
  environ := Some ["PATH=/bin"; "LZMALLOC_TELEMETRY=1"]%string;
  sys_shm_open := fun _ _ => 5;
  sys_ftruncate := fun _ _ _ => 0;
  lz_fatal_returns := true;
  g_base_heap := 0x555555600000
|}.

Lemma top_of_above rs a : in_ranges rs a = true -> a < top_of rs.
Proof.
  rewrite in_ranges_iff. intros (lo & hi & Hin & Hb).
  enough (hi <= top_of rs) by lia. clear Hb a.
  induction rs as [|[l h] rs IH]; [by apply not_elem_of_nil in Hin|].
  cbn [top_of foldr snd]. apply elem_of_cons in Hin as [E|Hin].
  - inversion E; subst. lia.
  - specialize (IH Hin). unfold top_of in IH. lia.
Qed.

Lemma top_of_floor rs : 0x7f0000000000 <= top_of rs.
Proof. induction rs; cbn; unfold top_of in *; lia. Qed.

#[export] Instance test_env_laws : EnvLaws.
Proof.
  constructor; [|by intros k cpu node [= <- <-]|done]. intros k rs len a. cbn. unfold test_mmap.
  destruct (Z.ltb_spec 0 len); [|done]. destruct (Z.leb_spec (page_round (top_of rs) + page_round len) (2 ^ 47)); [|done].
  intros [= <-]. pose proof (top_of_floor rs). pose proof (page_round_le (top_of rs)).
  repeat split; try lia; [unfold page_round; dlia|].
  intros x Hx. destruct (in_ranges rs x) eqn:E; [|done]. apply top_of_above in E. lia.
Qed.

(** Zero-initialised statics. *)
Definition boot_state : state :=
  mk_state 0 [] [] ∅ ∅ ∅ ∅ ∅ ∅ ∅ 1 (replicate 16 (mk_pool 0 0)) (replicate 16 false)
    false 0 0 0 [] ∅ 0 0 false 0 0 ∅.
