(* ===== verification/Security.v ===== *)
(** * chunk.h and security.[ch]: header checksum, pointer masking, the secret

    The static inline helpers of src/core/chunk.h and src/core/security.h and
    the bootstrap of the process-wide secret in src/core/security.c. *)

From S2P Require Import Prelude Common Machine Wp Testbed.

(** ** chunk.h *)

Definition LZ_CHUNK_TYPE_SLAB : Z := 0.
Definition LZ_CHUNK_TYPE_SPAN : Z := 1.
Definition LZ_CHUNK_TYPE_DIRECT : Z := 2.
Definition LZ_CHUNK_MAGIC_V2 : Z := 0x434F4C4C414D5A4C.

Definition lz_calc_checksum (c : lz_chunk_header_t) : Z :=
  let owner := owning_tlh c in
  let hash := node_id c in
  let hash := hash .^ u32 (owner .& 0xFFFFFFFF) in
  hash .^ u32 (owner >>. 32).

(** ** security.h *)

(** [lz_ptr_obfuscate], the secret being a global of security.c. *)
Definition lz_ptr_obfuscate (secret ptr storage_addr : Z) : Z :=
  ptr .^ secret .^ storage_addr.

Section security.
Context `{Env}.

(** The fallback of [lz_security_init] when no random source answers. *)
Definition lz_security_fallback : M unit :=
  k ← tick;
  let time_val := u64 (sys_time k) in
  let pid_val := u64 sys_getpid in
  let aslr_val := u64 stack_var_addr in
  modify (set_g_lz_global_secret (time_val .^ u64 (pid_val <<. 32) .^ aslr_val));;
  sec ← fetch g_lz_global_secret;
  if sec =? 0 then modify (set_g_lz_global_secret 0xDEADBEEFCAFEBABE) else mret tt.

(** Second source: /dev/urandom, then the fallback. *)
Definition lz_security_urandom : M unit :=
  k ← tick;
  let fd := sys_open_urandom k in
  if negb (fd =? -1) then
    k ← tick;
    old ← fetch g_lz_global_secret;
    let '(bytes_read, v) := sys_read_urandom k old in
    modify (set_g_lz_global_secret (u64 v));;
    sec ← fetch g_lz_global_secret;
    if (bytes_read =? 8) && negb (sec =? 0) then mret tt else lz_security_fallback
  else lz_security_fallback.

Definition lz_security_init : M unit :=
  sec ← fetch g_lz_global_secret;
  if negb (sec =? 0) then mret tt
  else
    k ← tick;
    let '(ret, v) := sys_getrandom k sec in
    modify (set_g_lz_global_secret (u64 v));;
    sec ← fetch g_lz_global_secret;
    if (ret =? 8) && negb (sec =? 0) then mret tt else lz_security_urandom.

End security.

(** ** Facts *)

Lemma lxor_u64 a b : 0 <= a < 2 ^ 64 -> 0 <= b < 2 ^ 64 -> 0 <= a .^ b < 2 ^ 64.
Proof.
  intros Ha Hb. split; [apply Z.lxor_nonneg; lia|].
  destruct (Z.eq_dec (a .^ b) 0) as [->|Hne]; [lia|].
  assert (0 <= a .^ b) by (apply Z.lxor_nonneg; lia).
  apply Z.log2_lt_pow2; [lia|]. eapply Z.le_lt_trans; [apply Z.log2_lxor; lia|].
  destruct (Z.eq_dec a 0) as [->|], (Z.eq_dec b 0) as [->|]; try done;
    apply Z.max_lub_lt; try done; apply Z.log2_lt_pow2; lia.
Qed.

Lemma obfuscate_range k p a :
  0 <= k < 2 ^ 64 -> 0 <= p < 2 ^ 64 -> 0 <= a < 2 ^ 64 ->
  0 <= lz_ptr_obfuscate k p a < 2 ^ 64.
Proof. intros. unfold lz_ptr_obfuscate. repeat apply lxor_u64; done. Qed.

Lemma obfuscate_involutive k p a : lz_ptr_obfuscate k (lz_ptr_obfuscate k p a) a = p.
Proof.
  unfold lz_ptr_obfuscate.
  replace (p .^ k .^ a .^ k .^ a) with (p .^ ((k .^ k) .^ (a .^ a)))
    by (rewrite !Z.lxor_assoc; f_equal; rewrite <- !Z.lxor_assoc;
        rewrite (Z.lxor_comm (k .^ a) k); by rewrite <- Z.lxor_assoc).
  by rewrite !Z.lxor_nilpotent, Z.lxor_0_r.
Qed.

(** ** Theorems *)

(** C33. Safe linking is a bijection of the pointer width: a link read back at
    the address it was stored at decodes to the pointer that was stored, and
    decoding it at any other address gives a different pointer, so a link
    cannot be replayed in another node. *)
Theorem obfuscate_roundtrip secret p a :
  0 <= secret < 2 ^ 64 -> 0 <= p < 2 ^ 64 -> 0 <= a < 2 ^ 64 ->
  let link := lz_ptr_obfuscate secret p a in
  0 <= link < 2 ^ 64 /\ lz_ptr_obfuscate secret link a = p /\
  (forall a', a' <> a -> lz_ptr_obfuscate secret link a' <> p).
Proof.
  intros Hs Hp Ha link. split; [by apply obfuscate_range|].
  split; [apply obfuscate_involutive|]. intros a' Hne Heq. apply Hne.
  assert (link = lz_ptr_obfuscate secret p a') as Hl.
  { rewrite <- Heq. by rewrite obfuscate_involutive. }
  unfold link, lz_ptr_obfuscate in Hl.
  generalize dependent (p .^ secret). intros w Hl. apply (f_equal (Z.lxor w)) in Hl.
  by rewrite <- !Z.lxor_assoc, Z.lxor_nilpotent, !Z.lxor_0_l in Hl.
Qed.

Lemma obfuscate_roundtrip_witness :
  let link := lz_ptr_obfuscate 0xDEADBEEFCAFEBABE 0x7f0000200080 0x7f0000200100 in
  0 <= link < 2 ^ 64 /\
  lz_ptr_obfuscate 0xDEADBEEFCAFEBABE link 0x7f0000200100 = 0x7f0000200080 /\
  (forall a', a' <> 0x7f0000200100 ->
    lz_ptr_obfuscate 0xDEADBEEFCAFEBABE link a' <> 0x7f0000200080).
Proof. apply obfuscate_roundtrip; lia. Defined.

Section security_props.
Context `{Env}.

(** Only the clock and the secret change. *)
Definition only_secret (s s' : state) : Prop :=
  s' = set_g_lz_global_secret (g_lz_global_secret s') (set_st_clock (st_clock s') s).

Lemma security_fallback_ok s0 s :
  only_secret s0 s ->
  wp lz_security_fallback (fun _ s' => g_lz_global_secret s' <> 0 /\
    0 <= g_lz_global_secret s' < 2 ^ 64 /\ only_secret s0 s') s.
Proof.
  unfold only_secret. intros Es. unfold lz_security_fallback. wp_steps. cbn.
  destruct (Z.eqb_spec (u64 (sys_time (st_clock s)) .^ u64 (u64 sys_getpid <<. 32)
    .^ u64 stack_var_addr) 0); wp_steps; cbn; [by rewrite Es|].
  split_and!; [done|apply lxor_u64; [apply lxor_u64|]; apply u64_range..|by rewrite Es].
Qed.

Lemma security_urandom_ok s0 s :
  only_secret s0 s ->
  wp lz_security_urandom (fun _ s' => g_lz_global_secret s' <> 0 /\
    0 <= g_lz_global_secret s' < 2 ^ 64 /\ only_secret s0 s') s.
Proof.
  unfold only_secret. intros Es. unfold lz_security_urandom. wp_steps.
  destruct (negb _); [|apply security_fallback_ok; red; by rewrite Es].
  wp_steps. destruct (sys_read_urandom _ _) as [n v]. wp_steps. cbn.
  destruct (n =? 8), (Z.eqb_spec (u64 v) 0); cbn; try (apply security_fallback_ok; red; by rewrite Es).
  wp_steps. cbn. split_and!; [done|apply u64_range..|by rewrite Es].
Qed.

Lemma wp_security_init s :
  0 <= g_lz_global_secret s < 2 ^ 64 ->
  wp lz_security_init
    (fun _ s' => g_lz_global_secret s' <> 0 /\ 0 <= g_lz_global_secret s' < 2 ^ 64 /\
       only_secret s s' /\ (g_lz_global_secret s <> 0 -> s' = s)) s.
Proof.
  intros Hr. unfold lz_security_init. wp_steps.
  destruct (Z.eqb_spec (g_lz_global_secret s) 0) as [E|E]; cbn; [|wp_steps; split_and!; [done|apply Hr..|red; by destruct s|done]].
  wp_steps. destruct (sys_getrandom _ _) as [n v]. wp_steps. cbn.
  destruct (n =? 8), (Z.eqb_spec (u64 v) 0); cbn;
    try (eapply wp_mono; [by apply (security_urandom_ok s)|naive_solver]).
  wp_steps. cbn. pose proof (u64_range v). done.
Qed.

(** C34. Whatever the random sources answer, [lz_security_init] returns with a
    non-zero 64-bit secret, and it never replaces a secret already chosen. *)
Theorem security_init_secret s :
  0 <= g_lz_global_secret s < 2 ^ 64 ->
  wp lz_security_init
    (fun _ s' => g_lz_global_secret s' <> 0 /\ 0 <= g_lz_global_secret s' < 2 ^ 64 /\
       (g_lz_global_secret s <> 0 -> s' = s)) s.
Proof. intros Hr. eapply wp_mono; [by apply wp_security_init|]. naive_solver. Qed.

End security_props.

Lemma security_init_secret_witness :
  wp lz_security_init
    (fun _ s' => g_lz_global_secret s' <> 0 /\ 0 <= g_lz_global_secret s' < 2 ^ 64 /\
       (g_lz_global_secret boot_state <> 0 -> s' = boot_state)) boot_state.
Proof. apply security_init_secret. cbn. lia. Defined.

(** The header checksum detects any change confined to one of the three
    32-bit words it covers: the node id, the low or the high half of the
    owner pointer. *)
Theorem checksum_detects c c' :
  0 <= owning_tlh c < 2 ^ 64 -> 0 <= owning_tlh c' < 2 ^ 64 ->
  let lo c := owning_tlh c mod 2 ^ 32 in
  let hi c := owning_tlh c / 2 ^ 32 in
  (node_id c <> node_id c' /\ lo c = lo c' /\ hi c = hi c') \/
  (node_id c = node_id c' /\ lo c <> lo c' /\ hi c = hi c') \/
  (node_id c = node_id c' /\ lo c = lo c' /\ hi c <> hi c') ->
  lz_calc_checksum c <> lz_calc_checksum c'.
Proof.
  intros Hc Hc' lo hi Hd.
  assert (forall d, 0 <= owning_tlh d < 2 ^ 64 ->
    lz_calc_checksum d = node_id d .^ lo d .^ hi d) as Hsum.
  { intros d Hd'. unfold lz_calc_checksum, lo, hi.
    change 0xFFFFFFFF with (2 ^ 32 - 1). rewrite land_pow2_mask by lia.
    rewrite Z.shiftr_div_pow2 by lia.
    rewrite !u32_small; [done|split; [apply Z.div_pos|apply Z.div_lt_upper_bound]; lia|].
    apply Z.mod_pos_bound. lia. }
  rewrite !Hsum by done. clear Hsum. intros Heq.
  assert (forall x y z, x .^ z = y .^ z -> x = y) as cancel_r.
  { intros x y z E. apply (f_equal (fun w => w .^ z)) in E.
    by rewrite !Z.lxor_assoc, Z.lxor_nilpotent, !Z.lxor_0_r in E. }
  destruct Hd as [(Hne & E1 & E2)|[(E1 & Hne & E2)|(E1 & E2 & Hne)]];
    rewrite ?E1, ?E2 in Heq; apply Hne.
  - by apply cancel_r, cancel_r in Heq.
  - apply cancel_r in Heq. rewrite !(Z.lxor_comm (node_id c')) in Heq. by apply cancel_r in Heq.
  - rewrite !(Z.lxor_comm (_ .^ _)) in Heq. by apply cancel_r in Heq.
Qed.

Lemma checksum_detects_witness :
  lz_calc_checksum (mk_chunk 0 0x7f0012345000 LZ_CHUNK_MAGIC_V2 0 3 0 0) <>
  lz_calc_checksum (mk_chunk 0 0x7f0012345000 LZ_CHUNK_MAGIC_V2 0 4 0 0).
Proof.
  apply checksum_detects; cbn [owning_tlh]; [lia..|].
  left. cbn [owning_tlh node_id]. done.
Defined.
