(* ===== verification/Rtree.v ===== *)
(** * rtree.[ch]: the two-level index from addresses to chunk headers

    The radix tree of src/core/rtree.c as written (root array of leaf
    pointers, leaves mapped on demand, compare-and-swap publication), its
    representation invariant, and its refinement to a flat map over 2 MiB
    block numbers. *)

From S2P Require Import Prelude Common Machine Wp Testbed.

Definition LZ_RTREE_L2_BITS : Z := 14.
Definition LZ_RTREE_L2_ENTRIES : Z := 1 <<. LZ_RTREE_L2_BITS.
Definition LZ_RTREE_L2_MASK : Z := LZ_RTREE_L2_ENTRIES - 1.
Definition LZ_RTREE_L1_BITS : Z := 13.
Definition LZ_RTREE_L1_ENTRIES : Z := 1 <<. LZ_RTREE_L1_BITS.
Definition LZ_RTREE_L1_MASK : Z := LZ_RTREE_L1_ENTRIES - 1.

(** sizeof(lz_rtree_leaf_t) *)
Definition sizeof_leaf : Z := 8 * LZ_RTREE_L2_ENTRIES.

Definition l2_idx (addr : Z) : Z := (addr >>. LZ_CHUNK_SHIFT) .& LZ_RTREE_L2_MASK.
Definition l1_idx (addr : Z) : Z :=
  (addr >>. LZ_CHUNK_SHIFT >>. LZ_RTREE_L2_BITS) .& LZ_RTREE_L1_MASK.

Section rtree.
Context `{Env}.

Definition root_load (i : Z) : M Z := fetch (fun s => default NULL (g_rtree_root s !! i)).

(** atomic_compare_exchange_strong on a root slot: success flag and the value
    seen. *)
Definition root_cas (i expected new : Z) : M (bool * Z) :=
  cur ← root_load i;
  if cur =? expected
  then modify (fun s => set_g_rtree_root (<[i := new]> (g_rtree_root s)) s);; mret (true, expected)
  else mret (false, cur).

Definition leaf_at (leaf : Z) : M (gmap Z Z) :=
  o ← fetch (fun s => h_leaves s !! leaf);
  match o with Some m => mret m | None => stop Segv end.

Definition leaf_load (leaf i : Z) : M Z := m ← leaf_at leaf; mret (default NULL (m !! i)).
Definition leaf_store (leaf i v : Z) : M unit :=
  m ← leaf_at leaf;
  modify (fun s => set_h_leaves (<[leaf := <[i := v]> m]> (h_leaves s)) s).

(** The zeroed pages are read as an array of NULL entries. *)
Definition alloc_internal_node (size : Z) : M Z :=
  o ← mmap size;
  match o with
  | None => mret NULL
  | Some p => modify (fun s => set_h_leaves (<[p := ∅]> (h_leaves s)) s);; mret p
  end.

Definition lz_rtree_init : M unit := modify (set_g_rtree_root ∅).

Definition lz_rtree_get (ptr : Z) : M Z :=
  leaf ← root_load (l1_idx ptr);
  if leaf =? NULL then mret NULL else leaf_load leaf (l2_idx ptr).

Definition lz_rtree_set (chunk_addr metadata : Z) : M unit :=
  leaf ← root_load (l1_idx chunk_addr);
  if (leaf =? NULL) && (metadata =? NULL) then mret tt
  else if leaf =? NULL then
    new_leaf ← alloc_internal_node sizeof_leaf;
    if new_leaf =? NULL then mret tt
    else
      '(won, seen) ← root_cas (l1_idx chunk_addr) NULL new_leaf;
      leaf ← (if won : bool then mret new_leaf
              else munmap new_leaf sizeof_leaf;;
                   modify (fun s => set_h_leaves (delete new_leaf (h_leaves s)) s);;
                   mret seen);
      leaf_store leaf (l2_idx chunk_addr) metadata
  else leaf_store leaf (l2_idx chunk_addr) metadata.

Definition lz_rtree_clear (chunk_addr : Z) : M unit := lz_rtree_set chunk_addr NULL.

End rtree.

(** ** Representation *)

(** Block numbers: 27 bits of a 48-bit address. *)
Definition block_of (addr : Z) : Z := addr / 2 ^ 21 mod 2 ^ 27.

(** The abstract index: what the tree answers for a block number. *)
Definition rtree_view (s : state) (b : Z) : Z :=
  let leaf := default NULL (g_rtree_root s !! (b / 2 ^ 14)) in
  if leaf =? NULL then NULL
  else default NULL (default ∅ (h_leaves s !! leaf) !! (b mod 2 ^ 14)).

Record rtree_inv (s : state) : Prop := {
  root_leaf : forall i a, g_rtree_root s !! i = Some a -> a <> NULL ->
    is_Some (h_leaves s !! a) /\ (forall x, a <= x < a + sizeof_leaf -> mapped s x = true);
  root_inj : forall i j a, g_rtree_root s !! i = Some a -> g_rtree_root s !! j = Some a ->
    a <> NULL -> i = j
}.

Lemma l2_idx_block a : 0 <= a < 2 ^ 64 -> l2_idx a = block_of a mod 2 ^ 14.
Proof.
  intros Ha. unfold l2_idx, block_of, LZ_RTREE_L2_MASK, LZ_RTREE_L2_ENTRIES.
  change (1 <<. LZ_RTREE_L2_BITS) with (2 ^ 14).
  rewrite land_pow2_mask, Z.shiftr_div_pow2 by (unfold LZ_CHUNK_SHIFT; lia).
  unfold LZ_CHUNK_SHIFT. generalize (a / 2 ^ 21). intros b. dlia.
Qed.

Lemma l1_idx_block a : 0 <= a < 2 ^ 64 -> l1_idx a = block_of a / 2 ^ 14.
Proof.
  intros Ha. unfold l1_idx, block_of, LZ_RTREE_L1_MASK, LZ_RTREE_L1_ENTRIES.
  change (1 <<. LZ_RTREE_L1_BITS) with (2 ^ 13).
  rewrite land_pow2_mask, !Z.shiftr_div_pow2
    by (unfold LZ_CHUNK_SHIFT, LZ_RTREE_L2_BITS; lia).
  unfold LZ_CHUNK_SHIFT, LZ_RTREE_L2_BITS. generalize (a / 2 ^ 21). intros b. dlia.
Qed.


(** Two block numbers with the same root slot and leaf slot are equal. *)
Lemma block_split b b' : b / 2 ^ 14 = b' / 2 ^ 14 -> b mod 2 ^ 14 = b' mod 2 ^ 14 -> b = b'.
Proof. intros. pose proof (Z.div_mod b (2 ^ 14)). pose proof (Z.div_mod b' (2 ^ 14)). lia. Qed.

(** Writing one leaf entry changes the view at exactly one block. *)
Lemma leaf_write_view s leaf m b0 v :
  rtree_inv s -> g_rtree_root s !! (b0 / 2 ^ 14) = Some leaf -> leaf <> NULL ->
  h_leaves s !! leaf = Some m ->
  let s' := set_h_leaves (<[leaf := <[b0 mod 2 ^ 14 := v]> m]> (h_leaves s)) s in
  rtree_inv s' /\ forall b, rtree_view s' b = if b =? b0 then v else rtree_view s b.
Proof.
  intros [Hleaf Hinj] Hr Hn Hl s'. split.
  - constructor; cbn; [|done]. intros i a Hi Ha. destruct (Hleaf i a Hi Ha) as [Hs Hm].
    split; [|done]. rewrite lookup_insert. by case_decide.
  - intros b. unfold rtree_view. cbn.
    destruct (Z.eqb_spec b b0) as [->|Hne].
    + rewrite Hr. cbn. zfalse (leaf =? NULL).
      rewrite lookup_insert_eq. cbn. by rewrite lookup_insert_eq.
    + destruct (g_rtree_root s !! (b / 2 ^ 14)) as [a|] eqn:Ea; cbn; [|done].
      destruct (Z.eqb_spec a NULL); [done|]. destruct (decide (leaf = a)) as [<-|Hd].
      * rewrite lookup_insert_eq, Hl. cbn. rewrite lookup_insert_ne; [done|].
        intros Heq. apply Hne. apply block_split; [eauto|done].
      * by rewrite lookup_insert_ne.
Qed.

(** Publishing a fresh empty leaf leaves the view unchanged. *)
Lemma publish_leaf_view s a i :
  rtree_inv s -> a <> NULL -> (forall j, g_rtree_root s !! j <> Some a) ->
  default NULL (g_rtree_root s !! i) = NULL ->
  (forall x, a <= x < a + sizeof_leaf -> mapped s x = true) ->
  let s' := set_g_rtree_root (<[i := a]> (g_rtree_root s))
              (set_h_leaves (<[a := ∅]> (h_leaves s)) s) in
  rtree_inv s' /\ forall b, rtree_view s' b = rtree_view s b.
Proof.
  intros [Hleaf Hinj] Ha Hfresh Hi Hm s'. split.
  - constructor; cbn.
    + intros j c. rewrite !lookup_insert. case_decide.
      * intros [= <-] _. rewrite decide_True by done. split; [done|]. exact Hm.
      * intros Hj Hc. destruct (Hleaf j c Hj Hc) as [Hs Hx]. split; [|done].
        case_decide; [done|done].
    + intros j k c. rewrite !lookup_insert.
      pose proof (Hfresh j). pose proof (Hfresh k). specialize (Hinj j k c).
      destruct (decide (i = j)), (decide (i = k)); congruence || auto.
  - intros b. unfold rtree_view. cbn. rewrite !lookup_insert. case_decide as Hd.
    + subst i. rewrite Hi. cbn. zfalse (a =? NULL). by rewrite decide_True.
    + destruct (g_rtree_root s !! (b / 2 ^ 14)) as [c|] eqn:Ec; cbn; [|done].
      rewrite decide_False; [done|]. intros ->. by apply Hfresh in Ec.
Qed.

Section rtree_rules.
Context `{EnvLaws}.

Lemma wp_leaf_at leaf m Q s : h_leaves s !! leaf = Some m -> Q m s -> wp (leaf_at leaf) Q s.
Proof. intros Hl HQ. unfold leaf_at. wp_steps. by rewrite Hl. Qed.

Lemma wp_leaf_store leaf m i v Q s :
  h_leaves s !! leaf = Some m ->
  Q tt (set_h_leaves (<[leaf := <[i := v]> m]> (h_leaves s)) s) -> wp (leaf_store leaf i v) Q s.
Proof.
  intros Hl HQ. unfold leaf_store. wp_step. eapply wp_leaf_at; [done|]. by wp_steps.
Qed.

Lemma wp_rtree_get ptr Q s :
  rtree_inv s -> 0 <= ptr < 2 ^ 64 ->
  Q (rtree_view s (block_of ptr)) s -> wp (lz_rtree_get ptr) Q s.
Proof.
  intros [Hleaf _] Hp HQ. unfold lz_rtree_get, root_load. wp_steps.
  unfold rtree_view in HQ. rewrite l1_idx_block, l2_idx_block by done.
  destruct (g_rtree_root s !! _) as [a|] eqn:Ea; cbn in *; [|by wp_steps].
  destruct (Z.eqb_spec a NULL); [by wp_steps|].
  destruct (Hleaf _ _ Ea) as [[m Hm] _]; [done|].
  unfold leaf_load. wp_step. eapply wp_leaf_at; [done|]. wp_steps.
  by rewrite Hm in HQ.
Qed.

(** The tree cannot grow: the leaf of [addr] is missing and mmap fails. *)
Definition rtree_oom (s : state) (addr v : Z) : Prop :=
  default NULL (g_rtree_root s !! (block_of addr / 2 ^ 14)) = NULL /\ v <> NULL /\
  sys_mmap (st_clock s) (st_mapped s) sizeof_leaf = None.

(** The run so far contains a refusal of the pages of a leaf. *)
Definition leaf_refused (s : state) : Prop := exists k, (k, sizeof_leaf) ∈ st_refused s.

Lemma leaf_refused_grows s s' : log_grows s s' -> leaf_refused s -> leaf_refused s'.
Proof. intros [l E] [k Hk]. exists k. rewrite E. apply elem_of_app. by right. Qed.

(** One of them since the state [s]. *)
Definition leaf_refused_since (s s' : state) : Prop :=
  exists k l, st_refused s' = l ++ st_refused s /\ (k, sizeof_leaf) ∈ l.

Lemma leaf_refused_since_now s s' : leaf_refused_since s s' -> leaf_refused s'.
Proof. intros (k & l & E & Hk). exists k. rewrite E. apply elem_of_app. by left. Qed.

Lemma leaf_refused_since_after s1 s2 s3 :
  log_grows s1 s2 -> leaf_refused_since s2 s3 -> leaf_refused_since s1 s3.
Proof.
  intros [l1 E1] (k & l & E & Hk). exists k, (l ++ l1). rewrite E, E1, app_assoc. split; [done|].
  apply elem_of_app. by left.
Qed.

Lemma leaf_refused_since_before s1 s2 s3 :
  leaf_refused_since s1 s2 -> log_grows s2 s3 -> leaf_refused_since s1 s3.
Proof.
  intros (k & l & E & Hk) [l2 E2]. exists k, (l2 ++ l). rewrite E2, E, app_assoc. split; [done|].
  apply elem_of_app. by right.
Qed.

(** The entry of a chunk after its registration: itself, unless the kernel
    refused the pages of a leaf. *)
Definition registers (s : state) (c : Z) : Prop :=
  rtree_view s (block_of c) = c \/ rtree_view s (block_of c) = NULL /\ leaf_refused s.

Lemma registers_frame s s' c : rtree_view s' (block_of c) = rtree_view s (block_of c) ->
  log_grows s s' -> registers s c -> registers s' c.
Proof. unfold registers. intros -> Hg. pose proof (leaf_refused_grows s s' Hg). tauto. Qed.

(** What a [lz_rtree_set] does to the state. *)
Record rtree_set_post (s : state) (addr v : Z) (s' : state) : Prop := {
  set_inv : rtree_inv s';
  set_ext : mem_ext s s';
  set_vmm : vmm_part s' = vmm_part s;
  set_thread : thread_part s' = thread_part s;
  set_view : ~ rtree_oom s addr v /\
               (forall b, rtree_view s' b = if b =? block_of addr then v else rtree_view s b) \/
             rtree_oom s addr v /\ (forall b, rtree_view s' b = rtree_view s b);
  set_log : ~ rtree_oom s addr v /\ st_refused s' = st_refused s \/
            rtree_oom s addr v /\ st_refused s' = (st_clock s, sizeof_leaf) :: st_refused s
}.

(** A registration leaves the header in the index or a refusal on record. *)
Lemma set_registers s c s' : rtree_set_post s c c s' -> registers s' c.
Proof.
  intros [_ _ _ _ Hw Hl]. destruct Hw as [[_ Hw]|[Ho Hw]]; [left|right]; rewrite Hw; [by rewrite Z.eqb_refl|].
  destruct Hl as [[Hn _]|[_ El]]; [done|]. destruct Ho as (Hz & _). split; [unfold rtree_view; by rewrite Hz|].
  exists (st_clock s). rewrite El. by left.
Qed.

Lemma rtree_inv_ext s s' :
  rtree_inv s -> rtree_part s' = rtree_part s ->
  (forall a, mapped s a = true -> mapped s' a = true) -> rtree_inv s'.
Proof.
  intros [Hl Hi] [= E1 E2] Hm. constructor; rewrite E2; [|done].
  intros i a Hr Ha. rewrite E1. destruct (Hl i a Hr Ha). eauto.
Qed.

Lemma rtree_view_eq s s' b : rtree_part s' = rtree_part s -> rtree_view s' b = rtree_view s b.
Proof. unfold rtree_view. by intros [= -> ->]. Qed.

(** The leaf the code reads or creates for [addr], then stores into. *)
Lemma wp_rtree_set_present s addr v leaf m Q :
  rtree_inv s -> 0 <= addr < 2 ^ 64 ->
  g_rtree_root s !! (block_of addr / 2 ^ 14) = Some leaf -> leaf <> NULL ->
  h_leaves s !! leaf = Some m ->
  (forall s', rtree_inv s' -> mem_ext s s' -> vmm_part s' = vmm_part s ->
    thread_part s' = thread_part s -> g_rtree_root s' = g_rtree_root s -> st_refused s' = st_refused s ->
    (forall b, rtree_view s' b = if b =? block_of addr then v else rtree_view s b) -> Q tt s') ->
  wp (leaf_store leaf (l2_idx addr) v) Q s.
Proof.
  intros Hinv Ha Hr Hn Hl HQ. eapply wp_leaf_store; [done|].
  rewrite l2_idx_block by done.
  destruct (leaf_write_view s leaf m (block_of addr) v) as [Hi Hv]; [done..|].
  by apply HQ.
Qed.

(** Memory after a new leaf at [a] was published at [i] and written. *)
Lemma leaf_published_ext s a i s' :
  sys_mmap (st_clock s) (st_mapped s) sizeof_leaf = Some a ->
  let s1 := set_g_rtree_root (<[i := a]> (g_rtree_root s))
    (set_h_leaves (<[a := ∅]> (h_leaves s)) (mmap_state s a sizeof_leaf)) in
  mem_ext s1 s' -> g_rtree_root s' = g_rtree_root s1 -> mem_ext s s'.
Proof.
  intros Em s1 [M2 C2 B2 D2 L2] Er. destruct (mmap_fresh _ _ _ _ Em) as (_ & _ & _ & _ & Hfresh).
  destruct (mmap_state_ext _ _ _ Em) as [M1 C1 B1 D1 _].
  constructor; [intros x Hx; apply M2, M1, Hx|..]; try (intros x Hx; specialize (M1 x Hx)).
  - rewrite C2 by done. by apply C1.
  - rewrite B2 by done. by apply B1.
  - rewrite D2 by done. by apply D1.
  - split; [|exact (og_log _ _ L2)]. intros j x y. rewrite Er. cbn. rewrite lookup_insert. case_decide; [|done].
    intros [= <-] Hy Hm. unfold mapped in Hm. by rewrite Hfresh in Hm.
Qed.

Lemma wp_rtree_set addr v Q s :
  rtree_inv s -> 0 <= addr < 2 ^ 64 ->
  (forall s', rtree_set_post s addr v s' -> Q tt s') -> wp (lz_rtree_set addr v) Q s.
Proof.
  intros Hinv Ha HQ. unfold lz_rtree_set, root_load. wp_steps. rewrite l1_idx_block by done.
  destruct (Z.eqb_spec (default NULL (g_rtree_root s !! (block_of addr / 2 ^ 14))) NULL)
    as [En|En]; cbn [andb].
  2: { destruct (g_rtree_root s !! _) as [leaf|] eqn:Er; cbn in *; [|done].
       destruct (root_leaf s Hinv _ _ Er En) as [[m Hm] _].
       eapply wp_rtree_set_present; [done..|]. intros s' I1 E1 V1 T1 R1 L1 W1. apply HQ.
       assert (~ rtree_oom s addr v) by (intros (Hz & _); by rewrite Er in Hz). constructor; auto. }
  destruct (Z.eqb_spec v NULL) as [->|Hv].
  { assert (~ rtree_oom s addr NULL) by (by intros (_ & ? & _)). wp_steps. apply HQ. constructor; try done; [|by left].
    left. split; [done|]. intros b. destruct (Z.eqb_spec b (block_of addr)) as [->|]; [|done]. unfold rtree_view. by rewrite En. }
  unfold alloc_internal_node. wp_steps. apply wp_mmap.
  destruct (sys_mmap _ _ _) as [a|] eqn:Em; wp_steps.
  2: { apply HQ. assert (rtree_oom s addr v) by done. constructor; auto; [by eapply rtree_inv_ext|apply mmap_failed_ext]. }
  destruct (mmap_fresh _ _ _ _ Em) as (_ & Hpos & _ & _ & Hfresh).
  pose proof (mmap_state_ext _ _ _ Em) as Hext.
  zfalse (a =? NULL). unfold root_cas, root_load. wp_steps.
  assert (page_round sizeof_leaf = sizeof_leaf) as Hpr by done.
  edestruct (publish_leaf_view (mmap_state s a sizeof_leaf) a (block_of addr / 2 ^ 14))
    as [Hinv2 Hview2]; [..|].
  { eapply rtree_inv_ext; [done| |apply Hext]. done. }
  { lia. }
  { cbn. intros j Hj. destruct (root_leaf s Hinv j a Hj) as [_ Hmap]; [lia|].
    specialize (Hmap a). specialize (Hfresh a). unfold mapped in Hmap.
    rewrite Hpr in Hfresh. assert (0 < sizeof_leaf) by done.
    rewrite Hfresh in Hmap by lia. discriminate Hmap. lia. }
  { done. }
  { intros x Hx. apply mmap_state_zero. rewrite Hpr. done. }
  cbn [g_rtree_root set_h_leaves] in *.
  change (g_rtree_root (mmap_state s a sizeof_leaf)) with (g_rtree_root s) in *.
  rewrite En. cbn. wp_steps.
  eapply wp_rtree_set_present; [exact Hinv2|done|..].
  { cbn. by rewrite lookup_insert_eq. }
  { lia. }
  { cbn. by rewrite lookup_insert_eq. }
  intros s' Hi' He' Hvm' Hth' Hrt' Hlog' Hview'. apply HQ.
  assert (~ rtree_oom s addr v) by (intros (_ & _ & ?); congruence). constructor; auto.
  - by eapply leaf_published_ext.
  - left. split; [done|]. intros b. rewrite Hview'. destruct (b =? block_of addr); [done|].
    rewrite Hview2. by apply rtree_view_eq.
Qed.

End rtree_rules.

(** ** Theorems *)

(** Addresses of one 2 MiB chunk share a block number, and addresses of the
    48-bit space outside it do not. *)
Lemma block_of_chunk chunk p :
  chunk mod 2 ^ 21 = 0 -> 0 <= chunk < 2 ^ 48 -> 0 <= p < 2 ^ 48 ->
  block_of p = block_of chunk <-> chunk <= p < chunk + 2 ^ 21.
Proof.
  intros Hm Hc Hp. unfold block_of.
  rewrite !(Z.mod_small (_ / _)) by (split; [apply Z.div_pos|apply Z.div_lt_upper_bound]; lia).
  dlia.
Qed.

Section rtree_props.
Context `{EnvLaws}.

(** Insert/lookup: registering a chunk makes every pointer into its 2 MiB
    resolve to the registered header and leaves every other 48-bit pointer
    resolving as before, unless the leaf had to be created and mmap failed, in
    which case no pointer resolves differently.  All previously mapped memory
    and the other components' state are untouched. *)
Theorem rtree_set_get s chunk hdr :
  rtree_inv s -> chunk mod 2 ^ 21 = 0 -> 0 <= chunk < 2 ^ 48 ->
  wp (lz_rtree_set chunk hdr) (fun _ s' =>
    rtree_inv s' /\ mem_ext s s' /\ vmm_part s' = vmm_part s /\ thread_part s' = thread_part s /\
    forall p, 0 <= p < 2 ^ 48 ->
      wp (lz_rtree_get p) (fun r _ =>
        (chunk <= p < chunk + 2 ^ 21 /\ ~ rtree_oom s chunk hdr -> r = hdr) /\
        (~ (chunk <= p < chunk + 2 ^ 21) \/ rtree_oom s chunk hdr -> r = rtree_view s (block_of p))) s') s.
Proof.
  intros Hinv Hm Hc. apply wp_rtree_set; [done|lia|]. intros s' [Hi He Hv Ht Hw _].
  split_and!; try done. intros p Hp. apply wp_rtree_get; [done|lia|].
  pose proof (block_of_chunk chunk p Hm Hc Hp) as Hb.
  destruct Hw as [[Ho Hw]|[Ho Hw]]; rewrite Hw.
  - destruct (Z.eqb_spec (block_of p) (block_of chunk)) as [Heq|Hne].
    + tauto.
    + tauto.
  - tauto.
Qed.

(** A program of index operations, run on the tree and on a flat map. *)
Inductive index_op :=
  | ISet (addr v : Z)
  | IClear (addr : Z)
  | IGet (addr : Z).

Definition run_index_op (o : index_op) : M (list Z) :=
  match o with
  | ISet a v => lz_rtree_set a v;; mret []
  | IClear a => lz_rtree_clear a;; mret []
  | IGet a => r ← lz_rtree_get a; mret [r]
  end.

Fixpoint run_index (os : list index_op) : M (list Z) :=
  match os with
  | [] => mret []
  | o :: os => r ← run_index_op o; rs ← run_index os; mret (r ++ rs)
  end.

Definition flat_set (f : Z -> Z) (a v : Z) : Z -> Z :=
  fun b => if b =? block_of a then v else f b.

(** The flat specification: from the map [f] the program gets the answers and
    leaves the map [f'] while the kernel refuses the calls [l] (last first).  A
    lookup answers the map, a removal always takes effect, and a registration
    takes effect, except that it is dropped when the 16384-block group it
    belongs to is empty and one of the refused calls is its own, for a leaf. *)
Inductive flat_run : list index_op -> (Z -> Z) -> list Z -> list (nat * Z) -> (Z -> Z) -> Prop :=
  | flat_nil f f' : (forall b, f' b = f b) -> flat_run [] f [] [] f'
  | flat_ISet a v os f g rs l f' :
      (forall b, g b = flat_set f a v b) -> flat_run os g rs l f' -> flat_run (ISet a v :: os) f rs l f'
  | flat_ISet_oom a v os f g rs k l f' :
      v <> NULL -> (forall b, b / 2 ^ 14 = block_of a / 2 ^ 14 -> f b = NULL) ->
      (forall b, g b = f b) -> flat_run os g rs l f' ->
      flat_run (ISet a v :: os) f rs (l ++ [(k, sizeof_leaf)]) f'
  | flat_IClear a os f g rs l f' :
      (forall b, g b = flat_set f a NULL b) -> flat_run os g rs l f' -> flat_run (IClear a :: os) f rs l f'
  | flat_IGet a os f rs l f' :
      flat_run os f rs l f' -> flat_run (IGet a :: os) f (f (block_of a) :: rs) l f'.

Definition op_addr (o : index_op) : Z :=
  match o with ISet a _ | IClear a | IGet a => a end.

(** C27. Refinement: any program of registrations, removals and lookups over
    64-bit addresses returns, preserves the representation invariant, answers
    as a flat map from 27-bit block numbers to headers and leaves the contents
    of that map; a registration is dropped only where the kernel refused a leaf
    during the run, one refusal on record for each dropped registration. *)
Theorem rtree_refines_flat os s :
  rtree_inv s -> Forall (fun o => 0 <= op_addr o < 2 ^ 64) os ->
  wp (run_index os) (fun rs s' => rtree_inv s' /\ exists l, st_refused s' = l ++ st_refused s /\
    flat_run os (rtree_view s) rs l (rtree_view s')) s.
Proof.
  intros Hinv Hall. revert s Hinv.
  induction Hall as [|o os Ha _ IH]; intros s Hinv; cbn [run_index].
  { wp_steps. split; [done|]. exists []. split; [done|by constructor]. }
  wp_step. destruct o as [a v|a|a]; cbn [run_index_op op_addr] in *; wp_step.
  - apply wp_rtree_set; [done..|]. intros s' [Hi _ _ _ Hv Hl]. wp_steps.
    eapply wp_mono; [by apply IH|]. intros rs s'' (Hi2 & l & El & Hr). wp_steps. split; [done|].
    destruct Hv as [[? Hv]|[Ho Hv]], Hl as [[? El1]|[? El1]]; try done; rewrite El1 in El.
    + exists l. split; [done|]. by econstructor.
    + exists (l ++ [(st_clock s, sizeof_leaf)]). rewrite <- app_assoc. split; [done|].
      destruct Ho as (Hn & Hnz & _). eapply flat_ISet_oom; [done| |done..]. intros b Hb. unfold rtree_view. by rewrite Hb, Hn.
  - apply wp_rtree_set; [done..|]. intros s' [Hi _ _ _ Hv Hl]. wp_steps.
    eapply wp_mono; [by apply IH|]. intros rs s'' (Hi2 & l & El & Hr). wp_steps. split; [done|]. exists l.
    destruct Hv as [[_ Hv]|[(_ & Hnz & _) _]]; [|done]. destruct Hl as [[_ El1]|[(_ & ? & _) _]]; [|done].
    rewrite El1 in El. split; [done|by econstructor].
  - apply wp_rtree_get; [done..|]. wp_steps.
    eapply wp_mono; [by apply IH|]. intros rs s' (Hi2 & l & El & Hr). wp_steps.
    split; [done|]. exists l. split; [done|by constructor].
Qed.

End rtree_props.

(** ** Witnesses *)

Lemma rtree_inv_empty s : g_rtree_root s = ∅ -> rtree_inv s.
Proof. intros E. constructor; rewrite E; intros *; by rewrite lookup_empty. Qed.

Lemma rtree_set_get_witness :
  let chunk := 0x7f0000200000 in
  wp (lz_rtree_set chunk chunk) (fun _ s' =>
    rtree_inv s' /\ mem_ext boot_state s' /\ vmm_part s' = vmm_part boot_state /\
    thread_part s' = thread_part boot_state /\
    forall p, 0 <= p < 2 ^ 48 ->
      wp (lz_rtree_get p) (fun r _ =>
        (chunk <= p < chunk + 2 ^ 21 /\ ~ rtree_oom boot_state chunk chunk -> r = chunk) /\
        (~ (chunk <= p < chunk + 2 ^ 21) \/ rtree_oom boot_state chunk chunk ->
          r = rtree_view boot_state (block_of p))) s') boot_state.
Proof. apply rtree_set_get; [by apply rtree_inv_empty|done|lia]. Defined.

Lemma rtree_refines_flat_witness :
  let os := [ISet 0x7f0000200000 1; IGet 0x7f00003fffff; IClear 0x7f0000200000;
             IGet 0x7f0000200040; IGet 0x1000] in
  wp (run_index os)
    (fun rs s' => rtree_inv s' /\ exists l, st_refused s' = l ++ st_refused boot_state /\
       flat_run os (rtree_view boot_state) rs l (rtree_view s')) boot_state.
Proof.
  apply rtree_refines_flat; [by apply rtree_inv_empty|].
  repeat constructor; cbn; lia.
Defined.
