(* ===== verification/Vmm.v ===== *)
(** * topology.[ch] and vmm.[ch]: NUMA pools, the global pool and extents

    Chunk provisioning as written in src/engines/vmm.c: per-node caches under
    spinlocks, the global pool, 64 MiB extents trimmed to 2 MiB alignment,
    and the purge of all caches. *)

From S2P Require Import Prelude Common Machine Wp Testbed Security.

Definition LZ_EXTENT_CHUNKS : Z := 32.
Definition LZ_EXTENT_SIZE : Z := LZ_HUGE_PAGE_SIZE * LZ_EXTENT_CHUNKS.

Section vmm.
Context `{Env}.

(** ** topology.c *)

Definition lz_topology_init : M unit :=
  modify (set_g_numa_node_count 1);;
  for_loop 16 0 (fun i => modify (fun s =>
    set_g_numa_pools (<[Z.to_nat i := mk_pool NULL 0]> (g_numa_pools s)) s)).

Definition lz_topology_get_node_count : M Z := fetch g_numa_node_count.

Definition lz_get_current_node : M Z :=
  k ← tick;
  match sys_getcpu k with
  | Some (_, node) => mret (if node <? LZ_MAX_NUMA_NODES then node else 0)
  | None => mret 0
  end.

(** A pool pointer is its index in g_numa_pools. *)
Definition lz_topology_get_pool (node_id : Z) : nat :=
  if LZ_MAX_NUMA_NODES <=? node_id then 0%nat else Z.to_nat node_id.

Definition pool_at (i : nat) : M lz_numa_pool_t :=
  o ← fetch (fun s => g_numa_pools s !! i);
  match o with Some p => mret p | None => stop Segv end.
Definition update_pool (i : nat) (f : lz_numa_pool_t -> lz_numa_pool_t) : M unit :=
  p ← pool_at i;
  modify (fun s => set_g_numa_pools (<[i := f p]> (g_numa_pools s)) s).

(** ** Spinlocks: [while (test_and_set(flag)) relax]. *)

Definition pool_lock (node : Z) : M unit :=
  o ← fetch (fun s => g_pool_locks s !! Z.to_nat node);
  match o with
  | None => stop Segv
  | Some true => stop Spin
  | Some false => modify (fun s => set_g_pool_locks (<[Z.to_nat node := true]> (g_pool_locks s)) s)
  end.
Definition pool_unlock (node : Z) : M unit :=
  modify (fun s => set_g_pool_locks (<[Z.to_nat node := false]> (g_pool_locks s)) s).
Definition global_pool_lock : M unit :=
  b ← fetch g_global_pool_lock;
  if b : bool then stop Spin else modify (set_g_global_pool_lock true).
Definition global_pool_unlock : M unit := modify (set_g_global_pool_lock false).

(** ** Extents *)

(** Map [size] bytes at a 2 MiB boundary: over-allocate by one chunk, then
    return the unaligned prefix and suffix to the kernel. *)
Definition map_huge_aligned (size : Z) : M (option Z) :=
  let request_size := u64 (size + LZ_HUGE_PAGE_SIZE) in
  o ← mmap request_size;
  match o with
  | None => mret None
  | Some raw_addr =>
      if negb (raw_addr .& (LZ_HUGE_PAGE_SIZE - 1) =? 0) then
        let aligned_addr := LZ_ALIGN_UP raw_addr LZ_HUGE_PAGE_SIZE in
        let prefix_size := u64 (aligned_addr - raw_addr) in
        let suffix_size := u64 (request_size - prefix_size - size) in
        (if 0 <? prefix_size then munmap raw_addr prefix_size else mret tt);;
        (if 0 <? suffix_size then munmap (u64 (aligned_addr + size)) suffix_size else mret tt);;
        mret (Some aligned_addr)
      else
        munmap (u64 (raw_addr + size)) LZ_HUGE_PAGE_SIZE;;
        mret (Some raw_addr)
  end.

(** [chunk->next = g_global_free_chunks; g_global_free_chunks = chunk] *)
Definition push_global (chunk : Z) : M unit :=
  top ← fetch g_global_free_chunks;
  update_chunk chunk (set_chunk_next top);;
  modify (set_g_global_free_chunks chunk).

Definition sys_alloc_extent : M unit :=
  o ← map_huge_aligned LZ_EXTENT_SIZE;
  match o with
  | None => mret tt
  | Some aligned_addr =>
      madvise_hugepage aligned_addr LZ_EXTENT_SIZE;;
      global_pool_lock;;
      for_loop (Z.to_nat LZ_EXTENT_CHUNKS) 0
        (fun i => push_global (u64 (aligned_addr + i * LZ_HUGE_PAGE_SIZE)));;
      global_pool_unlock
  end.

(** ** Public API *)

Definition lz_vmm_init : M unit :=
  lz_topology_init;;
  for_loop 16 0 (fun i => modify (fun s =>
    set_g_pool_locks (<[Z.to_nat i := false]> (g_pool_locks s)) s));;
  modify (set_g_global_pool_lock false).

(** The NUMA-cache half of [lz_vmm_alloc_chunk]. *)
Definition pop_pool (current_node : Z) : M Z :=
  let pool := lz_topology_get_pool current_node in
  pool_lock current_node;;
  p ← pool_at pool;
  let top := free_chunks p in
  chunk ← (if negb (top =? NULL) then
             c ← chunk_at top;
             update_pool pool (set_free_chunks (chunk_next c));;
             update_pool pool (fun p => set_available_count (u64 (available_count p - 1)) p);;
             mret top
           else mret NULL);
  pool_unlock current_node;;
  mret chunk.

(** The global half: provision an extent when empty, then pop. *)
Definition pop_global : M Z :=
  global_pool_lock;;
  top ← fetch g_global_free_chunks;
  (if top =? NULL
   then global_pool_unlock;; sys_alloc_extent;; global_pool_lock
   else mret tt);;
  top ← fetch g_global_free_chunks;
  chunk ← (if negb (top =? NULL) then
             c ← chunk_at top;
             modify (set_g_global_free_chunks (chunk_next c));;
             mret top
           else mret NULL);
  global_pool_unlock;;
  mret chunk.

Definition lz_vmm_alloc_chunk : M Z :=
  current_node ← lz_get_current_node;
  chunk ← pop_pool current_node;
  if negb (chunk =? NULL) then
    update_chunk chunk (set_chunk_next NULL);;
    mret chunk
  else
    chunk ← pop_global;
    if chunk =? NULL then mret NULL
    else
      update_chunk chunk (set_chunk_next NULL);;
      update_chunk chunk (set_owning_tlh NULL);;
      update_chunk chunk (set_node_id current_node);;
      update_chunk chunk (set_magic LZ_CHUNK_MAGIC_V2);;
      update_chunk chunk (set_canary 0);;
      update_chunk chunk (set_checksum 0);;
      mret chunk.

(** Give the payload pages back to the kernel and push onto the global pool. *)
Definition retire_to_global (chunk : Z) : M unit :=
  madvise_dontneed (chunk + LZ_PAGE_SIZE) (LZ_HUGE_PAGE_SIZE - LZ_PAGE_SIZE);;
  global_pool_lock;;
  push_global chunk;;
  global_pool_unlock.

Definition lz_vmm_free_chunk (chunk : Z) : M unit :=
  if chunk =? NULL then mret tt
  else
    c ← chunk_at chunk;
    if negb (magic c =? LZ_CHUNK_MAGIC_V2) then mret tt
    else
      let target_node := node_id c in
      let pool := lz_topology_get_pool target_node in
      pool_lock target_node;;
      p ← pool_at pool;
      return_to_global ← (if available_count p <? LZ_VMM_MAX_CACHED_CHUNKS then
          update_chunk chunk (set_chunk_next (free_chunks p));;
          update_pool pool (set_free_chunks chunk);;
          update_pool pool (fun p => set_available_count (u64 (available_count p + 1)) p);;
          mret false
        else mret true);
      pool_unlock target_node;;
      if return_to_global : bool then retire_to_global chunk else mret tt.

(** The drain loop of the purge; the bound is one more than the capacity of a
    cache. *)
Fixpoint purge_loop (fuel : nat) (chunk : Z) : M unit :=
  match fuel with
  | O => stop NoFuel
  | S fuel =>
      if chunk =? NULL then mret tt
      else
        c ← chunk_at chunk;
        let next := chunk_next c in
        retire_to_global chunk;;
        purge_loop fuel next
  end.

Definition lz_vmm_purge_all_caches : M unit :=
  for_loop (Z.to_nat LZ_MAX_NUMA_NODES) 0 (fun i =>
    let pool := lz_topology_get_pool i in
    pool_lock i;;
    p ← pool_at pool;
    let chunk := free_chunks p in
    update_pool pool (set_free_chunks NULL);;
    update_pool pool (set_available_count 0);;
    pool_unlock i;;
    purge_loop (S (Z.to_nat LZ_VMM_MAX_CACHED_CHUNKS)) chunk).

End vmm.

(** ** Aligned mappings *)

(** The effect of a successful 2 MiB-aligned mapping of [size] bytes at [a]. *)
Record fresh_mapping (s : state) (a size : Z) (s' : state) : Prop := {
  fm_aligned : a mod 2 ^ 21 = 0;
  fm_range : 0 < a /\ a + size <= 2 ^ 47;
  fm_fresh : forall x, a <= x < a + size -> mapped s x = false;
  fm_mapped : forall x, mapped s' x = mapped s x || ((a <=? x) && (x <? a + size));
  fm_zero : forall x, a <= x < a + size ->
    chunk_of s' x = zero_chunk /\ body_of s' x = BZero /\ h_bytes s' !! x = None;
  fm_ext : mem_ext s s';
  fm_rtree : rtree_part s' = rtree_part s;
  fm_vmm : vmm_part s' = vmm_part s;
  fm_thread : thread_part s' = thread_part s;
  fm_log : st_refused s' = st_refused s
}.

(** Only the mapped ranges and the clock differ. *)
Definition same_but_maps (s s' : state) : Prop :=
  s' = set_st_mapped (st_mapped s') (set_st_clock (st_clock s') s).

Lemma wp_munmap_if b a len Q s :
  (forall s', same_but_maps s s' ->
    (forall x, mapped s' x =
       mapped s x && negb (b && (a <=? x) && (x <? a + page_round len))) -> Q tt s') ->
  wp (if b : bool then munmap a len else mret tt) Q s.
Proof.
  intros HQ. destruct b.
  - apply wp_munmap. apply HQ; [done|]. intros x. unfold mapped. cbn. apply in_ranges_cut.
  - wp_steps. apply HQ; [by destruct s|]. intros x. by rewrite andb_true_r.
Qed.

Lemma same_but_maps_trans s1 s2 s3 :
  same_but_maps s1 s2 -> same_but_maps s2 s3 -> same_but_maps s1 s3.
Proof. unfold same_but_maps. intros -> ->. done. Qed.

(** Trimming a fresh mapping to [a, a + size) yields a fresh mapping. *)
Lemma trimmed_mapping `{EnvLaws} s raw len a size s' :
  sys_mmap (st_clock s) (st_mapped s) len = Some raw -> len mod 4096 = 0 ->
  a mod 2 ^ 21 = 0 -> raw <= a -> 0 < size -> a + size <= raw + len ->
  same_but_maps (mmap_state s raw len) s' ->
  (forall x, mapped s' x = mapped (mmap_state s raw len) x &&
     negb ((raw <=? x) && (x <? raw + len) && negb ((a <=? x) && (x <? a + size)))) ->
  fresh_mapping s a size s'.
Proof.
  intros Hm Hlen Hal Hlo Hsz Hhi Hsame Hmap.
  destruct (mmap_fresh _ _ _ _ Hm) as (_ & Hpos & _ & Hlim & Hf).
  rewrite page_round_id in * by done.
  pose proof (mmap_state_ext _ _ _ Hm) as Hext.
  assert (forall x, mapped s' x = mapped s x || ((a <=? x) && (x <? a + size))) as Hmap'.
  { intros x. rewrite Hmap, mapped_mmap_state, page_round_id by done.
    assert (mapped s x = true -> ~ (raw <= x < raw + len)).
    { unfold mapped. intros E Hx. rewrite Hf in E by done. done. }
    destruct (mapped s x); lia. }
  assert (forall x, a <= x < a + size ->
    chunk_of s' x = zero_chunk /\ body_of s' x = BZero /\ h_bytes s' !! x = None) as Hzero.
  { intros x Hx. rewrite Hsame.
    destruct (mmap_state_zero s raw len x) as (_ & Hz); [rewrite page_round_id by done; lia|].
    exact Hz. }
  constructor; try done.
  - lia.
  - intros x Hx. apply Hf. lia.
  - destruct Hext as [_ Ec Eb Ed _]. constructor;
      [..|apply only_grows_same; by rewrite Hsame]; intros x Hx.
    + by rewrite Hmap', Hx.
    + rewrite <- (Ec x Hx), Hsame. done.
    + rewrite <- (Eb x Hx), Hsame. done.
    + rewrite <- (Ed x Hx), Hsame. done.
  - by rewrite Hsame.
  - by rewrite Hsame.
  - by rewrite Hsame.
  - by rewrite Hsame.
Qed.

(** ** Representation *)

(** A NULL-terminated list of chunks linked through their headers. *)
Fixpoint chain (s : state) (a : Z) (l : list Z) : Prop :=
  match l with
  | [] => a = NULL
  | c :: l => a = c /\ c <> NULL /\ chain s (chunk_next (chunk_of s c)) l
  end.

Definition chunk_ok (s : state) (c : Z) : Prop :=
  c mod 2 ^ 21 = 0 /\ 0 < c /\ c + 2 ^ 21 <= 2 ^ 47 /\
  forall x, c <= x < c + 2 ^ 21 -> mapped s x = true.

(** The global pool holds [G], the cache of node [n] holds [P !! n]; every
    cached chunk carries the magic and its home node, no cache exceeds its
    capacity, no chunk is in two places and all locks are free. *)
Record vmm_inv (s : state) (G : list Z) (P : list (list Z)) : Prop := {
  vi_len : length P = 16%nat /\ length (g_numa_pools s) = 16%nat;
  vi_locks : g_pool_locks s = replicate 16 false /\ g_global_pool_lock s = false;
  vi_global : chain s (g_global_free_chunks s) G;
  vi_pool : forall n l, P !! n = Some l -> exists pool, g_numa_pools s !! n = Some pool /\
    chain s (free_chunks pool) l /\ available_count pool = Z.of_nat (length l) /\
    (length l <= 32)%nat /\
    forall c, c ∈ l -> magic (chunk_of s c) = LZ_CHUNK_MAGIC_V2 /\ node_id (chunk_of s c) = Z.of_nat n;
  vi_chunks : forall c, c ∈ G ++ concat P -> chunk_ok s c;
  vi_nodup : NoDup (G ++ concat P)
}.

Lemma chain_ext s s' a l :
  (forall c, c ∈ l -> chunk_next (chunk_of s' c) = chunk_next (chunk_of s c)) ->
  chain s a l -> chain s' a l.
Proof.
  revert a. induction l as [|c l IH]; intros a Hc; [done|]. cbn. intros (-> & Hn & Hl).
  rewrite Hc by set_solver. split_and!; [done..|]. apply IH; [set_solver|done].
Qed.



Lemma chunk_ok_mono s s' c :
  (forall x, mapped s x = true -> mapped s' x = true) -> chunk_ok s c -> chunk_ok s' c.
Proof. intros Hm (? & ? & ? & ?). split_and!; auto. Qed.

Lemma chunk_ok_self s c : chunk_ok s c -> mapped s c = true.
Proof. intros (_ & _ & _ & Hm). apply Hm. lia. Qed.

(** The invariant only depends on the pools, the listed headers and what is
    mapped. *)
Lemma vmm_inv_keep s s' G P :
  vmm_inv s G P -> vmm_part s' = vmm_part s ->
  (forall c, c ∈ G ++ concat P -> chunk_ok s' c /\ chunk_of s' c = chunk_of s c) ->
  vmm_inv s' G P.
Proof.
  intros [Hlen Hlk Hg Hp Hc Hnd] [= _ E1 E2 E3 E4] Hch.
  constructor; rewrite ?E1, ?E2, ?E3, ?E4; try done.
  - eapply chain_ext; [|done]. intros c Hin. by rewrite (proj2 (Hch c ltac:(set_solver))).
  - intros n l Hl. destruct (Hp n l Hl) as (pool & Hpl & Hchn & Hct & Hle & Hmg).
    assert (forall c, c ∈ l -> chunk_of s' c = chunk_of s c) as Hl'.
    { intros c Hin. apply Hch. apply elem_of_app. right. by eapply elem_of_concat_lookup. }
    exists pool. split_and!; try done.
    + eapply chain_ext; [|done]. intros c Hin. by rewrite Hl'.
    + intros c Hin. rewrite Hl' by done. auto.
  - intros c Hin. by apply Hch.
Qed.

Lemma vmm_inv_frame s s' G P :
  vmm_inv s G P -> vmm_part s' = vmm_part s ->
  (forall x, mapped s x = true -> mapped s' x = true) ->
  (forall c, c ∈ G ++ concat P -> chunk_of s' c = chunk_of s c) ->
  vmm_inv s' G P.
Proof.
  intros Hv Ev Hm Hch. eapply vmm_inv_keep; [done..|]. intros c Hc. split; [|auto].
  eapply chunk_ok_mono; [done|]. by apply (vi_chunks _ _ _ Hv).
Qed.

(** Replacing the global list. *)
Lemma vmm_inv_global s s' G G' P :
  vmm_inv s G P -> g_numa_pools s' = g_numa_pools s -> g_pool_locks s' = g_pool_locks s ->
  g_global_pool_lock s' = false ->
  (forall x, mapped s x = true -> mapped s' x = true) ->
  (forall c, c ∈ concat P -> chunk_of s' c = chunk_of s c) ->
  chain s' (g_global_free_chunks s') G' -> (forall c, c ∈ G' -> chunk_ok s' c) ->
  NoDup (G' ++ concat P) -> vmm_inv s' G' P.
Proof.
  intros [Hlen Hlk Hg Hp Hc Hnd] E1 E2 E3 Hm Hch Hg' Hok Hnd'.
  constructor; rewrite ?E1, ?E2; try done.
  - intuition.
  - intros n l Hl. destruct (Hp n l Hl) as (pool & Hpl & Hchn & Hct & Hle & Hmg).
    assert (forall c, c ∈ l -> chunk_of s' c = chunk_of s c) as Hl'.
    { intros c Hin. apply Hch. by eapply elem_of_concat_lookup. }
    exists pool. split_and!; try done.
    + eapply chain_ext; [|done]. intros c Hin. by rewrite Hl'.
    + intros c Hin. rewrite Hl' by done. auto.
  - intros c [Hin|Hin]%elem_of_app; [auto|]. eapply chunk_ok_mono; [done|]. apply Hc. set_solver.
Qed.

(** Replacing the cache list of one node. *)
Lemma vmm_inv_pool s s' G P n l l' pool' :
  vmm_inv s G P -> P !! n = Some l -> (length l' <= 32)%nat ->
  s' = set_g_numa_pools (<[n := pool']> (g_numa_pools s)) (set_h_chunks (h_chunks s') s) ->
  (forall c, c ∈ G ++ concat P -> c ∉ l' -> chunk_of s' c = chunk_of s c) ->
  NoDup (G ++ concat (<[n := l']> P)) ->
  chain s' (free_chunks pool') l' -> available_count pool' = Z.of_nat (length l') ->
  (forall c, c ∈ l' -> chunk_ok s c /\
     magic (chunk_of s' c) = LZ_CHUNK_MAGIC_V2 /\ node_id (chunk_of s' c) = Z.of_nat n) ->
  vmm_inv s' G (<[n := l']> P).
Proof.
  intros [Hlen Hlk Hg Hp Hc Hnd] Hn Hle Hs' Hch Hnd' Hchain Hcnt Hok.
  pose proof (lookup_lt_Some _ _ _ Hn) as Hlt.
  assert (forall c, mapped s' c = mapped s c) as Hm by (intros; rewrite Hs'; done).
  assert (forall c, c ∈ concat (<[n := l']> P) -> c ∈ l' \/ c ∈ concat P) as Hsplit.
  { intros c. rewrite !list_elem_of_In, !in_concat. intros (k & Hk & Hin).
    apply list_elem_of_In, list_elem_of_lookup in Hk as [i Hi].
    rewrite list_lookup_insert in Hi. destruct (decide _) as [[-> _]|].
    - left. congruence.
    - right. exists k. split; [|done]. apply list_elem_of_In. by eapply list_elem_of_lookup_2. }
  apply NoDup_app in Hnd' as (Hnd1 & Hdisj & Hnd2).
  constructor.
  - rewrite Hs'. cbn. by rewrite !length_insert.
  - by rewrite Hs'.
  - replace (g_global_free_chunks s') with (g_global_free_chunks s) by (rewrite Hs'; done).
    eapply chain_ext; [|done]. intros c Hin. rewrite Hch; [done|set_solver|].
    intros Hin'. apply (Hdisj c Hin). eapply elem_of_concat_lookup; [|done].
    by apply list_lookup_insert_eq.
  - intros k q Hk. rewrite list_lookup_insert in Hk. destruct (decide _) as [[<- _]|Hne].
    + simplify_eq. exists pool'. rewrite Hs' at 1. cbn.
      rewrite list_lookup_insert_eq by lia. split_and!; try done. intros c Hin. by apply Hok.
    + destruct (Hp k q Hk) as (pool & Hpl & Hchn & Hct & Hle' & Hmg).
      assert (n <> k) as Hnk by naive_solver.
      assert (forall c, c ∈ q -> chunk_of s' c = chunk_of s c) as Hq.
      { intros c Hin. apply Hch; [apply elem_of_app; right; by eapply elem_of_concat_lookup|].
        intros Hin'. eapply (NoDup_concat_disj (<[n := l']> P) n k); [done|exact Hnk|..|exact Hin'|exact Hin].
        - by apply list_lookup_insert_eq.
        - by rewrite list_lookup_insert_ne. }
      exists pool. rewrite Hs' at 1. cbn. rewrite list_lookup_insert_ne by done.
      split_and!; try done.
      * eapply chain_ext; [|done]. intros c Hin. by rewrite Hq.
      * intros c Hin. rewrite Hq by done. auto.
  - intros c Hin. eapply (chunk_ok_mono s); [intros; by rewrite Hm|].
    apply elem_of_app in Hin as [Hin|Hin]; [apply Hc; set_solver|].
    apply Hsplit in Hin as [Hin|Hin]; [by apply Hok|apply Hc; set_solver].
  - by apply NoDup_app.
Qed.

Section vmm_rules.
Context `{EnvLaws}.

Lemma wp_map_huge_aligned size Q s :
  0 < size -> size mod 2 ^ 21 = 0 -> size + LZ_HUGE_PAGE_SIZE < 2 ^ 64 ->
  (sys_mmap (st_clock s) (st_mapped s) (size + LZ_HUGE_PAGE_SIZE) = None ->
   Q None (mmap_failed s (size + LZ_HUGE_PAGE_SIZE))) ->
  (forall raw a s', sys_mmap (st_clock s) (st_mapped s) (size + LZ_HUGE_PAGE_SIZE) = Some raw ->
     fresh_mapping s a size s' -> Q (Some a) s') ->
  wp (map_huge_aligned size) Q s.
Proof.
  intros Hsz Hmod Hlt Hfail HQ. unfold map_huge_aligned.
  rewrite (u64_small (size + LZ_HUGE_PAGE_SIZE)) by (unfold LZ_HUGE_PAGE_SIZE in *; lia).
  wp_step. apply wp_mmap. destruct (sys_mmap _ _ _) as [raw|] eqn:Em; [|wp_steps; auto].
  clear Hfail. destruct (mmap_fresh _ _ _ _ Em) as (_ & Hpos & Hpage & Hlim & _).
  unfold LZ_HUGE_PAGE_SIZE in *. change 2097152 with (2 ^ 21) in *.
  assert (size mod 4096 = 0) by (apply (mod_pow2_weaken _ 12 21); [lia|done]).
  assert ((size + 2 ^ 21) mod 4096 = 0) as Hl4 by (apply mod_mul_add; done).
  rewrite page_round_id in Hlim by done.
  rewrite land_pow2_mask by lia.
  destruct (Z.eqb_spec (raw mod 2 ^ 21) 0) as [Hz|Hz]; cbn [negb].
  - wp_step. apply (wp_munmap_if true). intros s' Hs Hm. wp_steps. apply (HQ raw); [done|].
    eapply trimmed_mapping; [exact Em|done|done|lia|lia|lia|done|]. intros x.
    rewrite Hm. f_equal. rewrite u64_small by lia.
    rewrite (page_round_id (2 ^ 21)) by done. lia.
  - destruct (LZ_ALIGN_UP_spec raw 21) as [Hal Hr]; [lia..|].
    assert (LZ_ALIGN_UP raw (2 ^ 21) mod 4096 = 0) by (apply (mod_pow2_weaken _ 12 21); [lia|done]).
    set (al := LZ_ALIGN_UP raw (2 ^ 21)) in *. clearbody al.
    assert ((al - raw) mod 4096 = 0 /\ (size + 2 ^ 21 - (al - raw) - size) mod 4096 = 0)
      as [Hp1 Hp2] by (change (2 ^ 21) with 2097152 in *; clear - Hpage H2; dlia).
    rewrite (u64_small (al - raw)), (u64_small (size + 2 ^ 21 - (al - raw) - size)),
      (u64_small (al + size)) by lia.
    wp_step. apply wp_munmap_if. intros s1 Hs1 Hm1.
    wp_step. apply wp_munmap_if. intros s2 Hs2 Hm2. wp_steps. apply (HQ raw); [done|].
    eapply trimmed_mapping; [exact Em|done|done|lia|lia|lia|by eapply same_but_maps_trans|].
    intros x. rewrite Hm2, Hm1, !page_round_id, <- andb_assoc by done.
    f_equal. lia.
Qed.

(** ** Locks and pools *)

Lemma wp_pool_lock n Q s :
  g_pool_locks s !! n = Some false ->
  Q tt (set_g_pool_locks (<[n := true]> (g_pool_locks s)) s) -> wp (pool_lock (Z.of_nat n)) Q s.
Proof. intros Hl HQ. unfold pool_lock. wp_steps. rewrite Nat2Z.id, Hl. by wp_steps. Qed.

Lemma wp_pool_unlock n Q s :
  Q tt (set_g_pool_locks (<[n := false]> (g_pool_locks s)) s) -> wp (pool_unlock (Z.of_nat n)) Q s.
Proof. intros HQ. unfold pool_unlock. wp_steps. by rewrite Nat2Z.id. Qed.

Lemma wp_pool_at n p Q s : g_numa_pools s !! n = Some p -> Q p s -> wp (pool_at n) Q s.
Proof. intros Hp HQ. unfold pool_at. wp_steps. by rewrite Hp. Qed.

Lemma wp_update_pool n p f Q s :
  g_numa_pools s !! n = Some p ->
  Q tt (set_g_numa_pools (<[n := f p]> (g_numa_pools s)) s) -> wp (update_pool n f) Q s.
Proof. intros Hp HQ. unfold update_pool. wp_step. eapply wp_pool_at; [done|]. by wp_steps. Qed.

Lemma wp_global_lock Q s :
  g_global_pool_lock s = false -> Q tt (set_g_global_pool_lock true s) -> wp global_pool_lock Q s.
Proof. intros Hl HQ. unfold global_pool_lock. wp_steps. rewrite Hl. by wp_steps. Qed.

Lemma wp_global_unlock Q s : Q tt (set_g_global_pool_lock false s) -> wp global_pool_unlock Q s.
Proof. done. Qed.

Lemma get_pool_small n : (n < 16)%nat -> lz_topology_get_pool (Z.of_nat n) = n.
Proof.
  intros. unfold lz_topology_get_pool, LZ_MAX_NUMA_NODES. zfalse (16 <=? Z.of_nat n). lia.
Qed.

Lemma vi_node s G P n l : vmm_inv s G P -> P !! n = Some l ->
  (n < 16)%nat /\ g_pool_locks s !! n = Some false.
Proof.
  intros Hi Hn. pose proof (lookup_lt_Some _ _ _ Hn). destruct (vi_len _ _ _ Hi) as [Hl _].
  split; [lia|]. destruct (vi_locks _ _ _ Hi) as [-> _]. apply lookup_replicate_2. lia.
Qed.

(** The state with another cache record for node [n]. *)
Definition with_pool (n : nat) (p : lz_numa_pool_t) (s : state) : state :=
  set_g_numa_pools (<[n := p]> (g_numa_pools s)) s.

Lemma wp_pop_pool n l G P Q s :
  vmm_inv s G P -> P !! n = Some l ->
  (l = [] -> Q NULL s) ->
  (forall c l', l = c :: l' -> Q c
     (with_pool n (mk_pool (chunk_next (chunk_of s c)) (Z.of_nat (length l'))) s)) ->
  wp (pop_pool (Z.of_nat n)) Q s.
Proof.
  intros Hi Hn Hnil Hcons. destruct (vi_node _ _ _ _ _ Hi Hn) as [Hlt Hlk].
  destruct (vi_pool _ _ _ Hi n l Hn) as ([top cnt] & Hp & Hch & Hct & Hle & _). cbn in *.
  unfold pop_pool. rewrite get_pool_small by done.
  wp_step. apply wp_pool_lock; [done|]. wp_step. eapply wp_pool_at; [done|]. cbn [free_chunks].
  destruct l as [|c l']; cbn in Hch.
  - subst top. cbn. wp_steps. apply wp_pool_unlock. wp_steps.
    replace (set_g_pool_locks _ _) with s; [by apply Hnil|].
    state_eq. symmetry. by apply insert_back.
  - destruct Hch as (-> & Hc0 & Hch). zfalse (c =? NULL). cbn [negb]. wp_steps.
    apply wp_chunk_at.
    { apply chunk_ok_self, (vi_chunks _ _ _ Hi). apply elem_of_app. right.
      eapply elem_of_concat_lookup; [done|]. set_solver. }
    wp_step. eapply wp_update_pool; [done|]. wp_step.
    eapply wp_update_pool; [cbn; apply list_lookup_insert_eq; by eapply lookup_lt_Some|].
    wp_steps. apply wp_pool_unlock. wp_steps.
    match goal with |- Q c ?s' => enough (s' = with_pool n
      (mk_pool (chunk_next (chunk_of s c)) (Z.of_nat (length l'))) s) as -> by by apply Hcons end.
    state_eq; [|by apply insert_back]. cbn.
    rewrite list_insert_insert_eq. f_equal. cbn [length] in *. rewrite Hct. unfold set_available_count. cbn.
    f_equal. rewrite u64_small; lia.
Qed.

(** The state after [push_global c]. *)
Definition pushed_global (c : Z) (s : state) : state :=
  set_g_global_free_chunks c
    (set_h_chunks (<[c := set_chunk_next (g_global_free_chunks s) (chunk_of s c)]> (h_chunks s)) s).

Lemma wp_push_global c Q s :
  mapped s c = true -> Q tt (pushed_global c s) -> wp (push_global c) Q s.
Proof. intros Hm HQ. unfold push_global. wp_steps. apply wp_update_chunk; [done|]. by wp_steps. Qed.

Lemma chunk_of_pushed c s c' :
  chunk_of (pushed_global c s) c' =
  if decide (c = c') then set_chunk_next (g_global_free_chunks s) (chunk_of s c) else chunk_of s c'.
Proof. apply (chunk_of_insert s). Qed.

Lemma chain_pushed c s G :
  c <> NULL -> c ∉ G -> chain s (g_global_free_chunks s) G ->
  chain (pushed_global c s) (g_global_free_chunks (pushed_global c s)) (c :: G).
Proof.
  intros Hc Hn Hch. cbn [chain]. split_and!; [done..|]. rewrite chunk_of_pushed, decide_True by done.
  cbn. eapply chain_ext; [|done]. intros d Hd. rewrite chunk_of_pushed, decide_False; set_solver.
Qed.

(** The first [n] chunks of an extent, in the order the loop pushes them. *)
Fixpoint extent (base : Z) (n : nat) : list Z :=
  match n with
  | O => []
  | S n => (base + Z.of_nat n * 2 ^ 21) :: extent base n
  end.

Lemma elem_of_extent base n c :
  c ∈ extent base n <-> exists i, 0 <= i < Z.of_nat n /\ c = base + i * 2 ^ 21.
Proof.
  induction n as [|n IH]; cbn [extent].
  - split; [by intros ?%not_elem_of_nil|]. intros (i & ? & _). lia.
  - rewrite elem_of_cons, IH. split.
    + intros [->|(i & Hi & ->)]; [exists (Z.of_nat n)|exists i]; lia.
    + intros (i & Hi & ->). destruct (decide (i = Z.of_nat n)) as [->|]; [by left|].
      right. exists i. lia.
Qed.

Lemma NoDup_extent base n : NoDup (extent base n).
Proof.
  induction n as [|n IH]; cbn [extent]; constructor; [|done].
  rewrite elem_of_extent. intros (i & Hi & ?). lia.
Qed.

(** The chunks of a fresh mapping are new, aligned and mapped. *)
Lemma extent_ok s base s' c :
  fresh_mapping s base LZ_EXTENT_SIZE s' -> c ∈ extent base 32 ->
  chunk_ok s' c /\ forall x, c <= x < c + 2 ^ 21 -> mapped s x = false.
Proof.
  intros [Hal [Hr1 Hr2] Hf Hm _ _ _ _ _] (i & Hi & ->)%elem_of_extent.
  change LZ_EXTENT_SIZE with (32 * 2 ^ 21) in *. split.
  - split_and!; [|lia..|].
    + apply mod_mul_add; [done|done|]. by apply Z.mod_mul.
    + intros x Hx. rewrite Hm. destruct (mapped s x); [done|]. cbn. lia.
  - intros x Hx. apply Hf. lia.
Qed.

(** Filling the global pool from an extent: the loop of [sys_alloc_extent]. *)
Lemma wp_fill_extent base G Q s :
  (forall c, c ∈ extent base 32 -> chunk_ok s c) ->
  (forall c, c ∈ extent base 32 -> c ∉ G) ->
  chain s (g_global_free_chunks s) G ->
  (forall s', chain s' (g_global_free_chunks s') (extent base 32 ++ G) ->
     s' = set_g_global_free_chunks (g_global_free_chunks s') (set_h_chunks (h_chunks s') s) ->
     (forall c, c ∉ extent base 32 -> chunk_of s' c = chunk_of s c) -> Q tt s') ->
  wp (for_loop (Z.to_nat LZ_EXTENT_CHUNKS) 0
       (fun i => push_global (u64 (base + i * LZ_HUGE_PAGE_SIZE)))) Q s.
Proof.
  intros Hok Hdisj Hch HQ.
  apply (wp_for_loop (fun i s' =>
    chain s' (g_global_free_chunks s') (extent base (Z.to_nat i) ++ G) /\
    s' = set_g_global_free_chunks (g_global_free_chunks s') (set_h_chunks (h_chunks s') s) /\
    (forall c, c ∉ extent base (Z.to_nat i) -> chunk_of s' c = chunk_of s c))).
  - split_and!; [done|by destruct s|done].
  - intros j s' Hj (Hc & Hs & Hsame). change (0 + Z.of_nat (Z.to_nat LZ_EXTENT_CHUNKS)) with 32 in Hj.
    assert (base + j * 2 ^ 21 ∈ extent base 32) as Hin by (apply elem_of_extent; exists j; lia).
    destruct (Hok _ Hin) as (_ & Hpos & Hlim & _).
    change LZ_HUGE_PAGE_SIZE with (2 ^ 21). rewrite u64_small by lia.
    apply wp_push_global; [rewrite Hs; apply (chunk_ok_self s), (Hok _ Hin)|].
    replace (Z.to_nat (j + 1)) with (S (Z.to_nat j)) by lia.
    assert (base + j * 2 ^ 21 ∉ extent base (Z.to_nat j)) as Hnin.
    { rewrite elem_of_extent. intros (i & Hi & ?). lia. }
    cbn [extent]. rewrite Z2Nat.id by lia. split_and!.
    + apply chain_pushed; [lia| |done]. rewrite elem_of_app. naive_solver.
    + rewrite Hs. done.
    + intros c [Hcn ?]%not_elem_of_cons. rewrite chunk_of_pushed, decide_False by done. auto.
  - intros s' (Hc & Hs & Hsame). change (Z.to_nat (0 + Z.of_nat (Z.to_nat LZ_EXTENT_CHUNKS))) with 32%nat in *.
    by apply HQ.
Qed.

(** What a successful extent allocation does when the pools hold [G], [P]. *)
Record extent_post (s : state) (G : list Z) (P : list (list Z)) (base : Z) (s' : state) : Prop := {
  ep_inv : vmm_inv s' (extent base 32 ++ G) P;
  ep_fresh : forall c, c ∈ extent base 32 -> forall x, c <= x < c + 2 ^ 21 -> mapped s x = false;
  ep_ext : mem_ext s s';
  ep_rtree : rtree_part s' = rtree_part s;
  ep_thread : thread_part s' = thread_part s;
  ep_log : st_refused s' = st_refused s
}.

Lemma wp_sys_alloc_extent G P Q s :
  vmm_inv s G P ->
  (sys_mmap (st_clock s) (st_mapped s) (LZ_EXTENT_SIZE + LZ_HUGE_PAGE_SIZE) = None ->
   Q tt (mmap_failed s (LZ_EXTENT_SIZE + LZ_HUGE_PAGE_SIZE))) ->
  (forall raw base s', sys_mmap (st_clock s) (st_mapped s) (LZ_EXTENT_SIZE + LZ_HUGE_PAGE_SIZE) = Some raw ->
     extent_post s G P base s' -> Q tt s') ->
  wp sys_alloc_extent Q s.
Proof.
  intros Hi Hfail HQ. unfold sys_alloc_extent. wp_step.
  apply wp_map_huge_aligned; [done..|intros; wp_steps; auto|].
  intros raw base s1 Em Hfm. unfold madvise_hugepage. wp_steps.
  destruct (vi_locks _ _ _ Hi) as [Hl1 Hl2].
  assert (vmm_inv s1 G P) as Hi1.
  { eapply vmm_inv_frame; [done|apply Hfm|apply Hfm|]. intros c Hc.
    apply (ext_chunk _ _ (fm_ext _ _ _ _ Hfm)). by apply chunk_ok_self, (vi_chunks _ _ _ Hi). }
  apply wp_global_lock; [apply (vi_locks _ _ _ Hi1)|]. wp_step.
  assert (forall c, c ∈ extent base 32 -> c ∉ G ++ concat P) as Hnew.
  { intros c Hc Hin. destruct (extent_ok _ _ _ _ Hfm Hc) as [_ Hx].
    apply (vi_chunks _ _ _ Hi) in Hin. apply chunk_ok_self in Hin. rewrite Hx in Hin; [done|].
    lia. }
  eapply (wp_fill_extent base G);
    [intros c Hc; exact (proj1 (extent_ok s base s1 c Hfm Hc))|..|].
  { intros c Hc Hin. apply (Hnew c Hc). auto with lz. }
  { eapply chain_ext; [|apply (vi_global _ _ _ Hi1)]. done. }
  intros s2 Hch Hs2 Hsame. unfold global_pool_unlock. wp_steps. eapply (HQ raw base); [exact Em|].
  set (s3 := set_g_global_pool_lock false s2).
  assert (forall x, mapped s3 x = mapped s1 x) as Hm3 by (intros; unfold s3; rewrite Hs2; done).
  assert (forall c, c ∉ extent base 32 -> chunk_of s3 c = chunk_of s1 c) as Hc3.
  { intros c Hc. exact (Hsame c Hc). }
  constructor.
  - eapply (vmm_inv_global s1); [done|unfold s3; rewrite Hs2; done..| | | | |].
    + intros x Hx. by rewrite Hm3.
    + intros c Hc. apply Hc3. intros Hin. apply (Hnew c Hin). auto with lz.
    + eapply (chain_ext s2); [done|exact Hch].
    + intros c [Hc|Hc]%elem_of_app; (eapply (chunk_ok_mono s1); [intros; by rewrite Hm3|]).
      * by eapply extent_ok.
      * apply (vi_chunks _ _ _ Hi1). auto with lz.
    + rewrite <- app_assoc. apply NoDup_app. split_and!; [apply NoDup_extent|exact Hnew|].
      apply (vi_nodup _ _ _ Hi).
  - intros c Hc. by eapply extent_ok.
  - destruct (fm_ext _ _ _ _ Hfm) as [Em' Ec Eb Ed El]. constructor; [intros x Hx..|].
    + rewrite Hm3. auto.
    + rewrite Hc3; [auto|]. intros Hin. destruct (extent_ok _ _ _ _ Hfm Hin) as [_ Hz].
      rewrite Hz in Hx; [done|lia].
    + rewrite <- Eb by done. unfold s3. by rewrite Hs2.
    + rewrite <- Ed by done. unfold s3. by rewrite Hs2.
    + eapply (only_grows_trans s s1); [done|exact El|]. apply only_grows_same; unfold s3; by rewrite Hs2.
  - rewrite <- (fm_rtree _ _ _ _ Hfm). unfold s3. by rewrite Hs2.
  - rewrite <- (fm_thread _ _ _ _ Hfm). unfold s3. by rewrite Hs2.
  - rewrite <- (fm_log _ _ _ _ Hfm). unfold s3. by rewrite Hs2.
Qed.

(** ** Allocation *)

(** Popping the head of the global list. *)
Lemma wp_pop_global_tail G P Q s :
  vmm_inv s G P ->
  (G = [] -> Q NULL s) ->
  (forall c G', G = c :: G' -> Q c (set_g_global_free_chunks (chunk_next (chunk_of s c)) s)) ->
  wp (top ← fetch g_global_free_chunks;
      chunk ← (if negb (top =? NULL) then
                 c ← chunk_at top;
                 modify (set_g_global_free_chunks (chunk_next c));;
                 mret top
               else mret NULL);
      global_pool_unlock;; mret chunk) Q (set_g_global_pool_lock true s).
Proof.
  intros Hi Hnil Hcons. destruct (vi_locks _ _ _ Hi) as [_ Hlk].
  pose proof (vi_global _ _ _ Hi) as Hg. unfold global_pool_unlock. wp_steps. cbn.
  destruct G as [|c G']; cbn in Hg.
  - rewrite Hg. cbn. wp_steps.
    replace (set_g_global_pool_lock _ _) with s; [auto|]. state_eq. cbn. congruence.
  - destruct Hg as (-> & Hc & Hg). zfalse (c =? NULL). cbn. wp_steps. apply wp_chunk_at.
    { apply (chunk_ok_self s), (vi_chunks _ _ _ Hi). set_solver. }
    wp_steps. match goal with |- Q c ?s' =>
      replace s' with (set_g_global_free_chunks (chunk_next (chunk_of s c)) s);
      [by eapply Hcons|] end.
    state_eq. cbn. congruence.
Qed.

Lemma wp_pop_global G P Q s :
  vmm_inv s G P ->
  (forall c G', G = c :: G' -> Q c (set_g_global_free_chunks (chunk_next (chunk_of s c)) s)) ->
  (G = [] -> sys_mmap (st_clock s) (st_mapped s) (LZ_EXTENT_SIZE + LZ_HUGE_PAGE_SIZE) = None ->
   Q NULL (mmap_failed s (LZ_EXTENT_SIZE + LZ_HUGE_PAGE_SIZE))) ->
  (forall raw base s1, G = [] ->
     sys_mmap (st_clock s) (st_mapped s) (LZ_EXTENT_SIZE + LZ_HUGE_PAGE_SIZE) = Some raw ->
     extent_post s [] P base s1 -> Q (base + 31 * 2 ^ 21)
     (set_g_global_free_chunks (chunk_next (chunk_of s1 (base + 31 * 2 ^ 21))) s1)) ->
  wp pop_global Q s.
Proof.
  intros Hi Hcons Hoom Hext. destruct (vi_locks _ _ _ Hi) as [_ Hlk].
  pose proof (vi_global _ _ _ Hi) as Hg. unfold pop_global.
  wp_step. apply wp_global_lock; [done|]. do 2 wp_step. cbn [g_global_free_chunks set_g_global_pool_lock].
  destruct G as [|c G']; cbn in Hg.
  - rewrite Hg, Z.eqb_refl. cbv iota. wp_step. wp_step. apply wp_global_unlock. wp_step.
    replace (set_g_global_pool_lock false (set_g_global_pool_lock true s)) with s
      by (state_eq; cbn; congruence).
    eapply wp_sys_alloc_extent; [done|..].
    + intros Hf. apply wp_global_lock; [done|].
      apply (wp_pop_global_tail [] P); [|auto|done].
      eapply vmm_inv_frame; [done..|]. done.
    + intros raw base s1 Em Hp. pose proof (ep_inv _ _ _ _ _ Hp) as Hi1. rewrite app_nil_r in Hi1.
      apply wp_global_lock; [apply (vi_locks _ _ _ Hi1)|].
      eapply wp_pop_global_tail; [done|done|]. intros d G'' [= <- <-]. by eapply Hext.
  - destruct Hg as (-> & Hc & Hg). zfalse (c =? NULL). do 2 wp_step.
    eapply wp_pop_global_tail; [done|done|]. intros d G'' [= <- <-]. by eapply Hcons.
Qed.

(** The pools as an abstract machine: which chunk an allocation on node [n]
    takes and what is left.  [new] tells which extents the kernel may add,
    [refused] whether it refuses the one asked for. *)
Inductive pools_alloc (n : nat) (new : Z -> Prop) (refused : Prop) :
    list Z -> list (list Z) -> Z -> list Z -> list (list Z) -> Prop :=
  | alloc_cached G P c l :
      P !! n = Some (c :: l) -> pools_alloc n new refused G P c G (<[n := l]> P)
  | alloc_global c G P :
      P !! n = Some [] -> pools_alloc n new refused (c :: G) P c G P
  | alloc_extent base P :
      P !! n = Some [] -> new base ->
      pools_alloc n new refused [] P (base + 31 * 2 ^ 21) (extent base 31) P
  | alloc_oom P :
      P !! n = Some [] -> refused -> pools_alloc n new refused [] P NULL [] P.

(** What the kernel answers when an allocation that starts in [s] asks for an
    extent: its second call, after getcpu. *)
Definition extent_answer (s : state) : option Z :=
  sys_mmap (S (st_clock s)) (st_mapped s) (LZ_EXTENT_SIZE + LZ_HUGE_PAGE_SIZE).

(** An extent that the kernel grants, of which no byte was mapped. *)
Definition granted_extent (s : state) (base : Z) : Prop :=
  is_Some (extent_answer s) /\
  forall c, c ∈ extent base 32 -> forall x, c <= x < c + 2 ^ 21 -> mapped s x = false.

Record alloc_post (s : state) (n : nat) (r : Z) (s' : state) (G' : list Z) (P' : list (list Z)) : Prop := {
  ap_inv : vmm_inv s' G' P';
  ap_rtree : rtree_part s' = rtree_part s;
  ap_thread : thread_part s' = thread_part s;
  ap_frame : mem_frame (fun a => a = r) nowhere nowhere s s';
  ap_chunk : r <> NULL -> chunk_ok s' r /\ r ∉ G' ++ concat P' /\
    chunk_next (chunk_of s' r) = NULL /\ magic (chunk_of s' r) = LZ_CHUNK_MAGIC_V2 /\
    node_id (chunk_of s' r) = Z.of_nat n;
  ap_log : st_refused s' = if r =? NULL
    then (S (st_clock s), LZ_EXTENT_SIZE + LZ_HUGE_PAGE_SIZE) :: st_refused s else st_refused s
}.

(** The node a call made now would run on. *)
Definition current_node (s : state) : nat :=
  match sys_getcpu (st_clock s) with
  | Some (_, node) => if node <? LZ_MAX_NUMA_NODES then Z.to_nat node else 0%nat
  | None => 0%nat
  end.

Lemma current_node_lt s : (current_node s < 16)%nat.
Proof.
  unfold current_node, LZ_MAX_NUMA_NODES. destruct (sys_getcpu _) as [[cpu node]|]; [|lia].
  destruct (Z.ltb_spec node 16); lia.
Qed.

Lemma wp_get_current_node Q s :
  Q (Z.of_nat (current_node s)) (set_st_clock (S (st_clock s)) s) -> wp lz_get_current_node Q s.
Proof.
  intros HQ. unfold lz_get_current_node. wp_steps. unfold current_node in HQ.
  destruct (sys_getcpu _) as [[cpu node]|] eqn:E; [|by wp_steps].
  pose proof (getcpu_unsigned _ _ _ E). destruct (node <? LZ_MAX_NUMA_NODES); wp_steps; [|done].
  by rewrite Z2Nat.id in HQ.
Qed.

(** Detaching chunk [c] from the lists and rewriting its header. *)
Lemma alloc_post_intro s s1 s2 n c G' P' :
  vmm_inv s1 G' P' -> c ∉ G' ++ concat P' -> chunk_ok s1 c ->
  rtree_part s1 = rtree_part s -> thread_part s1 = thread_part s -> mem_ext s s1 ->
  st_refused s1 = st_refused s -> only_chunk c s1 s2 ->
  chunk_next (chunk_of s2 c) = NULL -> magic (chunk_of s2 c) = LZ_CHUNK_MAGIC_V2 ->
  node_id (chunk_of s2 c) = Z.of_nat n ->
  alloc_post s n c s2 G' P'.
Proof.
  intros Hi Hn Hok Hr Ht [Em Ec Eb Ed El] Hlog [Es Ex] H1 H2 H3.
  assert (forall x, mapped s2 x = mapped s1 x) as Hm by (intros; rewrite Es; done).
  constructor.
  - eapply vmm_inv_frame; [done|by rewrite Es|intros; by rewrite Hm|].
    intros d Hd. apply Ex. intros ->. done.
  - rewrite <- Hr. by rewrite Es.
  - rewrite <- Ht. by rewrite Es.
  - constructor; [intros a Ha; rewrite Hm; auto|intros a Ha Hne..|].
    + rewrite Ex by done. auto.
    + rewrite <- Eb by done. by rewrite Es.
    + rewrite <- Ed by done. by rewrite Es.
    + eapply (only_grows_trans s s1); [done|exact El|]. apply only_grows_same; by rewrite Es.
  - intros _. split_and!; try done. eapply chunk_ok_mono; [|done]. intros; by rewrite Hm.
  - destruct Hok as (_ & ? & _). zfalse (c =? NULL). rewrite <- Hlog. by rewrite Es.
Qed.

(** The header writes of the slow path of [lz_vmm_alloc_chunk]. *)
Lemma wp_neutralize c node Q s :
  mapped s c = true ->
  (forall s', only_chunk c s s' -> chunk_next (chunk_of s' c) = NULL ->
     magic (chunk_of s' c) = LZ_CHUNK_MAGIC_V2 -> node_id (chunk_of s' c) = node -> Q c s') ->
  wp (update_chunk c (set_chunk_next NULL);;
      update_chunk c (set_owning_tlh NULL);;
      update_chunk c (set_node_id node);;
      update_chunk c (set_magic LZ_CHUNK_MAGIC_V2);;
      update_chunk c (set_canary 0);;
      update_chunk c (set_checksum 0);;
      mret c) Q s.
Proof.
  intros Hm HQ. pose proof (only_chunk_refl c s) as H0'.
  do 6 (wp_step; eapply wp_update_only; [eassumption|exact Hm|]; clear dependent H0';
        let s' := fresh "s" in let E := fresh "E" in intros s' H0' E).
  wp_steps. apply HQ; [done|..]; by rewrite E4, E3, E2, E1, E0, E.
Qed.

(** The lists after removing their head. *)
Lemma vmm_inv_pop_pool s G P n c l :
  vmm_inv s G P -> P !! n = Some (c :: l) ->
  let s1 := with_pool n (mk_pool (chunk_next (chunk_of s c)) (Z.of_nat (length l))) s in
  vmm_inv s1 G (<[n := l]> P) /\ c ∉ G ++ concat (<[n := l]> P).
Proof.
  intros Hi Hn s1. destruct (vi_pool _ _ _ Hi _ _ Hn) as (pool & Hp & Hch & Hct & Hle & Hmg).
  pose proof (vi_nodup _ _ _ Hi) as Hnd. rewrite (concat_insert_perm P n [c] l Hn) in Hnd.
  cbn [app] in Hnd. rewrite <- Permutation_middle in Hnd. apply NoDup_cons in Hnd as [Hnin Hnd].
  split; [|done]. cbn in Hle. destruct Hch as (_ & _ & Hch).
  eapply vmm_inv_pool; [done|done|lia|by destruct s|done|done| |done|].
  - eapply chain_ext; [|exact Hch]. done.
  - intros d Hd. split; [|apply Hmg; set_solver].
    apply (vi_chunks _ _ _ Hi). apply elem_of_app_right.
    eapply elem_of_concat_lookup; [done|set_solver].
Qed.

Lemma vmm_inv_pop_global s G P c :
  vmm_inv s (c :: G) P ->
  vmm_inv (set_g_global_free_chunks (chunk_next (chunk_of s c)) s) G P /\ c ∉ G ++ concat P.
Proof.
  intros Hi. pose proof (vi_nodup _ _ _ Hi) as Hnd. apply NoDup_cons in Hnd as [Hnin Hnd].
  split; [|done]. destruct (vi_global _ _ _ Hi) as (_ & _ & Hch).
  eapply vmm_inv_global; [done|done|done|apply (vi_locks _ _ _ Hi)|done|done| | |done].
  - eapply chain_ext; [|exact Hch]. done.
  - intros d Hd. apply (vi_chunks _ _ _ Hi d). set_solver.
Qed.

Lemma wp_vmm_alloc_chunk G P Q s :
  vmm_inv s G P ->
  (forall r s' G' P', alloc_post s (current_node s) r s' G' P' ->
     pools_alloc (current_node s) (granted_extent s) (extent_answer s = None) G P r G' P' -> Q r s') ->
  wp lz_vmm_alloc_chunk Q s.
Proof.
  intros Hi HQ. unfold lz_vmm_alloc_chunk. wp_step. apply wp_get_current_node.
  set (n := current_node s) in *. set (s0 := set_st_clock _ s).
  assert (vmm_inv s0 G P) as Hi0 by by eapply vmm_inv_frame.
  destruct (lookup_lt_is_Some_2 P n) as [l Hn].
  { destruct (vi_len _ _ _ Hi) as [-> _]. apply current_node_lt. }
  wp_step. eapply wp_pop_pool; [done..| |].
  2: { intros c l' ->. destruct (vmm_inv_pop_pool _ _ _ _ _ _ Hi0 Hn) as [Hi1 Hnin].
    destruct (vi_pool _ _ _ Hi0 _ _ Hn) as (_ & _ & (_ & Hc & _) & _ & _ & Hmg).
    destruct (Hmg c) as [Hm1 Hm2]; [set_solver|].
    assert (chunk_ok s0 c) as Hok.
    { apply (vi_chunks _ _ _ Hi0), elem_of_app_right. eapply elem_of_concat_lookup; [done|set_solver]. }
    zfalse (c =? NULL). cbn [negb]. wp_step.
    eapply wp_update_only; [apply only_chunk_refl|by apply chunk_ok_self in Hok|].
    intros s2 H2 E2. wp_steps. eapply HQ; [|by econstructor].
    eapply (alloc_post_intro s _ s2); try done; by rewrite E2. }
  intros ->. cbn [Z.eqb negb]. wp_step. eapply wp_pop_global; [done|..].
  - intros c G1 ->. destruct (vmm_inv_pop_global _ _ _ _ Hi0) as [Hi1 Hnin].
    destruct (vi_global _ _ _ Hi0) as (_ & Hc & _). zfalse (c =? NULL).
    assert (chunk_ok s0 c) as Hok by (apply (vi_chunks _ _ _ Hi0); set_solver).
    eapply wp_neutralize; [by apply chunk_ok_self in Hok|]. intros s2 H2 E1 E2 E3.
    eapply HQ; [|by econstructor]. by eapply (alloc_post_intro s _ s2).
  - intros -> Hf. wp_steps. eapply HQ; [|by econstructor]. constructor; try done.
    { by eapply vmm_inv_frame. }
    apply mem_ext_frame. transitivity s0; [done|apply mmap_failed_ext].
  - intros raw base s1 -> Em [Hi1 Hf He Hr Ht Hlog]. rewrite app_nil_r in Hi1.
    change (extent base 32) with ((base + 31 * 2 ^ 21) :: extent base 31) in Hi1.
    set (c := base + 31 * 2 ^ 21) in *.
    destruct (vmm_inv_pop_global _ _ _ _ Hi1) as [Hi2 Hnin].
    destruct (vi_global _ _ _ Hi1) as (_ & Hc & _). zfalse (c =? NULL).
    assert (chunk_ok s1 c) as Hok by (apply (vi_chunks _ _ _ Hi1); set_solver).
    eapply wp_neutralize; [by apply chunk_ok_self in Hok|]. intros s2 H2 E1 E2 E3.
    eapply HQ; [|apply alloc_extent; [done|]; split; [by exists raw|exact Hf]].
    eapply (alloc_post_intro s _ s2); try done.
    transitivity s0; [done|]. transitivity s1; [exact He|done].
Qed.

End vmm_rules.
