(* ===== verification/VmmSpec.v ===== *)
(** * What the chunk manager promises

    Release and purge against the representation of Vmm.v, and the theorems
    of the component: exact trimming of aligned mappings, refinement of the
    pools to stacks, capacity of the caches, conservation of chunks. *)

From S2P Require Import Prelude Common Machine Wp Testbed Security Vmm.

(** The effect of giving chunk [c] back: the pools become [G'], [P']. *)
Record free_post (s : state) (c : Z) (s' : state) (G' : list Z) (P' : list (list Z)) : Prop := {
  fp_inv : vmm_inv s' G' P';
  fp_rtree : rtree_part s' = rtree_part s;
  fp_thread : thread_part s' = thread_part s;
  fp_mapped : forall x, mapped s' x = mapped s x;
  fp_frame : mem_frame (fun a => a = c) nowhere
    (fun x => c + LZ_PAGE_SIZE <= x < c + LZ_HUGE_PAGE_SIZE) s s';
  fp_header : chunk_of s' c = set_chunk_next (chunk_next (chunk_of s' c)) (chunk_of s c)
}.

(** The pools as an abstract machine: a released chunk goes to the cache of
    its home node while there is room, else to the global list. *)
Inductive pools_free (n : nat) (c : Z) :
    list Z -> list (list Z) -> list Z -> list (list Z) -> Prop :=
  | free_cached G P l :
      P !! n = Some l -> (length l < 32)%nat -> pools_free n c G P G (<[n := c :: l]> P)
  | free_global G P l :
      P !! n = Some l -> length l = 32%nat -> pools_free n c G P (c :: G) P.

Section vmm_spec.
Context `{EnvLaws}.

Lemma wp_retire_to_global c G P Q s :
  vmm_inv s G P -> chunk_ok s c -> c ∉ G ++ concat P ->
  (forall s', free_post s c s' (c :: G) P -> Q tt s') ->
  wp (retire_to_global c) Q s.
Proof.
  intros Hi Hok Hn HQ. destruct (vi_locks _ _ _ Hi) as [_ Hlk].
  unfold retire_to_global, madvise_dontneed. wp_steps.
  apply wp_global_lock; [exact Hlk|]. wp_step.
  apply wp_push_global; [exact (chunk_ok_self s c Hok)|]. apply wp_global_unlock.
  match goal with |- Q tt ?s' => set (s1 := s') end.
  assert (forall x, chunk_of s1 x = if decide (c = x) then
    set_chunk_next (g_global_free_chunks s) (chunk_of s c) else chunk_of s x) as Hc.
  { intros x. exact (chunk_of_pushed c s x). }
  apply HQ. constructor; try done.
  - eapply (vmm_inv_global s); [done..| | | |].
    + intros d Hd. rewrite Hc, decide_False; [done|]. intros ->. auto with lz.
    + eapply (chain_ext (pushed_global c s)); [done|]. apply chain_pushed.
      * destruct Hok; lia.
      * auto with lz.
      * apply (vi_global _ _ _ Hi).
    + intros d [->|Hd]%elem_of_cons; [exact Hok|]. apply (vi_chunks _ _ _ Hi d). auto with lz.
    + cbn. constructor; [done|apply (vi_nodup _ _ _ Hi)].
  - constructor; [done| |done| |done].
    + intros a _ Ha. by rewrite Hc, decide_False.
    + intros a _ Ha. cbn. apply drop_mapped_other. lia.
  - by rewrite Hc, decide_True.
Qed.

(** The state in which chunk [c] is the first of cache [n]. *)
Lemma cached_post n c l top cnt G P s s1 :
  vmm_inv s G P -> chunk_ok s c -> c ∉ G ++ concat P -> P !! n = Some l -> (length l < 32)%nat ->
  g_numa_pools s !! n = Some (mk_pool top cnt) -> magic (chunk_of s c) = LZ_CHUNK_MAGIC_V2 -> node_id (chunk_of s c) = Z.of_nat n ->
  s1 = with_pool n (mk_pool c (Z.of_nat (length (c :: l))))
    (set_h_chunks (<[c := set_chunk_next top (chunk_of s c)]> (h_chunks s)) s) ->
  free_post s c s1 G (<[n := c :: l]> P).
Proof.
  intros Hi Hok Hnin Hn Hroom Hp Hmg Hnode Es1. assert (c <> NULL) by (destruct Hok; lia).
  destruct (vi_pool _ _ _ Hi n l Hn) as (pool & Hp' & Hch & _ & _ & Hall). rewrite Hp in Hp'. injection Hp' as <-. cbn in Hch.
  assert (forall x, chunk_of s1 x = if decide (c = x) then
    set_chunk_next top (chunk_of s c) else chunk_of s x) as Hc.
  { intros x. rewrite Es1. exact (chunk_of_insert s c _ x). }
  constructor; try (by rewrite Es1).
  - eapply vmm_inv_pool; [done|done|cbn; lia|by rewrite Es1|..| | |].
    + intros d _ Hd. rewrite Hc, decide_False; [done|]. intros ->. apply Hd. apply elem_of_cons. auto.
    + pose proof (vi_nodup _ _ _ Hi) as Hnd.
      rewrite (concat_insert_perm (<[n := c :: l]> P) n [c] l), list_insert_insert_eq,
        list_insert_id by (try apply list_lookup_insert_eq; try done; by eapply lookup_lt_Some).
      cbn [app]. rewrite <- Permutation_middle. by constructor.
    + cbn. split_and!; [done..|]. rewrite Hc, decide_True by done. cbn.
      eapply chain_ext; [|exact Hch]. intros d Hd. rewrite Hc, decide_False; [done|].
      intros ->. apply Hnin. apply elem_of_app_right. by eapply elem_of_concat_lookup.
    + done.
    + intros d Hd. rewrite Hc. case_decide as Hd'; [subst; by split_and!|].
      apply elem_of_cons in Hd as [->|Hd]; [done|]. split; [|auto].
      apply (vi_chunks _ _ _ Hi), elem_of_app_right. by eapply elem_of_concat_lookup.
  - constructor; [..|apply only_grows_same; by rewrite Es1]; intros;
      [by rewrite Es1|by rewrite Hc, decide_False|by rewrite Es1..].
  - by rewrite Hc, decide_True.
Qed.

Lemma wp_vmm_free_chunk n c G P Q s :
  vmm_inv s G P -> chunk_ok s c -> c ∉ G ++ concat P -> (n < 16)%nat ->
  magic (chunk_of s c) = LZ_CHUNK_MAGIC_V2 -> node_id (chunk_of s c) = Z.of_nat n ->
  (forall s' G' P', free_post s c s' G' P' -> pools_free n c G P G' P' -> Q tt s') ->
  wp (lz_vmm_free_chunk c) Q s.
Proof.
  intros Hi Hok Hnin Hlt Hmg Hnode HQ.
  destruct (lookup_lt_is_Some_2 P n) as [l Hn]; [by destruct (vi_len _ _ _ Hi) as [-> _]|].
  destruct (vi_node _ _ _ _ _ Hi Hn) as [_ Hlk].
  destruct (vi_pool _ _ _ Hi n l Hn) as ([top cnt] & Hp & Hch & Hct & Hle & Hall). cbn in *.
  assert (c <> NULL) by (destruct Hok; lia).
  unfold lz_vmm_free_chunk. zfalse (c =? NULL). wp_step.
  apply wp_chunk_at; [by apply chunk_ok_self|]. rewrite Hmg, Z.eqb_refl, Hnode. cbn [negb].
  rewrite get_pool_small by done. wp_step. apply wp_pool_lock; [done|].
  wp_step. eapply wp_pool_at; [done|]. cbn [available_count free_chunks].
  unfold LZ_VMM_MAX_CACHED_CHUNKS. rewrite Hct.
  destruct (Z.ltb_spec (Z.of_nat (length l)) 32) as [Hroom|Hfull].
  - wp_steps. apply wp_update_chunk; [by apply (chunk_ok_self s)|].
    wp_step. eapply wp_update_pool; [done|]. wp_step.
    eapply wp_update_pool; [cbn; apply list_lookup_insert_eq; by eapply lookup_lt_Some|].
    wp_steps. apply wp_pool_unlock. wp_steps.
    match goal with |- Q tt ?s' => set (s1 := s') end.
    assert (s1 = with_pool n (mk_pool c (Z.of_nat (length (c :: l))))
      (set_h_chunks (<[c := set_chunk_next top (chunk_of s c)]> (h_chunks s)) s)) as Es1.
    { unfold s1. state_eq; [|by apply insert_back]. cbn.
      rewrite list_insert_insert_eq. f_equal. unfold set_available_count. cbn.
      f_equal. rewrite u64_small; lia. }
    eapply HQ; [|apply free_cached; [done|lia]]. eapply cached_post; try done. lia.
  - wp_steps. apply wp_pool_unlock.
    replace (set_g_pool_locks _ _) with s by (state_eq; symmetry; by apply insert_back).
    eapply wp_retire_to_global; [done..|]. intros s' Hp'. eapply HQ; [done|].
    apply free_global with l; [done|lia].
Qed.

(** A mapped chunk outside the pools stays outside when another one is
    allocated or released. *)
Lemma pools_alloc_out n s refused G P r G' P' d :
  pools_alloc n (granted_extent s) refused G P r G' P' ->
  mapped s d = true -> d <> NULL -> d ∉ G ++ concat P -> d ∉ G' ++ concat P' /\ d <> r.
Proof.
  intros Ha Hm Hd0 Hd. destruct Ha as [G P c l Hn|c G P Hn|base P Hn [_ Hnew]|P Hn Hf].
  - rewrite (concat_insert_perm P n [c] l Hn) in Hd. rewrite !elem_of_app, elem_of_cons in *. naive_solver.
  - cbn in Hd. rewrite elem_of_cons in Hd. naive_solver.
  - assert (d ∉ extent base 32) as Hx.
    { intros Hx. rewrite (Hnew d Hx d) in Hm; [done|lia]. }
    change (extent base 32) with ((base + 31 * 2 ^ 21) :: extent base 31) in Hx.
    rewrite elem_of_cons in Hx. rewrite elem_of_app in *. naive_solver.
  - done.
Qed.

Lemma pools_free_perm n c G P G' P' :
  pools_free n c G P G' P' -> G' ++ concat P' ≡ₚ c :: G ++ concat P.
Proof.
  intros Hf. destruct Hf as [G P l Hl _|G P l Hl _]; [|done].
  rewrite (concat_insert_perm (<[n := c :: l]> P) n [c] l), list_insert_insert_eq,
    list_insert_id by (try apply list_lookup_insert_eq; try done; by eapply lookup_lt_Some).
  cbn [app]. by rewrite <- Permutation_middle.
Qed.

(** ** Purge *)

(** Payload bytes of the chunks of [l]: all but the first page. *)
Definition payload_of (l : list Z) (x : Z) : Prop :=
  exists c, c ∈ l /\ c + LZ_PAGE_SIZE <= x < c + LZ_HUGE_PAGE_SIZE.

(** Moving the chunks of [l] between pools. *)
Record moved_post (s : state) (l : list Z) (s' : state) (G' : list Z) (P' : list (list Z)) : Prop := {
  mp_inv : vmm_inv s' G' P';
  mp_rtree : rtree_part s' = rtree_part s;
  mp_thread : thread_part s' = thread_part s;
  mp_mapped : forall x, mapped s' x = mapped s x;
  mp_frame : mem_frame (fun a => a ∈ l) nowhere (payload_of l) s s'
}.

Lemma moved_post_trans s l1 s1 G1 P1 l2 s2 G2 P2 l :
  moved_post s l1 s1 G1 P1 -> moved_post s1 l2 s2 G2 P2 ->
  (forall c, c ∈ l1 -> c ∈ l) -> (forall c, c ∈ l2 -> c ∈ l) -> moved_post s l s2 G2 P2.
Proof.
  intros [_ R1 T1 M1 F1] [I2 R2 T2 M2 F2] H1 H2. constructor; [done|congruence..| |].
  - intros x. by rewrite M2.
  - eapply mem_frame_trans; [eapply mem_frame_weaken, F1|eapply mem_frame_weaken, F2];
      auto; intros a (c & Hc & Ha); exists c; auto.
Qed.

Lemma wp_purge_loop l fuel chunk G P Q s :
  vmm_inv s G P -> chain s chunk l -> NoDup l ->
  (forall c, c ∈ l -> chunk_ok s c /\ c ∉ G ++ concat P) -> (length l < fuel)%nat ->
  (forall s', moved_post s l s' (reverse l ++ G) P -> Q tt s') ->
  wp (purge_loop fuel chunk) Q s.
Proof.
  revert fuel chunk G s. induction l as [|c l IH]; intros fuel chunk G s Hi Hch Hnd Hok Hf HQ;
    (destruct fuel as [|fuel]; [cbn in Hf; lia|]); cbn [purge_loop].
  - cbn in Hch. subst chunk. cbn. wp_steps. by apply HQ.
  - destruct Hch as (-> & Hc & Hch). zfalse (c =? NULL).
    destruct (Hok c) as [Hokc Hnin]; [apply elem_of_cons; auto|].
    apply NoDup_cons in Hnd as [Hcl Hnd]. wp_step.
    apply wp_chunk_at; [by apply chunk_ok_self|]. wp_step.
    eapply wp_retire_to_global; [done..|]. intros s1 [I1 R1 T1 M1 F1 H1].
    assert (forall d, d ∈ l -> chunk_of s1 d = chunk_of s d) as Hsame.
    { intros d Hd. apply (frame_chunk _ _ _ _ _ F1).
      - apply chunk_ok_self, Hok. apply elem_of_cons. auto.
      - intros ->. done. }
    eapply (IH fuel _ (c :: G)); [done| |done| |cbn in Hf; lia|].
    + eapply chain_ext; [|exact Hch]. intros d Hd. by rewrite Hsame.
    + intros d Hd. destruct (Hok d) as [Hokd Hd']; [apply elem_of_cons; auto|].
      split; [eapply chunk_ok_mono; [|done]; intros; by rewrite M1|].
      cbn. rewrite elem_of_cons. intros [->|?]; done.
    + intros s2 Hp2. apply HQ. rewrite reverse_cons, <- app_assoc.
      eapply (moved_post_trans s [c] s1 (c :: G) P l); [|done|set_solver..].
      constructor; try done. eapply mem_frame_weaken, F1; [set_solver|done|].
      intros x Hx. exists c. split; [set_solver|done].
Qed.

(** Emptying the cache of one node moves its chunks to the global list. *)
Lemma wp_purge_node n l G P Q s :
  vmm_inv s G P -> P !! n = Some l ->
  (forall s', moved_post s l s' (reverse l ++ G) (<[n := []]> P) -> Q tt s') ->
  wp (let pool := lz_topology_get_pool (Z.of_nat n) in
      pool_lock (Z.of_nat n);;
      p ← pool_at pool;
      let chunk := free_chunks p in
      update_pool pool (set_free_chunks NULL);;
      update_pool pool (set_available_count 0);;
      pool_unlock (Z.of_nat n);;
      purge_loop (S (Z.to_nat LZ_VMM_MAX_CACHED_CHUNKS)) chunk) Q s.
Proof.
  intros Hi Hn HQ. destruct (vi_node _ _ _ _ _ Hi Hn) as [Hlt Hlk].
  destruct (vi_pool _ _ _ Hi n l Hn) as ([top cnt] & Hp & Hch & Hct & Hle & Hall). cbn in Hch, Hct.
  rewrite get_pool_small by done. cbv zeta. wp_step. apply wp_pool_lock; [done|].
  wp_step. eapply wp_pool_at; [done|]. wp_step. eapply wp_update_pool; [done|].
  wp_step. eapply wp_update_pool; [cbn; apply list_lookup_insert_eq; by eapply lookup_lt_Some|].
  wp_step. apply wp_pool_unlock.
  match goal with |- wp _ _ ?s' => set (s1 := s') end.
  assert (s1 = with_pool n (mk_pool 0 0) s) as Es1.
  { unfold s1. state_eq; [|by apply insert_back]. cbn. by rewrite list_insert_insert_eq. }
  clearbody s1. pose proof (vi_nodup _ _ _ Hi) as Hnd.
  rewrite (concat_insert_perm P n l []) in Hnd by by rewrite app_nil_r.
  rewrite Permutation_app_swap_app in Hnd. apply NoDup_app in Hnd as (Hndl & Hdis & Hnd).
  assert (vmm_inv s1 G (<[n := []]> P)) as Hi1.
  { eapply vmm_inv_pool; [done|done|cbn; lia|by rewrite Es1; destruct s|by rewrite Es1|done|done|done|].
    intros c Hc. by apply not_elem_of_nil in Hc. }
  apply (wp_purge_loop l _ _ G (<[n := []]> P)); [done| |done| | |].
  - eapply chain_ext; [|exact Hch]. by rewrite Es1.
  - intros c Hc. split; [|by apply Hdis].
    assert (chunk_ok s c) as Hok.
    { apply (vi_chunks _ _ _ Hi), elem_of_app_right. by eapply elem_of_concat_lookup. }
    rewrite Es1. exact Hok.
  - unfold LZ_VMM_MAX_CACHED_CHUNKS. lia.
  - intros s2 Hp2. apply HQ.
    eapply (moved_post_trans s [] s1 G (<[n := []]> P) l); [|exact Hp2|set_solver|done].
    constructor; [done|by rewrite Es1..|]. rewrite Es1. by apply mem_ext_frame.
Qed.

(** ** Theorems *)

(** Aligned mappings are trimmed exactly: after over-allocating by 2 MiB
    and unmapping prefix and suffix, the address space gains precisely the
    aligned range of the requested size, zero-filled and disjoint from what
    was mapped; if the kernel refuses, nothing changes. *)
Theorem map_huge_aligned_exact s size :
  0 < size -> size mod 2 ^ 21 = 0 -> size + LZ_HUGE_PAGE_SIZE < 2 ^ 64 ->
  wp (map_huge_aligned size) (fun r s' =>
    match r with
    | None => st_mapped s' = st_mapped s
    | Some a =>
        a mod 2 ^ 21 = 0 /\ 0 < a /\ a + size <= 2 ^ 47 /\
        (forall x, a <= x < a + size -> mapped s x = false /\ byte_of s' x = 0) /\
        (forall x, mapped s' x = mapped s x || ((a <=? x) && (x <? a + size))) /\
        mem_ext s s'
    end) s.
Proof.
  intros Hs Hm Hl. apply wp_map_huge_aligned; [done..|].
  intros raw a s' _ [? [? ?] Hf ? Hz ? _ _ _ _]. split_and!; try done.
  intros x Hx. split; [auto|]. unfold byte_of. by destruct (Hz x Hx) as (_ & _ & ->).
Qed.

(** C13. Refinement of chunk allocation: the call always returns; it pops the
    cache of the current node, else the global list, else the top of a new
    extent that the kernel grants, and answers NULL exactly when both are
    empty and the kernel refuses this call an extent, which leaves one more
    refusal on record; otherwise there is none.  The chunk handed out is 2 MiB-aligned, fully mapped, in no pool, and stamped with
    magic and home node; no other header, body or byte changes. *)
Theorem vmm_alloc_refines s G P :
  vmm_inv s G P ->
  wp lz_vmm_alloc_chunk (fun r s' => exists G' P',
    alloc_post s (current_node s) r s' G' P' /\
    pools_alloc (current_node s) (granted_extent s) (extent_answer s = None) G P r G' P') s.
Proof. intros Hi. eapply wp_vmm_alloc_chunk; eauto. Qed.

(** C16. Refinement of chunk release: a chunk goes to the cache of its home
    node while that holds fewer than 32 chunks and to the global list
    otherwise, so no cache ever exceeds its capacity; only the link word of
    its header and, when globalised, its payload bytes change. *)
Theorem vmm_free_refines s c n G P :
  vmm_inv s G P -> chunk_ok s c -> c ∉ G ++ concat P -> (n < 16)%nat ->
  magic (chunk_of s c) = LZ_CHUNK_MAGIC_V2 -> node_id (chunk_of s c) = Z.of_nat n ->
  wp (lz_vmm_free_chunk c) (fun _ s' => exists G' P',
    free_post s c s' G' P' /\ pools_free n c G P G' P' /\
    G' ++ concat P' ≡ₚ c :: G ++ concat P) s.
Proof.
  intros Hi Hok Hn Hlt Hm Hnd. eapply wp_vmm_free_chunk; [done..|].
  intros s' G' P' Hp Hf. exists G', P'. split_and!; [done..|].
  by eapply pools_free_perm.
Qed.

Lemma wp_purge_all s G P :
  vmm_inv s G P ->
  wp lz_vmm_purge_all_caches (fun _ s' => exists G',
    moved_post s (G ++ concat P) s' G' (replicate 16 []) /\ G' ≡ₚ G ++ concat P) s.
Proof.
  intros Hi. unfold lz_vmm_purge_all_caches.
  apply (wp_for_loop (fun i s' => exists G' P', moved_post s (G ++ concat P) s' G' P' /\
    G' ++ concat P' ≡ₚ G ++ concat P /\ forall n, (n < Z.to_nat i)%nat -> P' !! n = Some [])).
  - exists G, P. split_and!; [by constructor|done|]. intros n Hn. lia.
  - intros j s' Hj (G' & P' & Hp & Hperm & Hnil).
    change (0 + Z.of_nat (Z.to_nat LZ_MAX_NUMA_NODES)) with 16 in Hj.
    pose proof (mp_inv _ _ _ _ _ Hp) as Hi'.
    destruct (lookup_lt_is_Some_2 P' (Z.to_nat j)) as [l Hl].
    { destruct (vi_len _ _ _ Hi') as [-> _]. lia. }
    assert (Z.of_nat (Z.to_nat j) = j) as Ej by lia. rewrite <- Ej.
    eapply wp_purge_node; [done..|]. intros s2 Hp2.
    exists (reverse l ++ G'), (<[Z.to_nat j := []]> P').
    assert (reverse l ++ G' ++ concat (<[Z.to_nat j := []]> P') ≡ₚ G' ++ concat P') as Hp3.
    { rewrite (concat_insert_perm P' (Z.to_nat j) l []) by by rewrite app_nil_r.
      by rewrite reverse_Permutation, Permutation_app_swap_app. }
    split_and!.
    + eapply moved_post_trans; [done..| |]; [done|]. intros c Hc. rewrite <- Hperm.
      apply elem_of_app_right. by eapply elem_of_concat_lookup.
    + by rewrite <- app_assoc, Hp3.
    + intros n Hn. destruct (decide (n = Z.to_nat j)) as [->|].
      * apply list_lookup_insert_eq. by eapply lookup_lt_Some.
      * rewrite list_lookup_insert_ne by done. apply Hnil. lia.
  - intros s' (G' & P' & Hp & Hperm & Hnil).
    change (Z.to_nat (0 + Z.of_nat (Z.to_nat LZ_MAX_NUMA_NODES))) with 16%nat in Hnil.
    assert (P' = replicate 16 []) as ->.
    { apply list_eq_same_length with 16%nat; [by rewrite length_replicate|
        apply (vi_len _ _ _ (mp_inv _ _ _ _ _ Hp))|].
      intros n x y Hn Hx Hy. rewrite Hnil in Hx by done.
      apply lookup_replicate in Hy as [-> _]. by simplify_eq. }
    exists G'. split; [done|]. by rewrite <- Hperm, app_nil_r.
Qed.

(** The purge terminates, empties the cache of every node, loses and
    duplicates no chunk, and touches no header but those of cached chunks and
    no byte outside their payload pages. *)
Theorem vmm_purge_conserves s G P :
  vmm_inv s G P ->
  wp lz_vmm_purge_all_caches (fun _ s' => exists G',
    moved_post s (G ++ concat P) s' G' (replicate 16 []) /\ G' ≡ₚ G ++ concat P) s.
Proof. apply wp_purge_all. Qed.

End vmm_spec.

(** ** Witnesses *)

(** Empty pools: the state after [lz_vmm_init]. *)
Lemma vmm_inv_boot s :
  g_numa_pools s = replicate 16 (mk_pool 0 0) -> g_pool_locks s = replicate 16 false ->
  g_global_pool_lock s = false -> g_global_free_chunks s = 0 ->
  vmm_inv s [] (replicate 16 []).
Proof.
  intros E1 E2 E3 E4. constructor; rewrite ?E1, ?E2, ?E4; try done.
  - intros n l [-> Hn]%lookup_replicate. exists (mk_pool 0 0).
    split_and!; [by apply lookup_replicate|done..|cbn; lia|].
    intros c Hc. by apply not_elem_of_nil in Hc.
  - intros c Hc. by apply not_elem_of_nil in Hc.
  - constructor.
Qed.

Lemma map_huge_aligned_exact_witness :
  wp (map_huge_aligned (2 ^ 21)) (fun r s' =>
    match r with
    | None => st_mapped s' = st_mapped boot_state
    | Some a =>
        a mod 2 ^ 21 = 0 /\ 0 < a /\ a + 2 ^ 21 <= 2 ^ 47 /\
        (forall x, a <= x < a + 2 ^ 21 -> mapped boot_state x = false /\ byte_of s' x = 0) /\
        (forall x, mapped s' x = mapped boot_state x || ((a <=? x) && (x <? a + 2 ^ 21))) /\
        mem_ext boot_state s'
    end) boot_state.
Proof. apply map_huge_aligned_exact; done. Defined.

Lemma vmm_alloc_refines_witness :
  wp lz_vmm_alloc_chunk (fun r s' => exists G' P',
    alloc_post boot_state (current_node boot_state) r s' G' P' /\
    pools_alloc (current_node boot_state) (granted_extent boot_state) (extent_answer boot_state = None)
      [] (replicate 16 []) r G' P') boot_state.
Proof. apply vmm_alloc_refines. by apply vmm_inv_boot. Defined.

(** One chunk outside the pools, homed on node 3. *)
Definition one_chunk_state : state :=
  set_st_mapped [(0x7f0000200000, 0x7f0000400000)]
    (set_h_chunks {[ 0x7f0000200000 := mk_chunk 0 0 LZ_CHUNK_MAGIC_V2 0 3 0 0 ]} boot_state).

Lemma vmm_free_refines_witness :
  wp (lz_vmm_free_chunk 0x7f0000200000) (fun _ s' => exists G' P',
    free_post one_chunk_state 0x7f0000200000 s' G' P' /\
    pools_free 3 0x7f0000200000 [] (replicate 16 []) G' P' /\
    G' ++ concat P' ≡ₚ 0x7f0000200000 :: [] ++ concat (replicate 16 [])) one_chunk_state.
Proof.
  apply vmm_free_refines.
  - by apply vmm_inv_boot.
  - split_and!; [done..|]. intros x Hx. unfold mapped. cbn. lia.
  - apply not_elem_of_nil.
  - lia.
  - done.
  - done.
Defined.

Lemma vmm_purge_conserves_witness :
  wp lz_vmm_purge_all_caches (fun _ s' => exists G',
    moved_post boot_state ([] ++ concat (replicate 16 [])) s' G' (replicate 16 []) /\
    G' ≡ₚ [] ++ concat (replicate 16 [])) boot_state.
Proof. apply vmm_purge_conserves. by apply vmm_inv_boot. Defined.
