(* ===== verification/Provision.v ===== *)
(** * Chunks between the pools and the engines

    Both engines take a chunk from the chunk manager, stamp its header and
    register it in the index, and both unregister it before giving it back.
    This file has those two sequences and what they preserve. *)

From S2P Require Import Prelude Common Machine Wp Security Rtree Vmm VmmSpec.

Section provision.
Context `{EnvLaws}.

(** Stamping a chunk header with owner, type and checksum. *)
Lemma wp_stamp_chunk c tlh ty Q s :
  mapped s c = true ->
  (forall s', only_chunk c s s' ->
     chunk_of s' c = (let c0 := set_chunk_type ty (set_owning_tlh tlh (chunk_of s c)) in
                      set_checksum (lz_calc_checksum c0) c0) -> Q tt s') ->
  wp (update_chunk c (set_owning_tlh tlh);;
      update_chunk c (set_chunk_type ty);;
      update_chunk c (fun c => set_checksum (lz_calc_checksum c) c)) Q s.
Proof.
  intros Hm HQ. wp_step. eapply wp_update_only; [apply only_chunk_refl|done|]. intros s1 H1 E1.
  wp_step. eapply wp_update_only; [exact H1|done|]. intros s2 H2 E2.
  eapply wp_update_only; [exact H2|done|]. intros s3 H3 E3. apply HQ; [done|].
  by rewrite E3, E2, E1.
Qed.

(** What formatting a chunk taken from the pools preserves, before its body is
    written: shared by the slab and span engines. *)
Record formatted (s : state) (c tlh ty : Z) (G : list Z) (P : list (list Z))
    (s' : state) (G' : list Z) (P' : list (list Z)) : Prop := {
  fo_vmm : vmm_inv s' G' P';
  fo_rtree : rtree_inv s';
  fo_chunk : chunk_ok s' c /\ c ∉ G' ++ concat P';
  fo_header : let h := chunk_of s' c in
    magic h = LZ_CHUNK_MAGIC_V2 /\ 0 <= node_id h < 16 /\ owning_tlh h = tlh /\
    chunk_type h = ty /\ checksum h = lz_calc_checksum h;
  fo_frame : mem_frame (fun a => a = c) nowhere nowhere s s';
  fo_thread : thread_part s' = thread_part s;
  fo_view : forall b, b <> block_of c -> rtree_view s' b = rtree_view s b;
  fo_out : forall d, mapped s d = true -> d <> NULL -> d ∉ G ++ concat P ->
    d ∉ G' ++ concat P' /\ d <> c;
  fo_index : registers s' c
}.

Lemma wp_format_chunk tlh ty G P Q s :
  vmm_inv s G P -> rtree_inv s ->
  (forall s' G' P', vmm_inv s' G' P' -> rtree_inv s' -> rtree_part s' = rtree_part s ->
     thread_part s' = thread_part s -> mem_frame (fun a => a = NULL) nowhere nowhere s s' ->
     (forall d, mapped s d = true -> d <> NULL -> d ∉ G ++ concat P -> d ∉ G' ++ concat P') ->
     refused_since s s' -> Q NULL s') ->
  (forall c s' G' P', c <> NULL -> formatted s c tlh ty G P s' G' P' -> Q c s') ->
  wp (chunk ← lz_vmm_alloc_chunk;
      if chunk =? NULL then mret NULL
      else
        (update_chunk chunk (set_owning_tlh tlh);;
         update_chunk chunk (set_chunk_type ty);;
         update_chunk chunk (fun c => set_checksum (lz_calc_checksum c) c));;
        lz_rtree_set chunk chunk;;
        mret chunk) Q s.
Proof.
  intros Hv Hr Hnull HQ. wp_step. eapply wp_vmm_alloc_chunk; [exact Hv|].
  intros c s1 G' P' [Hv1 Er1 Et1 Hf1 Hc1 Hlog1] Hpa.
  pose proof (fun d => pools_alloc_out _ _ _ _ _ _ _ _ d Hpa) as Hout.
  assert (rtree_inv s1) as Hr1 by (eapply rtree_inv_ext; [done..|]; apply Hf1).
  destruct (Z.eqb_spec c NULL) as [->|Hc].
  { wp_steps. eapply Hnull; try done; [intros; by apply Hout|]. by eexists _, []. }
  destruct (Hc1 Hc) as (Hok & Hnin & _ & Hmg & Hnode).
  wp_step. apply wp_stamp_chunk; [by apply chunk_ok_self|]. intros s2 [E2 H2] Ec2.
  assert (forall x, mapped s2 x = mapped s1 x) as Hm2 by (intros; rewrite E2; done).
  wp_step. apply wp_rtree_set.
  { eapply rtree_inv_ext; [exact Hr1|by rewrite E2|intros; by rewrite Hm2]. }
  { destruct Hok as (_ & ? & ? & _). lia. }
  intros s3 Hset. pose proof (set_registers _ _ _ Hset) as Hreg3. destruct Hset as [Hr3 He3 Ev3 Et3 Hw3 _]. wp_steps. eapply HQ; [done|].
  assert (mapped s2 c = true) as Hmc by (rewrite Hm2; by apply chunk_ok_self).
  pose proof (ext_chunk _ _ He3 _ Hmc) as Ec3.
  constructor.
  - eapply vmm_inv_frame; [exact Hv1|by rewrite Ev3, E2|intros; apply He3; by rewrite Hm2|].
    intros d Hd. rewrite (ext_chunk _ _ He3), H2; [done|by intros ->|].
    rewrite Hm2. by apply chunk_ok_self, (vi_chunks _ _ _ Hv1).
  - done.
  - split; [|done]. eapply chunk_ok_mono; [|exact Hok]. intros. apply He3. by rewrite Hm2.
  - cbv zeta. rewrite Ec3, Ec2. cbn. rewrite Hmg, Hnode. pose proof (current_node_lt s).
    split_and!; [done|lia..|done|done|done].
  - destruct Hf1 as [M1 C1 B1 D1 L1], He3 as [M3 C3 B3 D3 L3].
    constructor; [intros a Ha; apply M3; rewrite Hm2; auto|intros a Ha Hn..|];
      [rewrite C3, H2 by (done || rewrite Hm2; auto); auto| | |].
    + rewrite B3 by (rewrite Hm2; auto). rewrite <- B1 by done. by rewrite E2.
    + rewrite D3 by (rewrite Hm2; auto). rewrite <- D1 by done. by rewrite E2.
    + eapply (only_grows_trans s s2); [intros; rewrite Hm2; auto| |exact L3].
      eapply (only_grows_trans s s1); [done|exact L1|]. apply only_grows_same; by rewrite E2.
  - rewrite Et3, <- Et1. by rewrite E2.
  - intros b Hb. rewrite <- (rtree_view_eq s s2 b) by (rewrite <- Er1; by rewrite E2).
    destruct Hw3 as [[_ Hw]|[_ Hw]]; rewrite Hw; [|done]. by zfalse (b =? block_of c).
  - intros d Hd Hd0 Hdn. by apply Hout.
  - done.
Qed.

(** The code continues with the new chunk; the failure exit is shared. *)
Lemma wp_format_then tlh ty (k : Z -> M Z) Q s :
  wp ((chunk ← lz_vmm_alloc_chunk;
       if chunk =? NULL then mret NULL
       else
         (update_chunk chunk (set_owning_tlh tlh);;
          update_chunk chunk (set_chunk_type ty);;
          update_chunk chunk (fun c => set_checksum (lz_calc_checksum c) c));;
         lz_rtree_set chunk chunk;;
         mret chunk) ≫= fun chunk => if chunk =? NULL then mret NULL else k chunk) Q s ->
  wp (chunk ← lz_vmm_alloc_chunk;
      if chunk =? NULL then mret NULL
      else
        update_chunk chunk (set_owning_tlh tlh);;
        update_chunk chunk (set_chunk_type ty);;
        update_chunk chunk (fun c => set_checksum (lz_calc_checksum c) c);;
        lz_rtree_set chunk chunk;;
        k chunk) Q s.
Proof.
  unfold wp, mbind, M_bind. destruct (lz_vmm_alloc_chunk s) as [c s1|]; [|done].
  destruct (c =? NULL) eqn:Ec; [done|].
  destruct (update_chunk c (set_owning_tlh tlh) s1) as [[] s2|]; [|done].
  destruct (update_chunk c (set_chunk_type ty) s2) as [[] s3|]; [|done].
  destruct (update_chunk c _ s3) as [[] s4|]; [|done].
  destruct (lz_rtree_set c c s4) as [[] s5|]; [|done].
  unfold mret at 1, M_ret at 1. by rewrite Ec.
Qed.

(** Unregistering chunk [c] and giving it back. *)
Record released (s : state) (c : Z) (G : list Z) (P : list (list Z))
    (s' : state) (G' : list Z) (P' : list (list Z)) : Prop := {
  re_vmm : vmm_inv s' G' P';
  re_rtree : rtree_inv s';
  re_frame : mem_frame (fun a => a = c) nowhere
    (fun x => c + LZ_PAGE_SIZE <= x < c + LZ_HUGE_PAGE_SIZE) s s';
  re_thread : thread_part s' = thread_part s;
  re_view : forall b, rtree_view s' b = if b =? block_of c then NULL else rtree_view s b;
  re_perm : G' ++ concat P' ≡ₚ c :: G ++ concat P
}.

Lemma wp_release_chunk c G P Q s :
  vmm_inv s G P -> rtree_inv s -> chunk_ok s c -> c ∉ G ++ concat P ->
  magic (chunk_of s c) = LZ_CHUNK_MAGIC_V2 -> 0 <= node_id (chunk_of s c) < 16 ->
  (forall s' G' P', released s c G P s' G' P' -> Q tt s') ->
  wp (lz_rtree_clear c;; lz_vmm_free_chunk c) Q s.
Proof.
  intros Hv Hr Hok Hnin Hmg Hnode HQ. unfold lz_rtree_clear. wp_step.
  assert (0 <= c < 2 ^ 64) by (destruct Hok as (_ & ? & ? & _); lia).
  apply wp_rtree_set; [done..|]. intros s1 [Hr1 He1 Ev1 Et1 Hw1 _].
  pose proof (ext_chunk _ _ He1 _ (chunk_ok_self _ _ Hok)) as Ec.
  eapply (wp_vmm_free_chunk (Z.to_nat (node_id (chunk_of s c))) c G P).
  - eapply vmm_inv_frame; [exact Hv|done|apply He1|]. intros d Hd. apply He1.
    by apply chunk_ok_self, (vi_chunks _ _ _ Hv).
  - eapply chunk_ok_mono; [|done]. apply He1.
  - done.
  - lia.
  - by rewrite Ec.
  - rewrite Ec. lia.
  - intros s2 G' P' [Hv2 Er2 Et2 Hm2 Hf2 Hh2] Hpf. eapply HQ. constructor.
    + done.
    + eapply rtree_inv_ext; [exact Hr1|done|]. intros. by rewrite Hm2.
    + eapply mem_frame_trans; [by apply mem_ext_frame|done].
    + by rewrite Et2.
    + intros b. rewrite (rtree_view_eq _ _ _ Er2).
      destruct Hw1 as [[_ Hw]|[(_ & ? & _) _]]; [by rewrite Hw|done].
    + by eapply pools_free_perm.
Qed.

End provision.
