(* ===== verification/Telemetry.v ===== *)
(** * telemetry.[ch]: the shared-memory statistics matrix

    Allocation-free environment lookup, integer formatting, the mapping of
    the matrix, slot lookup, and the batching of byte counts that the
    thread-local heap and the span engine perform on their slot. *)

From Stdlib Require Import Ascii.
From S2P Require Import Prelude Common Machine Wp Testbed.

Definition LZ_VMM_SLOT_IDX : Z := 0.
Definition LZ_THREAD_SLOT_BASE_IDX : Z := 1.
(** sizeof(lz_stat_slot_t): the counters padded to a cache line. *)
Definition sizeof_stat_slot : Z := LZ_CACHE_LINE_SIZE.

(** ** Allocation-free utilities *)

(** [strncmp(a, b, n) == 0] on NUL-terminated strings. *)
Fixpoint strncmp_eq (n : nat) (a b : string) : bool :=
  match n with
  | O => true
  | S n =>
      match a, b with
      | EmptyString, EmptyString => true
      | String x a, String y b => if Ascii.eqb x y then strncmp_eq n a b else false
      | _, _ => false
      end
  end.

(** [lz_internal_has_env(key)], the loop over [environ]. *)
Fixpoint has_env_in (envs : list string) (key : string) : bool :=
  match envs with
  | [] => false
  | env :: envs =>
      let key_len := String.length key in
      if strncmp_eq key_len env key &&
         match String.get key_len env with Some c => Ascii.eqb c "="%char | None => false end
      then true
      else has_env_in envs key
  end.

Definition lz_internal_has_env `{Env} (key : string) : bool :=
  match environ with
  | None => false
  | Some envs => has_env_in envs key
  end.

(** The digit loop of [lz_itoa_fast], least significant digit first; the
    bound is the size of the [temp] buffer. *)
Fixpoint itoa_digits (fuel : nat) (val : Z) : option (list Z) :=
  if 0 <? val then
    match fuel with
    | O => None
    | S fuel => ds ← itoa_digits fuel (val / 10); Some ((val mod 10 + 48) :: ds)
    end
  else Some [].

(** The characters written to [buf], before the NUL; their number is [*len]. *)
Definition lz_itoa_fast (val : Z) : option (list Z) :=
  if val =? 0 then Some [48] else reverse <$> itoa_digits 32 val.

(** ASCII codes of a literal. *)
Fixpoint chars (s : string) : list Z :=
  match s with
  | EmptyString => []
  | String c s => Z.of_nat (Ascii.nat_of_ascii c) :: chars s
  end.

Section telemetry.
Context `{Env}.

(** ** The matrix *)

Definition lz_telemetry_cleanup : M bool :=
  n ← fetch g_shm_name; mret (negb (bool_decide (n = []))).

Definition zero_stat : lz_stat_counters_t := mk_stat 0 0 0 0.

(** memset of the matrix. *)
Definition clear_matrix (base : Z) : M unit :=
  for_loop (Z.to_nat LZ_MAX_TELEMETRY_SLOTS) 0 (fun i => modify (fun s =>
    set_h_stats (<[base + i * sizeof_stat_slot := zero_stat]> (h_stats s)) s)).

Definition lz_telemetry_init : M unit :=
  m ← fetch g_telemetry_matrix;
  if negb (m =? NULL) then mret tt
  else if negb (lz_internal_has_env "LZMALLOC_TELEMETRY") then mret tt
  else
    match lz_itoa_fast sys_getpid with
    | None => stop Segv
    | Some digits =>
        let name := chars "/lzmalloc_telemetry_" ++ digits in
        modify (set_g_shm_name name);;
        k ← tick;
        let fd := sys_shm_open k name in
        if fd =? -1 then mret tt
        else
          let matrix_size := sizeof_stat_slot * LZ_MAX_TELEMETRY_SLOTS in
          k ← tick;
          if sys_ftruncate k fd matrix_size =? -1 then mret tt
          else
            o ← mmap matrix_size;
            match o with
            | None => modify (set_g_telemetry_matrix NULL)
            | Some p => modify (set_g_telemetry_matrix p);; clear_matrix p
            end
    end.

Definition lz_telemetry_get_slot (index : Z) : M Z :=
  m ← fetch g_telemetry_matrix;
  if (m =? NULL) || (LZ_MAX_TELEMETRY_SLOTS <=? index) then mret NULL
  else mret (m + index * sizeof_stat_slot).

(** ** Byte-count batching *)

Definition stat_at (p : Z) : M lz_stat_counters_t :=
  o ← fetch (fun s => h_stats s !! p);
  match o with Some c => mret c | None => stop Segv end.

(** atomic_fetch_add / atomic_fetch_sub on [data.bytes_allocated]. *)
Definition stat_add (p v : Z) : M unit :=
  c ← stat_at p;
  modify (fun s => set_h_stats
    (<[p := set_stat_bytes_allocated (i64 (stat_bytes_allocated c + v)) c]> (h_stats s)) s).

(** Count [bytes] freed, publishing the batch at 4096. *)
Definition count_free (tlh bytes : Z) : M unit :=
  t ← tlh_at tlh;
  if stat_slot t =? NULL then mret tt
  else
    update_tlh tlh (fun t => set_local_bytes_free_batch (u32 (local_bytes_free_batch t + bytes)) t);;
    t ← tlh_at tlh;
    if 4096 <=? local_bytes_free_batch t then
      stat_add (stat_slot t) (- local_bytes_free_batch t);;
      update_tlh tlh (set_local_bytes_free_batch 0)
    else mret tt.

(** Count [bytes] allocated, publishing the batch at 1 MiB. *)
Definition count_alloc (tlh bytes : Z) : M unit :=
  t ← tlh_at tlh;
  if stat_slot t =? NULL then mret tt
  else
    update_tlh tlh (fun t => set_local_bytes_alloc_batch (u32 (local_bytes_alloc_batch t + bytes)) t);;
    t ← tlh_at tlh;
    if 1048576 <=? local_bytes_alloc_batch t then
      stat_add (stat_slot t) (local_bytes_alloc_batch t);;
      update_tlh tlh (set_local_bytes_alloc_batch 0)
    else mret tt.

End telemetry.

(** ** Facts *)

(** The number a decimal digit string denotes. *)
Definition decimal (ds : list Z) : Z := foldl (fun acc d => acc * 10 + (d - 48)) 0 ds.

Lemma decimal_snoc ds d : decimal (ds ++ [d]) = decimal ds * 10 + (d - 48).
Proof. unfold decimal. by rewrite foldl_app. Qed.

Lemma itoa_digits_spec fuel v :
  0 <= v < 10 ^ Z.of_nat fuel ->
  exists ds, itoa_digits fuel v = Some ds /\ decimal (reverse ds) = v /\
    Forall (fun d => 48 <= d <= 57) ds /\ (v <> 0 -> ds <> []) /\
    forall n, v < 10 ^ Z.of_nat n -> (length ds <= n)%nat.
Proof.
  revert v. induction fuel as [|fuel IH]; intros v Hv.
  - change (10 ^ Z.of_nat 0) with 1 in Hv. assert (v = 0) as -> by lia. exists []. cbn.
    split_and!; [done..|lia].
  - cbn [itoa_digits]. destruct (Z.ltb_spec 0 v) as [Hp|Hp].
    2: { assert (v = 0) as -> by lia. exists []. cbn. split_and!; [done..|lia]. }
    rewrite Nat2Z.inj_succ, Z.pow_succ_r in Hv by lia.
    destruct (IH (v / 10)) as (ds & -> & Hd & Hall & _ & Hlen); [dlia|].
    exists ((v mod 10 + 48) :: ds). cbn [mbind option_bind]. split; [done|].
    rewrite reverse_cons, decimal_snoc, Hd. cbn [length].
    split_and!; [dlia|by constructor; [dlia|]|done|].
    intros [|n] Hn; [change (10 ^ Z.of_nat 0) with 1 in Hn; lia|].
    rewrite Nat2Z.inj_succ, Z.pow_succ_r in Hn by lia.
    specialize (Hlen n). assert (v / 10 < 10 ^ Z.of_nat n) by dlia. lia.
Qed.

(** Comparing one more character: the form [lz_system_init] uses ("KEY=")
    against the two-step test of [lz_internal_has_env]. *)
Lemma strncmp_snoc env key c :
  strncmp_eq (S (String.length key)) env (key +:+ String c EmptyString) =
  strncmp_eq (String.length key) env key &&
  match String.get (String.length key) env with Some d => Ascii.eqb d c | None => false end.
Proof.
  revert env. induction key as [|k key IH]; intros [|e env]; try done.
  - change ((if Ascii.eqb e c then true else false) = true && Ascii.eqb e c).
    by destruct (Ascii.eqb e c).
  - change (String.length (String k key)) with (S (String.length key)).
    change (String k key +:+ String c "") with (String k (key +:+ String c "")).
    change (String.get (S (String.length key)) (String e env))
      with (String.get (String.length key) env).
    change (strncmp_eq (S (S (String.length key))) (String e env) (String k (key +:+ String c "")))
      with (if Ascii.eqb e k then strncmp_eq (S (String.length key)) env (key +:+ String c "") else false).
    rewrite IH. cbn [strncmp_eq]. by destruct (Ascii.eqb e k).
Qed.

Lemma has_env_in_existsb envs key :
  has_env_in envs key =
  existsb (fun env => strncmp_eq (S (String.length key)) env (key +:+ "=")) envs.
Proof.
  induction envs as [|env envs IH]; [done|]. cbn [has_env_in existsb].
  rewrite strncmp_snoc, IH. by destruct (_ && _).
Qed.

(** *** Batching *)

Lemma i64_mod x : i64 x mod 2 ^ 64 = x mod 2 ^ 64.
Proof. unfold i64. dlia. Qed.

(** Published and pending bytes of a thread, as the 64-bit pattern a reader of
    the matrix would compute. *)
Definition net_bytes (c : lz_stat_counters_t) (t : lz_tlh_t) : Z :=
  u64 (stat_bytes_allocated c + local_bytes_alloc_batch t - local_bytes_free_batch t).

(** With nothing pending the net count is the published one. *)
Lemma net_bytes_zero c t : local_bytes_alloc_batch t = 0 -> local_bytes_free_batch t = 0 ->
  net_bytes c t = u64 (stat_bytes_allocated c).
Proof. unfold net_bytes. intros -> ->. f_equal. lia. Qed.

(** The counters of heap [tlh] are attached to slot [c], and both batches are
    below their publication thresholds. *)
Record counting (s : state) (tlh : Z) (c : lz_stat_counters_t) (t : lz_tlh_t) : Prop := {
  ct_tlh : h_tlhs s !! tlh = Some t;
  ct_slot : stat_slot t <> NULL /\ h_stats s !! stat_slot t = Some c;
  ct_alloc : 0 <= local_bytes_alloc_batch t < 1048576;
  ct_free : 0 <= local_bytes_free_batch t < 4096
}.

(** Events a thread reports, in order. *)
Inductive count_event :=
  | CAlloc (bytes : Z)
  | CFree (bytes : Z).

Definition event_bytes (e : count_event) : Z :=
  match e with CAlloc n => n | CFree n => n end.
Definition event_delta (e : count_event) : Z :=
  match e with CAlloc n => n | CFree n => - n end.

Section counting_rules.
Context `{Env}.

Definition count_event_run (tlh : Z) (e : count_event) : M unit :=
  match e with CAlloc n => count_alloc tlh n | CFree n => count_free tlh n end.

Fixpoint count_events (tlh : Z) (es : list count_event) : M unit :=
  match es with
  | [] => mret tt
  | e :: es => count_event_run tlh e;; count_events tlh es
  end.

Lemma wp_stat_add p c v Q s :
  h_stats s !! p = Some c ->
  Q tt (set_h_stats (<[p := set_stat_bytes_allocated (i64 (stat_bytes_allocated c + v)) c]>
         (h_stats s)) s) ->
  wp (stat_add p v) Q s.
Proof. intros Hp HQ. unfold stat_add, stat_at. wp_steps. rewrite Hp. by wp_steps. Qed.

(** What counting changes: a batch of the heap and counters that already
    exist. *)
Lemma wp_count_free tlh bytes t Q s :
  h_tlhs s !! tlh = Some t -> (stat_slot t = NULL \/ is_Some (h_stats s !! stat_slot t)) ->
  (forall v st, (forall p, is_Some (st !! p) <-> is_Some (h_stats s !! p)) ->
     Q tt (set_h_tlhs (<[tlh := set_local_bytes_free_batch v t]> (h_tlhs s)) (set_h_stats st s))) ->
  wp (count_free tlh bytes) Q s.
Proof.
  intros Ht Hst HQ. unfold count_free. wp_step. eapply wp_tlh_at; [done|].
  destruct (Z.eqb_spec (stat_slot t) NULL) as [E|E].
  { wp_steps. specialize (HQ (local_bytes_free_batch t) (h_stats s)).
    assert (set_local_bytes_free_batch (local_bytes_free_batch t) t = t) as Et by by destruct t.
    rewrite Et, insert_id in HQ by done. by destruct s; apply HQ. }
  destruct Hst as [?|[c Hc]]; [done|]. wp_step. eapply wp_update_tlh; [done|]. wp_step.
  eapply wp_tlh_at; [apply lookup_insert_eq|]. destruct (4096 <=? _).
  - wp_step. eapply wp_stat_add; [done|]. eapply wp_update_tlh; [apply lookup_insert_eq|].
    match goal with |- Q tt ?s' => assert (s' = set_h_tlhs (<[tlh := set_local_bytes_free_batch 0 t]> (h_tlhs s))
      (set_h_stats (h_stats s') s)) as -> end.
    { state_eq. cbn. by rewrite insert_insert_eq. }
    apply HQ. intros p. cbn. rewrite lookup_insert. case_decide; [|done]. subst. by rewrite Hc.
  - wp_steps. match goal with |- Q tt ?s' => assert (s' = set_h_tlhs (h_tlhs s')
      (set_h_stats (h_stats s) s)) as -> by state_eq end. by apply HQ.
Qed.

Lemma wp_count_alloc tlh bytes t Q s :
  h_tlhs s !! tlh = Some t -> (stat_slot t = NULL \/ is_Some (h_stats s !! stat_slot t)) ->
  (forall v st, (forall p, is_Some (st !! p) <-> is_Some (h_stats s !! p)) ->
     Q tt (set_h_tlhs (<[tlh := set_local_bytes_alloc_batch v t]> (h_tlhs s)) (set_h_stats st s))) ->
  wp (count_alloc tlh bytes) Q s.
Proof.
  intros Ht Hst HQ. unfold count_alloc. wp_step. eapply wp_tlh_at; [done|].
  destruct (Z.eqb_spec (stat_slot t) NULL) as [E|E].
  { wp_steps. specialize (HQ (local_bytes_alloc_batch t) (h_stats s)).
    assert (set_local_bytes_alloc_batch (local_bytes_alloc_batch t) t = t) as Et by by destruct t.
    rewrite Et, insert_id in HQ by done. by destruct s; apply HQ. }
  destruct Hst as [?|[c Hc]]; [done|]. wp_step. eapply wp_update_tlh; [done|]. wp_step.
  eapply wp_tlh_at; [apply lookup_insert_eq|]. destruct (1048576 <=? _).
  - wp_step. eapply wp_stat_add; [done|]. eapply wp_update_tlh; [apply lookup_insert_eq|].
    match goal with |- Q tt ?s' => assert (s' = set_h_tlhs (<[tlh := set_local_bytes_alloc_batch 0 t]> (h_tlhs s))
      (set_h_stats (h_stats s') s)) as -> end.
    { state_eq. cbn. by rewrite insert_insert_eq. }
    apply HQ. intros p. cbn. rewrite lookup_insert. case_decide; [|done]. subst. by rewrite Hc.
  - wp_steps. match goal with |- Q tt ?s' => assert (s' = set_h_tlhs (h_tlhs s')
      (set_h_stats (h_stats s) s)) as -> by state_eq end. by apply HQ.
Qed.

(** One event: thresholds and the net count. *)
Lemma wp_count_event tlh e c t Q s :
  counting s tlh c t -> 0 <= event_bytes e < 2 ^ 31 ->
  (forall c' t' s', counting s' tlh c' t' ->
     net_bytes c' t' = u64 (net_bytes c t + event_delta e) -> Q tt s') ->
  wp (count_event_run tlh e) Q s.
Proof.
  intros [Ht [Hs Hc] Ha Hf] He HQ.
  destruct e as [n|n]; cbn [count_event_run event_bytes event_delta] in *;
    unfold count_alloc, count_free; wp_step; (eapply wp_tlh_at; [done|]);
    zfalse (stat_slot t =? NULL); wp_step; (eapply wp_update_tlh; [done|]);
    wp_step; (eapply wp_tlh_at; [apply lookup_insert_eq|]);
    cbn [local_bytes_alloc_batch local_bytes_free_batch set_local_bytes_alloc_batch
         set_local_bytes_free_batch stat_slot]; rewrite u32_small by lia;
    (match goal with |- wp (if ?b then _ else _) _ _ => destruct b eqn:Eb end);
    [wp_step; (eapply wp_stat_add; [done|]); (eapply wp_update_tlh; [apply lookup_insert_eq|])
    |wp_steps|wp_step; (eapply wp_stat_add; [done|]); (eapply wp_update_tlh; [apply lookup_insert_eq|])
    |wp_steps];
    (eapply HQ; [constructor; [apply lookup_insert_eq|..]|]);
    cbn; rewrite ?lookup_insert_eq; try done; try lia;
    unfold net_bytes; cbn; unfold u64, i64; dlia.
Qed.

End counting_rules.

(** ** Theorems *)

(** Formatting of the process id: the allocation-free conversion never
    overruns its 32-byte buffer, yields between one and ten decimal digits
    that denote the number, and the resulting file name with its NUL fits the
    128-byte g_shm_name. *)
Theorem itoa_fast_roundtrip v :
  0 <= v < 2 ^ 31 ->
  exists ds, lz_itoa_fast v = Some ds /\ decimal ds = v /\
    Forall (fun d => 48 <= d <= 57) ds /\ (1 <= length ds <= 10)%nat /\
    (length (chars "/lzmalloc_telemetry_" ++ ds) + 1 <= 128)%nat.
Proof.
  intros Hv. unfold lz_itoa_fast. destruct (Z.eqb_spec v 0) as [->|Hne].
  { exists [48]. split_and!; [done|done|by repeat constructor|cbn; lia..]. }
  destruct (itoa_digits_spec 32 v) as (ds & -> & Hd & Hall & Hnil & Hlen); [lia|].
  specialize (Hlen 10%nat ltac:(change (10 ^ Z.of_nat 10) with 10000000000; lia)).
  assert (ds <> []) by auto. exists (reverse ds). split_and!; [done|done|by apply Forall_reverse|..].
  - destruct ds; [done|]. rewrite length_reverse. cbn in *. lia.
  - rewrite length_reverse. lia.
  - rewrite length_app, length_reverse. cbn. lia.
Qed.

Lemma itoa_fast_roundtrip_witness :
  0 <= 4242 < 2 ^ 31 /\ exists ds, lz_itoa_fast 4242 = Some ds /\ decimal ds = 4242 /\
    Forall (fun d => 48 <= d <= 57) ds /\ (1 <= length ds <= 10)%nat /\
    (length (chars "/lzmalloc_telemetry_" ++ ds) + 1 <= 128)%nat.
Proof. split; [lia|]. apply itoa_fast_roundtrip. lia. Defined.

(** C36. Batching conserves bytes: after any sequence of allocation and free
    reports, published plus pending bytes have moved by exactly the reported
    total (modulo the 64-bit counter), no 32-bit batch counter wraps, and
    both batches stay below their publication thresholds. *)
Theorem telemetry_batches_conserve `{Env} s tlh c t es :
  counting s tlh c t -> Forall (fun e => 0 <= event_bytes e < 2 ^ 31) es ->
  wp (count_events tlh es) (fun _ s' => exists c' t', counting s' tlh c' t' /\
    net_bytes c' t' = u64 (net_bytes c t + foldr (fun e n => event_delta e + n) 0 es)) s.
Proof.
  intros Hc Hes. revert s c t Hc. induction Hes as [|e es He Hes IH]; intros s c t Hc;
    cbn [count_events foldr].
  - wp_steps. exists c, t. split; [done|]. unfold net_bytes, u64. dlia.
  - wp_step. eapply wp_count_event; [done..|]. intros c' t' s' Hc' Hn.
    eapply wp_mono; [by apply IH|]. intros [] s2 (c2 & t2 & H2 & Hn2).
    exists c2, t2. split; [done|]. rewrite Hn2, Hn. unfold u64. dlia.
Qed.

(** A heap with an attached slot. *)
Definition counting_state : state :=
  set_h_tlhs {[ 8192 := mk_tlh [] 0 0 (mk_batch 0 0 0 0) 7 0 1048000 4000 0 0 512 ]}
    (set_h_stats {[ 512 := mk_stat 0 0 0 0 ]} boot_state).

Lemma telemetry_batches_conserve_witness :
  wp (count_events 8192 [CAlloc 1024; CFree 128; CAlloc 32768]) (fun _ s' =>
    exists c' t', counting s' 8192 c' t' /\ net_bytes c' t' = u64 (1044000 + 33664)) counting_state.
Proof.
  apply (telemetry_batches_conserve counting_state 8192 (mk_stat 0 0 0 0)
    (mk_tlh [] 0 0 (mk_batch 0 0 0 0) 7 0 1048000 4000 0 0 512)).
  - by constructor.
  - repeat constructor; cbn; lia.
Defined.
