(* ===== verification/Span.v ===== *)
(** * span.[ch]: runs of pages in a 2 MiB chunk

    The bitmap page allocator of src/engines/span.c: the word-skipping search
    for contiguous free pages, allocation from the active spans of a heap or
    from a new chunk, and release.  The facts in this file are about the
    bitmap: the search is first-fit and complete, marking is exact, and the
    page count agrees with the bits. *)

From S2P Require Import Prelude Common Machine Wp Security Rtree Vmm Telemetry.

Definition LZ_SPAN_TOTAL_PAGES : Z := 512.
Definition LZ_SPAN_BITMAP_WORDS : Z := LZ_SPAN_TOTAL_PAGES / 64.

(** ** Search *)

Inductive scan_result :=
  | Found (start_idx : Z)
  | Scanned (consecutive start_idx : Z).

(** The inner loop of [find_contiguous_pages], over the [n] bits of [word]
    from [bit] on. *)
Fixpoint scan_bits (n : nat) (word i bit required_pages consecutive start_idx : Z) : scan_result :=
  match n with
  | O => Scanned consecutive start_idx
  | S n =>
      if negb (word .& (1 <<. bit) =? 0) then
        let start_idx := if consecutive =? 0 then i * 64 + bit else start_idx in
        let consecutive := u32 (consecutive + 1) in
        if consecutive =? required_pages then Found start_idx
        else scan_bits n word i (bit + 1) required_pages consecutive start_idx
      else scan_bits n word i (bit + 1) required_pages 0 start_idx
  end.

(** The outer loop, over the words from index [i] on. *)
Fixpoint scan_words (words : list Z) (i required_pages consecutive start_idx : Z) : Z :=
  match words with
  | [] => -1
  | word :: words =>
      if word =? 0 then scan_words words (i + 1) required_pages 0 start_idx
      else
        match scan_bits 64 word i 0 required_pages consecutive start_idx with
        | Found start_idx => start_idx
        | Scanned consecutive start_idx =>
            scan_words words (i + 1) required_pages consecutive start_idx
        end
  end.

(** [for (j = start; j < start + n; j++) bitmap[j / 64] = f(bitmap[j / 64], 1 << (j % 64))];
    an index outside the array is an invalid access. *)
Fixpoint update_pages (f : Z -> Z -> Z) (n : nat) (j : Z) (bitmap : list Z) : option (list Z) :=
  match n with
  | O => Some bitmap
  | S n =>
      w ← bitmap !! Z.to_nat (j / 64);
      update_pages f n (j + 1) (<[Z.to_nat (j / 64) := f w (1 <<. (j mod 64))]> bitmap)
  end.
Definition mark_used (w bit : Z) : Z := w .& lnot64 bit.
Definition mark_free (w bit : Z) : Z := w .| bit.

Section span.
Context `{Env}.

Definition find_contiguous_pages (span required_pages : Z) : M Z :=
  sp ← span_at span;
  let start_idx := scan_words (free_bitmap sp) 0 required_pages 0 (-1) in
  if start_idx =? -1 then mret (-1)
  else
    match update_pages mark_used (Z.to_nat required_pages) start_idx (free_bitmap sp) with
    | None => stop Segv
    | Some bitmap => update_span span (set_free_bitmap bitmap);; mret start_idx
    end.

(** ** Allocation *)

(** Bound of a walk over distinct spans: each has metadata in memory. *)
Definition walk_bound (s : state) : nat := S (size (h_bodies s)).

(** The fast path: the first active span with a fitting run. *)
Fixpoint search_active (fuel : nat) (current required_pages : Z) : M (Z * Z) :=
  match fuel with
  | O => stop NoFuel
  | S fuel =>
      if current =? NULL then mret (NULL, -1)
      else
        sp ← span_at current;
        if required_pages <=? u32 (LZ_SPAN_TOTAL_PAGES - used_pages sp) then
          page_idx ← find_contiguous_pages current required_pages;
          if negb (page_idx =? -1) then mret (current, page_idx)
          else sp ← span_at current; search_active fuel (span_next sp) required_pages
        else search_active fuel (span_next sp) required_pages
  end.

(** The slow path up to the second search: format a new chunk and link it in
    front of the active spans.  NULL when there is no chunk. *)
Definition provision_span (tlh : Z) : M Z :=
  chunk ← lz_vmm_alloc_chunk;
  if chunk =? NULL then mret NULL
  else
    update_chunk chunk (set_owning_tlh tlh);;
    update_chunk chunk (set_chunk_type LZ_CHUNK_TYPE_SPAN);;
    update_chunk chunk (fun c => set_checksum (lz_calc_checksum c) c);;
    lz_rtree_set chunk chunk;;
    let current := chunk + LZ_CACHE_LINE_SIZE in
    t ← tlh_at tlh;
    store_body current (BSpan (mk_span (active_spans t) NULL
      (lnot64 1 :: replicate (Z.to_nat (LZ_SPAN_BITMAP_WORDS - 1)) (lnot64 0)) 1
      (replicate (Z.to_nat LZ_SPAN_TOTAL_PAGES) 0)));;
    (if negb (active_spans t =? NULL)
     then update_span (active_spans t) (set_span_prev current) else mret tt);;
    update_tlh tlh (set_active_spans current);;
    mret current.

Definition chunk_mask : Z := lnot64 ((1 <<. LZ_CHUNK_SHIFT) - 1).

(** [alloc_size_pages[i] = v]; an index outside the array is an invalid
    access. *)
Definition store_alloc_size (span i v : Z) : M unit :=
  sp ← span_at span;
  if (0 <=? i) && (i <? LZ_SPAN_TOTAL_PAGES)
  then update_span span (set_alloc_size_pages (<[Z.to_nat i := v]> (alloc_size_pages sp)))
  else stop Segv.
Definition load_alloc_size (span i : Z) : M Z :=
  sp ← span_at span;
  match alloc_size_pages sp !! Z.to_nat i with
  | Some v => if 0 <=? i then mret v else stop Segv
  | None => stop Segv
  end.

(** The last step: account for the run and compute its address. *)
Definition finalize_span_alloc (current page_idx required_pages : Z) : M Z :=
  update_span current (fun sp => set_used_pages (u32 (used_pages sp + required_pages)) sp);;
  store_alloc_size current page_idx (u16 required_pages);;
  let chunk_base := current .& chunk_mask in
  mret (u64 (chunk_base + page_idx * LZ_PAGE_SIZE)).

Definition lz_span_alloc (tlh size : Z) : M Z :=
  let required_pages := u32 (LZ_ALIGN_UP size LZ_PAGE_SIZE / LZ_PAGE_SIZE) in
  if LZ_SPAN_TOTAL_PAGES <=? required_pages then mret NULL
  else
    t ← tlh_at tlh;
    fuel ← fetch walk_bound;
    '(current, page_idx) ← search_active fuel (active_spans t) required_pages;
    if page_idx =? -1 then
      current ← provision_span tlh;
      if current =? NULL then mret NULL
      else
        page_idx ← find_contiguous_pages current required_pages;
        if page_idx =? -1 then
          LZ_FATAL "Span engine failed to map contiguous pages in pristine chunk.";;
          mret NULL
        else finalize_span_alloc current page_idx required_pages
    else finalize_span_alloc current page_idx required_pages.

(** ** Release *)

(** Unlink an empty span and give its chunk back. *)
Definition destroy_span (tlh chunk : Z) : M unit :=
  let span := chunk + LZ_CACHE_LINE_SIZE in
  sp ← span_at span;
  (if negb (span_prev sp =? NULL)
   then update_span (span_prev sp) (set_span_next (span_next sp))
   else update_tlh tlh (set_active_spans (span_next sp)));;
  sp ← span_at span;
  (if negb (span_next sp =? NULL)
   then update_span (span_next sp) (set_span_prev (span_prev sp)) else mret tt);;
  lz_rtree_clear chunk;;
  lz_vmm_free_chunk chunk.

(** Mark the pages of a run free, clear its length, lower the count. *)
Definition give_pages (span start_page required_pages : Z) : M unit :=
  sp ← span_at span;
  match update_pages mark_free (Z.to_nat required_pages) start_page (free_bitmap sp) with
  | None => stop Segv
  | Some bitmap =>
      update_span span (set_free_bitmap bitmap);;
      store_alloc_size span start_page 0;;
      update_span span (fun sp => set_used_pages (u32 (used_pages sp - required_pages)) sp)
  end.

Definition lz_span_free_local (tlh chunk ptr : Z) : M unit :=
  let span := chunk + LZ_CACHE_LINE_SIZE in
  let offset := u64 (ptr - chunk) in
  let start_page := u32 (offset / LZ_PAGE_SIZE) in
  if (start_page =? 0) || (LZ_SPAN_TOTAL_PAGES <=? start_page) then mret tt
  else
    required_pages ← load_alloc_size span start_page;
    if required_pages =? 0 then mret tt
    else
      give_pages span start_page required_pages;;
      count_free tlh (u32 (required_pages * LZ_PAGE_SIZE));;
      sp ← span_at span;
      if used_pages sp =? 1 then destroy_span tlh chunk else mret tt.

Definition lz_span_free_remote (tlh chunk ptr : Z) : M unit := lz_span_free_local tlh chunk ptr.

End span.

(** ** The bitmap *)

(** Page [p] is free: its bit is set. *)
Definition page_free (bm : list Z) (p : Z) : bool :=
  match bm !! Z.to_nat (p / 64) with Some w => Z.testbit w (p mod 64) | None => false end.

Definition wf_bitmap (bm : list Z) : Prop :=
  length bm = 8%nat /\ Forall (fun w => 0 <= w < 2 ^ 64) bm.

Lemma land_bit_testbit w b : 0 <= b -> negb (w .& (1 <<. b) =? 0) = Z.testbit w b.
Proof.
  intros Hb. rewrite Z.shiftl_1_l. destruct (Z.testbit w b) eqn:E.
  - destruct (Z.eqb_spec (w .& 2 ^ b) 0) as [H0|]; [|done].
    assert (Z.testbit (w .& 2 ^ b) b = true) as Hc.
    { rewrite Z.land_spec, E, Z.pow2_bits_true by done. done. }
    rewrite H0, Z.bits_0 in Hc. done.
  - destruct (Z.eqb_spec (w .& 2 ^ b) 0) as [|H0]; [done|]. exfalso. apply H0.
    apply Z.bits_inj'. intros n Hn. rewrite Z.land_spec, Z.bits_0, Z.pow2_bits_eqb by done.
    destruct (Z.eqb_spec b n) as [->|]; [by rewrite E|]. apply andb_false_r.
Qed.

(** What the scan knows when it is about to look at page [p]: the last
    [consecutive] pages are free, and no run of the required length starts
    before them. *)
Record scan_inv (free : Z -> bool) (req p consecutive start_idx : Z) : Prop := {
  si_range : 0 <= consecutive < req /\ consecutive <= p;
  si_start : consecutive <> 0 -> start_idx = p - consecutive;
  si_run : forall j, p - consecutive <= j < p -> free j = true;
  si_first : forall st, 0 <= st < p - consecutive -> exists j, st <= j < st + req /\ j < p /\ free j = false
}.

(** [r] is the first run of [req] free pages below [lim], or -1. *)
Definition first_fit (free : Z -> bool) (req lim r : Z) : Prop :=
  r = -1 /\ (forall st, 0 <= st -> st + req <= lim -> exists j, st <= j < st + req /\ free j = false) \/
  0 <= r /\ r + req <= lim /\ (forall j, r <= j < r + req -> free j = true) /\
  (forall st, 0 <= st < r -> exists j, st <= j < st + req /\ free j = false).

Lemma scan_inv_used free req p c st :
  scan_inv free req p c st -> free p = false -> scan_inv free req (p + 1) 0 st.
Proof.
  intros [Hr _ _ Hf] Hp. constructor; [lia|done|intros; lia|]. intros st' Hs.
  destruct (Z.lt_ge_cases st' (p - c)) as [Hlt|Hge].
  - destruct (Hf st') as (j & ? & ? & ?); [lia|]. exists j. split_and!; [lia..|done].
  - exists p. split_and!; [lia..|done].
Qed.

Lemma scan_inv_free free req p c st :
  scan_inv free req p c st -> free p = true -> c + 1 < req ->
  scan_inv free req (p + 1) (c + 1) (if c =? 0 then p else st).
Proof.
  intros [Hr Hs Hrun Hf] Hp Hlt. constructor; [lia|..].
  - intros _. destruct (Z.eqb_spec c 0); [lia|]. rewrite Hs; lia.
  - intros j Hj. destruct (Z.eq_dec j p) as [->|]; [done|]. apply Hrun. lia.
  - intros st' Hs'. destruct (Hf st') as (j & ? & ? & ?); [lia|]. exists j. split_and!; [lia..|done].
Qed.

Lemma scan_inv_found free req p c st lim :
  scan_inv free req p c st -> free p = true -> c + 1 = req -> p < lim ->
  first_fit free req lim (if c =? 0 then p else st).
Proof.
  intros [Hr Hs Hrun Hf] Hp Hc Hlim. right.
  assert ((if c =? 0 then p else st) = p - c) as ->.
  { destruct (Z.eqb_spec c 0); [lia|]. by apply Hs. }
  split_and!; [lia..| |].
  - intros j Hj. destruct (Z.eq_dec j p) as [->|]; [done|]. apply Hrun. lia.
  - intros st' Hs'. destruct (Hf st') as (j & ? & ? & ?); [lia|]. eauto.
Qed.

Lemma scan_bits_spec free n word i bit req c st lim :
  0 <= i -> 0 <= bit -> bit + Z.of_nat n <= 64 -> req < 2 ^ 32 -> i * 64 + 64 <= lim ->
  (forall b, 0 <= b < 64 -> free (i * 64 + b) = Z.testbit word b) ->
  scan_inv free req (i * 64 + bit) c st ->
  match scan_bits n word i bit req c st with
  | Found r => first_fit free req lim r
  | Scanned c' st' => scan_inv free req (i * 64 + bit + Z.of_nat n) c' st'
  end.
Proof.
  intros Hi. revert bit c st. induction n as [|n IH]; intros bit c st Hb Hn Hreq Hlim Hw Hinv;
    cbn [scan_bits].
  { by replace (i * 64 + bit + Z.of_nat 0) with (i * 64 + bit) by lia. }
  rewrite land_bit_testbit by lia. rewrite <- Hw by lia.
  pose proof (si_range _ _ _ _ _ Hinv) as Hr.
  replace (i * 64 + bit + Z.of_nat (S n)) with (i * 64 + (bit + 1) + Z.of_nat n) by lia.
  destruct (free (i * 64 + bit)) eqn:Ef.
  - rewrite u32_small by lia. destruct (Z.eqb_spec (c + 1) req).
    + eapply scan_inv_found; [done..|lia].
    + apply IH; [lia..|done|]. replace (i * 64 + (bit + 1)) with (i * 64 + bit + 1) by lia.
      apply scan_inv_free; [done..|lia].
  - apply IH; [lia..|done|]. replace (i * 64 + (bit + 1)) with (i * 64 + bit + 1) by lia.
    by eapply scan_inv_used.
Qed.

(** Skipping a zero word is scanning 64 used pages. *)
Lemma scan_inv_skip free req p c st n :
  scan_inv free req p c st -> 0 < n -> (forall j, p <= j < p + n -> free j = false) ->
  scan_inv free req (p + n) 0 st.
Proof.
  intros [Hr _ _ Hf] Hn Hz. constructor; [lia|done|intros; lia|]. intros st' Hs.
  destruct (Z.lt_ge_cases st' (p - c)) as [Hlt|Hge].
  - destruct (Hf st') as (j & ? & ? & ?); [lia|]. exists j. split_and!; [lia..|done].
  - exists (Z.max p st'). split_and!; [lia..|]. apply Hz. lia.
Qed.

Lemma scan_words_spec free words i req c st :
  0 <= i -> req < 2 ^ 32 ->
  (forall k w b, words !! k = Some w -> 0 <= b < 64 ->
     free ((i + Z.of_nat k) * 64 + b) = Z.testbit w b) ->
  scan_inv free req (i * 64) c st ->
  first_fit free req ((i + Z.of_nat (length words)) * 64) (scan_words words i req c st).
Proof.
  intros Hi Hreq. revert i c st Hi. induction words as [|w words IH]; intros i c st Hi Hw Hinv;
    cbn [scan_words length].
  - left. split; [done|]. intros s0 Hs Hl. destruct Hinv as [Hr _ _ Hf].
    destruct (Hf s0) as (j & ? & ? & ?); [lia|]. eauto.
  - assert (forall b, 0 <= b < 64 -> free (i * 64 + b) = Z.testbit w b) as Hw0.
    { intros b Hb. rewrite <- (Hw 0%nat w b); [f_equal; lia|done..]. }
    replace (i + Z.of_nat (S (length words))) with (i + 1 + Z.of_nat (length words)) by lia.
    assert (forall k v b, words !! k = Some v -> 0 <= b < 64 ->
      free ((i + 1 + Z.of_nat k) * 64 + b) = Z.testbit v b) as Hw1.
    { intros k v b Hk Hb. rewrite <- (Hw (S k) v b); [f_equal; lia|done..]. }
    destruct (Z.eqb_spec w 0) as [->|Hne].
    + apply IH; [lia|done|]. replace ((i + 1) * 64) with (i * 64 + 64) by lia.
      eapply scan_inv_skip; [done|lia|]. intros j Hj.
      replace j with (i * 64 + (j - i * 64)) by lia. rewrite Hw0, Z.bits_0 by lia. done.
    + pose proof (scan_bits_spec free 64 w i 0 req c st ((i + 1 + Z.of_nat (length words)) * 64)) as Hb.
      rewrite Z.add_0_r in Hb. specialize (Hb Hi ltac:(lia) ltac:(lia) Hreq ltac:(lia) Hw0 Hinv).
      destruct (scan_bits _ _ _ _ _ _ _) as [r|c' st']; [done|].
      apply IH; [lia|done|]. by replace ((i + 1) * 64) with (i * 64 + Z.of_nat 64) by lia.
Qed.

Lemma page_free_word bm k w b :
  bm !! k = Some w -> 0 <= b < 64 -> page_free bm (Z.of_nat k * 64 + b) = Z.testbit w b.
Proof.
  intros Hk Hb. unfold page_free.
  replace ((Z.of_nat k * 64 + b) / 64) with (Z.of_nat k) by dlia.
  replace ((Z.of_nat k * 64 + b) mod 64) with b by dlia. by rewrite Nat2Z.id, Hk.
Qed.

(** The search of the code is first-fit over the pages of the span. *)
Lemma scan_first_fit bm req :
  length bm = 8%nat -> 1 <= req < 2 ^ 32 ->
  first_fit (page_free bm) req 512 (scan_words bm 0 req 0 (-1)).
Proof.
  intros Hl Hreq. replace 512 with ((0 + Z.of_nat (length bm)) * 64) by (rewrite Hl; lia).
  apply scan_words_spec; [lia..| |].
  - intros k w b Hk Hb. by rewrite Z.add_0_l, page_free_word with (w := w).
  - constructor; intros; lia.
Qed.

(** With nothing required the search fails. *)
Lemma scan_bits_zero n word i bit c st :
  0 <= c -> c + Z.of_nat n < 2 ^ 32 ->
  exists c' st', scan_bits n word i bit 0 c st = Scanned c' st' /\ 0 <= c' <= c + Z.of_nat n.
Proof.
  revert bit c st. induction n as [|n IH]; intros bit c st Hc Hn; cbn [scan_bits].
  - exists c, st. split; [done|lia].
  - destruct (negb _).
    + rewrite u32_small by lia. zfalse (c + 1 =? 0).
      edestruct (IH (bit + 1) (c + 1)) as (c' & st' & -> & ?); [lia..|]. exists c', st'. split; [done|lia].
    + edestruct (IH (bit + 1) 0) as (c' & st' & -> & ?); [lia..|]. exists c', st'. split; [done|lia].
Qed.

Lemma scan_words_zero words i c st :
  0 <= c -> c + 64 * Z.of_nat (length words) < 2 ^ 32 -> scan_words words i 0 c st = -1.
Proof.
  revert i c st. induction words as [|w words IH]; intros i c st Hc Hn; cbn [scan_words]; [done|].
  cbn [length] in Hn. destruct (w =? 0); [apply IH; lia|].
  destruct (scan_bits_zero 64 w i 0 c st) as (c' & st' & -> & ?); [lia..|]. apply IH; lia.
Qed.

(** ** Marking *)

(** [f] writes [v] into the bit it is given. *)
Definition writes_bit (f : Z -> Z -> Z) (v : bool) : Prop :=
  forall w b, 0 <= w < 2 ^ 64 -> 0 <= b < 64 ->
    0 <= f w (1 <<. b) < 2 ^ 64 /\
    forall k, 0 <= k < 64 -> Z.testbit (f w (1 <<. b)) k = if b =? k then v else Z.testbit w k.

Lemma mark_used_bit : writes_bit mark_used false.
Proof.
  intros w b Hw Hb. unfold mark_used, lnot64, u64. split.
  - assert (w .& (Z.lnot (1 <<. b) mod 2 ^ 64) = (w .& Z.lnot (1 <<. b)) mod 2 ^ 64) as ->.
    { rewrite <- !Z.land_ones by lia. by rewrite Z.land_assoc. }
    apply Z.mod_pos_bound. lia.
  - intros k Hk. rewrite Z.land_spec, Z.mod_pow2_bits_low, Z.lnot_spec, Z.shiftl_1_l,
      Z.pow2_bits_eqb by lia.
    destruct (b =? k); cbn; [apply andb_false_r|apply andb_true_r].
Qed.

Lemma mark_free_bit : writes_bit mark_free true.
Proof.
  intros w b Hw Hb. unfold mark_free. rewrite Z.shiftl_1_l.
  pose proof (pow2_pos b ltac:(lia)). split.
  - split; [apply Z.lor_nonneg; lia|]. destruct (Z.eq_dec (w .| 2 ^ b) 0) as [->|]; [lia|].
    assert (0 <= w .| 2 ^ b) by (apply Z.lor_nonneg; lia).
    apply Z.log2_lt_pow2; [lia|]. rewrite Z.log2_lor, Z.log2_pow2 by lia.
    apply Z.max_lub_lt; [|lia]. destruct (Z.eq_dec w 0) as [->|]; [done|].
    apply Z.log2_lt_pow2; lia.
  - intros k Hk. rewrite Z.lor_spec, Z.pow2_bits_eqb by lia.
    destruct (b =? k); [apply orb_true_r|apply orb_false_r].
Qed.

(** One bit of the array. *)
Lemma page_free_write f v bm p w :
  writes_bit f v -> wf_bitmap bm -> 0 <= p < 512 -> bm !! Z.to_nat (p / 64) = Some w ->
  let bm' := <[Z.to_nat (p / 64) := f w (1 <<. (p mod 64))]> bm in
  wf_bitmap bm' /\
  forall q, 0 <= q -> page_free bm' q = if p =? q then v else page_free bm q.
Proof.
  intros Hf [Hl Hall] Hp Hw bm'.
  destruct (Hf w (p mod 64)) as [Hr Hb].
  { by eapply (Forall_lookup_1 _ _ _ _ Hall). }
  { apply Z.mod_pos_bound. lia. }
  split; [split; [unfold bm'; by rewrite length_insert|by apply Forall_insert]|].
  intros q Hq. unfold page_free, bm'. rewrite list_lookup_insert. case_decide as Hd.
  - destruct Hd as [Hd _]. assert (p / 64 = q / 64) as E by dlia.
    rewrite Hb by (apply Z.mod_pos_bound; lia). rewrite <- Hd, Hw.
    destruct (Z.eqb_spec p q) as [->|Hne]; [by rewrite Z.eqb_refl|].
    destruct (Z.eqb_spec (p mod 64) (q mod 64)); [|done]. exfalso. dlia.
  - destruct (Z.eqb_spec p q) as [->|]; [|done]. exfalso. apply Hd. split; [done|].
    by eapply lookup_lt_Some.
Qed.

Lemma update_pages_spec f v n j bm :
  writes_bit f v -> wf_bitmap bm -> 0 <= j -> j + Z.of_nat n <= 512 ->
  exists bm', update_pages f n j bm = Some bm' /\ wf_bitmap bm' /\
    forall q, 0 <= q -> page_free bm' q =
      if (j <=? q) && (q <? j + Z.of_nat n) then v else page_free bm q.
Proof.
  intros Hf. revert j bm. induction n as [|n IH]; intros j bm Hwf Hj Hn; cbn [update_pages].
  - exists bm. split_and!; [done..|]. intros q Hq.
    change (Z.of_nat 0) with 0. destruct ((j <=? q) && (q <? j + 0)) eqn:E; [exfalso; lia|done].
  - destruct (lookup_lt_is_Some_2 bm (Z.to_nat (j / 64))) as [w Hw].
    { destruct Hwf as [-> _]. dlia. }
    rewrite Hw. cbn [mbind option_bind].
    destruct (page_free_write f v bm j w Hf Hwf ltac:(lia) Hw) as [Hwf1 Hpf].
    destruct (IH (j + 1) _ Hwf1) as (bm' & -> & Hwf' & Hpf'); [lia..|].
    exists bm'. split_and!; [done..|]. intros q Hq. rewrite Hpf', Hpf by done.
    replace (Z.of_nat (S n)) with (Z.of_nat n + 1) by lia.
    destruct (Z.eqb_spec j q) as [->|]; [|].
    + destruct ((q + 1 <=? q) && _) eqn:E; [exfalso; lia|].
      by replace ((q <=? q) && (q <? q + (Z.of_nat n + 1))) with true by lia.
    + by replace ((j + 1 <=? q) && (q <? j + 1 + Z.of_nat n))
        with ((j <=? q) && (q <? j + (Z.of_nat n + 1))) by lia.
Qed.

(** ** Counting *)

(** Number of pages below [n] that are not free. *)
Fixpoint used_below (free : Z -> bool) (n : nat) : Z :=
  match n with
  | O => 0
  | S n => used_below free n + (if free (Z.of_nat n) then 0 else 1)
  end.


(** Overlap of [st, st + len) with the first [n] pages. *)
Definition overlap (st len n : Z) : Z := Z.max 0 (Z.min n (st + len) - st).

(** Flipping a run of free pages to used. *)
Lemma used_below_flip free free' st len n :
  0 <= st -> 0 <= len ->
  (forall p, 0 <= p -> free p = true /\ free' p = false \/ ~ (st <= p < st + len)) ->
  (forall p, 0 <= p -> st <= p < st + len \/ free' p = free p) ->
  used_below free' n = used_below free n + overlap st len (Z.of_nat n).
Proof.
  unfold overlap. intros Hs Hl Hin Hout. induction n as [|n IH]; cbn [used_below]; [lia|].
  rewrite IH. destruct (decide (st <= Z.of_nat n < st + len)) as [Hr|Hr].
  - destruct (Hin (Z.of_nat n) ltac:(lia)) as [[E1 E2]|?]; [rewrite E1, E2|]; lia.
  - destruct (Hout (Z.of_nat n) ltac:(lia)) as [?|E1]; [|rewrite E1]; lia.
Qed.

(** A run of free pages bounds the count. *)
Lemma used_below_run free st len n :
  0 <= st -> 0 <= len -> (forall p, st <= p < st + len -> free p = true) ->
  used_below free n <= Z.of_nat n - overlap st len (Z.of_nat n).
Proof.
  unfold overlap. intros Hs Hl Hrun. induction n as [|n IH]; cbn [used_below]; [lia|].
  destruct (decide (st <= Z.of_nat n < st + len)) as [Hr|Hr].
  - rewrite Hrun by lia. lia.
  - destruct (free (Z.of_nat n)); lia.
Qed.

Lemma used_below_nonneg free n : 0 <= used_below free n.
Proof. induction n; cbn [used_below]; [lia|]. destruct (free _); lia. Qed.
#[export] Hint Resolve used_below_nonneg : lz.

(** Used pages bound the count from below. *)
Lemma used_below_one free n p : 0 <= p < Z.of_nat n -> free p = false -> 1 <= used_below free n.
Proof.
  intros Hp Hf. induction n as [|n IH]; cbn [used_below]; [lia|].
  destruct (Z.eq_dec (Z.of_nat n) p) as [E|].
  - rewrite E, Hf. pose proof (used_below_nonneg free n). lia.
  - specialize (IH ltac:(lia)). destruct (free (Z.of_nat n)); lia.
Qed.

Lemma used_below_pair free n p q :
  0 <= p < q -> q < Z.of_nat n -> free p = false -> free q = false -> 2 <= used_below free n.
Proof.
  intros Hpq Hq Hp Hf. induction n as [|n IH]; cbn [used_below]; [lia|].
  destruct (Z.eq_dec (Z.of_nat n) q) as [E|].
  - rewrite E, Hf. pose proof (used_below_one free n p ltac:(lia) Hp). lia.
  - specialize (IH ltac:(lia)). destruct (free (Z.of_nat n)); lia.
Qed.

(** A range is all free or has a used page. *)
Lemma run_or_gap (free : Z -> bool) st n :
  0 <= n -> (forall j, st <= j < st + n -> free j = true) \/
  exists j, st <= j < st + n /\ free j = false.
Proof.
  intros Hn. pattern n. apply natlike_ind; [| |done].
  - left. intros. lia.
  - intros m Hm [Hall|(j & Hj & Hf)]; [|right; exists j; split; [lia|done]].
    destruct (free (st + m)) eqn:E.
    + left. intros j Hj. destruct (Z.eq_dec j (st + m)) as [->|]; [done|]. apply Hall. lia.
    + right. exists (st + m). split; [lia|done].
Qed.
