(* ===== verification/SpanSpec.v ===== *)
(** * What the span engine promises

    The representation invariant of a span and of the list of active spans of
    a heap, the blocks of pages it has handed out, and the refinement of
    [lz_span_alloc] and [lz_span_free_local] to adding and removing one block
    of a set of disjoint blocks. *)

From S2P Require Import Prelude Common Machine Wp Dll Testbed Security Rtree Vmm VmmSpec.
From S2P Require Import Provision Telemetry Span.

(** ** One span *)

(** [n] pages were handed out at page [i]. *)
Definition run (sp : lz_span_t) (i n : Z) : Prop :=
  0 <= i /\ alloc_size_pages sp !! Z.to_nat i = Some n /\ 0 < n.

(** Page 0 holds the metadata; the other used pages are exactly those of the
    disjoint runs in the length table; the counter counts the used pages. *)
Record span_inv (sp : lz_span_t) : Prop := {
  sv_bitmap : wf_bitmap (free_bitmap sp);
  sv_table : length (alloc_size_pages sp) = 512%nat /\
    Forall (fun n => 0 <= n < 2 ^ 16) (alloc_size_pages sp);
  sv_run : forall i n, run sp i n -> 1 <= i /\ i + n <= 512;
  sv_disj : forall i n i' n', run sp i n -> run sp i' n' -> i < i' -> i + n <= i';
  sv_page : forall p, 0 <= p < 512 -> page_free (free_bitmap sp) p = false <->
    p = 0 \/ exists i n, run sp i n /\ i <= p < i + n;
  sv_used : used_pages sp = used_below (page_free (free_bitmap sp)) 512
}.

(** The span after handing out [req] pages at [idx], and after taking back the
    run at [i]. *)
Definition span_take (sp : lz_span_t) (idx req : Z) (bm : list Z) : lz_span_t :=
  mk_span (span_next sp) (span_prev sp) bm (used_pages sp + req)
    (<[Z.to_nat idx := req]> (alloc_size_pages sp)).
Definition span_give (sp : lz_span_t) (i n : Z) (bm : list Z) : lz_span_t :=
  mk_span (span_next sp) (span_prev sp) bm (used_pages sp - n)
    (<[Z.to_nat i := 0]> (alloc_size_pages sp)).

Lemma run_insert sp i v bm u j n :
  0 <= i < 512 -> length (alloc_size_pages sp) = 512%nat ->
  run (mk_span (span_next sp) (span_prev sp) bm u (<[Z.to_nat i := v]> (alloc_size_pages sp))) j n <->
  if decide (i = j) then n = v /\ 0 < n else run sp j n.
Proof.
  intros Hi Hl. unfold run. cbn. rewrite list_lookup_insert. destruct (decide (i = j)) as [->|Hd].
  - rewrite decide_True by (split; [done|lia]). split.
    + by intros (_ & [= ->] & ?).
    + intros (-> & ?). split_and!; [lia|done|done].
  - destruct (decide (0 <= j)) as [Hj|Hj]; [|naive_solver].
    rewrite decide_False by lia. done.
Qed.

Lemma span_take_inv sp idx req bm :
  span_inv sp -> 1 <= req -> 0 <= idx -> idx + req <= 512 ->
  (forall p, idx <= p < idx + req -> page_free (free_bitmap sp) p = true) ->
  wf_bitmap bm ->
  (forall q, 0 <= q -> page_free bm q =
     if (idx <=? q) && (q <? idx + req) then false else page_free (free_bitmap sp) q) ->
  span_inv (span_take sp idx req bm) /\ 1 <= idx /\
  (forall i n, run (span_take sp idx req bm) i n <-> run sp i n \/ i = idx /\ n = req) /\
  (forall i n, run sp i n -> i + n <= idx \/ idx + req <= i).
Proof.
  intros [Hbm [Htab Hu16] Hrun Hdis Hpage Hused] Hreq H0 Hlim Hfree Hwf Hbits.
  assert (1 <= idx) as H1.
  { destruct (Z.eq_dec idx 0) as [->|]; [|lia]. specialize (Hfree 0 ltac:(lia)).
    assert (page_free (free_bitmap sp) 0 = false) by (apply Hpage; [lia|by left]). congruence. }
  assert (forall i n, run sp i n -> i + n <= idx \/ idx + req <= i) as Hsep.
  { intros i n Hr. destruct (Hrun _ _ Hr). destruct Hr as (Hi & Hl & Hn).
    destruct (decide (i + n <= idx \/ idx + req <= i)) as [|Ho]; [done|exfalso].
    assert (page_free (free_bitmap sp) (Z.max i idx) = false) as E.
    { apply Hpage; [lia|]. right. exists i, n. split; [done|lia]. }
    rewrite Hfree in E; [done|lia]. }
  assert (forall i n, run (span_take sp idx req bm) i n <-> run sp i n \/ i = idx /\ n = req) as Hiff.
  { intros i n. unfold span_take. rewrite run_insert by (done || lia). case_decide as Hd.
    2: { split; [by left|]. intros [?|[? _]]; [done|congruence]. }
    subst i. split; [intros [-> _]; by right|]. intros [Hr|[_ ->]]; [|lia]. exfalso.
    destruct (Hsep _ _ Hr); destruct Hr as (_ & _ & ?); lia. }
  split_and!; [|done..]. constructor.
  - done.
  - cbn. rewrite length_insert. split; [done|]. apply Forall_insert; [done|lia].
  - intros i n [Hr|[-> ->]]%Hiff; [auto|lia].
  - intros i n i' n' [Hr|[-> ->]]%Hiff [Hr'|[-> ->]]%Hiff Hlt.
    + eauto.
    + destruct (Hsep _ _ Hr); lia.
    + destruct (Hsep _ _ Hr') as [Hs|Hs]; [|lia]. destruct Hr' as (_ & _ & ?). lia.
    + lia.
  - intros p Hp. cbn. rewrite Hbits by lia.
    destruct ((idx <=? p) && (p <? idx + req)) eqn:E.
    + split; [|done]. intros _. right. exists idx, req. split; [apply Hiff; auto|lia].
    + rewrite Hpage by done. split.
      * intros [->|(i & n & Hr & Hi)]; [by left|]. right. exists i, n. rewrite Hiff. auto.
      * intros [->|(i & n & [Hr|[-> ->]]%Hiff & Hi)]; [by left| |exfalso; lia].
        right. eauto.
  - cbn [used_pages free_bitmap span_take span_give]. rewrite Hused. symmetry. rewrite (used_below_flip (page_free (free_bitmap sp)) _ idx req).
    + unfold overlap. change (Z.of_nat 512) with 512. lia.
    + lia.
    + lia.
    + intros p Hp. rewrite Hbits by done. destruct (decide (idx <= p < idx + req)) as [Hr|]; [|auto].
      left. split; [by apply Hfree|]. by replace ((idx <=? p) && (p <? idx + req)) with true by lia.
    + intros p Hp. rewrite Hbits by done. destruct (decide (idx <= p < idx + req)); [auto|].
      right. by replace ((idx <=? p) && (p <? idx + req)) with false by lia.
Qed.

Lemma span_give_inv sp i n bm :
  span_inv sp -> run sp i n -> wf_bitmap bm ->
  (forall q, 0 <= q -> page_free bm q =
     if (i <=? q) && (q <? i + n) then true else page_free (free_bitmap sp) q) ->
  span_inv (span_give sp i n bm) /\
  (forall j m, run (span_give sp i n bm) j m <-> run sp j m /\ j <> i).
Proof.
  intros [Hbm [Htab Hu16] Hrun Hdis Hpage Hused] Hr0 Hwf Hbits.
  destruct (Hrun _ _ Hr0) as [Hi1 Hlim]. destruct (Hr0) as (_ & Hl0 & Hn0).
  assert (forall j m, run (span_give sp i n bm) j m <-> run sp j m /\ j <> i) as Hiff.
  { intros j m. unfold span_give. rewrite run_insert by (done || lia). case_decide as Hd.
    - subst j. split; [lia|by intros [_ ?]].
    - split; [intros; split; congruence|by intros [? _]]. }
  split; [|done]. constructor.
  - done.
  - cbn. rewrite length_insert. split; [done|]. apply Forall_insert; [done|lia].
  - intros j m [Hr _]%Hiff. auto.
  - intros j m j' m' [Hr _]%Hiff [Hr' _]%Hiff. eauto.
  - intros p Hp. cbn. rewrite Hbits by lia.
    destruct ((i <=? p) && (p <? i + n)) eqn:E.
    + split; [done|]. intros [->|(j & m & [Hr Hne]%Hiff & Hj)]; [exfalso; lia|exfalso].
      destruct (Z.lt_total j i) as [Hlt|[->|Hlt]]; [|done|].
      * specialize (Hdis _ _ _ _ Hr Hr0 Hlt). lia.
      * specialize (Hdis _ _ _ _ Hr0 Hr Hlt). lia.
    + rewrite Hpage by done. split.
      * intros [->|(j & m & Hr & Hj)]; [by left|]. right. exists j, m. rewrite Hiff.
        split; [split; [done|]|done]. intros ->. destruct Hr as (_ & Hl & _). simplify_eq. lia.
      * intros [->|(j & m & [Hr _]%Hiff & Hj)]; [by left|]. right. eauto.
  - cbn [used_pages free_bitmap span_take span_give]. rewrite Hused. rewrite (used_below_flip (page_free bm) (page_free (free_bitmap sp)) i n).
    + unfold overlap. change (Z.of_nat 512) with 512. lia.
    + lia.
    + lia.
    + intros p Hp. rewrite Hbits by done. destruct (decide (i <= p < i + n)) as [Hr|]; [|auto].
      left. replace ((i <=? p) && (p <? i + n)) with true by lia. split; [done|].
      apply Hpage; [lia|]. right. eauto.
    + intros p Hp. rewrite Hbits by done. destruct (decide (i <= p < i + n)); [auto|].
      right. by replace ((i <=? p) && (p <? i + n)) with false by lia.
Qed.

(** A span with nothing handed out has exactly one page in use. *)
Lemma span_empty_iff sp : span_inv sp -> used_pages sp = 1 <-> forall i n, ~ run sp i n.
Proof.
  intros [Hbm Htab Hrun Hdis Hpage Hused].
  assert (page_free (free_bitmap sp) 0 = false) as H0 by (apply Hpage; [lia|by left]). split.
  - intros H1 i n Hr. destruct (Hrun _ _ Hr). destruct (Hr) as (_ & _ & Hn).
    assert (page_free (free_bitmap sp) i = false).
    { apply Hpage; [lia|]. right. exists i, n. split; [done|lia]. }
    assert (2 <= used_below (page_free (free_bitmap sp)) 512); [|lia].
    apply (used_below_pair _ _ 0 i); [lia| |done..]. change (Z.of_nat 512) with 512. lia.
  - intros Hno. rewrite Hused.
    assert (forall m, (S m <= 512)%nat -> used_below (page_free (free_bitmap sp)) (S m) = 1) as Hm.
    { induction m as [|m IH]; intros Hm; [cbn [used_below]; change (Z.of_nat 0) with 0; by rewrite H0|].
      change (used_below (page_free (free_bitmap sp)) (S m) +
        (if page_free (free_bitmap sp) (Z.of_nat (S m)) then 0 else 1) = 1). rewrite IH by lia.
      destruct (page_free _ (Z.of_nat (S m))) eqn:E; [done|exfalso].
      apply Hpage in E; [|lia]. destruct E as [E|(i & n & Hr & _)]; [lia|]. by eapply Hno. }
    by apply (Hm 511%nat).
Qed.

(** Otherwise some run is handed out. *)
Lemma span_used_run sp : span_inv sp -> used_pages sp <> 1 -> exists i n, run sp i n.
Proof.
  intros Hi Hu. destruct (decide (Exists (fun n => 0 < n) (alloc_size_pages sp))) as [He|Hne].
  - apply Exists_exists in He as (n & [k Hk]%list_elem_of_lookup_1 & Hn).
    exists (Z.of_nat k), n. split_and!; [lia|by rewrite Nat2Z.id|done].
  - exfalso. apply Hu, span_empty_iff; [done|]. intros i n (_ & Hl & Hn). apply Hne.
    apply Exists_exists. exists n. split; [by eapply list_elem_of_lookup_2|done].
Qed.

(** The metadata written into a new chunk. *)
Definition fresh_span (next : Z) : lz_span_t :=
  mk_span next NULL
    (lnot64 1 :: replicate (Z.to_nat (LZ_SPAN_BITMAP_WORDS - 1)) (lnot64 0)) 1
    (replicate (Z.to_nat LZ_SPAN_TOTAL_PAGES) 0).

Lemma fresh_span_page next p :
  0 <= p < 512 -> page_free (free_bitmap (fresh_span next)) p = negb (p =? 0).
Proof.
  assert (forallb (fun k => Bool.eqb (page_free (free_bitmap (fresh_span 0)) (Z.of_nat k))
    (negb (Z.of_nat k =? 0))) (seq 0 512) = true) as Hall by (vm_compute; reflexivity).
  intros Hp. rewrite forallb_forall in Hall. specialize (Hall (Z.to_nat p)).
  rewrite Z2Nat.id in Hall by lia. apply Bool.eqb_prop. apply Hall. apply in_seq. lia.
Qed.

Lemma fresh_span_no_run next i n : ~ run (fresh_span next) i n.
Proof. intros (_ & Hl & Hn). apply lookup_replicate in Hl as [-> _]. lia. Qed.

Lemma fresh_span_inv next : span_inv (fresh_span next).
Proof.
  constructor.
  - split; [done|]. repeat constructor; done.
  - split; [done|]. by apply Forall_replicate.
  - intros i n Hr. by apply fresh_span_no_run in Hr.
  - intros i n i' n' Hr. by apply fresh_span_no_run in Hr.
  - intros p Hp. rewrite fresh_span_page by done. split.
    + intros E. left. lia.
    + intros [->|(i & n & Hr & _)]; [done|]. by apply fresh_span_no_run in Hr.
  - vm_compute. reflexivity.
Qed.

(** ** The active spans of a heap *)

(** [p] is a span of heap [tlh]: valid metadata in an owned chunk. *)
Record span_ok (s : state) (tlh p : Z) (sp : lz_span_t) : Prop := {
  so_body : body_of s p = BSpan sp;
  so_inv : span_inv sp;
  so_chunk : chunk_ok s (p - 64);
  so_header : let c := chunk_of s (p - 64) in
    magic c = LZ_CHUNK_MAGIC_V2 /\ 0 <= node_id c < 16 /\ owning_tlh c = tlh /\
    chunk_type c = LZ_CHUNK_TYPE_SPAN
}.

Record span_heap (s : state) (tlh : Z) (L G : list Z) (P : list (list Z)) : Prop := {
  sh_vmm : vmm_inv s G P;
  sh_rtree : rtree_inv s;
  sh_tlh : exists t, h_tlhs s !! tlh = Some t /\ dll (links s) NULL (active_spans t) L /\
    (stat_slot t = NULL \/ is_Some (h_stats s !! stat_slot t));
  sh_nodup : NoDup L;
  sh_span : forall p, p ∈ L -> exists sp, span_ok s tlh p sp;
  sh_out : forall p, p ∈ L -> p - 64 ∉ G ++ concat P
}.

(** A block of [n] pages at [a] handed out by the spans of [L]. *)
Definition span_block (s : state) (L : list Z) (a n : Z) : Prop :=
  exists p sp i, p ∈ L /\ body_of s p = BSpan sp /\ run sp i n /\ a = p - 64 + i * 4096.

Lemma span_ok_mapped s tlh p sp : span_ok s tlh p sp -> mapped s p = true.
Proof. intros [_ _ (_ & _ & _ & Hm) _]. apply Hm. lia. Qed.

Lemma span_heap_bound s tlh L G P : span_heap s tlh L G P -> (length L < walk_bound s)%nat.
Proof.
  intros Hh. unfold walk_bound. rewrite <- size_dom. rewrite <- (size_list_to_set (C := gset Z) L)
    by apply Hh. apply Nat.lt_succ_r, subseteq_size. intros p Hp. apply elem_of_list_to_set in Hp.
  destruct (sh_span _ _ _ _ _ Hh p Hp) as [sp [Hb _ _ _]]. apply elem_of_dom.
  unfold body_of in Hb. destruct (h_bodies s !! p); [done|]. done.
Qed.

(** Two states that agree on the body of a node agree on its links. *)
Lemma links_body s s' p : body_of s' p = body_of s p -> links s' p = links s p.
Proof. unfold links. by intros ->. Qed.

Lemma links_span s p sp : body_of s p = BSpan sp -> links s p = Some (span_next sp, span_prev sp).
Proof. unfold links. by intros ->. Qed.

(** Replacing the metadata of one span, links aside. *)
Lemma span_heap_body s tlh L G P p sp sp' :
  span_heap s tlh L G P -> p ∈ L -> body_of s p = BSpan sp -> span_inv sp' ->
  span_next sp' = span_next sp -> span_prev sp' = span_prev sp ->
  span_heap (set_h_bodies (<[p := BSpan sp']> (h_bodies s)) s) tlh L G P.
Proof.
  intros [Hv Hr (t & Ht & Hd & Hst) Hnd Hs Ho] Hp Hb Hi En Ep.
  set (s' := set_h_bodies _ s).
  assert (forall q, body_of s' q = if decide (p = q) then BSpan sp' else body_of s q) as Hb'.
  { intros q. apply body_of_insert. }
  constructor; [by eapply vmm_inv_frame|by eapply rtree_inv_ext| |done| |done].
  - exists t. split_and!; [done| |done]. eapply dll_ext; [|exact Hd]. intros q _. unfold links.
    rewrite Hb'. case_decide; [|done]. subst q. rewrite Hb. cbn. by rewrite En, Ep.
  - intros q Hq. destruct (Hs q Hq) as [sq [Hbq Hiq Hcq Hhq]].
    destruct (decide (p = q)) as [->|Hne].
    + exists sp'. constructor; [by rewrite Hb', decide_True|done|exact Hcq|exact Hhq].
    + exists sq. constructor; [by rewrite Hb', decide_False|done|exact Hcq|exact Hhq].
Qed.

(** How such a replacement changes the set of blocks. *)
Lemma span_block_body s L p sp' a n :
  span_block (set_h_bodies (<[p := BSpan sp']> (h_bodies s)) s) L a n <->
  p ∈ L /\ (exists i, run sp' i n /\ a = p - 64 + i * 4096) \/
  (exists q sq i, q ∈ L /\ q <> p /\ body_of s q = BSpan sq /\ run sq i n /\ a = q - 64 + i * 4096).
Proof.
  unfold span_block. setoid_rewrite body_of_insert. split.
  - intros (q & sq & i & Hq & Hb & Hr & Ha). case_decide.
    + subst q. injection Hb as <-. left. eauto.
    + right. exists q, sq, i. split_and!; congruence || done.
  - intros [(Hp & i & Hr & Ha)|(q & sq & i & Hq & Hne & Hb & Hr & Ha)].
    + exists p, sp', i. by rewrite decide_True.
    + exists q, sq, i. rewrite decide_False by congruence. done.
Qed.

(** The spans of a heap survive a change of state that keeps their chunks and
    their list. *)
Lemma span_heap_frame s s' tlh t' L G P G' P' :
  span_heap s tlh L G P -> vmm_inv s' G' P' -> rtree_inv s' ->
  (forall q, q ∈ L -> chunk_ok s' (q - 64) /\ body_of s' q = body_of s q /\
     chunk_of s' (q - 64) = chunk_of s (q - 64) /\ q - 64 ∉ G' ++ concat P') ->
  h_tlhs s' !! tlh = Some t' ->
  (forall t, h_tlhs s !! tlh = Some t -> active_spans t' = active_spans t) ->
  stat_slot t' = NULL \/ is_Some (h_stats s' !! stat_slot t') ->
  span_heap s' tlh L G' P' /\ forall a n, span_block s' L a n <-> span_block s L a n.
Proof.
  intros [Hv Hr (t & Ht & Hd & Hst) Hnd Hs Ho] Hv' Hr' HL Ht' Ha Hst'. split.
  - constructor; [done|done| |done|..].
    + exists t'. rewrite (Ha t Ht). split_and!; [done| |done].
      eapply dll_ext; [|exact Hd]. intros q Hq. by apply links_body, HL.
    + intros q Hq. destruct (Hs q Hq) as [sq [Hb Hi Hc Hh]]. destruct (HL q Hq) as (Hok & Eb & Ec & _).
      exists sq. constructor; [by rewrite Eb|done|done|cbv zeta; by rewrite Ec].
    + intros q Hq. by apply HL.
  - intros a n. unfold span_block. split; intros (q & sq & i & Hq & Hb & Hrest); exists q, sq, i;
      destruct (HL q Hq) as (_ & Eb & _); (split; [done|]); (split; [congruence|done]).
Qed.

Lemma span_heap_keep s s' tlh L G P G' P' :
  span_heap s tlh L G P -> vmm_inv s' G' P' -> rtree_inv s' ->
  (forall x, mapped s x = true -> mapped s' x = true) ->
  (forall q, q ∈ L -> body_of s' q = body_of s q /\ chunk_of s' (q - 64) = chunk_of s (q - 64) /\
     q - 64 ∉ G' ++ concat P') ->
  (forall t, h_tlhs s !! tlh = Some t -> exists t', h_tlhs s' !! tlh = Some t' /\
     active_spans t' = active_spans t /\ stat_slot t' = stat_slot t) ->
  (forall p, is_Some (h_stats s !! p) -> is_Some (h_stats s' !! p)) ->
  span_heap s' tlh L G' P' /\ forall a n, span_block s' L a n <-> span_block s L a n.
Proof.
  intros Hh Hv' Hr' Hm HL Htl Hstat. destruct (sh_tlh _ _ _ _ _ Hh) as (t & Ht & _ & Hst).
  destruct (Htl t Ht) as (t' & Ht' & Ea & Es). eapply span_heap_frame; [exact Hh|done..| |exact Ht'| |].
  - intros q Hq. split; [|by apply HL]. destruct (sh_span _ _ _ _ _ Hh q Hq) as [sq Hsq].
    eapply chunk_ok_mono; [exact Hm|apply Hsq].
  - intros t0 Ht0. congruence.
  - rewrite Es. destruct Hst; [by left|right; auto].
Qed.

Section span_rules.
Context `{EnvLaws}.

(** ** Search *)

Lemma wp_find_contiguous p sp req Q s :
  mapped s p = true -> body_of s p = BSpan sp -> span_inv sp -> 1 <= req < 512 ->
  ((forall st, 0 <= st -> st + req <= 512 ->
      exists j, st <= j < st + req /\ page_free (free_bitmap sp) j = false) -> Q (-1) s) ->
  (forall idx bm, 0 <= idx -> idx + req <= 512 ->
     (forall j, idx <= j < idx + req -> page_free (free_bitmap sp) j = true) ->
     wf_bitmap bm ->
     (forall q, 0 <= q -> page_free bm q =
        if (idx <=? q) && (q <? idx + req) then false else page_free (free_bitmap sp) q) ->
     Q idx (set_h_bodies (<[p := BSpan (set_free_bitmap bm sp)]> (h_bodies s)) s)) ->
  wp (find_contiguous_pages p req) Q s.
Proof.
  intros Hm Hb Hi Hreq Hno Hyes. unfold find_contiguous_pages. wp_step.
  eapply wp_span_at; [done..|]. destruct (sv_bitmap _ Hi) as [Hl Hw].
  destruct (scan_first_fit (free_bitmap sp) req Hl ltac:(lia)) as [[-> Hn]|(H0' & Hlim & Hrun & _)].
  - wp_steps. by apply Hno.
  - set (idx := scan_words _ _ _ _ _) in *. zfalse (idx =? -1).
    destruct (update_pages_spec mark_used false (Z.to_nat req) idx (free_bitmap sp))
      as (bm & -> & Hwf & Hbits); [apply mark_used_bit|done|done|lia|].
    wp_step. eapply wp_update_span; [done..|]. wp_steps. apply Hyes; [done..|].
    intros q Hq. rewrite Hbits, Z2Nat.id by lia. done.
Qed.

(** The walk over the active spans stops at the first with a fitting run; if
    it reaches the end, none has one. *)
Lemma wp_search_active tlh req L fuel prev a Q s :
  1 <= req < 512 -> dll (links s) prev a L -> (length L < fuel)%nat ->
  (forall p, p ∈ L -> exists sp, span_ok s tlh p sp) ->
  ((forall p sp st, p ∈ L -> body_of s p = BSpan sp -> 0 <= st -> st + req <= 512 ->
      exists j, st <= j < st + req /\ page_free (free_bitmap sp) j = false) -> Q (NULL, -1) s) ->
  (forall p sp idx bm, p ∈ L -> body_of s p = BSpan sp -> 0 <= idx -> idx + req <= 512 ->
     (forall j, idx <= j < idx + req -> page_free (free_bitmap sp) j = true) ->
     wf_bitmap bm ->
     (forall q, 0 <= q -> page_free bm q =
        if (idx <=? q) && (q <? idx + req) then false else page_free (free_bitmap sp) q) ->
     Q (p, idx) (set_h_bodies (<[p := BSpan (set_free_bitmap bm sp)]> (h_bodies s)) s)) ->
  wp (search_active fuel a req) Q s.
Proof.
  intros Hreq. revert fuel prev a Q. induction L as [|p L IH];
    intros fuel prev a Q Hd Hf Hok Hno Hyes; (destruct fuel as [|fuel]; [lia|]); cbn [search_active].
  { cbn in Hd. subst a. cbn. wp_steps. apply Hno. intros p sp st Hp. by apply not_elem_of_nil in Hp. }
  destruct Hd as (-> & Hp0 & next & Hlk & Hd). zfalse (p =? NULL).
  destruct (Hok p) as [sp Hsp]; [set_solver|]. pose proof (so_body _ _ _ _ Hsp) as Hb.
  pose proof (so_inv _ _ _ _ Hsp) as Hi. pose proof (span_ok_mapped _ _ _ _ Hsp) as Hm.
  rewrite (links_span _ _ _ Hb) in Hlk. injection Hlk as <- _.
  wp_step. eapply wp_span_at; [done..|].
  assert (forall Q', (forall st, 0 <= st -> st + req <= 512 ->
      exists j, st <= j < st + req /\ page_free (free_bitmap sp) j = false) ->
    (forall r s', Q r s' -> Q' r s') -> wp (search_active fuel (span_next sp) req) Q' s) as Hrest.
  { intros Q' Hn HQ. eapply IH; [exact Hd|cbn in Hf; lia|intros; apply Hok; set_solver|..].
    - intros Hall. apply HQ, Hno. intros q sq st Hq Hbq. apply elem_of_cons in Hq as [->|Hq]; [|by eapply Hall].
      rewrite Hb in Hbq. injection Hbq as <-. auto.
    - intros. apply HQ. eapply Hyes; [set_solver|done..]. }
  assert (0 <= used_pages sp <= 512) as Hu.
  { rewrite (sv_used _ Hi). pose proof (used_below_run (page_free (free_bitmap sp)) 0 0 512
      ltac:(lia) ltac:(lia) ltac:(intros; lia)).
    split; [apply used_below_nonneg|]. unfold overlap in *. change (Z.of_nat 512) with 512 in *. lia. }
  unfold LZ_SPAN_TOTAL_PAGES. rewrite u32_small by lia.
  destruct (Z.leb_spec req (512 - used_pages sp)) as [Hle|Hgt].
  - wp_step. eapply wp_find_contiguous; [done..| |].
    + intros Hn. change (negb (-1 =? -1)) with false. cbv iota. wp_step. eapply wp_span_at; [done..|]. by apply Hrest.
    + intros idx bm Hi0 Hlim Hfr Hwf Hbits. zfalse (idx =? -1). cbn [negb]. wp_steps.
      eapply Hyes; [set_solver|done..].
  - apply Hrest; [|done]. intros st Hst Hlim.
    destruct (run_or_gap (page_free (free_bitmap sp)) st req ltac:(lia)) as [Hall|]; [exfalso|done].
    pose proof (used_below_run (page_free (free_bitmap sp)) st req 512 Hst ltac:(lia) Hall) as Hr.
    rewrite <- (sv_used _ Hi) in Hr. unfold overlap in Hr. change (Z.of_nat 512) with 512 in Hr. lia.
Qed.

(** ** Allocation *)

Lemma chunk_mask_in c x :
  c mod 2 ^ 21 = 0 -> 0 <= c <= x -> x < c + 2 ^ 21 -> x < 2 ^ 64 -> x .& chunk_mask = c.
Proof.
  intros Hc Hx Hlt Hl. unfold chunk_mask. change (1 <<. LZ_CHUNK_SHIFT) with (2 ^ 21).
  rewrite land_lnot64_mask by lia. dlia.
Qed.

(** The last step of an allocation completes the marking into [span_take]. *)
Lemma wp_finalize p sp idx req bm tlh Q s :
  span_ok s tlh p sp -> 1 <= req < 512 -> 0 <= idx -> idx + req <= 512 ->
  (forall j, idx <= j < idx + req -> page_free (free_bitmap sp) j = true) ->
  Q (p - 64 + idx * 4096)
    (set_h_bodies (<[p := BSpan (span_take sp idx req bm)]> (h_bodies s)) s) ->
  wp (finalize_span_alloc p idx req) Q
    (set_h_bodies (<[p := BSpan (set_free_bitmap bm sp)]> (h_bodies s)) s).
Proof.
  intros Hok Hreq Hi Hlim Hrun HQ. pose proof (span_ok_mapped _ _ _ _ Hok) as Hm.
  destruct Hok as [Hb Hinv (Hal & Hpos & Hmax & _) _].
  pose proof (used_below_run (page_free (free_bitmap sp)) idx req 512 Hi ltac:(lia) Hrun) as Hu.
  pose proof (used_below_nonneg (page_free (free_bitmap sp)) 512) as Hu0.
  rewrite <- (sv_used _ Hinv) in Hu, Hu0. unfold overlap in Hu. change (Z.of_nat 512) with 512 in Hu.
  unfold finalize_span_alloc, store_alloc_size. wp_step.
  eapply wp_update_span; [done|by rewrite body_of_insert, decide_True|]. wp_step. wp_step.
  eapply wp_span_at; [done|by rewrite body_of_insert, decide_True|]. unfold LZ_SPAN_TOTAL_PAGES, LZ_PAGE_SIZE.
  replace ((0 <=? idx) && (idx <? 512)) with true by lia.
  eapply wp_update_span; [done|by rewrite body_of_insert, decide_True|]. wp_steps.
  rewrite (chunk_mask_in (p - 64)), u64_small by lia.
  match goal with |- Q _ ?s' => replace s' with
    (set_h_bodies (<[p := BSpan (span_take sp idx req bm)]> (h_bodies s)) s); [done|] end.
  state_eq. cbn [h_bodies set_h_bodies]. rewrite !insert_insert_eq. do 2 f_equal.
  unfold span_take, set_alloc_size_pages, set_used_pages, set_free_bitmap.
  cbn [span_next span_prev free_bitmap used_pages alloc_size_pages].
  by rewrite u32_small, u16_small by lia.
Qed.

(** Every block lies in the payload pages of its chunk. *)
Lemma span_run_in s tlh L G P p sp i n :
  span_heap s tlh L G P -> p ∈ L -> body_of s p = BSpan sp -> run sp i n ->
  let a := p - 64 + i * 4096 in
  (p - 64) mod 2 ^ 21 = 0 /\ 0 < n /\ a mod 4096 = 0 /\
  p - 64 + 4096 <= a /\ a + n * 4096 <= p - 64 + 2 ^ 21.
Proof.
  intros Hh Hp Hb Hr a.
  destruct (sh_span _ _ _ _ _ Hh p Hp) as [sp' [Hb' Hi (Hal & _) _]].
  rewrite Hb in Hb'. injection Hb' as <-. destruct (sv_run _ Hi _ _ Hr).
  destruct Hr as (_ & _ & Hn).
  assert ((p - 64) mod 4096 = 0) by (by apply (mod_pow2_weaken _ 12 21)).
  subst a. split_and!; [done..| | |]; dlia.
Qed.

(** Distinct aligned chunks are at least 2 MiB apart. *)
Lemma aligned_apart c d :
  c mod 2 ^ 21 = 0 -> d mod 2 ^ 21 = 0 -> c <> d -> c + 2 ^ 21 <= d \/ d + 2 ^ 21 <= c.
Proof. intros. dlia. Qed.

(** Taking a free run of a span of the heap. *)
Lemma span_heap_take s tlh L G P p sp idx req bm :
  span_heap s tlh L G P -> p ∈ L -> body_of s p = BSpan sp ->
  1 <= req -> 0 <= idx -> idx + req <= 512 ->
  (forall j, idx <= j < idx + req -> page_free (free_bitmap sp) j = true) ->
  wf_bitmap bm ->
  (forall q, 0 <= q -> page_free bm q =
     if (idx <=? q) && (q <? idx + req) then false else page_free (free_bitmap sp) q) ->
  let r := p - 64 + idx * 4096 in
  let s' := set_h_bodies (<[p := BSpan (span_take sp idx req bm)]> (h_bodies s)) s in
  span_heap s' tlh L G P /\
  (forall a n, span_block s' L a n <-> span_block s L a n \/ a = r /\ n = req) /\
  (forall a n, span_block s L a n -> a + n * 4096 <= r \/ r + req * 4096 <= a) /\
  0 < r /\ r mod 4096 = 0 /\ p - 64 + 4096 <= r /\ r + req * 4096 <= p - 64 + 2 ^ 21.
Proof.
  intros Hh Hp Hb Hreq Hi0 Hlim Hfree Hwf Hbits r s'.
  destruct (sh_span _ _ _ _ _ Hh p Hp) as [sp' [Hb' Hi (Hal & Hpos & _) _]].
  rewrite Hb in Hb'. injection Hb' as <-.
  destruct (span_take_inv sp idx req bm) as (Hi' & H1 & Hruns & Hsep); [done..|].
  assert ((p - 64) mod 4096 = 0) by (by apply (mod_pow2_weaken _ 12 21)).
  split_and!; [| | |subst r; dlia..].
  - by eapply span_heap_body.
  - intros a n. unfold s'. rewrite span_block_body. split.
    + intros [(_ & i & [Hr|[-> ->]]%Hruns & ->)|(q & sq & i & Hq & Hne & Hbq & Hr & ->)].
      * left. exists p, sp, i. done.
      * right. done.
      * left. exists q, sq, i. done.
    + intros [(q & sq & i & Hq & Hbq & Hr & ->)|[-> ->]].
      * destruct (decide (q = p)) as [->|]; [|right; by exists q, sq, i].
        left. split; [done|]. exists i. rewrite Hruns. split; [|done]. left. congruence.
      * left. split; [done|]. exists idx. rewrite Hruns. split; [by right|done].
  - intros a n (q & sq & i & Hq & Hbq & Hr & ->).
    destruct (decide (q = p)) as [->|Hne].
    + rewrite Hb in Hbq. injection Hbq as <-. destruct (Hsep _ _ Hr); subst r; lia.
    + destruct (span_run_in _ _ _ _ _ _ _ _ _ Hh Hq Hbq Hr) as (Haq & _ & _ & Hlo & Hhi).
      destruct (aligned_apart (p - 64) (q - 64)); [done|done|lia|subst r; lia..].
Qed.

(** The fields of a heap that the span engine never writes. *)
Definition slab_part (t : lz_tlh_t) :=
  (bins t, remote_free_head t, outgoing_batch t, thread_id t, is_zombie t, bytes_allocated t,
   next_zombie t, stat_slot t).

(** Among the heaps only [tlh] changes, and there only what belongs to the
    span engine. *)
Definition only_tlh (tlh : Z) (s s' : state) : Prop :=
  global_part s' = global_part s /\ (forall t, t <> tlh -> h_tlhs s' !! t = h_tlhs s !! t) /\
  (forall t, h_tlhs s !! tlh = Some t ->
    exists t', h_tlhs s' !! tlh = Some t' /\ slab_part t' = slab_part t) /\
  forall p, is_Some (h_stats s !! p) -> is_Some (h_stats s' !! p).

Lemma only_tlh_same tlh s s' : thread_part s' = thread_part s -> only_tlh tlh s s'.
Proof.
  intros (? & Ht & Es)%thread_global. split_and!; [done|by rewrite Ht| |by rewrite Es].
  rewrite Ht. eauto.
Qed.

Lemma only_tlh_trans tlh s1 s2 s3 : only_tlh tlh s1 s2 -> only_tlh tlh s2 s3 -> only_tlh tlh s1 s3.
Proof.
  intros (E1 & H12 & H1 & S1) (E2 & H23 & H2 & S2).
  split_and!; [congruence|intros t Ht; by rewrite H23, H12| |auto].
  intros t (t' & (t'' & ? & E)%H2 & E')%H1. exists t''. split; [done|congruence].
Qed.

Lemma only_tlh_insert tlh t t' s s' :
  h_tlhs s !! tlh = Some t -> slab_part t' = slab_part t -> global_part s' = global_part s ->
  h_tlhs s' = <[tlh := t']> (h_tlhs s) ->
  (forall p, is_Some (h_stats s !! p) -> is_Some (h_stats s' !! p)) -> only_tlh tlh s s'.
Proof.
  intros Ht Ep Eg Es Hs. split_and!; [done|..|done]; rewrite Es.
  - intros x Hx. by rewrite lookup_insert_ne.
  - intros x Hx. exists t'. rewrite lookup_insert_eq. split; congruence.
Qed.

Lemma span_inv_prev sp v : span_inv sp -> span_inv (set_span_prev v sp).
Proof. by intros [? ? ? ? ? ?]. Qed.

(** A new chunk [c] was formatted and linked in front of [L]. *)
Record provisioned (s : state) (tlh c : Z) (L G : list Z) (P : list (list Z))
    (s' : state) (G' : list Z) (P' : list (list Z)) : Prop := {
  pv_heap : span_heap s' tlh ((c + 64) :: L) G' P';
  pv_new : c + 64 ∉ L;
  pv_body : exists next, body_of s' (c + 64) = BSpan (fresh_span next);
  pv_blocks : forall a n, span_block s' ((c + 64) :: L) a n <-> span_block s L a n;
  pv_frame : mem_frame (fun a => a = c) (fun a => a ∈ (c + 64) :: L) nowhere s s';
  pv_thread : only_tlh tlh s s' /\ h_stats s' = h_stats s;
  pv_rtree : forall b, b <> block_of c -> rtree_view s' b = rtree_view s b;
  pv_out : forall d, mapped s d = true -> d <> NULL -> d ∉ G ++ concat P ->
    d ∉ G' ++ concat P' /\ d <> c;
  pv_index : registers s' c
}.

(** The bodies after linking node [p] in front of the list headed by [a]. *)
Definition push_bodies (p a : Z) (sp : lz_span_t) (s : state) (q : Z) : chunk_body :=
  if decide (p = q) then BSpan sp
  else if decide (a = q /\ a <> NULL) then
    match body_of s q with BSpan sq => BSpan (set_span_prev p sq) | b => b end
  else body_of s q.

Lemma wp_link_front p a sp Q s :
  mapped s p = true -> a <> p ->
  (a <> NULL -> mapped s a = true /\ exists sa, body_of s a = BSpan sa) ->
  (forall s', s' = set_h_bodies (h_bodies s') s ->
     (forall q, body_of s' q = push_bodies p a sp s q) -> Q tt s') ->
  wp (store_body p (BSpan sp);;
      if negb (a =? NULL) then update_span a (set_span_prev p) else mret tt) Q s.
Proof.
  intros Hm Hne Ha HQ. wp_step. apply wp_store_body; [done|].
  destruct (Z.eqb_spec a NULL) as [->|Hn]; cbn [negb].
  - wp_steps. apply HQ; [done|]. intros q. rewrite body_of_insert. unfold push_bodies.
    case_decide; [done|]. by rewrite decide_False by (by intros [_ ?]).
  - destruct (Ha Hn) as [Hma [sa Hsa]].
    eapply wp_update_span; [done|rewrite body_of_insert, decide_False by done; exact Hsa|].
    apply HQ; [done|]. intros q. rewrite body_of_insert, body_of_insert. unfold push_bodies.
    destruct (decide (p = q)) as [->|]; [by rewrite decide_False|].
    destruct (decide (a = q)) as [->|]; [rewrite decide_True by done; by rewrite Hsa|].
    by rewrite decide_False by (by intros [? _]).
Qed.

(** A new span at [c + 64] is put in front of the list, in terms of the state
    [s1] just before its metadata is written. *)
Section push.
Context (s : state) (tlh c : Z) (t : lz_tlh_t) (L G : list Z) (P : list (list Z)).
Context (s1 : state) (G' : list Z) (P' : list (list Z)) (s' : state).
Hypothesis Hheap : span_heap s tlh L G P.
Hypothesis Hfmt : formatted s c tlh LZ_CHUNK_TYPE_SPAN G P s1 G' P'.
Hypothesis Ht : h_tlhs s !! tlh = Some t.
Hypothesis Hd : dll (links s) NULL (active_spans t) L.
Hypothesis Es :
  s' = set_h_tlhs (<[tlh := set_active_spans (c + 64) t]> (h_tlhs s1)) (set_h_bodies (h_bodies s') s1).
Hypothesis Hb : forall q,
  body_of s' q = push_bodies (c + 64) (active_spans t) (fresh_span (active_spans t)) s1 q.

Lemma push_mapped x : mapped s' x = mapped s1 x.
Proof. by rewrite Es. Qed.

Lemma push_chunk x : chunk_of s' x = chunk_of s1 x.
Proof. by rewrite Es. Qed.

Lemma push_member q : q ∈ L ->
  mapped s q = true /\ mapped s (q - 64) = true /\ q <> NULL /\
  q - 64 ∉ G' ++ concat P' /\ q - 64 <> c /\ body_of s1 q = body_of s q.
Proof.
  destruct Hheap as [_ _ _ Hnd Hs Ho], Hfmt as [_ _ _ _ Ff _ _ Fo _].
  intros Hq. destruct (Hs q Hq) as [sq Hsq]. pose proof (span_ok_mapped _ _ _ _ Hsq) as Hmq.
  destruct Hsq as [_ _ Hcq _]. pose proof (chunk_ok_self _ _ Hcq).
  destruct (Fo (q - 64)) as [? ?]; [done|destruct Hcq; lia|by apply Ho|].
  split_and!; try done; [by eapply dll_nonnull|by apply (frame_body _ _ _ _ _ Ff)].
Qed.

Lemma push_new : c + 64 ∉ L.
Proof. intros Hin. destruct (push_member _ Hin) as (_ & _ & _ & _ & ? & _). lia. Qed.

Lemma push_body_new : body_of s' (c + 64) = BSpan (fresh_span (active_spans t)).
Proof. rewrite Hb. unfold push_bodies. by rewrite decide_True. Qed.

Lemma push_body_old q sq : q ∈ L -> body_of s q = BSpan sq ->
  body_of s' q = BSpan (if decide (active_spans t = q) then set_span_prev (c + 64) sq else sq).
Proof.
  intros Hq Hsq. destruct (push_member q Hq) as (_ & _ & ? & _ & _ & E). rewrite Hb.
  unfold push_bodies. rewrite decide_False by (intros <-; by apply push_new). rewrite E, Hsq.
  destruct (decide (active_spans t = q)) as [->|]; [by rewrite decide_True|].
  by rewrite decide_False by (by intros [? _]).
Qed.

Lemma push_list : dll (links s') NULL (c + 64) ((c + 64) :: L).
Proof.
  destruct Hheap as [_ _ _ Hnd Hs _], Hfmt as [_ _ [(_ & ? & _) _] _ _ _ _ _ _].
  eapply dll_push; [exact Hnd|apply push_new|lia|exact Hd|by rewrite (links_span _ _ _ push_body_new)|].
  intros q Hq. destruct (Hs q Hq) as [sq [Hsq _ _ _]]. unfold lk_set_prev.
  rewrite (links_span _ _ _ (push_body_old _ _ Hq Hsq)).
  destruct (push_member q Hq) as (_ & _ & Hq0 & _).
  destruct (Z.eqb_spec (active_spans t) NULL) as [E|];
    [rewrite decide_False by congruence|case_decide]; by rewrite (links_span _ _ _ Hsq).
Qed.

Lemma push_spans q : q ∈ (c + 64) :: L -> exists sq, span_ok s' tlh q sq.
Proof.
  destruct Hheap as [_ _ _ _ Hs _], Hfmt as [_ _ [Fok Fn] Fh Ff _ _ _ _].
  intros [->|Hq]%elem_of_cons.
  - exists (fresh_span (active_spans t)).
    constructor; [apply push_body_new|apply fresh_span_inv|..];
      replace (c + 64 - 64) with c by lia.
    + eapply chunk_ok_mono; [|exact Fok]. intros. by rewrite push_mapped.
    + cbv zeta. rewrite push_chunk. naive_solver.
  - destruct (Hs q Hq) as [sq [Hsq Hiq Hcq Hhq]].
    destruct (push_member q Hq) as (Hmq & Hmq' & _ & _ & Hne & _).
    eexists. constructor; [by apply push_body_old|case_decide; [by apply span_inv_prev|done]|..].
    + eapply chunk_ok_mono; [|exact Hcq]. intros. rewrite push_mapped. by apply Ff.
    + cbv zeta. rewrite push_chunk, (frame_chunk _ _ _ _ _ Ff) by done. exact Hhq.
Qed.

Lemma push_heap : span_heap s' tlh ((c + 64) :: L) G' P'.
Proof.
  destruct Hheap as [_ _ (t' & Ht' & _ & Hst) Hnd _ _], Hfmt as [Fv Fr [_ Fn] _ _ Ft _ _ _].
  rewrite Ht in Ht'. injection Ht' as <-. destruct (thread_global _ _ Ft) as (_ & _ & Est).
  constructor.
  - eapply vmm_inv_frame; [exact Fv|by rewrite Es|intros; by rewrite push_mapped|].
    intros; by rewrite Es.
  - eapply rtree_inv_ext; [exact Fr|by rewrite Es|intros; by rewrite push_mapped].
  - exists (set_active_spans (c + 64) t). split_and!; [|exact push_list|].
    + rewrite Es. cbn. by rewrite lookup_insert_eq.
    + cbn. rewrite Es. cbn. by rewrite Est.
  - constructor; [apply push_new|done].
  - apply push_spans.
  - intros q [->|Hq]%elem_of_cons; [by replace (c + 64 - 64) with c by lia|]. by apply push_member.
Qed.

Lemma push_blocks a n : span_block s' ((c + 64) :: L) a n <-> span_block s L a n.
Proof.
  destruct Hheap as [_ _ _ _ Hs _]. unfold span_block. split.
  - intros (q & sq & i & Hq & Hbs & Hrun & ->). apply elem_of_cons in Hq as [->|Hq].
    { rewrite push_body_new in Hbs. injection Hbs as <-. by apply fresh_span_no_run in Hrun. }
    destruct (Hs q Hq) as [sq0 [Hsq _ _ _]]. rewrite (push_body_old _ _ Hq Hsq) in Hbs.
    injection Hbs as <-. exists q, sq0, i. split_and!; try done. by case_decide.
  - intros (q & sq & i & Hq & Hsq & Hrun & ->). exists q. eexists. exists i.
    split_and!; [set_solver|by apply push_body_old|by case_decide|done].
Qed.

Lemma push_frame : mem_frame (fun a => a = c) (fun a => a ∈ (c + 64) :: L) nowhere s s'.
Proof.
  destruct Hfmt as [_ _ _ _ [M1 C1 B1 D1 L1] _ _ _ _].
  constructor; [intros a Ha; rewrite push_mapped; auto|intros a Ha Hn..|].
  - rewrite push_chunk. auto.
  - apply not_elem_of_cons in Hn as [Hn1 Hn2]. rewrite Hb. unfold push_bodies.
    rewrite decide_False by congruence.
    rewrite decide_False by (intros [<- Hn]; apply dll_head in Hd as [? ->]; set_solver). auto.
  - rewrite <- D1 by done. by rewrite Es.
  - eapply (only_grows_trans s s1); [done|exact L1|]. apply only_grows_same; by rewrite Es.
Qed.

Lemma span_heap_push : provisioned s tlh c L G P s' G' P'.
Proof.
  pose proof Hfmt as [_ _ _ _ _ Ft Fw Fo Fi]. destruct (thread_global _ _ Ft) as (Eg & Et & Est).
  constructor; [apply push_heap|apply push_new| |apply push_blocks|apply push_frame|split| |done|].
  - exists (active_spans t). apply push_body_new.
  - apply (only_tlh_insert _ t (set_active_spans (c + 64) t)); [done..|rewrite <- Eg; by rewrite Es| |].
    + rewrite Es. cbn. by rewrite Et.
    + rewrite Es. cbn. by rewrite Est.
  - rewrite <- Est. by rewrite Es.
  - intros b Hb'. rewrite <- Fw by done. apply rtree_view_eq. by rewrite Es.
  - unfold registers, leaf_refused in *. rewrite (rtree_view_eq s1 s') by by rewrite Es. by rewrite Es.
Qed.
End push.

(** No chunk could be had: nothing of the heap changed. *)
Record not_provisioned (s : state) (tlh : Z) (L G : list Z) (P : list (list Z))
    (s' : state) (G' : list Z) (P' : list (list Z)) : Prop := {
  np_heap : span_heap s' tlh L G' P';
  np_blocks : forall a n, span_block s' L a n <-> span_block s L a n;
  np_frame : mem_frame (fun a => a = NULL) nowhere nowhere s s';
  np_thread : thread_part s' = thread_part s;
  np_rtree : rtree_part s' = rtree_part s;
  np_out : forall d, mapped s d = true -> d <> NULL -> d ∉ G ++ concat P -> d ∉ G' ++ concat P';
  np_refused : refused_since s s'
}.

Lemma wp_provision_span tlh L G P Q s :
  span_heap s tlh L G P ->
  (forall s' G' P', not_provisioned s tlh L G P s' G' P' -> Q NULL s') ->
  (forall c s' G' P', 0 < c -> provisioned s tlh c L G P s' G' P' -> Q (c + 64) s') ->
  wp (provision_span tlh) Q s.
Proof.
  intros Hh Hno HQ. unfold provision_span. apply wp_format_then. wp_step.
  destruct (Hh) as [Hv Hr (t & Ht & Hd & Hst) Hnd Hs Ho].
  assert (forall q, q ∈ L -> mapped s q = true /\ mapped s (q - 64) = true /\ q - 64 <> NULL) as HL.
  { intros q Hq. destruct (Hs q Hq) as [sq Hsq]. split; [by eapply span_ok_mapped|].
    destruct Hsq as [_ _ Hc _]. split; [by apply chunk_ok_self|destruct Hc; lia]. }
  eapply wp_format_chunk; [exact Hv|exact Hr|..].
  - intros s1 G' P' Hv1 Hr1 Er Et Hf Hout Href. cbn [Z.eqb]. wp_steps.
    destruct (thread_global _ _ Et) as (_ & Eh & Es).
    destruct (span_heap_keep s s1 tlh L G P G' P') as [Hh1 Hb1]; [done..|apply Hf| | | |].
    + intros q Hq. destruct (HL q Hq) as (? & ? & ?).
      rewrite (frame_body _ _ _ _ _ Hf), (frame_chunk _ _ _ _ _ Hf) by done.
      split_and!; [done|done|]. apply Hout; [done..|by apply Ho].
    + rewrite Eh. eauto.
    + by rewrite Es.
    + eapply Hno. by constructor.
  - intros c s1 G' P' Hc Hfo. zfalse (c =? NULL).
    destruct (thread_global _ _ (fo_thread _ _ _ _ _ _ _ _ _ Hfo)) as (_ & Eh & _).
    destruct (fo_chunk _ _ _ _ _ _ _ _ _ Hfo) as [Hok _]. unfold LZ_CACHE_LINE_SIZE.
    wp_step. eapply wp_tlh_at; [by rewrite Eh|].
    apply wp_assoc. wp_step. apply wp_link_front.
    { destruct Hok as (_ & _ & _ & Hm). apply Hm. lia. }
    { intros E. assert (active_spans t ∈ L) as Hin.
      { assert (0 < c) by apply Hok. apply dll_head in Hd as [L' ->]; [set_solver|lia]. }
      destruct (HL _ Hin) as (_ & ? & ?).
      destruct (fo_out _ _ _ _ _ _ _ _ _ Hfo (active_spans t - 64)); [done..|by apply Ho|lia]. }
    { intros Hn. assert (active_spans t ∈ L) as Hin by (apply dll_head in Hd as [L' ->]; set_solver).
      split; [apply (fo_frame _ _ _ _ _ _ _ _ _ Hfo); by apply HL|].
      destruct (Hs _ Hin) as [sq Hsq]. exists sq.
      rewrite (frame_body _ _ _ _ _ (fo_frame _ _ _ _ _ _ _ _ _ Hfo)); [apply Hsq|by apply HL|done]. }
    intros s2 Es2 Hb2. wp_step. eapply wp_update_tlh; [rewrite Es2; cbn; by rewrite Eh|].
    wp_steps. eapply HQ; [apply Hok|].
    eapply span_heap_push; [exact Hh|exact Hfo|exact Ht|exact Hd|by rewrite Es2|].
    intros q. exact (Hb2 q).
Qed.

(** The result of an allocation of [req] pages. *)
Record span_alloc_post (s : state) (tlh req : Z) (L G : list Z) (P : list (list Z))
    (r : Z) (s' : state) (L' G' : list Z) (P' : list (list Z)) : Prop := {
  sa_heap : span_heap s' tlh L' G' P';
  sa_list : L' = L \/ r <> NULL /\ exists c, L' = (c + 64) :: L;
  sa_blocks : forall a n,
    span_block s' L' a n <-> span_block s L a n \/ r <> NULL /\ a = r /\ n = req;
  sa_place : r <> NULL -> r mod 4096 = 0 /\ exists p, p ∈ L' /\ (p - 64) mod 2 ^ 21 = 0 /\
    p - 64 + 4096 <= r /\ r + req * 4096 <= p - 64 + 2 ^ 21;
  sa_disjoint : r <> NULL -> forall a n, span_block s L a n ->
    a + n * 4096 <= r \/ r + req * 4096 <= a;
  sa_frame : mem_frame (fun a => a = NULL \/ exists p, p ∈ L' /\ p ∉ L /\ a = p - 64)
    (fun a => a ∈ L') nowhere s s';
  sa_thread : only_tlh tlh s s' /\ h_stats s' = h_stats s;
  sa_out : forall d, mapped s d = true -> d <> NULL -> d ∉ G ++ concat P ->
    d ∉ G' ++ concat P' /\ forall p, p ∈ L' -> p ∉ L -> d <> p - 64;
  sa_view : forall b, (forall p, p ∈ L' -> p ∉ L -> b <> block_of (p - 64)) ->
    rtree_view s' b = rtree_view s b;
  sa_first_fit : L' <> L -> forall p sp st, p ∈ L -> body_of s p = BSpan sp -> 0 <= st ->
    st + req <= 512 -> exists j, st <= j < st + req /\ page_free (free_bitmap sp) j = false;
  sa_index : forall p, p ∈ L' -> p ∉ L -> registers s' (p - 64);
  sa_null : r = NULL -> refused_since s s'
}.

(** The request is served from the chunk just provisioned. *)
Lemma wp_alloc_provisioned tlh req c L G P s1 G' P' Q s :
  0 < c -> 1 <= req < 512 -> provisioned s tlh c L G P s1 G' P' ->
  (forall p sp st, p ∈ L -> body_of s p = BSpan sp -> 0 <= st -> st + req <= 512 ->
     exists j, st <= j < st + req /\ page_free (free_bitmap sp) j = false) ->
  (forall r s' L' G' P', span_alloc_post s tlh req L G P r s' L' G' P' -> Q r s') ->
  wp (page_idx ← find_contiguous_pages (c + 64) req;
      if page_idx =? -1 then
        LZ_FATAL "Span engine failed to map contiguous pages in pristine chunk.";;
        mret NULL
      else finalize_span_alloc (c + 64) page_idx req) Q s1.
Proof.
  intros Hc Hreq Hp Hnone HQ.
  destruct (pv_body _ _ _ _ _ _ _ _ _ Hp) as [next Hb]. pose proof (pv_heap _ _ _ _ _ _ _ _ _ Hp) as Hh1.
  assert (c + 64 ∈ (c + 64) :: L) as Hin by set_solver.
  destruct (sh_span _ _ _ _ _ Hh1 _ Hin) as [sp Hok]. pose proof (so_body _ _ _ _ Hok) as Hb'.
  rewrite Hb in Hb'. injection Hb' as <-.
  wp_step. eapply wp_find_contiguous; [by eapply span_ok_mapped|exact Hb|apply Hok|done|..].
  - intros Hn. exfalso. destruct (Hn 1) as (j & Hj & Hf); [lia..|].
    rewrite fresh_span_page in Hf by lia. lia.
  - intros idx bm Hi Hl Hfr Hwf Hbits. zfalse (idx =? -1).
    eapply wp_finalize; [exact Hok|done..|].
    destruct (span_heap_take s1 tlh ((c + 64) :: L) G' P' (c + 64) (fresh_span next) idx req bm)
      as (Hh2 & Hb2 & Hd2 & Hpl); [done|done|done|lia|done..|].
    eapply HQ. constructor.
    + exact Hh2.
    + right. split; [lia|]. eauto.
    + intros a n. rewrite Hb2, (pv_blocks _ _ _ _ _ _ _ _ _ Hp). naive_solver lia.
    + intros _. split; [apply Hpl|]. exists (c + 64). split_and!; [done| |apply Hpl..].
      apply Hok.
    + intros _ a n Ha. apply Hd2. by rewrite (pv_blocks _ _ _ _ _ _ _ _ _ Hp).
    + eapply mem_frame_trans.
      { eapply mem_frame_weaken, (pv_frame _ _ _ _ _ _ _ _ _ Hp); [|done|done].
        intros a ->. right. exists (c + 64). split_and!; [done|apply Hp|lia]. }
      constructor; [done|done| |done|done]. intros a _ Ha. rewrite body_of_insert, decide_False; [done|].
      by intros <-.
    + apply (pv_thread _ _ _ _ _ _ _ _ _ Hp).
    + intros d Hd0 Hd1 Hd3. destruct (pv_out _ _ _ _ _ _ _ _ _ Hp d) as [Ho1 Ho2]; [done..|].
      split; [done|]. intros q [->|Hq]%elem_of_cons Hnq; [lia|done].
    + intros b Hb3. apply (pv_rtree _ _ _ _ _ _ _ _ _ Hp). specialize (Hb3 (c + 64) Hin).
      replace (c + 64 - 64) with c in Hb3 by lia. apply Hb3. apply Hp.
    + done.
    + intros q [->|Hq]%elem_of_cons Hnq; [|done]. replace (c + 64 - 64) with c by lia.
      exact (pv_index _ _ _ _ _ _ _ _ _ Hp).
    + lia.
Qed.

Lemma wp_span_alloc tlh size req L G P Q s :
  span_heap s tlh L G P ->
  req = u32 (LZ_ALIGN_UP size LZ_PAGE_SIZE / LZ_PAGE_SIZE) -> 1 <= req < 512 ->
  (forall r s' L' G' P', span_alloc_post s tlh req L G P r s' L' G' P' -> Q r s') ->
  wp (lz_span_alloc tlh size) Q s.
Proof.
  intros Hh Ereq Hreq HQ. destruct (sh_tlh _ _ _ _ _ Hh) as (t & Ht & Hd & Hst).
  unfold lz_span_alloc. rewrite <- Ereq. unfold LZ_SPAN_TOTAL_PAGES.
  zfalse (512 <=? req).
  wp_step. eapply wp_tlh_at; [done|]. wp_step. wp_step. wp_step.
  eapply wp_search_active; [done|exact Hd|by eapply span_heap_bound|apply Hh|..].
  - intros Hnone. cbv beta iota. change (-1 =? -1) with true. cbv iota.
    wp_step. eapply wp_provision_span; [exact Hh|..].
    + intros s1 G' P' [Hh1 Hb1 Hf1 Ht1 Hr1 Ho1 Hn1]. cbn [Z.eqb]. wp_steps. eapply HQ. constructor.
      * exact Hh1.
      * by left.
      * intros a n. rewrite Hb1. naive_solver.
      * done.
      * done.
      * eapply mem_frame_weaken, Hf1; [auto|done|done].
      * split; [by apply only_tlh_same|by apply thread_global].
      * intros d ? ? ?. split; [by apply Ho1|done].
      * intros b _. by apply rtree_view_eq.
      * done.
      * done.
      * done.
    + intros c s1 G' P' Hc Hp. zfalse (c + 64 =? NULL). by eapply wp_alloc_provisioned.
  - intros p sp idx bm Hp Hb Hi Hl Hfr Hwf Hbits. cbv beta iota. zfalse (idx =? -1).
    destruct (sh_span _ _ _ _ _ Hh p Hp) as [sp' Hok]. pose proof (so_body _ _ _ _ Hok) as Hb'.
    rewrite Hb in Hb'. injection Hb' as <-. eapply wp_finalize; [exact Hok|done..|].
    destruct (span_heap_take s tlh L G P p sp idx req bm) as (Hh2 & Hb2 & Hd2 & Hpl); [done|done|done|lia|done..|].
    eapply HQ. constructor.
    + exact Hh2.
    + by left.
    + intros a n. rewrite Hb2. naive_solver lia.
    + intros _. split; [apply Hpl|]. exists p. split_and!; [done|apply Hok|apply Hpl..].
    + intros _. exact Hd2.
    + constructor; [done|done| |done|done]. intros a _ Ha. rewrite body_of_insert, decide_False; [done|].
      by intros <-.
    + split; [|done]. by apply only_tlh_same.
    + intros d ? ? ?. split; [done|]. intros q Hq Hnq. done.
    + done.
    + done.
    + done.
    + destruct (so_chunk _ _ _ _ Hok) as (_ & ? & _). lia.
Qed.

(** ** Release *)

(** Counting touches neither spans nor lists. *)
Lemma span_heap_count s tlh L G P t v st :
  span_heap s tlh L G P -> h_tlhs s !! tlh = Some t ->
  (forall p, is_Some (st !! p) <-> is_Some (h_stats s !! p)) ->
  span_heap (set_h_tlhs (<[tlh := set_local_bytes_free_batch v t]> (h_tlhs s)) (set_h_stats st s))
    tlh L G P.
Proof.
  intros Hh Ht Hdom. eapply span_heap_keep; [exact Hh|..].
  - by eapply vmm_inv_frame; [apply Hh|..].
  - by eapply rtree_inv_ext; [apply Hh|..].
  - done.
  - intros q Hq. split_and!; [done..|by apply Hh].
  - intros t0 Ht0. rewrite Ht in Ht0. injection Ht0 as <-. cbn. rewrite lookup_insert_eq. eauto.
  - intros p Hp. by apply Hdom.
Qed.

Definition map_span (f : lz_span_t -> lz_span_t) (b : chunk_body) : chunk_body :=
  match b with BSpan sp => BSpan (f sp) | b => b end.

(** The bodies after unlinking a node with words [(next, prev)]. *)
Definition unlink_bodies (next prev : Z) (s : state) (q : Z) : chunk_body :=
  let b := if decide (prev = q /\ prev <> NULL) then map_span (set_span_next next) (body_of s q)
           else body_of s q in
  if decide (next = q /\ next <> NULL) then map_span (set_span_prev prev) b else b.

Lemma unlink_links next prev s q sq :
  body_of s q = BSpan sq ->
  exists sq', unlink_bodies next prev s q = BSpan sq' /\
    Some (span_next sq', span_prev sq') = lk_unlink next prev (links s) q /\
    (span_inv sq -> span_inv sq') /\ forall i n, run sq' i n <-> run sq i n.
Proof.
  intros Hb. unfold unlink_bodies, lk_unlink. rewrite Hb.
  destruct (Z.eqb_spec prev NULL), (Z.eqb_spec next NULL); unfold lk_set_next, lk_set_prev;
    repeat case_decide; subst; try tauto; rewrite ?(links_span _ _ _ Hb); cbn;
    eexists; (split_and!; [done|done|by intros [? ? ? ? ? ?]|done]).
Qed.

(** Head pointer and bodies after the unlinking code of [destroy_span]. *)
Lemma wp_unlink_span tlh t p sp (k : M unit) Q s :
  mapped s p = true -> body_of s p = BSpan sp -> h_tlhs s !! tlh = Some t ->
  span_prev sp <> p -> span_next sp <> p ->
  (forall q, q = span_prev sp \/ q = span_next sp -> q <> NULL ->
     mapped s q = true /\ exists sq, body_of s q = BSpan sq) ->
  (forall s' t', s' = set_h_tlhs (<[tlh := t']> (h_tlhs s)) (set_h_bodies (h_bodies s') s) ->
     t' = set_active_spans (if span_prev sp =? NULL then span_next sp else active_spans t) t ->
     (forall q, body_of s' q = unlink_bodies (span_next sp) (span_prev sp) s q) -> wp k Q s') ->
  wp (sp ← span_at p;
      (if negb (span_prev sp =? NULL)
       then update_span (span_prev sp) (set_span_next (span_next sp))
       else update_tlh tlh (set_active_spans (span_next sp)));;
      sp ← span_at p;
      (if negb (span_next sp =? NULL)
       then update_span (span_next sp) (set_span_prev (span_prev sp)) else mret tt);;
      k) Q s.
Proof.
  intros Hm Hb Ht Hpp Hpn Hnb HQ. wp_step. eapply wp_span_at; [done..|]. wp_step.
  assert (forall s1 t', h_tlhs s1 = <[tlh := t']> (h_tlhs s) ->
    s1 = set_h_tlhs (h_tlhs s1) (set_h_bodies (h_bodies s1) s) ->
    t' = set_active_spans (if span_prev sp =? NULL then span_next sp else active_spans t) t ->
    (forall q, body_of s1 q = if decide (span_prev sp = q /\ span_prev sp <> NULL)
       then map_span (set_span_next (span_next sp)) (body_of s q) else body_of s q) ->
    wp (sp ← span_at p;
      (if negb (span_next sp =? NULL)
       then update_span (span_next sp) (set_span_prev (span_prev sp)) else mret tt);;
      k) Q s1) as Hrest.
  { intros s1 t' Et Es1 Ett Hb1. wp_step. eapply wp_span_at; [by rewrite Es1|..].
    { rewrite Hb1, decide_False; [exact Hb|]. by intros [? _]. }
    wp_step. destruct (Z.eqb_spec (span_next sp) NULL) as [E|E]; cbn [negb].
    - wp_steps. eapply (HQ _ t'); [by rewrite Es1, Et|done|]. intros q. rewrite Hb1.
      unfold unlink_bodies. by rewrite (decide_False (P := span_next sp = q /\ _)) by (by intros [_ ?]).
    - destruct (Hnb (span_next sp)) as [Hmn [sn Hsn]]; [auto|done|].
      assert (exists sn', body_of s1 (span_next sp) = BSpan sn') as [sn' Hsn'].
      { rewrite Hb1, Hsn. destruct (decide (_ /\ _)); by eexists. }
      eapply wp_update_span; [by rewrite Es1|exact Hsn'|].
      eapply (HQ _ t'); [rewrite Es1; cbn; by rewrite Et|done|]. intros q. rewrite body_of_insert.
      unfold unlink_bodies. rewrite <- Hb1. destruct (decide (span_next sp = q)) as [<-|Hne].
      + rewrite decide_True by done. by rewrite Hsn'.
      + by rewrite decide_False by (by intros [? _]). }
  destruct (Z.eqb_spec (span_prev sp) NULL) as [E|E]; cbn [negb].
  - eapply wp_update_tlh; [done|]. eapply Hrest; [done|done|done|].
    intros q. by rewrite decide_False by (by intros [_ ?]).
  - destruct (Hnb (span_prev sp)) as [Hmp [sq Hsq]]; [auto|done|].
    eapply wp_update_span; [done..|]. eapply (Hrest _ t); [cbn; by rewrite insert_id|done|by destruct t|].
    intros q. rewrite body_of_insert. destruct (decide (span_prev sp = q)) as [<-|Hne].
    + rewrite decide_True by done. by rewrite Hsq.
    + by rewrite decide_False by (by intros [? _]).
Qed.

(** An empty span leaves the list and its chunk returns to the pools. *)
Record span_destroyed (s : state) (tlh c : Z) (L G : list Z) (P : list (list Z))
    (s' : state) (L' G' : list Z) (P' : list (list Z)) : Prop := {
  sd_heap : span_heap s' tlh L' G' P';
  sd_list : exists l1 l2, L = l1 ++ (c + 64) :: l2 /\ L' = l1 ++ l2;
  sd_perm : G' ++ concat P' ≡ₚ c :: G ++ concat P;
  sd_view : forall b, rtree_view s' b = if b =? block_of c then NULL else rtree_view s b;
  sd_blocks : forall a n, span_block s' L' a n <->
    exists p sp i, p ∈ L' /\ body_of s p = BSpan sp /\ run sp i n /\ a = p - 64 + i * 4096;
  sd_frame : mem_frame (fun a => a = c) (fun a => a ∈ L)
    (fun x => c + LZ_PAGE_SIZE <= x < c + LZ_HUGE_PAGE_SIZE) s s';
  sd_thread : only_tlh tlh s s' /\ h_stats s' = h_stats s
}.

(** Every node but [p] of a list without duplicates is another node. *)
Lemma unlinked_nodes (l1 l2 : list Z) p q :
  NoDup (l1 ++ p :: l2) -> q ∈ l1 ++ l2 -> q ∈ l1 ++ p :: l2 /\ q <> p.
Proof.
  intros (_ & Hn1 & [Hn2 _]%NoDup_cons)%NoDup_app Hq. split; [set_solver|].
  intros ->. apply elem_of_app in Hq as [Hq|Hq]; [|done]. apply (Hn1 _ Hq). set_solver.
Qed.

(** The heap after span [c + 64] was unlinked ([s1]) and its chunk released. *)
Section unlinked.
Context (s : state) (tlh c : Z) (t : lz_tlh_t) (sp : lz_span_t) (l1 l2 G : list Z) (P : list (list Z)).
Context (s1 : state) (t1 : lz_tlh_t) (s2 : state) (G' : list Z) (P' : list (list Z)).
Hypothesis Hheap : span_heap s tlh (l1 ++ (c + 64) :: l2) G P.
Hypothesis Ht : h_tlhs s !! tlh = Some t.
Hypothesis Hd' : dll (lk_unlink (span_next sp) (span_prev sp) (links s)) NULL
  (if span_prev sp =? NULL then span_next sp else active_spans t) (l1 ++ l2).
Hypothesis Hst : stat_slot t = NULL \/ is_Some (h_stats s !! stat_slot t).
Hypothesis Hnb : forall q, q = span_prev sp \/ q = span_next sp -> q <> NULL -> q ∈ l1 ++ l2.
Hypothesis Es1 : s1 = set_h_tlhs (<[tlh := t1]> (h_tlhs s)) (set_h_bodies (h_bodies s1) s).
Hypothesis Et1 : t1 = set_active_spans (if span_prev sp =? NULL then span_next sp else active_spans t) t.
Hypothesis Hb1 : forall q, body_of s1 q = unlink_bodies (span_next sp) (span_prev sp) s q.
Hypothesis Hrel : released s1 c G P s2 G' P'.

Lemma unlinked_mapped x : mapped s1 x = mapped s x.
Proof. rewrite Es1. done. Qed.
Lemma unlinked_chunk x : chunk_of s1 x = chunk_of s x.
Proof. rewrite Es1. done. Qed.

Lemma unlinked_sub q : q ∈ l1 ++ l2 -> q ∈ l1 ++ (c + 64) :: l2 /\ q <> c + 64.
Proof. apply unlinked_nodes, Hheap. Qed.

(** The other spans keep all but their links. *)
Lemma unlinked_span q : q ∈ l1 ++ l2 -> mapped s q = true /\ mapped s (q - 64) = true /\ q - 64 <> c /\
  exists sq sq', span_ok s tlh q sq /\ body_of s2 q = BSpan sq' /\
    Some (span_next sq', span_prev sq') = lk_unlink (span_next sp) (span_prev sp) (links s) q /\
    span_inv sq' /\ forall i n, run sq' i n <-> run sq i n.
Proof.
  intros Hq. destruct (unlinked_sub q Hq) as [Hq1 Hne]. destruct (sh_span _ _ _ _ _ Hheap q Hq1) as [sq Hsq].
  pose proof (span_ok_mapped _ _ _ _ Hsq) as Hmq.
  split_and!; [done|apply chunk_ok_self, Hsq|lia|]. exists sq.
  destruct (unlink_links (span_next sp) (span_prev sp) s q sq (so_body _ _ _ _ Hsq))
    as (sq' & Hu & Hl & Hi & Hrn). exists sq'. split_and!; try done; [|apply Hi, Hsq].
  destruct Hrel as [_ _ Rf _ _ _]. rewrite (frame_body _ _ _ _ _ Rf); [by rewrite Hb1|by rewrite unlinked_mapped|done].
Qed.

Lemma unlinked_heap : span_heap s2 tlh (l1 ++ l2) G' P'.
Proof.
  destruct Hheap as [_ _ _ Hnd _ Ho], Hrel as [Rv Rr Rf Rt _ Rp]. destruct (thread_global _ _ Rt) as (Eg & Et & Est).
  constructor; [done|done|..].
  - exists t1. split_and!.
    + rewrite Et, Es1. cbn. by rewrite lookup_insert_eq.
    + rewrite Et1. cbn. eapply dll_ext; [|exact Hd']. intros q Hq.
      destruct (unlinked_span q Hq) as (_ & _ & _ & sq & sq' & _ & Hbq & Hl & _). by rewrite (links_span _ _ _ Hbq).
    + rewrite Est, Es1, Et1. cbn. done.
  - apply NoDup_app in Hnd as (H1 & H2 & [_ H3]%NoDup_cons). apply NoDup_app.
    split_and!; [done| |done]. intros q Hq1 Hq2. apply (H2 q Hq1). set_solver.
  - intros q Hq. destruct (unlinked_span q Hq) as (Hmq & Hmq' & Hne & sq & sq' & Hsq & Hbq & _ & Hi & _).
    exists sq'. constructor; [done|done|..].
    + eapply chunk_ok_mono; [|apply Hsq]. intros x Hx. apply Rf. by rewrite unlinked_mapped.
    + cbv zeta. rewrite (frame_chunk _ _ _ _ _ Rf), unlinked_chunk; [apply Hsq|by rewrite unlinked_mapped|done].
  - intros q Hq. rewrite Rp. destruct (unlinked_span q Hq) as (_ & _ & Hne & _).
    apply not_elem_of_cons. split; [done|]. by apply Ho, unlinked_sub.
Qed.

Lemma span_unlinked : span_destroyed s tlh c (l1 ++ (c + 64) :: l2) G P s2 (l1 ++ l2) G' P'.
Proof.
  destruct Hrel as [_ _ Rf Rt Rw Rp]. destruct (thread_global _ _ Rt) as (Eg & Et & Est).
  constructor; [exact unlinked_heap|by eauto|done|..].
  - intros b. rewrite Rw. destruct (b =? block_of c); [done|]. apply rtree_view_eq. by rewrite Es1.
  - intros a n. split; intros (q & sq0 & i & Hq & Hbq & Hrun & ->);
      destruct (unlinked_span q Hq) as (_ & _ & _ & sq & sq' & Hsq & Hbq' & _ & _ & Hrn).
    + exists q, sq, i. rewrite Hbq in Hbq'. injection Hbq' as <-.
      split_and!; [done|apply Hsq|by apply Hrn|done].
    + exists q, sq', i. rewrite (so_body _ _ _ _ Hsq) in Hbq. injection Hbq as <-.
      split_and!; [done|done|by apply Hrn|done].
  - eapply mem_frame_trans; [|eapply mem_frame_weaken, Rf; [done|intros ? []|done]].
    constructor; [intros; by rewrite unlinked_mapped|intros; by rewrite unlinked_chunk| |intros; by rewrite Es1|].
    2: { apply only_grows_same; by rewrite Es1. }
    intros a Ha Hna. rewrite Hb1. unfold unlink_bodies.
    rewrite decide_False, decide_False; [done|..];
      intros [<- Hn]; apply Hna, unlinked_sub, Hnb; auto.
  - split.
    + eapply (only_tlh_insert _ t t1); [exact Ht|by rewrite Et1|rewrite Eg; by rewrite Es1|rewrite Et; by rewrite Es1|].
      rewrite Est. by rewrite Es1.
    + rewrite Est. by rewrite Es1.
Qed.

End unlinked.

Lemma wp_destroy_span tlh c L G P Q s :
  span_heap s tlh L G P -> c + 64 ∈ L ->
  (forall s' L' G' P', span_destroyed s tlh c L G P s' L' G' P' -> Q tt s') ->
  wp (destroy_span tlh c) Q s.
Proof.
  intros Hh Hin HQ. destruct (Hh) as [Hv Hr (t & Ht & Hd & Hst) Hnd Hs Ho].
  destruct (Hs _ Hin) as [sp Hok]. pose proof (so_body _ _ _ _ Hok) as Hb.
  pose proof (so_chunk _ _ _ _ Hok) as Hcok. pose proof (so_header _ _ _ _ Hok) as Hhd.
  pose proof (Ho _ Hin) as Hco. replace (c + 64 - 64) with c in * by lia.
  assert (0 < c) as Hpos by apply Hcok.
  apply list_elem_of_split in Hin as (l1 & l2 & ->).
  destruct (dll_unlink _ _ _ _ _ _ _ Hnd Hd (links_span _ _ _ Hb)) as (Hd' & _ & Hnx & Hpv).
  pose proof (fun q => unlinked_nodes l1 l2 (c + 64) q Hnd) as Hsub.
  assert (forall q, q = span_prev sp \/ q = span_next sp -> q <> NULL -> q ∈ l1 ++ l2) as Hnb.
  { intros q [->| ->] Hq; set_solver. }
  unfold destroy_span, LZ_CACHE_LINE_SIZE. eapply wp_unlink_span;
    [by eapply span_ok_mapped|exact Hb|exact Ht|..].
  { intros E. destruct (Hsub (span_prev sp)) as [_ ?]; [apply Hnb; [auto|lia]|lia]. }
  { intros E. destruct (Hsub (span_next sp)) as [_ ?]; [apply Hnb; [auto|lia]|lia]. }
  { intros q Hq Hq0. destruct (Hsub q (Hnb q Hq Hq0)) as [Hq1 _]. destruct (Hs q Hq1) as [sq Hsq].
    split; [by eapply span_ok_mapped|]. exists sq. apply Hsq. }
  intros s1 t1 Es1 Et1 Hb1.
  assert (forall x, mapped s1 x = mapped s x) as Hm1 by (intros; rewrite Es1; done).
  assert (forall x, chunk_of s1 x = chunk_of s x) as Hc1 by (intros; rewrite Es1; done).
  eapply (wp_release_chunk c G P).
  { eapply vmm_inv_frame; [exact Hv|by rewrite Es1|intros; by rewrite Hm1|done]. }
  { eapply rtree_inv_ext; [exact Hr|by rewrite Es1|intros; by rewrite Hm1]. }
  { eapply chunk_ok_mono; [|exact Hcok]. intros; by rewrite Hm1. }
  { done. }
  { rewrite Hc1. apply Hhd. }
  { rewrite Hc1. apply Hhd. }
  intros s2 G' P' Hrel. eapply HQ. eapply span_unlinked; eauto.
Qed.

(** The result of releasing the block at page [i] of chunk [c]. *)
Record span_free_post (s : state) (tlh c i : Z) (L G : list Z) (P : list (list Z))
    (s' : state) (L' G' : list Z) (P' : list (list Z)) : Prop := {
  sf_heap : span_heap s' tlh L' G' P';
  sf_blocks : forall a n, span_block s' L' a n <-> span_block s L a n /\ a <> c + i * 4096;
  sf_list : (exists j m, span_block s L j m /\ c <= j < c + 2 ^ 21 /\ j <> c + i * 4096) /\
      L' = L /\ G' = G /\ P' = P /\ (forall b, rtree_view s' b = rtree_view s b) /\
      h_bytes s' = h_bytes s \/
    (forall j m, span_block s L j m -> c <= j < c + 2 ^ 21 -> j = c + i * 4096) /\
      (exists l1 l2, L = l1 ++ (c + 64) :: l2 /\ L' = l1 ++ l2) /\
      G' ++ concat P' ≡ₚ c :: G ++ concat P /\
      (forall b, rtree_view s' b = if b =? block_of c then NULL else rtree_view s b);
  sf_frame : mem_frame (fun a => a = c) (fun a => a ∈ L)
    (fun x => c + LZ_PAGE_SIZE <= x < c + LZ_HUGE_PAGE_SIZE) s s';
  sf_thread : only_tlh tlh s s'
}.

(** The pages of a pointer into chunk [c]. *)
Lemma start_page_in c ptr :
  c <= ptr < c + 2 ^ 21 -> u32 (u64 (ptr - c) / LZ_PAGE_SIZE) = (ptr - c) / 4096 /\
  0 <= (ptr - c) / 4096 < 512.
Proof.
  intros Hp. unfold LZ_PAGE_SIZE. rewrite (u64_small (ptr - c)) by lia.
  assert (0 <= (ptr - c) / 4096 < 512) by dlia. rewrite u32_small by lia. done.
Qed.

(** The bookkeeping part of the release, up to the telemetry. *)
Lemma wp_give_pages p sp i n Q s :
  mapped s p = true -> body_of s p = BSpan sp -> span_inv sp -> run sp i n ->
  (forall bm, wf_bitmap bm ->
     (forall q, 0 <= q -> page_free bm q =
        if (i <=? q) && (q <? i + n) then true else page_free (free_bitmap sp) q) ->
     Q tt (set_h_bodies (<[p := BSpan (span_give sp i n bm)]> (h_bodies s)) s)) ->
  wp (give_pages p i n) Q s.
Proof.
  intros Hm Hb Hi Hr HQ. destruct (sv_run _ Hi _ _ Hr) as [Hi1 Hlim]. destruct (Hr) as (Hi0 & Hl & Hn).
  unfold give_pages. wp_step. eapply wp_span_at; [done..|].
  destruct (update_pages_spec mark_free true (Z.to_nat n) i (free_bitmap sp))
    as (bm & -> & Hwf & Hbits); [apply mark_free_bit|apply Hi|done|lia|].
  rewrite Z2Nat.id in Hbits by lia.
  wp_step. eapply wp_update_span; [done..|]. unfold store_alloc_size, LZ_SPAN_TOTAL_PAGES.
  do 2 wp_step. eapply wp_span_at; [done|by rewrite body_of_insert, decide_True|].
  replace ((0 <=? i) && (i <? 512)) with true by lia.
  eapply wp_update_span; [done|by rewrite body_of_insert, decide_True|].
  eapply wp_update_span; [done|by rewrite body_of_insert, decide_True|].
  assert (n + 1 <= used_pages sp <= 512) as Hu.
  { rewrite (sv_used _ Hi).
    assert (span_inv (span_give sp i n bm)) as Hi' by (by apply span_give_inv).
    pose proof (sv_used _ Hi') as Hu'. cbn [used_pages span_give free_bitmap] in Hu'.
    pose proof (used_below_run (page_free (free_bitmap sp)) 0 0 512 ltac:(lia) ltac:(lia) ltac:(intros; lia)) as Hmax.
    assert (page_free (free_bitmap (span_give sp i n bm)) 0 = false) as H0'.
    { apply (sv_page _ Hi'); [lia|by left]. }
    assert (1 <= used_below (page_free bm) 512).
    { apply (used_below_one _ _ 0); [change (Z.of_nat 512) with 512; lia|done]. }
    rewrite (sv_used _ Hi) in Hu'. unfold overlap in Hmax. change (Z.of_nat 512) with 512 in Hmax. lia. }
  match goal with |- Q _ ?s' => replace s' with
    (set_h_bodies (<[p := BSpan (span_give sp i n bm)]> (h_bodies s)) s); [by apply HQ|] end.
  state_eq. cbn [h_bodies set_h_bodies]. rewrite !insert_insert_eq. do 2 f_equal.
  unfold span_give, set_alloc_size_pages, set_used_pages, set_free_bitmap.
  cbn [span_next span_prev free_bitmap used_pages alloc_size_pages].
  by rewrite u32_small by lia.
Qed.

(** The span after taking a run back, in its heap. *)
Lemma span_heap_give s tlh L G P p sp i n bm :
  span_heap s tlh L G P -> p ∈ L -> body_of s p = BSpan sp -> run sp i n ->
  span_inv (span_give sp i n bm) ->
  (forall j m, run (span_give sp i n bm) j m <-> run sp j m /\ j <> i) ->
  let s' := set_h_bodies (<[p := BSpan (span_give sp i n bm)]> (h_bodies s)) s in
  span_heap s' tlh L G P /\
  forall a m, span_block s' L a m <-> span_block s L a m /\ a <> p - 64 + i * 4096.
Proof.
  intros Hh Hp Hb Hr Hi Hruns s'. split; [by eapply span_heap_body|]. intros a m.
  unfold s'. rewrite span_block_body. split.
  - intros [(_ & j & [Hj Hne]%Hruns & ->)|(q & sq & j & Hq & Hne & Hbq & Hj & ->)].
    + split; [by exists p, sp, j|lia].
    + split; [by exists q, sq, j|].
      destruct (span_run_in _ _ _ _ _ _ _ _ _ Hh Hq Hbq Hj) as (Ha1 & ? & _ & ? & ?).
      destruct (span_run_in _ _ _ _ _ _ _ _ _ Hh Hp Hb Hr) as (Ha2 & ? & _ & ? & ?).
      destruct (aligned_apart (p - 64) (q - 64)); [done|done|lia|lia..].
  - intros [(q & sq & j & Hq & Hbq & Hj & ->) Hne]. destruct (decide (q = p)) as [->|].
    + left. split; [done|]. exists j. rewrite Hruns. rewrite Hb in Hbq. injection Hbq as <-.
      split; [|done]. split; [done|]. intros ->. done.
    + right. by exists q, sq, j.
Qed.

(** The blocks of one chunk are the runs of its span. *)
Lemma span_block_chunk s tlh L G P c sp :
  span_heap s tlh L G P -> c + 64 ∈ L -> body_of s (c + 64) = BSpan sp ->
  forall a m, span_block s L a m -> c <= a < c + 2 ^ 21 -> exists i, run sp i m /\ a = c + i * 4096.
Proof.
  intros Hh Hin Hb a m (q & sq & i & Hq & Hbq & Hr & ->) Hc.
  destruct (span_run_in _ _ _ _ _ _ _ _ _ Hh Hq Hbq Hr) as (Ha1 & ? & _ & ? & ?).
  destruct (sh_span _ _ _ _ _ Hh _ Hin) as [sp' [_ _ (Hal & _) _]].
  destruct (decide (q = c + 64)) as [->|].
  - exists i. split; [congruence|lia].
  - destruct (aligned_apart (c + 64 - 64) (q - 64)); [done|done|lia|lia..].
Qed.

(** The end of a release: an empty span is destroyed, another one stays.  [s2]
    is the state with the run given back. *)
Lemma wp_settle_span tlh c i L G P sp s2 Q s :
  span_heap s2 tlh L G P -> c + 64 ∈ L -> body_of s2 (c + 64) = BSpan sp -> span_inv sp ->
  (forall a m, span_block s2 L a m <-> span_block s L a m /\ a <> c + i * 4096) ->
  mem_frame (fun a => a = c) (fun a => a ∈ L)
    (fun x => c + LZ_PAGE_SIZE <= x < c + LZ_HUGE_PAGE_SIZE) s s2 ->
  only_tlh tlh s s2 -> h_bytes s2 = h_bytes s -> rtree_part s2 = rtree_part s ->
  (forall s' L' G' P', span_free_post s tlh c i L G P s' L' G' P' -> Q tt s') ->
  wp (sp ← span_at (c + 64); if used_pages sp =? 1 then destroy_span tlh c else mret tt) Q s2.
Proof.
  intros Hh2 Hin Hb2 Hgi Hblk2 Hf2 Ht2 Hy2 Hr2 HQ.
  destruct (sh_span _ _ _ _ _ Hh2 _ Hin) as [sp' Hok]. pose proof (span_ok_mapped _ _ _ _ Hok) as Hm.
  pose proof (so_chunk _ _ _ _ Hok) as Hcok. replace (c + 64 - 64) with c in Hcok by lia.
  assert (forall b, rtree_view s2 b = rtree_view s b) as Hv2 by (intros; by apply rtree_view_eq).
  wp_step. eapply wp_span_at; [exact Hm|exact Hb2|].
  pose proof (span_empty_iff _ Hgi) as Hem. destruct (Z.eqb_spec (used_pages sp) 1) as [E1|E1].
  - pose proof (proj1 Hem E1) as E2. eapply wp_destroy_span; [exact Hh2|done|].
    intros s3 L' G' P' [Dh (l1 & l2 & EL & EL') Dp Dv Db Df [Dt _]]. eapply HQ.
    constructor; [done|..].
    + intros a m. rewrite Db, <- Hblk2. subst L L'. split.
      * intros (q & sq & j & Hq & Hrest). exists q, sq, j. split; [set_solver|done].
      * intros (q & sq & j & Hq & Hbq & Hj & ->). exists q, sq, j. split_and!; [|done..].
        apply elem_of_app. apply elem_of_app in Hq as [?|[->|?]%elem_of_cons]; [by left| |by right].
        rewrite Hb2 in Hbq. injection Hbq as <-. by apply E2 in Hj.
    + right. split_and!; [|by exists l1, l2|done|].
      * intros a m Ha Hac. destruct (decide (a = c + i * 4096)) as [|Hne]; [done|exfalso].
        assert (span_block s2 L a m) as Ha2 by by apply Hblk2.
        destruct (span_block_chunk _ _ _ _ _ _ _ Hh2 Hin Hb2 _ _ Ha2 Hac) as (j & Hj & _).
        by apply E2 in Hj.
      * intros b. by rewrite Dv, Hv2.
    + by eapply mem_frame_trans.
    + by eapply only_tlh_trans.
  - wp_steps. eapply HQ. constructor; [exact Hh2|exact Hblk2| |done|done].
    left. split_and!; try done. destruct (span_used_run _ Hgi E1) as (j & m & Hj).
    exists (c + j * 4096), m.
    assert (span_block s2 L (c + j * 4096) m) as [Hj1 Hj2]%Hblk2.
    { exists (c + 64), sp, j. split_and!; [done..|lia]. }
    destruct (sv_run _ Hgi _ _ Hj). destruct Hj as (_ & _ & ?). split_and!; [done|lia..|done].
Qed.

Lemma wp_span_free_local tlh c ptr i L G P sp Q s :
  span_heap s tlh L G P -> c + 64 ∈ L -> body_of s (c + 64) = BSpan sp -> c <= ptr < c + 2 ^ 21 ->
  i = (ptr - c) / 4096 ->
  ((forall n, ~ run sp i n) -> Q tt s) ->
  (forall n s' L' G' P', run sp i n -> span_free_post s tlh c i L G P s' L' G' P' -> Q tt s') ->
  wp (lz_span_free_local tlh c ptr) Q s.
Proof.
  intros Hh Hin Hb Hptr Hidx Hno HQ. destruct (start_page_in c ptr Hptr) as [Ei Hir].
  destruct (sh_span _ _ _ _ _ Hh _ Hin) as [sp' Hok]. pose proof (so_body _ _ _ _ Hok) as Hb'.
  rewrite Hb in Hb'. injection Hb' as <-. pose proof (so_inv _ _ _ _ Hok) as Hi.
  pose proof (span_ok_mapped _ _ _ _ Hok) as Hm. pose proof (so_chunk _ _ _ _ Hok) as Hcok.
  replace (c + 64 - 64) with c in Hcok by lia.
  unfold lz_span_free_local, LZ_CACHE_LINE_SIZE. rewrite Ei. rewrite <- Hidx in *. unfold LZ_SPAN_TOTAL_PAGES.
  zfalse (512 <=? i). destruct (Z.eqb_spec i 0) as [E|E]; cbn [orb].
  { wp_steps. apply Hno. intros n Hr. destruct (sv_run _ Hi _ _ Hr). lia. }
  destruct (lookup_lt_is_Some_2 (alloc_size_pages sp) (Z.to_nat i)) as [n Hn].
  { destruct (sv_table _ Hi) as [-> _]. lia. }
  wp_step. unfold load_alloc_size. wp_step. eapply wp_span_at; [done..|]. rewrite Hn.
  ztrue (0 <=? i). wp_steps. destruct (Z.eqb_spec n 0) as [->|Hn0].
  { wp_steps. apply Hno. intros m (_ & Hm' & ?). by simplify_eq. }
  assert (run sp i n) as Hr.
  { pose proof (Forall_lookup_1 _ _ _ _ (proj2 (sv_table _ Hi)) Hn). split_and!; [lia|done|].
    cbn in *. lia. }
  wp_step. eapply wp_give_pages; [done..|]. intros bm Hwf Hbits.
  destruct (span_give_inv sp i n bm Hi Hr Hwf Hbits) as [Hgi Hgr].
  destruct (span_heap_give s tlh L G P (c + 64) sp i n bm) as [Hh1 Hblk]; [done..|].
  replace (c + 64 - 64) with c in Hblk by lia.
  destruct (sh_tlh _ _ _ _ _ Hh) as (t & Ht & _ & Hst).
  wp_step. eapply wp_count_free; [exact Ht|exact Hst|]. intros v st Hdom.
  set (s2 := set_h_tlhs _ _).
  assert (span_heap s2 tlh L G P) as Hh2 by (by apply span_heap_count).
  assert (body_of s2 (c + 64) = BSpan (span_give sp i n bm)) as Hb2.
  { unfold body_of. cbn. by rewrite lookup_insert_eq. }
  assert (forall a m, span_block s2 L a m <-> span_block s L a m /\ a <> c + i * 4096) as Hblk2.
  { intros a m. apply Hblk. }
  assert (mem_frame (fun a => a = c) (fun a => a ∈ L)
    (fun x => c + LZ_PAGE_SIZE <= x < c + LZ_HUGE_PAGE_SIZE) s s2) as Hf2.
  { constructor; [done|done| |done|done]. intros a _ Ha.
    transitivity (body_of (set_h_bodies (<[c + 64 := BSpan (span_give sp i n bm)]> (h_bodies s)) s) a); [done|].
    rewrite body_of_insert, decide_False; [done|]. by intros <-. }
  assert (only_tlh tlh s s2) as Ht2.
  { apply (only_tlh_insert _ t (set_local_bytes_free_batch v t)); [done..|]. intros p. by apply Hdom. }
  eapply wp_settle_span; [exact Hh2|done|exact Hb2|done|exact Hblk2|done..|].
  intros s' L' G' P'. by apply (HQ n).
Qed.

End span_rules.

(** ** Theorems *)

Section span_theorems.
Context `{EnvLaws}.

(** Pages needed for [size] bytes. *)
Definition pages_for (size : Z) : Z := (size + 4095) / 4096.

Lemma required_pages_eq size :
  0 <= size < 2 ^ 32 -> u32 (LZ_ALIGN_UP size LZ_PAGE_SIZE / LZ_PAGE_SIZE) = pages_for size.
Proof.
  intros Hs. change LZ_PAGE_SIZE with (2 ^ 12). rewrite LZ_ALIGN_UP_wrap by lia.
  rewrite (u64_small (size + (2 ^ 12 - 1))) by lia. rewrite Z.div_mul by lia.
  unfold pages_for. change (2 ^ 12) with 4096. rewrite u32_small; [f_equal; lia|dlia].
Qed.

(** C31. The page search is first fit: over the eight bitmap words (a zero word
    being skipped whole) it returns the lowest page at which the required
    number of contiguous free pages starts, across word boundaries, and -1
    exactly when there is no such run; a requirement of zero is never met. *)
Theorem find_pages_first_fit bm req :
  length bm = 8%nat -> 0 <= req < 2 ^ 32 ->
  let r := scan_words bm 0 req 0 (-1) in
  (req = 0 -> r = -1) /\ (0 < req -> first_fit (page_free bm) req 512 r).
Proof.
  intros Hl Hr r. split; intros Hz.
  - subst req. apply scan_words_zero; [lia|]. rewrite Hl. lia.
  - apply scan_first_fit; [done|lia].
Qed.

(** C14. Refinement of span allocation: for 1 byte to 511 pages the call
    returns; on success exactly one block of the needed pages is added to the
    set of handed-out blocks, page-aligned, inside the payload of one owned
    chunk and disjoint from every block handed out before; a new chunk is
    taken only when no active span has a fitting run; the call fails only when
    the kernel refuses it memory, and then the set is unchanged; payload bytes
    and other heaps are untouched. *)
Theorem span_alloc_refines s tlh size L G P :
  span_heap s tlh L G P -> 1 <= size <= 511 * 4096 ->
  wp (lz_span_alloc tlh size) (fun r s' => exists L' G' P',
    span_alloc_post s tlh (pages_for size) L G P r s' L' G' P' /\
    size <= pages_for size * 4096 < size + 4096) s.
Proof.
  intros Hh Hs. assert (1 <= pages_for size < 512) by (unfold pages_for; dlia).
  eapply wp_span_alloc; [exact Hh|by rewrite required_pages_eq by lia|done|].
  intros r s' L' G' P' Hp. exists L', G', P'. split; [done|]. unfold pages_for. dlia.
Qed.

(** C15. Refinement of span release: freeing any address in the first page of
    a handed-out block removes exactly that block; when it was the last one
    of its chunk the span is unlinked, the index entry cleared and the chunk
    returned to the pools, otherwise lists, pools and index stay.  Freeing an
    address whose page starts no block (a double free, an interior page, the
    metadata page) changes nothing at all. *)
Theorem span_free_refines s tlh c ptr L G P :
  span_heap s tlh L G P -> c + 64 ∈ L -> c <= ptr < c + 2 ^ 21 ->
  let a := c + (ptr - c) / 4096 * 4096 in
  wp (lz_span_free_local tlh c ptr) (fun _ s' =>
    (exists n, span_block s L a n) /\
      (exists L' G' P', span_free_post s tlh c ((ptr - c) / 4096) L G P s' L' G' P') \/
    (forall n, ~ span_block s L a n) /\ s' = s) s.
Proof.
  intros Hh Hin Hptr a. destruct (sh_span _ _ _ _ _ Hh _ Hin) as [sp Hok].
  pose proof (so_body _ _ _ _ Hok) as Hb. destruct (start_page_in c ptr Hptr) as [_ Hi].
  eapply wp_span_free_local; [exact Hh|done|exact Hb|done|done|..].
  - intros Hno. right. split; [|done]. intros n Ha.
    destruct (span_block_chunk _ _ _ _ _ _ _ Hh Hin Hb _ _ Ha) as (i & Hr & E); [subst a; lia|].
    assert (i = (ptr - c) / 4096) as -> by (subst a; lia). by eapply Hno.
  - intros n s' L' G' P' Hr Hp. left. split; [|by exists L', G', P'].
    exists n, (c + 64), sp, ((ptr - c) / 4096). split_and!; [done..|subst a; lia].
Qed.

(** Round trip: freeing what an allocation returned restores the set of
    handed-out blocks. *)
Theorem span_alloc_free_roundtrip s tlh size L G P :
  span_heap s tlh L G P -> 1 <= size <= 511 * 4096 ->
  wp (r ← lz_span_alloc tlh size;
      if r =? NULL then mret tt
      else lz_span_free_local tlh (r .& chunk_mask) r) (fun _ s' => exists L' G' P',
    span_heap s' tlh L' G' P' /\ forall a n, span_block s' L' a n <-> span_block s L a n) s.
Proof.
  intros Hh Hs. assert (1 <= pages_for size < 512) by (unfold pages_for; dlia). wp_step.
  eapply wp_span_alloc; [exact Hh|by rewrite required_pages_eq by lia|done|].
  intros r s1 L1 G1 P1 [Ah Al Ab Ap Ad Af At _ _ _]. destruct (Z.eqb_spec r NULL) as [E|E].
  { wp_steps. exists L1, G1, P1. split; [done|]. intros a n. rewrite Ab. naive_solver. }
  destruct (Ap E) as (Hal & p & Hp & Hpa & Hlo & Hhi).
  destruct (sh_span _ _ _ _ _ Ah _ Hp) as [sp Hok]. pose proof (so_body _ _ _ _ Hok) as Hb.
  destruct (so_chunk _ _ _ _ Hok) as (_ & Hpos & Hmax & _).
  assert (1 <= pages_for size * 4096) by lia.
  rewrite (chunk_mask_in (p - 64)) by lia.
  assert (p = p - 64 + 64) as Ep by lia.
  assert (exists i, run sp i (pages_for size) /\ r = p - 64 + i * 4096) as (i & Hi & Er).
  { assert (span_block s1 L1 r (pages_for size)) as Hr by (rewrite Ab; auto). rewrite Ep in Hp, Hb.
    eapply span_block_chunk; [exact Ah|exact Hp|exact Hb|exact Hr|lia]. }
  assert ((r - (p - 64)) / 4096 = i) as Ei by (subst r; rewrite Z.add_simpl_l, Z.div_mul; lia).
  rewrite Ep in Hp, Hb. eapply wp_span_free_local; [exact Ah|exact Hp|exact Hb|lia|done|..].
  - intros Hno. by apply Hno in Hi.
  - intros n s2 L2 G2 P2 _ [Fh Fb _ _ _]. exists L2, G2, P2. split; [done|].
    intros a m. rewrite Fb, Ab. split; [intros [[?|(_ & ? & _)] ?]; [done|lia]|].
    intros Ha. split; [by left|]. intros ->. specialize (Ad E _ _ Ha).
    destruct Ha as (q & sq & j & Hq & Hbq & Hj & Eq). destruct Hj as (_ & _ & ?). lia.
Qed.

(** The search with nothing required visits every span and fails. *)
Lemma wp_search_zero tlh L fuel prev a Q s :
  dll (links s) prev a L -> (length L < fuel)%nat ->
  (forall p, p ∈ L -> exists sp, span_ok s tlh p sp) ->
  Q (NULL, -1) s -> wp (search_active fuel a 0) Q s.
Proof.
  revert fuel prev a. induction L as [|p L IH]; intros fuel prev a Hd Hf Hok HQ;
    (destruct fuel as [|fuel]; [lia|]); cbn [search_active].
  { cbn in Hd. subst a. by wp_steps. }
  destruct Hd as (-> & Hp0 & next & Hlk & Hd). zfalse (p =? NULL).
  destruct (Hok p) as [sp Hsp]; [set_solver|]. pose proof (so_body _ _ _ _ Hsp) as Hb.
  pose proof (span_ok_mapped _ _ _ _ Hsp) as Hm. destruct (sv_bitmap _ (so_inv _ _ _ _ Hsp)) as [Hl _].
  rewrite (links_span _ _ _ Hb) in Hlk. injection Hlk as <- _.
  assert (wp (search_active fuel (span_next sp) 0) Q s) as Hrest.
  { eapply IH; [exact Hd|cbn in Hf; lia|intros; apply Hok; set_solver|done]. }
  wp_step. eapply wp_span_at; [done..|]. destruct (0 <=? _); [|done].
  wp_step. unfold find_contiguous_pages. wp_step. eapply wp_span_at; [done..|].
  rewrite scan_words_zero by (rewrite ?Hl; lia). cbv zeta. change (-1 =? -1) with true.
  cbv iota. wp_step. change (negb (-1 =? -1)) with false. cbv iota. wp_step. by eapply wp_span_at.
Qed.

(** A request of zero bytes (lz_memalign forwards one) takes a whole new
    chunk, fails to find a run of zero pages in it, and answers NULL while the
    empty span stays linked to the heap: the chunk is not given back. *)
Theorem span_alloc_zero_retains_chunk s tlh L G P :
  span_heap s tlh L G P -> lz_fatal_returns = true ->
  wp (lz_span_alloc tlh 0) (fun r s' => r = NULL /\ exists G' P',
    not_provisioned s tlh L G P s' G' P' \/
    exists c, provisioned s tlh c L G P s' G' P') s.
Proof.
  intros Hh Hfat. destruct (sh_tlh _ _ _ _ _ Hh) as (t & Ht & Hd & _). unfold lz_span_alloc.
  change (u32 (LZ_ALIGN_UP 0 LZ_PAGE_SIZE / LZ_PAGE_SIZE)) with 0.
  change (LZ_SPAN_TOTAL_PAGES <=? 0) with false. cbv iota.
  wp_step. eapply wp_tlh_at; [done|]. do 3 wp_step.
  eapply wp_search_zero; [exact Hd|by eapply span_heap_bound|apply Hh|]. cbv beta iota.
  change (-1 =? -1) with true. cbv iota. wp_step. eapply wp_provision_span; [exact Hh|..].
  - intros s1 G' P' Hn. wp_steps. split; [done|]. exists G', P'. by left.
  - intros c s1 G' P' Hc Hp. zfalse (c + 64 =? NULL). wp_step.
    destruct (pv_body _ _ _ _ _ _ _ _ _ Hp) as [next Hb].
    destruct (sh_span _ _ _ _ _ (pv_heap _ _ _ _ _ _ _ _ _ Hp) (c + 64)) as [sp Hok]; [set_solver|].
    unfold find_contiguous_pages. wp_step. eapply wp_span_at; [by eapply span_ok_mapped|exact Hb|].
    rewrite scan_words_zero by done. cbv zeta. change (-1 =? -1) with true. cbv iota.
    wp_step. change (-1 =? -1) with true. cbv iota.    unfold LZ_FATAL. rewrite Hfat. wp_steps. split; [done|]. exists G', P'. right. by exists c.
Qed.

End span_theorems.

(** ** Witnesses *)

(** A heap without spans, with and without a telemetry slot. *)
Definition empty_tlh (slot : Z) : lz_tlh_t :=
  mk_tlh (replicate 88 (mk_bin 0 0 0)) 0 0 (mk_batch 0 0 0 0) 0 0 0 0 0 0 slot.
Definition empty_heap_state : state := set_h_tlhs {[ 8192 := empty_tlh 0 ]} boot_state.

Lemma empty_heap_ok : span_heap empty_heap_state 8192 [] [] (replicate 16 []).
Proof.
  constructor.
  - by apply vmm_inv_boot.
  - by apply rtree_inv_empty.
  - exists (empty_tlh 0). split_and!; [done|done|by left].
  - constructor.
  - intros p Hp. by apply not_elem_of_nil in Hp.
  - intros p Hp. by apply not_elem_of_nil in Hp.
Qed.

(** A heap with one span that has handed out pages 1 and 2. *)
Definition two_pages_bitmap : list Z :=
  default [] (update_pages mark_used 2 1 (free_bitmap (fresh_span 0))).
Definition two_pages_span : lz_span_t := span_take (fresh_span 0) 1 2 two_pages_bitmap.
Definition one_span_state : state :=
  set_h_tlhs {[ 8192 := set_active_spans 0x7f0000200040 (empty_tlh 0) ]}
    (set_st_mapped [(0x7f0000200000, 0x7f0000400000)]
      (set_h_chunks {[ 0x7f0000200000 := mk_chunk 0 8192 LZ_CHUNK_MAGIC_V2 0 3 0 LZ_CHUNK_TYPE_SPAN ]}
        (set_h_bodies {[ 0x7f0000200040 := BSpan two_pages_span ]} boot_state))).

Lemma two_pages_inv : span_inv two_pages_span.
Proof.
  destruct (update_pages_spec mark_used false 2 1 (free_bitmap (fresh_span 0)))
    as (bm & E & Hwf & Hbits); [apply mark_used_bit|apply fresh_span_inv|lia|done|].
  unfold two_pages_span, two_pages_bitmap. rewrite E. change (Z.of_nat 2) with 2 in Hbits.
  apply span_take_inv; [apply fresh_span_inv|lia..| |done|done].
  intros p Hp. rewrite fresh_span_page by lia. lia.
Qed.

Lemma one_span_ok : span_heap one_span_state 8192 [0x7f0000200040] [] (replicate 16 []).
Proof.
  constructor.
  - by apply vmm_inv_boot.
  - by apply rtree_inv_empty.
  - exists (set_active_spans 0x7f0000200040 (empty_tlh 0)). split_and!; [done| |by left].
    cbn [dll]. split_and!; [done..|]. by exists 0.
  - repeat constructor. apply not_elem_of_nil.
  - intros p ->%list_elem_of_singleton. exists two_pages_span. constructor.
    + done.
    + apply two_pages_inv.
    + split_and!; [done..|]. intros x Hx. unfold mapped. cbn. lia.
    + split_and!; done.
  - intros p _. apply not_elem_of_nil.
Qed.

Lemma find_pages_first_fit_witness :
  let r := scan_words two_pages_bitmap 0 70 0 (-1) in
  (70 = 0 -> r = -1) /\ (0 < 70 -> first_fit (page_free two_pages_bitmap) 70 512 r).
Proof. apply (find_pages_first_fit two_pages_bitmap 70); [done|lia]. Defined.

Lemma span_alloc_refines_witness :
  wp (lz_span_alloc 8192 40000) (fun r s' => exists L' G' P',
    span_alloc_post empty_heap_state 8192 (pages_for 40000) [] [] (replicate 16 []) r s' L' G' P' /\
    40000 <= pages_for 40000 * 4096 < 40000 + 4096) empty_heap_state.
Proof. apply (span_alloc_refines empty_heap_state 8192 40000 [] []); [apply empty_heap_ok|lia]. Defined.

Lemma span_free_refines_witness :
  let a := 0x7f0000200000 + (0x7f0000201000 - 0x7f0000200000) / 4096 * 4096 in
  wp (lz_span_free_local 8192 0x7f0000200000 0x7f0000201000) (fun _ s' =>
    (exists n, span_block one_span_state [0x7f0000200040] a n) /\
      (exists L' G' P', span_free_post one_span_state 8192 0x7f0000200000
         ((0x7f0000201000 - 0x7f0000200000) / 4096) [0x7f0000200040] [] (replicate 16 []) s' L' G' P') \/
    (forall n, ~ span_block one_span_state [0x7f0000200040] a n) /\ s' = one_span_state)
    one_span_state.
Proof.
  apply (span_free_refines one_span_state 8192 0x7f0000200000 0x7f0000201000);
    [apply one_span_ok|by apply list_elem_of_singleton|lia].
Defined.

Lemma span_alloc_free_roundtrip_witness :
  wp (r ← lz_span_alloc 8192 40000;
      if r =? NULL then mret tt
      else lz_span_free_local 8192 (r .& chunk_mask) r) (fun _ s' => exists L' G' P',
    span_heap s' 8192 L' G' P' /\
    forall a n, span_block s' L' a n <-> span_block one_span_state [0x7f0000200040] a n) one_span_state.
Proof.
  apply (span_alloc_free_roundtrip one_span_state 8192 40000 _ [] (replicate 16 []));
    [apply one_span_ok|lia].
Defined.

Lemma span_alloc_zero_retains_chunk_witness :
  wp (lz_span_alloc 8192 0) (fun r s' => r = NULL /\ exists G' P',
    not_provisioned empty_heap_state 8192 [] [] (replicate 16 []) s' G' P' \/
    exists c, provisioned empty_heap_state 8192 c [] [] (replicate 16 []) s' G' P') empty_heap_state.
Proof. apply (span_alloc_zero_retains_chunk empty_heap_state); [apply empty_heap_ok|done]. Defined.

(** The span engine reports frees but not allocations: after one
    allocation of ten pages and its release, the published byte count of the
    thread's telemetry slot is -40960. *)
Theorem span_telemetry_unbalanced :
  wp (r ← lz_span_alloc 8192 40960; lz_span_free_local 8192 (r .& chunk_mask) r)
    (fun _ s' => stat_bytes_allocated <$> h_stats s' !! 512 = Some (-40960))
    (set_h_tlhs {[ 8192 := empty_tlh 512 ]} (set_h_stats {[ 512 := mk_stat 0 0 0 0 ]} boot_state)).
Proof. vm_compute. reflexivity. Qed.
