(* ===== verification/Slab.v ===== *)
(** * slab.[ch]: formatting a chunk for objects of one size class *)

From S2P Require Import Prelude Common Sizes Machine Security Rtree Vmm Span.

(** sizeof(lz_slab_t): six pointers and four 32-bit counters. *)
Definition sizeof_slab : Z := 64.

Section slab.
Context `{Env}.

Definition lz_slab_create (tlh class_idx : Z) : M Z :=
  chunk ← lz_vmm_alloc_chunk;
  if chunk =? NULL then mret NULL
  else
    update_chunk chunk (set_owning_tlh tlh);;
    update_chunk chunk (set_chunk_type LZ_CHUNK_TYPE_SLAB);;
    update_chunk chunk (fun c => set_checksum (lz_calc_checksum c) c);;
    lz_rtree_set chunk chunk;;
    let slab := chunk + LZ_CACHE_LINE_SIZE in
    let data_start := LZ_ALIGN_UP (slab + sizeof_slab) LZ_CACHE_LINE_SIZE in
    let data_end := chunk + LZ_HUGE_PAGE_SIZE in
    let block_size := u32 (lz_class_to_size class_idx) in
    store_body slab (BSlab (mk_slab NULL NULL data_start data_end data_start NULL
      (u32 class_idx) block_size (u32 ((data_end - data_start) / block_size)) 0));;
    mret slab.

Definition lz_slab_destroy (slab : Z) : M unit :=
  let chunk := slab .& chunk_mask in
  c ← chunk_at chunk;
  if negb (checksum c =? lz_calc_checksum c) then
    LZ_FATAL "Slab destruction blocked: Chunk metadata corruption detected."
  else
    lz_rtree_clear chunk;;
    lz_vmm_free_chunk chunk.

End slab.
