(* ===== verification/Tlh.v ===== *)
(** * tlh.[ch]: the thread-local heap

    Bins of slabs, the obfuscated free lists, cross-thread frees through
    outgoing batches and the remote mailbox, and the allocation and release
    paths, as written in src/tlh/tlh.c. *)

From S2P Require Import Prelude Common Sizes Machine Security Rtree Telemetry Span Slab.

Section tlh.
Context `{Env}.

(** [tlh->bins[i]]; an index outside the array is an invalid access. *)
Definition bin_at (tlh i : Z) : M lz_bin_t :=
  t ← tlh_at tlh;
  match bins t !! Z.to_nat i with Some b => mret b | None => stop Segv end.
Definition update_bin (tlh i : Z) (f : lz_bin_t -> lz_bin_t) : M unit :=
  b ← bin_at tlh i;
  update_tlh tlh (fun t => set_bins (<[Z.to_nat i := f b]> (bins t)) t).

(** ** Slab lifecycle *)

(** Unlink [slab], whose list head is written by [set_head] when it is the
    first node. *)
Definition unlink_slab (slab : Z) (set_head : Z -> M unit) : M unit :=
  sl ← slab_at slab;
  (if negb (slab_prev sl =? NULL)
   then update_slab (slab_prev sl) (set_slab_next (slab_next sl))
   else set_head (slab_next sl));;
  sl ← slab_at slab;
  if negb (slab_next sl =? NULL)
  then update_slab (slab_next sl) (set_slab_prev (slab_prev sl)) else mret tt.

Definition lz_tlh_rescue_from_full (tlh slab : Z) : M unit :=
  sl ← slab_at slab;
  let i := size_class sl in
  bin ← bin_at tlh i;
  if slab =? current_slab bin then mret tt
  else
    unlink_slab slab (fun next => update_bin tlh i (set_full_list next));;
    bin ← bin_at tlh i;
    update_slab slab (set_slab_next (partial_list bin));;
    update_slab slab (set_slab_prev NULL);;
    (if negb (partial_list bin =? NULL)
     then update_slab (partial_list bin) (set_slab_prev slab) else mret tt);;
    update_bin tlh i (set_partial_list slab).

(** The first partial slab becomes the current one. *)
Definition promote_partial (tlh i : Z) : M unit :=
  bin ← bin_at tlh i;
  let slab := partial_list bin in
  update_bin tlh i (set_current_slab slab);;
  sl ← slab_at slab;
  update_bin tlh i (set_partial_list (slab_next sl));;
  (if negb (slab_next sl =? NULL)
   then update_slab (slab_next sl) (set_slab_prev NULL) else mret tt);;
  update_slab slab (set_slab_next NULL);;
  update_slab slab (set_slab_prev NULL).

Definition lz_tlh_recycle_empty_slab (tlh slab : Z) : M unit :=
  sl ← slab_at slab;
  let i := size_class sl in
  bin ← bin_at tlh i;
  if slab =? current_slab bin then
    if partial_list bin =? NULL then mret tt
    else promote_partial tlh i;; lz_slab_destroy slab
  else
    unlink_slab slab (fun next =>
      if partial_list bin =? slab then update_bin tlh i (set_partial_list next)
      else if full_list bin =? slab then update_bin tlh i (set_full_list next)
      else mret tt);;
    lz_slab_destroy slab.

(** ** Free lists *)

(** Pop the head of the obfuscated free list. *)
Definition pop_free_list (slab : Z) : M Z :=
  sl ← slab_at slab;
  let node := free_list_head sl in
  obfuscated_next ← load64 node;
  secret ← fetch g_lz_global_secret;
  update_slab slab (set_free_list_head (lz_ptr_obfuscate secret obfuscated_next node));;
  update_slab slab (fun sl => set_used_objects (u32 (used_objects sl + 1)) sl);;
  mret node.

(** Push [node] and account for it: the slab case of a local free and of the
    reap loop. *)
Definition free_to_slab (tlh slab node : Z) : M unit :=
  sl ← slab_at slab;
  secret ← fetch g_lz_global_secret;
  store64 node (lz_ptr_obfuscate secret (free_list_head sl) node);;
  update_slab slab (set_free_list_head node);;
  update_slab slab (fun sl => set_used_objects (u32 (used_objects sl - 1)) sl);;
  sl ← slab_at slab;
  (if used_objects sl =? u32 (max_objects sl - 1)
   then lz_tlh_rescue_from_full tlh slab else mret tt);;
  sl ← slab_at slab;
  (if used_objects sl =? 0 then lz_tlh_recycle_empty_slab tlh slab else mret tt);;
  t ← tlh_at tlh;
  if stat_slot t =? NULL then mret tt
  else sl ← slab_at slab; count_free tlh (block_size sl).

(** ** Batching of remote frees *)

(** The compare-and-swap loop, run without interference. *)
Definition lz_tlh_flush_outgoing_batch (tlh : Z) : M unit :=
  t ← tlh_at tlh;
  let batch := outgoing_batch t in
  if (batch_count batch =? 0) || (target_tlh batch =? NULL) then mret tt
  else
    target ← tlh_at (target_tlh batch);
    store64 (batch_tail batch) (remote_free_head target);;
    update_tlh (target_tlh batch) (set_remote_free_head (batch_head batch));;
    update_tlh tlh (set_outgoing_batch (mk_batch NULL NULL NULL 0)).

(** The walk over the nodes taken from the mailbox. *)
Fixpoint reap_loop (fuel : nat) (tlh head : Z) : M unit :=
  match fuel with
  | O => stop NoFuel
  | S fuel =>
      if head =? NULL then mret tt
      else
        next_clear ← load64 head;
        let chunk := head .& chunk_mask in
        c ← chunk_at chunk;
        (if chunk_type c =? LZ_CHUNK_TYPE_SLAB
         then free_to_slab tlh (chunk + LZ_CACHE_LINE_SIZE) head
         else if chunk_type c =? LZ_CHUNK_TYPE_SPAN
         then lz_span_free_remote tlh chunk head
         else mret tt);;
        reap_loop fuel tlh next_clear
  end.

(** Bound of a walk over distinct nodes: each holds at least one byte. *)
Definition node_bound (s : state) : nat := S (size (h_bytes s)).

Definition lz_tlh_reap (tlh : Z) : M unit :=
  t ← tlh_at tlh;
  let head := remote_free_head t in
  update_tlh tlh (set_remote_free_head NULL);;
  if head =? NULL then mret tt
  else fuel ← fetch node_bound; reap_loop fuel tlh head.

(** ** Allocation *)

(** The exhausted current slab moves to the full list. *)
Definition retire_current (tlh sc_idx slab : Z) : M unit :=
  if negb (slab =? NULL) then
    bin ← bin_at tlh sc_idx;
    update_slab slab (set_slab_next (full_list bin));;
    update_slab slab (set_slab_prev NULL);;
    (if negb (full_list bin =? NULL)
     then update_slab (full_list bin) (set_slab_prev slab) else mret tt);;
    update_bin tlh sc_idx (set_full_list slab)
  else mret tt.

Definition lz_tlh_alloc_slow (tlh sc_idx : Z) : M Z :=
  bin ← bin_at tlh sc_idx;
  let slab := current_slab bin in
  if negb (partial_list bin =? NULL) then
    retire_current tlh sc_idx slab;;
    promote_partial tlh sc_idx;;
    bin ← bin_at tlh sc_idx;
    pop_free_list (current_slab bin)
  else
    new_slab ← lz_slab_create tlh sc_idx;
    if new_slab =? NULL then mret NULL
    else
      retire_current tlh sc_idx slab;;
      update_bin tlh sc_idx (set_current_slab new_slab);;
      sl ← slab_at new_slab;
      let ptr := bump_ptr sl in
      update_slab new_slab (set_bump_ptr (ptr + block_size sl));;
      update_slab new_slab (fun sl => set_used_objects (u32 (used_objects sl + 1)) sl);;
      mret ptr.

Definition lz_tlh_init (tlh tid : Z) : M unit :=
  update_tlh tlh (fun t => mk_tlh (replicate (Z.to_nat LZ_MAX_SIZE_CLASSES) (mk_bin NULL NULL NULL))
    NULL NULL (mk_batch NULL NULL NULL 0) tid 0 0 0 0 (next_zombie t) NULL).

(** [slab && slab->free_list_head] *)
Definition has_free_node (slab : Z) : M bool :=
  if slab =? NULL then mret false
  else sl ← slab_at slab; mret (negb (free_list_head sl =? NULL)).

(** Bump allocation from the current slab; NULL (and no further attempts) when
    the next block would pass the end. *)
Definition bump_alloc (slab : Z) : M (Z * Z) :=
  if slab =? NULL then mret (NULL, 0)
  else
    sl ← slab_at slab;
    if bump_ptr sl =? NULL then mret (NULL, 0)
    else
      let ptr := bump_ptr sl in
      let next_bump := u64 (ptr + block_size sl) in
      if next_bump <=? memory_end sl then
        update_slab slab (set_bump_ptr next_bump);;
        update_slab slab (fun sl => set_used_objects (u32 (used_objects sl + 1)) sl);;
        mret (ptr, block_size sl)
      else
        update_slab slab (set_bump_ptr NULL);;
        mret (NULL, 0).

(** Pop with the size that the statistics report. *)
Definition pop_sized (slab : Z) : M (Z * Z) :=
  ptr ← pop_free_list slab;
  sl ← slab_at slab;
  mret (ptr, block_size sl).

(** The fast and warm paths: pointer and size, or NULL. *)
Definition tlh_alloc_fast (tlh sc_idx : Z) : M (Z * Z) :=
  bin ← bin_at tlh sc_idx;
  let slab := current_slab bin in
  b ← has_free_node slab;
  if b : bool then pop_sized slab
  else
    lz_tlh_reap tlh;;
    bin ← bin_at tlh sc_idx;
    let slab := current_slab bin in
    b ← has_free_node slab;
    if b : bool then pop_sized slab else bump_alloc slab.

Definition lz_tlh_alloc (tlh size : Z) : M Z :=
  if LZ_MAX_SLAB_OBJ_SIZE <? size then lz_span_alloc tlh size
  else
    let sc_idx := lz_size_to_class size in
    '(ptr, allocated_size) ← tlh_alloc_fast tlh sc_idx;
    '(ptr, allocated_size) ← (if ptr =? NULL then
        ptr ← lz_tlh_alloc_slow tlh sc_idx;
        if ptr =? NULL then mret (NULL, 0)
        else
          bin ← bin_at tlh sc_idx;
          sl ← slab_at (current_slab bin);
          mret (ptr, block_size sl)
      else mret (ptr, allocated_size));
    if ptr =? NULL then mret NULL
    else
      update_tlh tlh (fun t => set_bytes_allocated (u64 (bytes_allocated t + allocated_size)) t);;
      count_alloc tlh allocated_size;;
      mret ptr.

(** ** Release *)

(** Add a block of another heap to the outgoing batch. *)
Definition batch_remote (tlh owner node : Z) : M unit :=
  store64 node NULL;;
  t ← tlh_at tlh;
  let batch := outgoing_batch t in
  (if negb (target_tlh batch =? owner) || (LZ_BATCH_MAX_SIZE <=? batch_count batch) then
     lz_tlh_flush_outgoing_batch tlh;;
     update_tlh tlh (fun t => set_outgoing_batch (set_target_tlh owner (outgoing_batch t)) t)
   else mret tt);;
  t ← tlh_at tlh;
  let batch := outgoing_batch t in
  store64 node (batch_head batch);;
  update_tlh tlh (fun t => set_outgoing_batch
    (mk_batch (target_tlh batch) node
      (if batch_count batch =? 0 then node else batch_tail batch)
      (u32 (batch_count batch + 1))) t).

(** Release into the chunk found for [ptr]: local or remote. *)
Definition tlh_free_in (tlh chunk ptr : Z) : M unit :=
  c ← chunk_at chunk;
  if owning_tlh c =? tlh then
    if chunk_type c =? LZ_CHUNK_TYPE_SLAB
    then free_to_slab tlh (chunk + LZ_CACHE_LINE_SIZE) ptr
    else if chunk_type c =? LZ_CHUNK_TYPE_SPAN
    then lz_span_free_local tlh chunk ptr
    else mret tt
  else batch_remote tlh (owning_tlh c) ptr.

Definition lz_tlh_free (tlh ptr : Z) : M unit :=
  if ptr =? NULL then mret tt
  else
    let chunk := ptr .& chunk_mask in
    c ← chunk_at chunk;
    if negb (magic c =? LZ_CHUNK_MAGIC_V2) then
      chunk ← lz_rtree_get ptr;
      if chunk =? NULL then mret tt else tlh_free_in tlh chunk ptr
    else tlh_free_in tlh chunk ptr.

End tlh.
