(* ===== verification/SlabSpec.v ===== *)
(** * What a slab promises

    The representation invariant of one slab: the blocks between the metadata
    line and the end of the chunk, the obfuscated free list threaded through
    the free blocks, and the counters.  Popping, pushing and bump allocation
    are shown to change exactly one block of it, creation to deliver an empty
    slab in an owned, registered chunk and destruction to give the chunk
    back. *)

From S2P Require Import Prelude Common Sizes Machine Wp Dll Testbed Security Rtree Vmm VmmSpec.
From S2P Require Import Provision Telemetry Span SpanSpec Slab Tlh.

(** ** Chains of free blocks

    The first word of each node of [l] holds the next one, encoded by [enc]
    with the address it is stored at; the last one holds NULL. *)
Fixpoint node_chain (m : gmap Z Z) (enc : Z -> Z -> Z) (l : list Z) : Prop :=
  match l with
  | [] => True
  | a :: l => le_bytes m a 8 = enc (hd NULL l) a /\ node_chain m enc l
  end.

Lemma node_chain_ext m m' enc l :
  (forall a x, a ∈ l -> a <= x < a + 8 -> m' !! x = m !! x) ->
  node_chain m enc l -> node_chain m' enc l.
Proof.
  induction l as [|a l IH]; intros Hx; [done|].
  cbn [node_chain]. intros [Ha Hl]. split.
  - rewrite <- Ha. apply le_bytes_ext. intros x Hr. apply (Hx a); [set_solver|lia].
  - apply IH; [|done]. intros b x Hb. apply Hx. set_solver.
Qed.

(** Storing the encoded old head in [a] extends the chain. *)
Lemma node_chain_push m enc a l :
  0 <= enc (hd NULL l) a < 2 ^ 64 ->
  (forall b, b ∈ l -> a + 8 <= b \/ b + 8 <= a) -> node_chain m enc l ->
  node_chain (set_le_bytes m a (enc (hd NULL l) a) 8) enc (a :: l).
Proof.
  intros He Hd Hl. cbn [node_chain]. split; [by apply le_bytes_set_eq|].
  eapply node_chain_ext; [|exact Hl]. intros b x Hb Hx. apply set_le_bytes_ne.
  change (Z.of_nat 8) with 8. specialize (Hd b Hb). lia.
Qed.

(** ** One slab *)

(** The abstract content of a slab: its class, how many blocks were carved by
    the bump pointer, and the indices on the free list, first to pop first. *)
Record slab_ghost := mk_ghost {
  sg_class : Z;
  sg_n : Z;
  sg_free : list Z;
}.

Definition sg_size (g : slab_ghost) : Z := lz_class_to_size (sg_class g).
Definition sg_max (g : slab_ghost) : Z := (2 ^ 21 - 128) / sg_size g.

(** Address of block [k] of the slab at [p]. *)
Definition blk (p : Z) (g : slab_ghost) (k : Z) : Z := p + 64 + k * sg_size g.

(** Block [k] is handed out. *)
Definition live (g : slab_ghost) (k : Z) : Prop := 0 <= k < sg_n g /\ k ∉ sg_free g.

Definition with_free (F : list Z) (g : slab_ghost) : slab_ghost :=
  mk_ghost (sg_class g) (sg_n g) F.
Definition with_n (n : Z) (g : slab_ghost) : slab_ghost :=
  mk_ghost (sg_class g) n (sg_free g).

Record ghost_ok (g : slab_ghost) : Prop := {
  go_class : 0 <= sg_class g < 40;
  go_n : 0 <= sg_n g <= sg_max g;
  go_nodup : NoDup (sg_free g);
  go_free : forall k, k ∈ sg_free g -> 0 <= k < sg_n g
}.

(** The metadata that represents [g]. *)
Record slab_repr (p : Z) (g : slab_ghost) (sl : lz_slab_t) : Prop := {
  sr_base : memory_base sl = p + 64;
  sr_end : memory_end sl = p - 64 + 2 ^ 21;
  sr_bump : bump_ptr sl = blk p g (sg_n g) \/ bump_ptr sl = NULL /\ sg_n g = sg_max g;
  sr_head : free_list_head sl = hd NULL (blk p g <$> sg_free g);
  sr_class : size_class sl = sg_class g;
  sr_size : block_size sl = sg_size g;
  sr_max : max_objects sl = sg_max g;
  sr_used : used_objects sl = sg_n g - Z.of_nat (length (sg_free g))
}.

Record slab_ok (s : state) (tlh p : Z) (g : slab_ghost) : Prop := {
  sb_body : exists sl, body_of s p = BSlab sl /\ slab_repr p g sl;
  sb_chain : node_chain (h_bytes s) (lz_ptr_obfuscate (g_lz_global_secret s)) (blk p g <$> sg_free g);
  sb_ghost : ghost_ok g;
  sb_chunk : chunk_ok s (p - 64);
  sb_header : let c := chunk_of s (p - 64) in
    magic c = LZ_CHUNK_MAGIC_V2 /\ 0 <= node_id c < 16 /\ owning_tlh c = tlh /\
    chunk_type c = LZ_CHUNK_TYPE_SLAB /\ checksum c = lz_calc_checksum c
}.

(** ** Geometry *)

Lemma sg_size_bounds g : ghost_ok g -> 16 <= sg_size g <= 32768.
Proof.
  intros [Hc _ _ _]. unfold sg_size. split; [apply class_to_size_bounds; lia|].
  change 32768 with (lz_class_to_size 39). apply class_to_size_mono; lia.
Qed.

Lemma sg_max_bounds g : ghost_ok g -> 63 <= sg_max g < 2 ^ 17 /\
  sg_max g * sg_size g <= 2 ^ 21 - 128 < (sg_max g + 1) * sg_size g.
Proof.
  intros Hg. pose proof (sg_size_bounds g Hg). unfold sg_max.
  pose proof (Z.div_mod (2 ^ 21 - 128) (sg_size g) ltac:(lia)).
  pose proof (Z.mod_pos_bound (2 ^ 21 - 128) (sg_size g) ltac:(lia)).
  assert (63 <= (2 ^ 21 - 128) / sg_size g) by (apply Z.div_le_lower_bound; lia).
  assert ((2 ^ 21 - 128) / sg_size g < 2 ^ 17) by (apply Z.div_lt_upper_bound; lia).
  lia.
Qed.

(** A block lies between the metadata line and the end of the chunk. *)
Lemma blk_in p g k : ghost_ok g -> 0 <= k < sg_max g ->
  p + 64 <= blk p g k /\ blk p g k + sg_size g <= p - 64 + 2 ^ 21.
Proof.
  intros Hg Hk. pose proof (sg_size_bounds g Hg). destruct (sg_max_bounds g Hg) as [_ [Hm _]].
  unfold blk. nia.
Qed.

Lemma blk_apart p g k k' : ghost_ok g -> k < k' -> blk p g k + sg_size g <= blk p g k'.
Proof. intros Hg Hk. pose proof (sg_size_bounds g Hg). unfold blk. nia. Qed.

Lemma blk_inj p g k k' : ghost_ok g -> blk p g k = blk p g k' -> k = k'.
Proof. intros Hg E. pose proof (sg_size_bounds g Hg). unfold blk in E. nia. Qed.


(** At most one list entry per carved block. *)
Lemma free_length g F : NoDup F -> (forall k, k ∈ F -> 0 <= k < sg_n g) -> 0 <= sg_n g ->
  Z.of_nat (length F) <= sg_n g.
Proof.
  intros Hnd HF Hn. assert (F ⊆+ seqZ 0 (sg_n g)) as Hs.
  { apply NoDup_submseteq; [done|]. intros k Hk. apply elem_of_seqZ. specialize (HF k Hk). lia. }
  apply submseteq_length in Hs. rewrite length_seqZ in Hs. lia.
Qed.

Lemma ghost_used g : ghost_ok g -> Z.of_nat (length (sg_free g)) <= sg_n g.
Proof. intros [_ ? ? ?]. apply free_length; auto with lia. Qed.

Lemma live_used g k : ghost_ok g -> live g k -> Z.of_nat (length (sg_free g)) < sg_n g.
Proof.
  intros [_ ? ? Hf] [Hk Hn].
  pose proof (free_length g (k :: sg_free g)) as Hl. cbn [length] in Hl.
  assert (Z.of_nat (S (length (sg_free g))) <= sg_n g); [|lia]. apply Hl; [by constructor| |lia].
  intros j [->|Hj]%elem_of_cons; [done|auto].
Qed.

(** With nothing handed out every carved block is on the free list, and
    conversely. *)
Lemma no_live_iff g : ghost_ok g ->
  sg_n g = Z.of_nat (length (sg_free g)) <-> forall k, ~ live g k.
Proof.
  intros Hg. split.
  - intros E k Hk%live_used; [lia|done].
  - intros Hno. destruct (Hg) as [_ Hn Hnd Hf]. pose proof (ghost_used g Hg).
    assert (seqZ 0 (sg_n g) ⊆+ sg_free g) as Hs.
    { apply NoDup_submseteq; [apply NoDup_seqZ|]. intros k Hk%elem_of_seqZ.
      destruct (decide (k ∈ sg_free g)); [done|]. exfalso. apply (Hno k). by split; [lia|]. }
    apply submseteq_length in Hs. rewrite length_seqZ in Hs. lia.
Qed.

Lemma slab_ok_mapped s tlh p g x :
  slab_ok s tlh p g -> p - 64 <= x < p - 64 + 2 ^ 21 -> mapped s x = true.
Proof. intros [_ _ _ (_ & _ & _ & Hm) _]. apply Hm. Qed.

Lemma slab_ok_range s tlh p g : slab_ok s tlh p g -> 64 < p /\ p - 64 + 2 ^ 21 <= 2 ^ 47.
Proof. intros [_ _ _ (_ & ? & ? & _) _]. lia. Qed.

(** ** Frames *)

(** Metadata without the list words. *)
Definition unlinked (b : chunk_body) : chunk_body :=
  match b with BSlab sl => BSlab (set_slab_next NULL (set_slab_prev NULL sl)) | b => b end.

Lemma unlinked_slab b sl : unlinked b = unlinked (BSlab sl) ->
  exists next prev, b = BSlab (set_slab_next next (set_slab_prev prev sl)).
Proof.
  destruct b as [|sl'| |]; try done. cbn. intros E. exists (slab_next sl'), (slab_prev sl').
  destruct sl, sl'. cbn in *. by simplify_eq.
Qed.

(** A slab only depends on its chunk: header, metadata up to the list words,
    and payload bytes. *)
Lemma slab_ok_at s s' tlh p g :
  slab_ok s tlh p g -> chunk_ok s' (p - 64) ->
  unlinked (body_of s' p) = unlinked (body_of s p) ->
  chunk_of s' (p - 64) = chunk_of s (p - 64) ->
  (forall x, p + 64 <= x < p - 64 + 2 ^ 21 -> h_bytes s' !! x = h_bytes s !! x) ->
  g_lz_global_secret s' = g_lz_global_secret s -> slab_ok s' tlh p g.
Proof.
  intros [(sl & Hb & [? ? ? ? ? ? ? ?]) Hch Hg Hc Hh] Hm Eb Ec Ey Es. constructor.
  - rewrite Hb in Eb. apply unlinked_slab in Eb as (next & prev & ->).
    eexists. split; [done|]. by constructor.
  - rewrite Es. eapply node_chain_ext; [|exact Hch]. intros a x Ha Hx. apply Ey.
    apply list_elem_of_fmap in Ha as (k & -> & Hk). pose proof (go_free _ Hg k Hk).
    pose proof (go_n _ Hg). pose proof (sg_size_bounds g Hg).
    destruct (blk_in p g k Hg); lia.
  - done.
  - done.
  - cbv zeta. by rewrite Ec.
Qed.

Lemma slab_ok_frame s s' tlh p g :
  slab_ok s tlh p g ->
  (forall x, mapped s x = true -> mapped s' x = true) ->
  unlinked (body_of s' p) = unlinked (body_of s p) ->
  chunk_of s' (p - 64) = chunk_of s (p - 64) ->
  (forall x, p + 64 <= x < p - 64 + 2 ^ 21 -> h_bytes s' !! x = h_bytes s !! x) ->
  g_lz_global_secret s' = g_lz_global_secret s -> slab_ok s' tlh p g.
Proof.
  intros Hok Hm. eapply slab_ok_at; [exact Hok|]. eapply chunk_ok_mono; [exact Hm|apply Hok].
Qed.

(** ** Operations on one slab

    Only the metadata of the slab, and for a push the first word of the block,
    change. *)
Definition only_slab (p : Z) (s s' : state) : Prop :=
  s' = set_h_bodies (h_bodies s') s /\ links s' p = links s p /\
  (forall q, q <> p -> body_of s' q = body_of s q).

Lemma wp_pop_free_list tlh p g k F Q s :
  slab_ok s tlh p g -> sg_free g = k :: F ->
  (forall s', only_slab p s s' -> slab_ok s' tlh p (with_free F g) -> Q (blk p g k) s') ->
  wp (pop_free_list p) Q s.
Proof.
  intros Hok EF HQ. pose proof (slab_ok_range _ _ _ _ Hok) as Hp.
  pose proof (slab_ok_mapped _ _ _ _ p Hok ltac:(lia)) as Hm.
  destruct (Hok) as [(sl & Hb & Hr) Hch Hg Hc Hh]. destruct (Hr) as [? ? Hbump Hhd ? ? ? Hus].
  destruct (Hg) as [? Hn Hnd Hf]. rewrite EF in Hch, Hhd, Hus, Hnd, Hf.
  cbn [fmap list_fmap node_chain hd length] in *. destruct Hch as [Hw Hch].
  destruct (blk_in p g k Hg) as [Hlo Hhi]; [specialize (Hf k ltac:(set_solver)); lia|].
  pose proof (sg_size_bounds g Hg). destruct (sg_max_bounds g Hg) as [Hmax _].
  unfold pop_free_list. wp_step. eapply wp_slab_at; [done..|]. rewrite Hhd.
  wp_step. apply wp_load64; [eapply slab_ok_mapped; [exact Hok|lia]..|]. rewrite Hw.
  do 2 wp_step. wp_step. eapply wp_update_slab; [done..|].
  wp_step. eapply wp_update_slab; [done|by rewrite body_of_insert, decide_True|]. wp_step.
  rewrite obfuscate_involutive. apply NoDup_cons in Hnd as [Hk Hnd].
  assert (Z.of_nat (length (k :: F)) <= sg_n g) as Hl by (rewrite <- EF; by apply ghost_used).
  cbn [length] in Hl. apply HQ.
  - split_and!; [by cbn| |].
    + unfold links. rewrite body_of_insert, decide_True by done. by rewrite Hb.
    + intros q Hq. by rewrite !body_of_insert, !decide_False by done.
  - constructor.
    + eexists. split; [by rewrite body_of_insert, decide_True|].
      constructor; cbn; try done. rewrite u32_small by lia. lia.
    + exact Hch.
    + constructor; [done|done|done|]. intros j Hj. apply Hf. set_solver.
    + exact Hc.
    + exact Hh.
Qed.

(** The first half of a free: [blk p g k] becomes the head of the free list. *)
Lemma wp_push_free_list {A} tlh p g k (m : M A) Q s :
  slab_ok s tlh p g -> live g k -> 0 <= g_lz_global_secret s < 2 ^ 64 ->
  (forall s', s' = set_h_bodies (h_bodies s') (set_h_bytes (h_bytes s') s) ->
     links s' p = links s p -> (forall q, q <> p -> body_of s' q = body_of s q) ->
     (forall x, ~ (blk p g k <= x < blk p g k + 8) -> h_bytes s' !! x = h_bytes s !! x) ->
     slab_ok s' tlh p (with_free (k :: sg_free g) g) -> wp m Q s') ->
  wp (sl ← slab_at p;
      secret ← fetch g_lz_global_secret;
      store64 (blk p g k) (lz_ptr_obfuscate secret (free_list_head sl) (blk p g k));;
      update_slab p (set_free_list_head (blk p g k));;
      update_slab p (fun sl => set_used_objects (u32 (used_objects sl - 1)) sl);;
      m) Q s.
Proof.
  intros Hok Hk Hsec HQ. pose proof (slab_ok_range _ _ _ _ Hok) as Hp.
  pose proof (slab_ok_mapped _ _ _ _ p Hok ltac:(lia)) as Hm.
  destruct (Hok) as [(sl & Hb & Hr) Hch Hg Hc Hh]. destruct (Hr) as [? ? Hbump Hhd ? ? ? Hus].
  destruct (Hg) as [? Hn Hnd Hf]. pose proof (live_used g k Hg Hk) as Hlu.
  destruct (Hk) as [Hkr Hkf]. destruct (blk_in p g k Hg) as [Hlo Hhi]; [lia|].
  pose proof (sg_size_bounds g Hg). destruct (sg_max_bounds g Hg) as [Hmax _].
  assert (forall b, b ∈ blk p g <$> sg_free g -> 0 <= b < 2 ^ 64 /\
    (blk p g k + 8 <= b \/ b + 8 <= blk p g k)) as Hfb.
  { intros b (j & -> & Hj)%list_elem_of_fmap. specialize (Hf j Hj).
    destruct (blk_in p g j Hg); [lia|]. split; [lia|].
    destruct (Z.lt_total k j) as [Hlt|[->|Hlt]]; [|done|];
      pose proof (blk_apart p g _ _ Hg Hlt); lia. }
  wp_step. eapply wp_slab_at; [done..|]. do 2 wp_step. wp_step.
  apply wp_store64; [eapply slab_ok_mapped; [exact Hok|lia]..|].
  wp_step. eapply wp_update_slab; [done..|].
  wp_step. eapply wp_update_slab; [done|by rewrite body_of_insert, decide_True|].
  rewrite Hhd. apply HQ.
  - done.
  - unfold links. rewrite body_of_insert, decide_True by done. by rewrite Hb.
  - intros q Hq. by rewrite !body_of_insert, !decide_False by done.
  - intros x Hx. cbn [h_bytes set_h_bodies set_h_bytes]. apply set_le_bytes_ne.
    change (Z.of_nat 8) with 8. lia.
  - constructor.
    + eexists. split; [by rewrite body_of_insert, decide_True|].
      constructor; cbn [with_free sg_n sg_free sg_class length]; try done.
      cbn [used_objects set_used_objects set_free_list_head]. rewrite Hus, u32_small; lia.
    + change (blk p (with_free (k :: sg_free g) g)) with (blk p g).
      cbn [with_free sg_free fmap list_fmap]. apply node_chain_push; [|by apply Hfb|exact Hch].
      apply obfuscate_range; [done| |lia].
      destruct (blk p g <$> sg_free g) as [|b l]; [cbn; lia|]. apply Hfb. set_solver.
    + constructor; [done|done|by constructor|].
      intros j [->|Hj]%elem_of_cons; [done|]. by apply Hf.
    + exact Hc.
    + exact Hh.
Qed.

(** Carving the next block off the bump pointer. *)
Lemma wp_carve {A} tlh p g (r : A) Q s :
  slab_ok s tlh p g -> sg_n g < sg_max g ->
  (forall s', only_slab p s s' -> slab_ok s' tlh p (with_n (sg_n g + 1) g) -> Q r s') ->
  wp (update_slab p (set_bump_ptr (blk p g (sg_n g + 1)));;
      update_slab p (fun sl => set_used_objects (u32 (used_objects sl + 1)) sl);;
      mret r) Q s.
Proof.
  intros Hok Hlt HQ. pose proof (slab_ok_range _ _ _ _ Hok) as Hp.
  pose proof (slab_ok_mapped _ _ _ _ p Hok ltac:(lia)) as Hm.
  destruct (Hok) as [(sl & Hb & Hr) Hch Hg Hc Hh]. destruct (Hr) as [? ? Hbump Hhd ? ? ? Hus].
  destruct (Hg) as [? Hn Hnd Hf]. destruct (sg_max_bounds g Hg) as [Hmax _].
  pose proof (ghost_used g Hg).
  wp_step. eapply wp_update_slab; [done..|].
  wp_step. eapply wp_update_slab; [done|by rewrite body_of_insert, decide_True|]. wp_step. apply HQ.
  - split_and!; [by cbn| |].
    + unfold links. rewrite body_of_insert, decide_True by done. by rewrite Hb.
    + intros q Hq. by rewrite !body_of_insert, !decide_False by done.
  - constructor.
    + eexists. split; [by rewrite body_of_insert, decide_True|].
      constructor; cbn [with_n sg_n sg_free sg_class]; try done; [by left|].
      cbn [used_objects set_used_objects set_bump_ptr]. rewrite Hus, u32_small; lia.
    + exact Hch.
    + constructor; [done|change (0 <= sg_n g + 1 <= sg_max g); lia|done|].
      intros j Hj. cbn [with_n sg_n]. specialize (Hf j Hj). lia.
    + exact Hc.
    + exact Hh.
Qed.

Lemma wp_bump_alloc tlh p g Q s :
  slab_ok s tlh p g ->
  (sg_n g < sg_max g -> forall s', only_slab p s s' ->
     slab_ok s' tlh p (with_n (sg_n g + 1) g) -> Q (blk p g (sg_n g), sg_size g) s') ->
  (sg_n g = sg_max g -> forall s', only_slab p s s' -> slab_ok s' tlh p g -> Q (NULL, 0) s') ->
  wp (bump_alloc p) Q s.
Proof.
  intros Hok HQ Hno. pose proof (slab_ok_range _ _ _ _ Hok) as Hp.
  pose proof (slab_ok_mapped _ _ _ _ p Hok ltac:(lia)) as Hm.
  destruct (Hok) as [(sl & Hb & Hr) Hch Hg Hc Hh]. destruct (Hr) as [? Hend Hbump Hhd ? Hsz ? Hus].
  destruct (Hg) as [? Hn Hnd Hf]. destruct (sg_max_bounds g Hg) as [Hmax Hfit].
  pose proof (sg_size_bounds g Hg).
  unfold bump_alloc. zfalse (p =? NULL). wp_step. eapply wp_slab_at; [done..|].
  destruct (Z.eqb_spec (bump_ptr sl) NULL) as [E|E].
  { wp_step. destruct Hbump as [Hbump|[_ Hfull]]; [exfalso; unfold blk in Hbump; nia|].
    apply Hno; [done| |done]. split_and!; [by destruct s|done|done]. }
  destruct Hbump as [Hbump|[? _]]; [|done]. rewrite Hbump, Hsz, Hend.
  assert (blk p g (sg_n g) + sg_size g = blk p g (sg_n g + 1)) as En by (unfold blk; lia).
  rewrite En, u64_small by (unfold blk; nia).
  destruct (Z.leb_spec (blk p g (sg_n g + 1)) (p - 64 + 2 ^ 21)) as [Hle|Hgt].
  - assert (sg_n g < sg_max g) by (unfold blk in Hle; nia). eapply wp_carve; [exact Hok|done|]. auto.
  - assert (sg_n g = sg_max g) as Hfull by (unfold blk in Hgt; nia).
    wp_step. eapply wp_update_slab; [done..|]. wp_step. apply Hno; [done|..].
    + split_and!; [by cbn| |].
      * unfold links. rewrite body_of_insert, decide_True by done. by rewrite Hb.
      * intros q Hq. by rewrite !body_of_insert, !decide_False by done.
    + constructor; [|exact Hch|done|exact Hc|exact Hh].
      eexists. split; [by rewrite body_of_insert, decide_True|]. constructor; try done. by right.
Qed.

(** ** Creation and destruction *)

Definition fresh_ghost (class_idx : Z) : slab_ghost := mk_ghost class_idx 0 [].

Lemma fresh_ghost_ok i : 0 <= i < 40 -> ghost_ok (fresh_ghost i).
Proof.
  intros Hi. constructor; cbn [fresh_ghost sg_class sg_n sg_free]; [done| |constructor|].
  - split; [done|]. unfold sg_max. apply Z.div_pos; [lia|]. unfold sg_size. cbn [sg_class fresh_ghost].
    pose proof (class_to_size_bounds i ltac:(lia)). lia.
  - intros k Hk. by apply not_elem_of_nil in Hk.
Qed.

Section slab_rules.
Context `{EnvLaws}.

(** A slab of class [i] was formatted in chunk [c]. *)
Record slab_created (s : state) (tlh c i : Z) (G : list Z) (P : list (list Z))
    (s' : state) (G' : list Z) (P' : list (list Z)) : Prop := {
  sc_slab : slab_ok s' tlh (c + 64) (fresh_ghost i);
  sc_vmm : vmm_inv s' G' P';
  sc_rtree : rtree_inv s';
  sc_new : c ∉ G' ++ concat P';
  sc_frame : mem_frame (fun a => a = c) (fun a => a = c + 64) nowhere s s';
  sc_thread : thread_part s' = thread_part s;
  sc_view : forall b, b <> block_of c -> rtree_view s' b = rtree_view s b;
  sc_out : forall d, mapped s d = true -> d <> NULL -> d ∉ G ++ concat P ->
    d ∉ G' ++ concat P' /\ d <> c;
  sc_index : registers s' c
}.

Lemma wp_slab_create tlh i G P Q s :
  vmm_inv s G P -> rtree_inv s -> 0 <= i < 40 ->
  (forall s' G' P', vmm_inv s' G' P' -> rtree_inv s' -> rtree_part s' = rtree_part s ->
     thread_part s' = thread_part s -> mem_frame (fun a => a = NULL) nowhere nowhere s s' ->
     (forall d, mapped s d = true -> d <> NULL -> d ∉ G ++ concat P -> d ∉ G' ++ concat P') ->
     refused_since s s' -> Q NULL s') ->
  (forall c s' G' P', 0 < c -> slab_created s tlh c i G P s' G' P' -> Q (c + 64) s') ->
  wp (lz_slab_create tlh i) Q s.
Proof.
  intros Hv Hr Hi Hno HQ. unfold lz_slab_create. apply wp_format_then. wp_step.
  eapply wp_format_chunk; [exact Hv|exact Hr|..].
  { intros s' G' P' ? ? ? ? ? ? ?. cbn [Z.eqb]. wp_step. by eapply Hno. }
  intros c s1 G' P' Hc [Fv Fr [Fok Fn] Fh Ff Ft Fw Fo Fi]. zfalse (c =? NULL).
  destruct (Fok) as (Hal & Hpos & Hlim & Hmap). unfold LZ_CACHE_LINE_SIZE, sizeof_slab. cbv zeta.
  pose proof (fresh_ghost_ok i Hi) as Hg. pose proof (sg_size_bounds _ Hg) as Hsz.
  destruct (sg_max_bounds _ Hg) as [Hmax _]. unfold sg_max in Hmax.
  change (sg_size (fresh_ghost i)) with (lz_class_to_size i) in *.
  assert (LZ_ALIGN_UP (c + 64 + 64) 64 = c + 64 + 64) as ->.
  { apply (LZ_ALIGN_UP_id (c + 64 + 64) 6); dlia. }
  unfold LZ_HUGE_PAGE_SIZE.
  replace (c + 2097152 - (c + 64 + 64)) with (2 ^ 21 - 128) by lia.
  rewrite (u32_small (lz_class_to_size i)), (u32_small i), (u32_small (_ / _)) by lia.
  wp_step. apply wp_store_body; [apply Hmap; lia|]. wp_step. eapply HQ; [done|]. constructor.
  - constructor.
    + eexists. split; [by rewrite body_of_insert, decide_True|].
      constructor; cbn; try done; unfold blk; cbn; lia.
    + done.
    + done.
    + replace (c + 64 - 64) with c by lia. exact Fok.
    + replace (c + 64 - 64) with c by lia. exact Fh.
  - by eapply vmm_inv_frame.
  - by eapply rtree_inv_ext.
  - done.
  - destruct Ff as [M1 C1 B1 D1 L1]. constructor; [exact M1|intros a Ha Hn..|by eapply (only_grows_trans s s1)].
    + by apply C1.
    + rewrite body_of_insert, decide_False by congruence. by apply B1.
    + by apply D1.
  - exact Ft.
  - intros b Hb. rewrite <- Fw by done. by apply rtree_view_eq.
  - exact Fo.
  - exact Fi.
Qed.

Lemma wp_slab_destroy tlh p g G P Q s :
  vmm_inv s G P -> rtree_inv s -> slab_ok s tlh p g -> p - 64 ∉ G ++ concat P ->
  (forall s' G' P', released s (p - 64) G P s' G' P' -> Q tt s') ->
  wp (lz_slab_destroy p) Q s.
Proof.
  intros Hv Hr Hok Hnin HQ. destruct (slab_ok_range _ _ _ _ Hok).
  destruct (sb_header _ _ _ _ Hok) as (Hmg & Hnd & _ & _ & Hck).
  pose proof (sb_chunk _ _ _ _ Hok) as Hc. pose proof (proj1 Hc).
  unfold lz_slab_destroy. rewrite (chunk_mask_in (p - 64)) by (done || lia).
  wp_step. apply wp_chunk_at; [by apply chunk_ok_self|].
  rewrite Hck, Z.eqb_refl. cbn [negb]. eapply wp_release_chunk; done.
Qed.

End slab_rules.
