(* ===== verification/BinSpec.v ===== *)
(** * The slab lists of a bin

    The pointer surgery of tlh.c on the partial and full lists of one bin.
    A run that only rewrites list words and one bin is described by the words
    it leaves ([relinked]); the rules execute the code on that description,
    and the lemmas at the end give the effect of rescue, promotion, retirement
    and unlinking on the two lists. *)

From S2P Require Import Prelude Common Machine Wp Dll Security Vmm Span Slab Tlh SlabSpec.

Definition has_slab (s : state) (p : Z) : Prop :=
  mapped s p = true /\ exists sl, body_of s p = BSlab sl.

(** [s] is [s0] with the list words of slabs in [X] and bin [i] of heap [tlh]
    rewritten: the words are now [lk] and the bin is [b]. *)
Record relinked (s0 : state) (tlh i : Z) (X : Z -> Prop) (s : state)
    (lk : Z -> option (Z * Z)) (b : lz_bin_t) : Prop := {
  rl_state : s = set_h_tlhs (h_tlhs s) (set_h_bodies (h_bodies s) s0);
  rl_tlh : exists t, h_tlhs s0 !! tlh = Some t /\ (Z.to_nat i < length (bins t))%nat /\
    h_tlhs s = <[tlh := set_bins (<[Z.to_nat i := b]> (bins t)) t]> (h_tlhs s0);
  rl_core : forall q, unlinked (body_of s q) = unlinked (body_of s0 q);
  rl_same : forall q, ~ X q -> body_of s q = body_of s0 q;
  rl_links : forall q, links s q = lk q
}.

(** The two lists of a bin. *)
Record lists (lk : Z -> option (Z * Z)) (b : lz_bin_t) (Pl Fl : list Z) : Prop := {
  li_partial : dll lk NULL (partial_list b) Pl;
  li_full : dll lk NULL (full_list b) Fl;
  li_nodup : NoDup (Pl ++ Fl)
}.

Lemma relinked_refl s tlh i X t b :
  h_tlhs s !! tlh = Some t -> bins t !! Z.to_nat i = Some b -> relinked s tlh i X s (links s) b.
Proof.
  intros Ht Hb. constructor; [by destruct s| |done..]. exists t. split_and!; [done|by eapply lookup_lt_Some|].
  rewrite list_insert_id by done. rewrite insert_id; [done|]. rewrite Ht. by destruct t.
Qed.

Lemma lists_ext lk lk' b Pl Fl :
  (forall q, q ∈ Pl ++ Fl -> lk' q = lk q) -> lists lk b Pl Fl -> lists lk' b Pl Fl.
Proof.
  intros Hl [H1 H2 H3]. constructor; [| |done]; (eapply dll_ext; [|done]); intros; apply Hl; set_solver.
Qed.

Section relinked_rules.
Context (s0 : state) (tlh i : Z) (X : Z -> Prop).

Notation rl := (relinked s0 tlh i X).

Lemma rl_slab s lk b p sl0 : rl s lk b -> body_of s0 p = BSlab sl0 ->
  exists next prev, lk p = Some (next, prev) /\
    body_of s p = BSlab (set_slab_next next (set_slab_prev prev sl0)).
Proof.
  intros Hr Hb. pose proof (rl_core _ _ _ _ _ _ _ Hr p) as E. rewrite Hb in E.
  apply unlinked_slab in E as (next & prev & E). exists next, prev.
  rewrite <- (rl_links _ _ _ _ _ _ _ Hr p). unfold links. rewrite E. done.
Qed.

Lemma rl_mapped s lk b p : rl s lk b -> mapped s p = mapped s0 p.
Proof. intros Hr. by rewrite (rl_state _ _ _ _ _ _ _ Hr). Qed.

Lemma wp_rl_slab p sl0 Q s lk b :
  rl s lk b -> mapped s0 p = true -> body_of s0 p = BSlab sl0 ->
  (forall next prev, lk p = Some (next, prev) ->
     Q (set_slab_next next (set_slab_prev prev sl0)) s) ->
  wp (slab_at p) Q s.
Proof.
  intros Hr Hm Hb HQ. destruct (rl_slab _ _ _ _ _ Hr Hb) as (next & prev & Hl & Hb').
  eapply wp_slab_at; [by rewrite (rl_mapped _ _ _ _ Hr)|exact Hb'|by apply HQ].
Qed.

Lemma wp_rl_bin Q s lk b : rl s lk b -> Q b s -> wp (bin_at tlh i) Q s.
Proof.
  intros Hr HQ. destruct (rl_tlh _ _ _ _ _ _ _ Hr) as (t & _ & Hlen & Et).
  unfold bin_at. wp_step. eapply wp_tlh_at; [rewrite Et; apply lookup_insert_eq|].
  cbn [bins set_bins]. rewrite list_lookup_insert_eq by done. by wp_step.
Qed.

Lemma wp_rl_update_bin f Q s lk b :
  rl s lk b -> (forall s', rl s' lk (f b) -> Q tt s') -> wp (update_bin tlh i f) Q s.
Proof.
  intros Hr HQ. unfold update_bin. wp_step. eapply wp_rl_bin; [exact Hr|].
  destruct Hr as [Es (t & Ht & Hlen & Et) Hc Hs Hl].
  eapply wp_update_tlh; [rewrite Et; apply lookup_insert_eq|]. apply HQ.
  constructor; [by rewrite Es| |done..].
  exists t. split_and!; [done..|]. cbn. rewrite Et, insert_insert_eq. f_equal.
  by rewrite list_insert_insert_eq.
Qed.

(** Writing one list word. *)
Lemma wp_rl_update p f lk' Q s lk b :
  rl s lk b -> has_slab s0 p -> X p ->
  (forall sl, unlinked (BSlab (f sl)) = unlinked (BSlab sl)) ->
  (forall sl, body_of s p = BSlab sl ->
     forall q, lk' q = if decide (p = q) then Some (slab_next (f sl), slab_prev (f sl)) else lk q) ->
  (forall s', rl s' lk' b -> Q tt s') -> wp (update_slab p f) Q s.
Proof.
  intros Hr [Hm [sl0 Hb]] HX Hf Hlk HQ. destruct (rl_slab _ _ _ _ _ Hr Hb) as (next & prev & Hl & Hb').
  eapply wp_update_slab; [by rewrite (rl_mapped _ _ _ _ Hr)|exact Hb'|]. apply HQ.
  destruct Hr as [Es Ht Hc Hs Hk]. constructor; [by rewrite Es|exact Ht|..].
  - intros q. rewrite body_of_insert. case_decide; [|apply Hc]. subst q. by rewrite Hf, <- Hc, Hb'.
  - intros q Hq. rewrite body_of_insert, decide_False; [by apply Hs|]. by intros <-.
  - intros q. unfold links. rewrite body_of_insert, (Hlk _ Hb'). case_decide; [done|apply Hk].
Qed.

Lemma wp_rl_next p v Q s lk b :
  rl s lk b -> has_slab s0 p -> X p ->
  (forall s', rl s' (lk_set_next p v lk) b -> Q tt s') -> wp (update_slab p (set_slab_next v)) Q s.
Proof.
  intros Hr Hp HX. eapply wp_rl_update; [exact Hr|done..|]. intros sl Hb q. unfold lk_set_next.
  case_decide; [|done]. subst q. rewrite <- (rl_links _ _ _ _ _ _ _ Hr p). unfold links. by rewrite Hb.
Qed.

Lemma wp_rl_prev p v Q s lk b :
  rl s lk b -> has_slab s0 p -> X p ->
  (forall s', rl s' (lk_set_prev p v lk) b -> Q tt s') -> wp (update_slab p (set_slab_prev v)) Q s.
Proof.
  intros Hr Hp HX. eapply wp_rl_update; [exact Hr|done..|]. intros sl Hb q. unfold lk_set_prev.
  case_decide; [|done]. subst q. rewrite <- (rl_links _ _ _ _ _ _ _ Hr p). unfold links. by rewrite Hb.
Qed.

(** [if (a) a->prev = v] *)
Lemma wp_rl_prev_if a v Q s lk b :
  rl s lk b -> (a <> NULL -> has_slab s0 a /\ X a) ->
  (forall s', rl s' (if a =? NULL then lk else lk_set_prev a v lk) b -> Q tt s') ->
  wp (if negb (a =? NULL) then update_slab a (set_slab_prev v) else mret tt) Q s.
Proof.
  intros Hr Ha HQ. destruct (Z.eqb_spec a NULL); cbn [negb]; [wp_step; by apply HQ|].
  eapply wp_rl_prev; [exact Hr|by apply Ha..|done].
Qed.

(** Unlinking [p], with a head update that turns the bin into [b']. *)
Lemma wp_unlink_slab p set_head next prev b' Q s lk b :
  rl s lk b -> has_slab s0 p -> lk p = Some (next, prev) -> prev <> p ->
  (forall q, q = prev \/ q = next -> q <> NULL -> has_slab s0 q /\ X q) ->
  (prev <> NULL -> b' = b) ->
  (forall Q', prev = NULL -> (forall s', rl s' lk b' -> Q' tt s') -> wp (set_head next) Q' s) ->
  (forall s', rl s' (lk_unlink next prev lk) b' -> Q tt s') -> wp (unlink_slab p set_head) Q s.
Proof.
  intros Hr [Hm [sl0 Hb]] Hp Hpp Hnb Hsame Hhead HQ. unfold unlink_slab.
  wp_step. eapply wp_rl_slab; [exact Hr|done..|]. intros n' p' E. rewrite Hp in E. injection E as <- <-.
  cbn [slab_prev slab_next set_slab_next set_slab_prev].
  assert (forall s1, rl s1 (if prev =? NULL then lk else lk_set_next prev next lk) b' ->
    wp (sl ← slab_at p; if negb (slab_next sl =? NULL)
        then update_slab (slab_next sl) (set_slab_prev (slab_prev sl)) else mret tt) Q s1) as Hrest.
  { intros s1 Hr1. wp_step. eapply wp_rl_slab; [exact Hr1|done..|]. intros n' p' E.
    assert ((if prev =? NULL then lk else lk_set_next prev next lk) p = Some (next, prev)) as E'.
    { destruct (prev =? NULL); [done|]. unfold lk_set_next. by rewrite decide_False. }
    rewrite E' in E. injection E as <- <-. cbn [slab_prev slab_next set_slab_next set_slab_prev].
    eapply wp_rl_prev_if; [exact Hr1|by apply Hnb; right|]. exact HQ. }
  wp_step. destruct (Z.eqb_spec prev NULL) as [E|E]; cbn [negb].
  - by apply Hhead.
  - eapply wp_rl_next; [exact Hr|apply Hnb; auto..|]. rewrite (Hsame E) in *. exact Hrest.
Qed.

(** Putting [p] in front of the list headed by [a]. *)
Lemma wp_rl_front {A} p a (k : M A) Q s lk b :
  rl s lk b -> has_slab s0 p -> X p -> (a <> NULL -> has_slab s0 a /\ X a) ->
  (forall s', rl s' (lk_front p a lk) b -> wp k Q s') ->
  wp (update_slab p (set_slab_next a);;
      update_slab p (set_slab_prev NULL);;
      (if negb (a =? NULL) then update_slab a (set_slab_prev p) else mret tt);;
      k) Q s.
Proof.
  intros Hr Hp HX Ha HQ. wp_step. eapply wp_rl_next; [exact Hr|done..|]. intros s1 Hr1.
  wp_step. eapply wp_rl_prev; [exact Hr1|done..|]. intros s2 Hr2.
  wp_step. eapply wp_rl_prev_if; [exact Hr2|done|]. exact HQ.
Qed.

(** ** The list operations *)

Context (HN : forall p, X p -> has_slab s0 p).

Lemma wp_rescue p sl0 Pl l1 l2 Q s lk b :
  rl s lk b -> lists lk b Pl (l1 ++ p :: l2) -> (forall q, q ∈ Pl ++ l1 ++ p :: l2 -> X q) ->
  body_of s0 p = BSlab sl0 -> size_class sl0 = i -> current_slab b <> p ->
  (forall s' lk' b', rl s' lk' b' -> lists lk' b' (p :: Pl) (l1 ++ l2) ->
     current_slab b' = current_slab b -> Q tt s') ->
  wp (lz_tlh_rescue_from_full tlh p) Q s.
Proof.
  intros Hr [Hdp Hdf Hnd] HX Hb Hi Hc HQ. assert (X p) as HXp by (apply HX; set_solver).
  destruct (HN p HXp) as [Hm _]. destruct (rl_slab _ _ _ _ _ Hr Hb) as (next & prev & Hl & _).
  apply NoDup_app in Hnd as (HndP & Hdis & HndF).
  destruct (dll_unlink _ _ _ _ _ _ _ HndF Hdf Hl) as (Hdf' & Hhd & Hnx & Hpv).
  assert (p <> NULL) as Hp0 by (eapply dll_nonnull; [exact Hdf|set_solver]).
  assert (p ∉ l1 ++ l2) as Hpl.
  { apply NoDup_app in HndF as (_ & Hd & [? _]%NoDup_cons). intros [Hx|Hx]%elem_of_app; [|done].
    apply (Hd _ Hx). set_solver. }
  assert (p ∉ Pl) as HpP by (intros Hx; apply (Hdis p Hx); set_solver).
  unfold lz_tlh_rescue_from_full. wp_step. eapply wp_rl_slab; [exact Hr|done..|]. intros n' p' _.
  cbn [size_class set_slab_next set_slab_prev]. rewrite Hi. wp_step. eapply wp_rl_bin; [exact Hr|].
  zfalse (p =? current_slab b). wp_step.
  eapply (wp_unlink_slab p _ next prev (if prev =? NULL then set_full_list next b else b)); [exact Hr|by apply HN|exact Hl|..].
  { intros ->. apply Hpl. set_solver. }
  { intros q [->| ->] Hq; (split; [apply HN|]); apply HX; set_solver. }
  { intros Hn. by zfalse (prev =? NULL). }
  { intros Q' -> HQ'. eapply wp_rl_update_bin; [exact Hr|done]. }
  intros s1 Hr1. wp_step. eapply wp_rl_bin; [exact Hr1|].
  assert (partial_list (if prev =? NULL then set_full_list next b else b) = partial_list b) as Ep
    by (by destruct (prev =? NULL)).
  rewrite Ep. assert (partial_list b <> NULL -> partial_list b ∈ Pl) as Hph
    by (intros ?; apply dll_head in Hdp as [? ->]; set_solver).
  eapply wp_rl_front; [exact Hr1|by apply HN|done| |].
  { intros Hn. split; [apply HN|]; apply HX; set_solver. }
  intros s2 Hr2. eapply wp_rl_update_bin; [exact Hr2|]. intros s3 Hr3.
  eapply HQ; [exact Hr3| |cbn; by destruct (prev =? NULL)].
  assert (forall q, q ∈ Pl -> lk_unlink next prev lk q = lk q) as HuP.
  { intros q Hq. apply lk_unlink_ne; intros Hn ->; apply (Hdis _ Hq); set_solver. }
  constructor.
  - cbn. apply dll_front; [done|done|done| |by eapply dll_ext].
    rewrite lk_unlink_ne, Hl; [done|..]; intros Hn ->; apply Hpl; set_solver.
  - cbn. replace (full_list (if prev =? NULL then set_full_list next b else b))
      with (if prev =? NULL then next else full_list b) by (by destruct (prev =? NULL)).
    eapply dll_ext; [|exact Hdf']. intros q Hq. apply lk_front_ne; [by intros ->|].
    intros Hn ->. apply (Hdis (partial_list b)); set_solver.
  - cbn. apply NoDup_cons. split; [set_solver|]. apply NoDup_app. split_and!; [done| |].
    + intros q Hq Hq'. apply (Hdis q Hq). set_solver.
    + apply NoDup_app in HndF as (H1 & H2 & [_ H3]%NoDup_cons). apply NoDup_app.
      split_and!; [done| |done]. intros q Hq1 Hq2. apply (H2 q Hq1). set_solver.
Qed.

Lemma wp_promote p sl0 Pl Fl Q s lk b :
  rl s lk b -> lists lk b (p :: Pl) Fl -> (forall q, q ∈ (p :: Pl) ++ Fl -> X q) ->
  body_of s0 p = BSlab sl0 ->
  (forall s' lk' b', rl s' lk' b' -> lists lk' b' Pl Fl -> current_slab b' = p -> Q tt s') ->
  wp (promote_partial tlh i) Q s.
Proof.
  intros Hr [Hdp Hdf Hnd] HX Hb HQ. assert (X p) as HXp by (apply HX; set_solver).
  destruct (HN p HXp) as [Hm _]. destruct (rl_slab _ _ _ _ _ Hr Hb) as (next & prev & Hl & _).
  assert (partial_list b = p) as Ep by apply Hdp. rewrite Ep in Hdp.
  assert (prev = NULL) as ->.
  { destruct Hdp as (_ & _ & ? & E & _). rewrite Hl in E. by injection E. }
  apply NoDup_app in Hnd as (HndP & Hdis & HndF).
  pose proof (dll_unlink_head _ _ _ _ HndP Hdp Hl) as Hdp'.
  apply NoDup_cons in HndP as [HpP HndP].
  assert (next <> NULL -> next ∈ Pl) as Hnx by (intros ?; apply dll_head in Hdp' as [? ->]; set_solver).
  unfold promote_partial. wp_step. eapply wp_rl_bin; [exact Hr|]. rewrite Ep.
  wp_step. eapply wp_rl_update_bin; [exact Hr|]. intros s1 Hr1.
  wp_step. eapply wp_rl_slab; [exact Hr1|done..|]. intros n' p' E. rewrite Hl in E. injection E as <- <-.
  cbn [slab_next set_slab_next]. wp_step. eapply wp_rl_update_bin; [exact Hr1|]. intros s2 Hr2.
  wp_step. eapply wp_rl_prev_if; [exact Hr2| |].
  { intros Hn. split; [apply HN|]; apply HX; set_solver. }
  intros s3 Hr3. wp_step. eapply wp_rl_next; [exact Hr3|by apply HN|done|]. intros s4 Hr4.
  eapply wp_rl_prev; [exact Hr4|by apply HN|done|]. intros s5 Hr5.
  eapply HQ; [exact Hr5| |done].
  assert (forall q, q <> p -> lk_set_prev p NULL (lk_set_next p NULL (if next =? NULL then lk
    else lk_set_prev next NULL lk)) q = lk_unlink next NULL lk q) as E.
  { intros q Hq. unfold lk_unlink. unfold lk_set_prev at 1, lk_set_next. by rewrite !decide_False. }
  constructor.
  - cbn. eapply dll_ext; [|exact Hdp']. intros q Hq. apply E. by intros ->.
  - cbn. eapply dll_ext; [|exact Hdf]. intros q Hq. rewrite E.
    + apply lk_unlink_ne; [|done]. intros Hn ->. apply (Hdis next); set_solver.
    + intros ->. apply (Hdis p); set_solver.
  - apply NoDup_app. split_and!; [done| |done]. intros q Hq. apply Hdis. set_solver.
Qed.

Lemma wp_retire p Pl Fl Q s lk b :
  rl s lk b -> lists lk b Pl Fl -> (forall q, q ∈ p :: Pl ++ Fl -> X q) -> p <> NULL -> p ∉ Pl ++ Fl ->
  (forall s' lk' b', rl s' lk' b' -> lists lk' b' Pl (p :: Fl) -> partial_list b' = partial_list b ->
     Q tt s') ->
  wp (retire_current tlh i p) Q s.
Proof.
  intros Hr [Hdp Hdf Hnd] HX Hp0 Hp HQ. assert (X p) as HXp by (apply HX; set_solver).
  destruct (HN p HXp) as [Hm [sl0 Hb]]. destruct (rl_slab _ _ _ _ _ Hr Hb) as (next & prev & Hl & _).
  apply NoDup_app in Hnd as (HndP & Hdis & HndF).
  assert (full_list b <> NULL -> full_list b ∈ Fl) as Hfh
    by (intros ?; apply dll_head in Hdf as [? ->]; set_solver).
  unfold retire_current. zfalse (p =? NULL). cbn [negb].
  wp_step. eapply wp_rl_bin; [exact Hr|]. eapply wp_rl_front; [exact Hr|by apply HN|done| |].
  { intros Hn. split; [apply HN|]; apply HX; set_solver. }
  intros s2 Hr2. eapply wp_rl_update_bin; [exact Hr2|]. intros s3 Hr3. eapply HQ; [exact Hr3| |done].
  constructor; cbn.
  - eapply dll_ext; [|exact Hdp]. intros q Hq. apply lk_front_ne; [set_solver|].
    intros Hn ->. apply (Hdis _ Hq). auto.
  - apply dll_front; [done|set_solver|done|by rewrite Hl|done].
  - apply NoDup_app. split_and!; [done| |apply NoDup_cons; split; [set_solver|done]].
    intros q Hq [->|Hq']%elem_of_cons; [set_solver|]. by apply (Hdis q).
Qed.

(** An empty partial slab leaves its list; the head update tests which list
    the slab heads. *)
Lemma wp_unlink_partial p l1 l2 Fl Q s lk b :
  rl s lk b -> lists lk b (l1 ++ p :: l2) Fl -> (forall q, q ∈ (l1 ++ p :: l2) ++ Fl -> X q) ->
  (forall s' lk' b', rl s' lk' b' -> lists lk' b' (l1 ++ l2) Fl ->
     current_slab b' = current_slab b -> Q tt s') ->
  wp (unlink_slab p (fun next =>
    if partial_list b =? p then update_bin tlh i (set_partial_list next)
    else if full_list b =? p then update_bin tlh i (set_full_list next) else mret tt)) Q s.
Proof.
  intros Hr [Hdp Hdf Hnd] HX HQ. assert (X p) as HXp by (apply HX; set_solver).
  destruct (HN p HXp) as [Hm [sl0 Hb]]. destruct (rl_slab _ _ _ _ _ Hr Hb) as (next & prev & Hl & _).
  apply NoDup_app in Hnd as (HndP & Hdis & HndF).
  destruct (dll_unlink _ _ _ _ _ _ _ HndP Hdp Hl) as (Hdp' & Hhd & Hnx & Hpv).
  apply NoDup_app in HndP as (H1 & H2 & [Hpn H3]%NoDup_cons).
  eapply (wp_unlink_slab p _ next prev (if prev =? NULL then set_partial_list next b else b));
    [exact Hr|by apply HN|exact Hl|..].
  { intros ->. apply (H2 p); [|set_solver]. apply Hpv. eapply dll_nonnull; [exact Hdp|set_solver]. }
  { intros q [->| ->] Hq; (split; [apply HN|]); apply HX; set_solver. }
  { intros Hn. by zfalse (prev =? NULL). }
  { intros Q' -> HQ'. assert (l1 = []) as -> by by apply Hhd.
    assert (partial_list b = p) as -> by apply Hdp. rewrite Z.eqb_refl.
    eapply wp_rl_update_bin; [exact Hr|done]. }
  intros s1 Hr1. eapply HQ; [exact Hr1| |by destruct (prev =? NULL)]. constructor.
  - replace (partial_list _) with (if prev =? NULL then next else partial_list b); [done|].
    by destruct (prev =? NULL).
  - replace (full_list _) with (full_list b) by (by destruct (prev =? NULL)).
    eapply dll_ext; [|exact Hdf]. intros q Hq.
    apply lk_unlink_ne; intros Hn ->; (eapply Hdis; [|exact Hq]); set_solver.
  - apply NoDup_app. split_and!; [| |done].
    + apply NoDup_app. split_and!; [done| |done]. intros q Hq1 Hq2. apply (H2 q Hq1). set_solver.
    + intros q Hq. apply Hdis. set_solver.
Qed.

End relinked_rules.
