(* ===== verification/HeapSpec.v ===== *)
(** * The invariant of a thread-local heap

    The objects a heap has handed out, from slabs and from spans; the
    invariant that ties them to the bins, lists, counters and chains of the
    implementation; and the steps the operations are composed of, each with
    the objects it removes and adds and the memory it leaves alone. *)

From S2P Require Import Prelude Common Sizes Machine Wp Dll Testbed Security Rtree Vmm VmmSpec.
From S2P Require Import Provision Telemetry Span SpanSpec Slab Tlh SlabSpec BinSpec.

(** ** The bins *)

(** Lists of a bin hold exhausted slabs: with free blocks on the partial list,
    without on the full list. *)
Definition partial_slab (g : slab_ghost) : Prop :=
  sg_n g = sg_max g /\ sg_free g <> [] /\ Z.of_nat (length (sg_free g)) < sg_n g.
Definition full_slab (g : slab_ghost) : Prop := sg_n g = sg_max g /\ sg_free g = [].

Definition of_class (Γ : gmap Z slab_ghost) (i p : Z) : Prop :=
  exists g, Γ !! p = Some g /\ sg_class g = i.

(** The slabs of class [i] are the current one and those of the two lists. *)
Record cover (Γ : gmap Z slab_ghost) (i cur : Z) (Pl Fl : list Z) : Prop := {
  cv_cur : cur = NULL \/ of_class Γ i cur /\ cur ∉ Pl ++ Fl;
  cv_partial : forall p, p ∈ Pl -> exists g, Γ !! p = Some g /\ sg_class g = i /\ partial_slab g;
  cv_full : forall p, p ∈ Fl -> exists g, Γ !! p = Some g /\ sg_class g = i /\ full_slab g;
  cv_all : forall p, of_class Γ i p -> p = cur \/ p ∈ Pl ++ Fl
}.

Definition bin_ok (s : state) (Γ : gmap Z slab_ghost) (i : Z) (b : lz_bin_t) : Prop :=
  exists Pl Fl, lists (links s) b Pl Fl /\ cover Γ i (current_slab b) Pl Fl.

(** Every bin of heap [tlh], but for the class [but]. *)
Definition bins_but (s : state) (tlh : Z) (Γ : gmap Z slab_ghost) (but : Z) : Prop :=
  exists t, h_tlhs s !! tlh = Some t /\ length (bins t) = 88%nat /\
    forall j b, 0 <= j -> j <> but -> bins t !! Z.to_nat j = Some b -> bin_ok s Γ j b.
Definition bins_ok (s : state) (tlh : Z) (Γ : gmap Z slab_ghost) : Prop :=
  bins_but s tlh Γ (-1).

Lemma cover_member Γ i cur Pl Fl p : cover Γ i cur Pl Fl -> p ∈ Pl ++ Fl -> of_class Γ i p.
Proof.
  intros [_ Hp Hf _] [(g & ? & ? & _)%Hp|(g & ? & ? & _)%Hf]%elem_of_app; by exists g.
Qed.

Lemma of_class_inj Γ i j p : of_class Γ i p -> of_class Γ j p -> i = j.
Proof. intros (g & Hg & <-) (g' & Hg' & <-). congruence. Qed.

(** A bin only depends on the slabs of its class. *)
Lemma cover_ext Γ Γ' i cur Pl Fl :
  (forall p g, sg_class g = i -> Γ' !! p = Some g <-> Γ !! p = Some g) ->
  cover Γ i cur Pl Fl -> cover Γ' i cur Pl Fl.
Proof.
  intros HΓ [Hc Hp Hf Ha].
  assert (forall p, of_class Γ' i p <-> of_class Γ i p) as Ho.
  { intros p. split; intros (g & Hg & Hi); exists g; split; try done; by apply HΓ. }
  constructor.
  - by rewrite Ho.
  - intros p (g & Hg & Hi & ?)%Hp. exists g. by rewrite HΓ.
  - intros p (g & Hg & Hi & ?)%Hf. exists g. by rewrite HΓ.
  - intros p. rewrite Ho. auto.
Qed.

Lemma bin_ok_ext s s' Γ Γ' i b :
  (forall p, of_class Γ i p -> links s' p = links s p) ->
  (forall p g, sg_class g = i -> Γ' !! p = Some g <-> Γ !! p = Some g) ->
  bin_ok s Γ i b -> bin_ok s' Γ' i b.
Proof.
  intros Hl HΓ (Pl & Fl & Hli & Hc). exists Pl, Fl. split; [|by eapply cover_ext].
  eapply lists_ext; [|exact Hli]. intros q Hq. apply Hl. by eapply cover_member.
Qed.

Lemma bins_but_ext s s' tlh Γ Γ' but :
  (forall t, h_tlhs s !! tlh = Some t -> exists t', h_tlhs s' !! tlh = Some t' /\ bins t' = bins t) ->
  (forall p j, j <> but -> of_class Γ j p -> links s' p = links s p) ->
  (forall p g, sg_class g <> but -> Γ' !! p = Some g <-> Γ !! p = Some g) ->
  bins_but s tlh Γ but -> bins_but s' tlh Γ' but.
Proof.
  intros Ht Hl HΓ (t & (t' & Ht' & Eb)%Ht & Hlen & Hb). exists t'. rewrite Eb. split_and!; [done..|].
  intros j b Hj Hne Hlook. eapply bin_ok_ext; [..|by eapply Hb].
  - intros p. by apply Hl.
  - intros p g <-. by apply HΓ.
Qed.

(** Writing back the bin of the exempted class. *)
Lemma bins_restore s0 s tlh i X lk b Γ Γ' Pl Fl :
  bins_but s0 tlh Γ i -> 0 <= i < 88 -> relinked s0 tlh i X s lk b ->
  (forall q, X q -> of_class Γ i q) ->
  (forall p g, sg_class g <> i -> Γ' !! p = Some g <-> Γ !! p = Some g) ->
  lists lk b Pl Fl -> cover Γ' i (current_slab b) Pl Fl -> bins_ok s tlh Γ'.
Proof.
  intros (t & Ht & Hlen & Hb) Hi Hr HX HΓ Hli Hc.
  destruct (rl_tlh _ _ _ _ _ _ _ Hr) as (t' & Ht' & Hlt & Et). rewrite Ht in Ht'. injection Ht' as <-.
  eexists. split_and!; [rewrite Et; apply lookup_insert_eq|cbn; by rewrite length_insert|].
  cbn. intros j bj Hj _ Hlook. destruct (decide (j = i)) as [->|Hne].
  - rewrite list_lookup_insert_eq in Hlook by done. injection Hlook as <-.
    exists Pl, Fl. split; [|done]. eapply lists_ext; [|exact Hli]. intros q _. apply Hr.
  - rewrite list_lookup_insert_ne in Hlook by lia. eapply bin_ok_ext; [..|by eapply Hb].
    + intros p Hp. apply links_body, (rl_same _ _ _ _ _ _ _ Hr). intros Hx%HX. apply Hne.
      by eapply of_class_inj.
    + intros p g <-. by apply HΓ.
Qed.

(** ** The heap *)

(** Everything but the bins: the spans, and the slabs of [Γ] in chunks of
    their own. *)
Record heap_core (s : state) (tlh : Z) (Γ : gmap Z slab_ghost) (L G : list Z) (P : list (list Z))
    : Prop := {
  hc_span : span_heap s tlh L G P;
  hc_secret : 0 <= g_lz_global_secret s < 2 ^ 64;
  hc_slab : forall p g, Γ !! p = Some g -> slab_ok s tlh p g;
  hc_out : forall p g, Γ !! p = Some g -> p - 64 ∉ G ++ concat P
}.

Record heap (s : state) (tlh : Z) (Γ : gmap Z slab_ghost) (L G : list Z) (P : list (list Z))
    : Prop := {
  hp_core : heap_core s tlh Γ L G P;
  hp_bins : bins_ok s tlh Γ
}.

(** An object of [n] bytes at [a] that the heap has handed out. *)
Definition slab_object (Γ : gmap Z slab_ghost) (a n : Z) : Prop :=
  exists p g k, Γ !! p = Some g /\ live g k /\ a = blk p g k /\ n = sg_size g.
Definition object (s : state) (Γ : gmap Z slab_ghost) (L : list Z) (a n : Z) : Prop :=
  slab_object Γ a n \/ exists m, span_block s L a m /\ n = m * 4096.

(** [d] is a chunk of the heap. *)
Definition owned (Γ : gmap Z slab_ghost) (L : list Z) (d : Z) : Prop :=
  d + 64 ∈ L \/ is_Some (Γ !! (d + 64)).

(** The chunk at [d] is as before. *)
Definition chunk_same (s s' : state) (d : Z) : Prop :=
  chunk_of s' d = chunk_of s d /\ body_of s' (d + 64) = body_of s (d + 64) /\
  (forall x, d <= x < d + 2 ^ 21 -> h_bytes s' !! x = h_bytes s !! x) /\
  rtree_view s' (block_of d) = rtree_view s (block_of d).

(** ** Geometry *)

(** Chunks have block numbers of their own. *)
Lemma chunk_block_inj s s' c d :
  chunk_ok s c -> chunk_ok s' d -> block_of c = block_of d -> c = d.
Proof.
  intros (Hc & ? & ? & _) (Hd & ? & ? & _) E.
  destruct (proj1 (block_of_chunk d c Hd ltac:(lia) ltac:(lia)) E).
  destruct (decide (c = d)) as [|Hne]; [done|]. destruct (aligned_apart c d); [done|done|done|lia..].
Qed.

Lemma span_block_in s tlh L G P a m : span_heap s tlh L G P -> span_block s L a m ->
  exists d sp, d + 64 ∈ L /\ span_ok s tlh (d + 64) sp /\ chunk_ok s d /\ 1 <= m /\
    d + 4096 <= a /\ a + m * 4096 <= d + 2 ^ 21.
Proof.
  intros Hh (p & sp & i & Hp & Hb & Hr & ->).
  destruct (span_run_in _ _ _ _ _ _ _ _ _ Hh Hp Hb Hr) as (Hal & Hpos & Hm & Hlo & Hhi).
  destruct (sh_span _ _ _ _ _ Hh p Hp) as [sp' Hok]. exists (p - 64), sp'.
  replace (p - 64 + 64) with p by lia. destruct Hr as (_ & _ & ?).
  split_and!; [done|done|apply Hok|lia..].
Qed.

(** The header of a chunk names the heap it belongs to. *)
Lemma owned_header s tlh Γ L G P d : heap_core s tlh Γ L G P -> owned Γ L d ->
  owning_tlh (chunk_of s d) = tlh /\ magic (chunk_of s d) = LZ_CHUNK_MAGIC_V2 /\
  chunk_type (chunk_of s d) <> LZ_CHUNK_TYPE_DIRECT.
Proof.
  intros Hc [Hd|[g Hd]].
  - destruct (sh_span _ _ _ _ _ (hc_span _ _ _ _ _ _ Hc) _ Hd) as [sp [_ _ _ Hh]].
    replace (d + 64 - 64) with d in Hh by lia. destruct Hh as (? & _ & ? & ->). by split_and!.
  - pose proof (sb_header _ _ _ _ (hc_slab _ _ _ _ _ _ Hc _ _ Hd)) as Hh.
    replace (d + 64 - 64) with d in Hh by lia. destruct Hh as (? & _ & ? & -> & _). by split_and!.
Qed.

Lemma owned_owner s o t Γ L Γ' L' G P G' P' d :
  heap_core s o Γ L G P -> heap_core s t Γ' L' G' P' -> owned Γ L d -> owned Γ' L' d -> o = t.
Proof.
  intros Ho Ht Hd Hd'. destruct (owned_header _ _ _ _ _ _ _ Ho Hd) as [<- _].
  by destruct (owned_header _ _ _ _ _ _ _ Ht Hd') as [<- _].
Qed.

(** Every object lies in the payload of one chunk of the heap. *)
Lemma object_in s tlh Γ L G P a n : heap_core s tlh Γ L G P -> object s Γ L a n ->
  exists d, owned Γ L d /\ chunk_ok s d /\ 16 <= n /\ d + 128 <= a /\ a + n <= d + 2 ^ 21.
Proof.
  intros Hc [(p & g & k & Hp & [Hk _] & -> & ->)|(m & Hb & ->)].
  - pose proof (hc_slab _ _ _ _ _ _ Hc p g Hp) as Hok. pose proof (sb_ghost _ _ _ _ Hok) as Hg.
    exists (p - 64). unfold owned. replace (p - 64 + 64) with p by lia. rewrite Hp.
    pose proof (sg_size_bounds g Hg). pose proof (go_n _ Hg). destruct (blk_in p g k Hg); [lia|].
    split_and!; [by right|apply Hok|lia..].
  - destruct (span_block_in _ _ _ _ _ _ _ (hc_span _ _ _ _ _ _ Hc) Hb) as (d & sp & Hd & _ & ? & ? & ? & ?).
    exists d. split_and!; [by left|done|lia..].
Qed.

(** Its addresses have the block number of that chunk. *)
Lemma object_block s tlh Γ L G P a n : heap_core s tlh Γ L G P -> object s Γ L a n ->
  exists d, owned Γ L d /\ chunk_ok s d /\ 16 <= n /\ d <= a /\ a + n <= d + 2 ^ 21 /\ block_of a = block_of d.
Proof.
  intros Hc Ho. destruct (object_in _ _ _ _ _ _ _ _ Hc Ho) as (d & Hd & Hok & ? & ? & ?). exists d.
  split_and!; [done|done|lia..|]. destruct Hok as (Hal & ? & ? & _). apply block_of_chunk; [done|lia..].
Qed.

(** The first word of an object is mapped to its last byte. *)
Lemma object_word_mapped s tlh Γ L G P a n : heap_core s tlh Γ L G P -> object s Γ L a n ->
  mapped s (a + 7) = true.
Proof.
  intros Hc Ho. destruct (object_in _ _ _ _ _ _ _ _ Hc Ho) as (d & _ & (_ & _ & _ & Hm) & ? & ? & ?).
  apply Hm. lia.
Qed.

(** A chunk holds either a slab or a span. *)
Lemma owned_kind s tlh Γ L G P p g :
  heap_core s tlh Γ L G P -> Γ !! p = Some g -> p ∉ L.
Proof.
  intros Hc Hp Hin. destruct (sb_body _ _ _ _ (hc_slab _ _ _ _ _ _ Hc p g Hp)) as (sl & Hb & _).
  destruct (sh_span _ _ _ _ _ (hc_span _ _ _ _ _ _ Hc) p Hin) as [sp [Hb' _ _ _]]. congruence.
Qed.

(** The objects of a slab chunk. *)
Lemma slab_object_in s tlh Γ L G P d g a n :
  heap_core s tlh Γ L G P -> Γ !! (d + 64) = Some g -> object s Γ L a n -> d <= a < d + 2 ^ 21 ->
  exists k, live g k /\ a = blk (d + 64) g k /\ n = sg_size g.
Proof.
  intros Hc Hd Ho Ha. destruct (sb_chunk _ _ _ _ (hc_slab _ _ _ _ _ _ Hc _ _ Hd)) as (Hal & _).
  replace (d + 64 - 64) with d in Hal by lia.
  destruct Ho as [(p & g' & k & Hp & Hk & -> & ->)|(m & Hb & ->)].
  - destruct (object_in s tlh Γ L G P (blk p g' k) (sg_size g')) as (d' & _ & (Hal' & _) & ? & ? & ?);
      [done|left; by exists p, g', k|].
    pose proof (hc_slab _ _ _ _ _ _ Hc p g' Hp) as Hok. pose proof (sb_ghost _ _ _ _ Hok) as Hg.
    destruct (sb_chunk _ _ _ _ Hok) as (Halp & _). destruct Hk as [Hkr Hkf]. pose proof (go_n _ Hg).
    destruct (blk_in p g' k Hg); [lia|].
    destruct (decide (p = d + 64)) as [->|Hne].
    + rewrite Hd in Hp. injection Hp as <-. by exists k.
    + destruct (aligned_apart d (p - 64)); [done|done|lia|lia..].
  - destruct (span_block_in _ _ _ _ _ _ _ (hc_span _ _ _ _ _ _ Hc) Hb) as (d' & sp & Hd' & Hok & (Hal' & _) & ? & ? & ?).
    destruct (decide (d' = d)) as [->|Hne].
    + by apply (owned_kind _ _ _ _ _ _ _ _ Hc) in Hd.
    + destruct (aligned_apart d d'); [done|done|lia|lia..].
Qed.

(** The objects of a span chunk. *)
Lemma span_object_in s tlh Γ L G P d sp a n :
  heap_core s tlh Γ L G P -> d + 64 ∈ L -> body_of s (d + 64) = BSpan sp -> object s Γ L a n ->
  d <= a < d + 2 ^ 21 -> exists i m, run sp i m /\ a = d + i * 4096 /\ n = m * 4096.
Proof.
  intros Hc Hd Hbd [Ho|(m & Hb & ->)] Ha.
  - exfalso. destruct Ho as (p & g & k & Hp & Hk & -> & ->).
    pose proof (hc_slab _ _ _ _ _ _ Hc p g Hp) as Hok. pose proof (sb_ghost _ _ _ _ Hok) as Hg.
    destruct (sb_chunk _ _ _ _ Hok) as (Halp & _). destruct Hk as [Hkr Hkf]. pose proof (go_n _ Hg).
    pose proof (sg_size_bounds g Hg). destruct (blk_in p g k Hg); [lia|].
    destruct (sh_span _ _ _ _ _ (hc_span _ _ _ _ _ _ Hc) _ Hd) as [sp' [_ _ (Hal & _) _]].
    replace (d + 64 - 64) with d in Hal by lia.
    destruct (decide (p = d + 64)) as [->|Hne].
    + by apply (owned_kind _ _ _ _ _ _ _ _ Hc) in Hp.
    + destruct (aligned_apart d (p - 64)); [done|done|lia|lia..].
  - destruct (span_block_chunk _ _ _ _ _ _ _ (hc_span _ _ _ _ _ _ Hc) Hd Hbd _ _ Hb Ha) as (i & Hr & ->).
    eauto.
Qed.

(** Distinct objects are disjoint, and an address is one object at most. *)
Lemma objects_disjoint s tlh Γ L G P a n b m :
  heap_core s tlh Γ L G P -> object s Γ L a n -> object s Γ L b m ->
  a = b /\ n = m \/ a + n <= b \/ b + m <= a.
Proof.
  intros Hc Ha Hb.
  destruct (object_in _ _ _ _ _ _ _ _ Hc Ha) as (d & Hd & Hok & ? & ? & ?).
  destruct (object_in _ _ _ _ _ _ _ _ Hc Hb) as (d' & Hd' & Hok' & ? & ? & ?).
  destruct (decide (d' = d)) as [->|Hne].
  2: { destruct (aligned_apart d d'); [apply Hok|apply Hok'|done|lia..]. }
  destruct Hd as [Hd|[g Hd]].
  - destruct (sh_span _ _ _ _ _ (hc_span _ _ _ _ _ _ Hc) _ Hd) as [sp [Hbd Hi _ _]].
    destruct (span_object_in _ _ _ _ _ _ _ _ _ _ Hc Hd Hbd Ha) as (i & ni & Hi1 & -> & ->); [lia|].
    destruct (span_object_in _ _ _ _ _ _ _ _ _ _ Hc Hd Hbd Hb) as (j & nj & Hj1 & -> & ->); [lia|].
    destruct (Z.lt_total i j) as [Hlt|[->|Hlt]].
    + pose proof (sv_disj _ Hi _ _ _ _ Hi1 Hj1 Hlt). lia.
    + left. destruct Hi1 as (_ & E1 & _), Hj1 as (_ & E2 & _). rewrite E1 in E2. by injection E2 as ->.
    + pose proof (sv_disj _ Hi _ _ _ _ Hj1 Hi1 Hlt). lia.
  - pose proof (sb_ghost _ _ _ _ (hc_slab _ _ _ _ _ _ Hc _ _ Hd)) as Hg.
    destruct (slab_object_in _ _ _ _ _ _ _ _ _ _ Hc Hd Ha) as (k & _ & -> & ->); [lia|].
    destruct (slab_object_in _ _ _ _ _ _ _ _ _ _ Hc Hd Hb) as (j & _ & -> & ->); [lia|].
    destruct (Z.lt_total k j) as [Hlt|[->|Hlt]]; [|by left|];
      pose proof (blk_apart (d + 64) g _ _ Hg Hlt); lia.
Qed.

(** ** Steps

    What every operation on heap [tlh] guarantees: the objects are those from
    before without the [dead] ones plus the [new] ones, the bytes of objects
    that stay are kept, chunks that belong to nobody or to other heaps are
    neither touched nor taken, and other heaps, statics and the mailbox stay;
    a new object is not one that is still in use.  A chunk of the heap is
    registered in the index, was so before, or could not be. *)
Definition mail_part (t : lz_tlh_t) :=
  (remote_free_head t, outgoing_batch t, thread_id t, is_zombie t, next_zombie t, stat_slot t).

Record thread_step (tlh : Z) (s s' : state) : Prop := {
  ts_global : global_part s' = global_part s;
  ts_other : forall t, t <> tlh -> h_tlhs s' !! t = h_tlhs s !! t;
  ts_mail : forall t, h_tlhs s !! tlh = Some t ->
    exists t', h_tlhs s' !! tlh = Some t' /\ mail_part t' = mail_part t;
  ts_stats : forall p, is_Some (h_stats s !! p) -> is_Some (h_stats s' !! p)
}.

Definition nothing : Z -> Prop := fun _ => False.
Definition nothing_new : Z -> Z -> Prop := fun _ _ => False.
Lemma not_nothing a : ~ nothing a.
Proof. intros []. Qed.
#[export] Hint Resolve not_nothing : core.

#[export] Instance live_dec g k : Decision (live g k).
Proof. unfold live. apply _. Defined.

Section steps.
Context `{Env}.

Record core_step (s : state) (tlh : Z) (Γ : gmap Z slab_ghost) (L G : list Z) (P : list (list Z))
    (dead : Z -> Prop) (new : Z -> Z -> Prop)
    (s' : state) (Γ' : gmap Z slab_ghost) (L' G' : list Z) (P' : list (list Z)) : Prop := {
  cs_core : heap_core s' tlh Γ' L' G' P';
  cs_objects : forall a n, object s' Γ' L' a n <-> object s Γ L a n /\ ~ dead a \/ new a n;
  cs_bytes : forall a n x, object s Γ L a n -> ~ dead a -> a <= x < a + n ->
    h_bytes s' !! x = h_bytes s !! x;
  cs_other : forall d, chunk_ok s d -> d ∉ G ++ concat P -> ~ owned Γ L d ->
    d ∉ G' ++ concat P' /\ ~ owned Γ' L' d /\ chunk_same s s' d;
  cs_mapped : forall x, mapped s x = true -> mapped s' x = true;
  cs_thread : thread_step tlh s s';
  cs_fresh : forall a n m, new a n -> object s Γ L a m -> ~ dead a -> False;
  cs_index : forall d, owned Γ' L' d -> registers s' d \/
    owned Γ L d /\ rtree_view s' (block_of d) = rtree_view s (block_of d);
  cs_grows : only_grows s s';
  cs_entry : forall a n, object s Γ L a n -> ~ dead a ->
    rtree_view s' (block_of a) = rtree_view s (block_of a)
}.

Definition heap_step s tlh Γ L G P dead new s' Γ' L' G' P' : Prop :=
  core_step s tlh Γ L G P dead new s' Γ' L' G' P' /\ bins_ok s' tlh Γ'.

Lemma heap_step_heap s tlh Γ L G P dead new s' Γ' L' G' P' :
  heap_step s tlh Γ L G P dead new s' Γ' L' G' P' -> heap s' tlh Γ' L' G' P'.
Proof. intros [Hc Hb]. constructor; [apply Hc|done]. Qed.

Lemma thread_step_refl tlh s : thread_step tlh s s.
Proof. constructor; eauto. Qed.

Lemma thread_step_trans tlh s1 s2 s3 :
  thread_step tlh s1 s2 -> thread_step tlh s2 s3 -> thread_step tlh s1 s3.
Proof.
  intros [G1 O1 M1 S1] [G2 O2 M2 S2]. constructor; [congruence|intros; by rewrite O2, O1| |auto].
  intros t (t' & (t'' & ? & ?)%M2 & ?)%M1. exists t''. split; [done|congruence].
Qed.


Lemma chunk_same_trans s1 s2 s3 d : chunk_same s1 s2 d -> chunk_same s2 s3 d -> chunk_same s1 s3 d.
Proof.
  intros (E1 & E2 & E3 & E4) (F1 & F2 & F3 & F4). split_and!; [congruence..| |congruence].
  intros x Hx. by rewrite F3, E3.
Qed.

Lemma index_step_trans (O1 O2 O3 : Z -> Prop) s1 s2 s3 :
  (forall d, O2 d -> registers s2 d \/
     O1 d /\ rtree_view s2 (block_of d) = rtree_view s1 (block_of d)) ->
  (forall d, O3 d -> registers s3 d \/
     O2 d /\ rtree_view s3 (block_of d) = rtree_view s2 (block_of d)) ->
  only_grows s2 s3 -> forall d, O3 d -> registers s3 d \/
     O1 d /\ rtree_view s3 (block_of d) = rtree_view s1 (block_of d).
Proof.
  intros H12 H23 Hg d [?|[[Hr|[Ho E]]%H12 E']]%H23; [by left|left|right].
  - by eapply registers_frame; [|apply Hg|].
  - split; [done|congruence].
Qed.

Lemma core_step_refl s tlh Γ L G P :
  heap_core s tlh Γ L G P -> core_step s tlh Γ L G P nothing nothing_new s Γ L G P.
Proof.
  intros Hc. constructor; [done| |done| |done|apply thread_step_refl|by intros ? ? ? []| |done|done].
  - intros a n. split; [by left; auto|]. by intros [[? _]|[]].
  - intros d ? ? ?. by split_and!.
  - auto.
Qed.

(** Steps compose when the first one hands nothing out. *)
Lemma core_step_trans s1 tlh Γ1 L1 G1 P1 dead1 s2 Γ2 L2 G2 P2 dead2 new s3 Γ3 L3 G3 P3 :
  core_step s1 tlh Γ1 L1 G1 P1 dead1 nothing_new s2 Γ2 L2 G2 P2 ->
  core_step s2 tlh Γ2 L2 G2 P2 dead2 new s3 Γ3 L3 G3 P3 ->
  core_step s1 tlh Γ1 L1 G1 P1 (fun a => dead1 a \/ dead2 a) new s3 Γ3 L3 G3 P3.
Proof.
  intros [C1 O1 B1 D1 M1 T1 _ I1 L1' V1] [C2 O2 B2 D2 M2 T2 Fr2 I2 L2' V2].
  assert (forall a n, object s1 Γ1 L1 a n -> ~ dead1 a -> object s2 Γ2 L2 a n) as Hk.
  { intros a n Ha Hd. apply O1. by left. }
  constructor; [done| | | |auto|by eapply thread_step_trans| | |by eapply only_grows_trans|].
  - intros a n. rewrite O2, O1. unfold nothing_new. tauto.
  - intros a n x Ha Hd Hx. rewrite (B2 a n), (B1 a n); auto.
  - intros d Hd1 Hd2 Hd3. destruct (D1 d) as (Hn & Ho & E1); [done..|].
    destruct (D2 d) as (Hn' & Ho' & E2); [by eapply chunk_ok_mono|done..|].
    split_and!; [done|done|]. by eapply chunk_same_trans.
  - intros a n m Hn Ha Hd. apply (Fr2 a n m Hn); auto.
  - by eapply index_step_trans.
  - intros a n Ha Hd. rewrite (V2 a n), (V1 a n); auto.
Qed.

Lemma core_step_weaken s tlh Γ L G P dead new s' Γ' L' G' P' dead' new' :
  core_step s tlh Γ L G P dead new s' Γ' L' G' P' ->
  (forall a, dead' a <-> dead a) -> (forall a n, new' a n <-> new a n) ->
  core_step s tlh Γ L G P dead' new' s' Γ' L' G' P'.
Proof.
  intros [C O B D M T F I Lg V] Hd Hn. constructor; try done.
  - intros a n. by rewrite Hd, Hn, O.
  - intros a n x Ha. rewrite Hd. eauto.
  - intros a n m. rewrite Hd, Hn. eauto.
  - intros a n Ha. rewrite Hd. eauto.
Qed.

(** Neutral steps before and after. *)
Lemma core_step_before s1 tlh Γ1 L1 G1 P1 s2 Γ2 L2 G2 P2 dead new s3 Γ3 L3 G3 P3 :
  core_step s1 tlh Γ1 L1 G1 P1 nothing nothing_new s2 Γ2 L2 G2 P2 ->
  core_step s2 tlh Γ2 L2 G2 P2 dead new s3 Γ3 L3 G3 P3 ->
  core_step s1 tlh Γ1 L1 G1 P1 dead new s3 Γ3 L3 G3 P3.
Proof.
  intros H1 H2. eapply core_step_weaken; [by eapply core_step_trans|..]; [|done].
  unfold nothing. tauto.
Qed.

Lemma core_step_after s1 tlh Γ1 L1 G1 P1 s2 Γ2 L2 G2 P2 dead new s3 Γ3 L3 G3 P3 :
  core_step s1 tlh Γ1 L1 G1 P1 dead new s2 Γ2 L2 G2 P2 ->
  core_step s2 tlh Γ2 L2 G2 P2 nothing nothing_new s3 Γ3 L3 G3 P3 ->
  core_step s1 tlh Γ1 L1 G1 P1 dead new s3 Γ3 L3 G3 P3.
Proof.
  intros [C1 O1 B1 D1 M1 T1 Fr1 I1 L1' V1] [C2 O2 B2 D2 M2 T2 _ I2 L2' V2].
  constructor; [done| | | |auto|by eapply thread_step_trans|exact Fr1|by eapply index_step_trans|
    by eapply only_grows_trans|].
  - intros a n. rewrite O2, O1. unfold nothing, nothing_new. tauto.
  - intros a n x Ha Hd Hx. rewrite (B2 a n), (B1 a n); auto. apply O1. by left.
  - intros d Hd1 Hd2 Hd3. destruct (D1 d) as (Hn & Ho & E1); [done..|].
    destruct (D2 d) as (Hn' & Ho' & E2); [by eapply chunk_ok_mono|done..|].
    split_and!; [done|done|]. by eapply chunk_same_trans.
  - intros a n Ha Hd. rewrite (V2 a n), (V1 a n); auto. apply O1. by left.
Qed.

(** ** Steps that stay inside the memory of the heap *)

(** Only metadata, payload, the heap record and statistics change. *)
Definition local (s s' : state) : Prop :=
  s' = set_h_tlhs (h_tlhs s') (set_h_stats (h_stats s')
    (set_h_bodies (h_bodies s') (set_h_bytes (h_bytes s') s))).

(** What the heap record keeps in such a step. *)
Definition keeps_tlh (tlh : Z) (s s' : state) : Prop :=
  (forall t, t <> tlh -> h_tlhs s' !! t = h_tlhs s !! t) /\
  (forall t, h_tlhs s !! tlh = Some t -> exists t', h_tlhs s' !! tlh = Some t' /\
     mail_part t' = mail_part t /\ active_spans t' = active_spans t) /\
  forall p, is_Some (h_stats s !! p) -> is_Some (h_stats s' !! p).

Lemma core_local s tlh Γ L G P s' Γ' :
  heap_core s tlh Γ L G P -> local s s' ->
  (forall t, h_tlhs s !! tlh = Some t -> exists t', h_tlhs s' !! tlh = Some t' /\
     active_spans t' = active_spans t /\ stat_slot t' = stat_slot t) ->
  (forall p, is_Some (h_stats s !! p) -> is_Some (h_stats s' !! p)) ->
  (forall q, q ∈ L -> body_of s' q = body_of s q) ->
  (forall p g', Γ' !! p = Some g' -> is_Some (Γ !! p) /\ slab_ok s' tlh p g') ->
  heap_core s' tlh Γ' L G P /\ (forall a n, span_block s' L a n <-> span_block s L a n).
Proof.
  intros [Hs Hk Hsl Ho] Hl Ht Hst HL HΓ.
  destruct (span_heap_keep s s' tlh L G P G P) as [Hh Hb]; [done|..].
  - eapply vmm_inv_frame; [apply Hs|by rewrite Hl..|]. intros c _. by rewrite Hl.
  - eapply rtree_inv_ext; [apply Hs|by rewrite Hl..].
  - intros x Hx. by rewrite Hl.
  - intros q Hq. split_and!; [by apply HL|by rewrite Hl|by apply Hs].
  - exact Ht.
  - exact Hst.
  - split; [|done]. constructor; [done|by rewrite Hl| |].
    + intros p g' Hp. by apply HΓ.
    + intros p g' Hp. destruct (HΓ p g' Hp) as [[g Hg] _]. by eapply Ho.
Qed.

Lemma slab_not_span s tlh Γ L G P a n m :
  heap_core s tlh Γ L G P -> slab_object Γ a n -> span_block s L a m -> False.
Proof.
  intros Hc (p & g & k & Hp & [Hk _] & -> & ->) Hb.
  pose proof (hc_slab _ _ _ _ _ _ Hc p g Hp) as Hok. pose proof (sb_ghost _ _ _ _ Hok) as Hg.
  pose proof (sg_size_bounds g Hg). pose proof (go_n _ Hg). destruct (blk_in p g k Hg); [lia|].
  destruct (span_block_in _ _ _ _ _ _ _ (hc_span _ _ _ _ _ _ Hc) Hb) as (d & sp & Hd & _ & (Hal & _) & ? & ? & ?).
  destruct (sb_chunk _ _ _ _ Hok) as (Hal' & _).
  destruct (decide (d = p - 64)) as [->|Hne].
  - replace (p - 64 + 64) with p in Hd by lia. by eapply owned_kind.
  - destruct (aligned_apart d (p - 64)); [done|done|done|lia..].
Qed.

Lemma core_step_local s tlh Γ L G P dead new s' Γ' :
  heap_core s tlh Γ L G P -> local s s' -> keeps_tlh tlh s s' ->
  (forall q, Γ !! q = None -> body_of s' q = body_of s q) ->
  (forall p, is_Some (Γ' !! p) <-> is_Some (Γ !! p)) ->
  (forall p g', Γ' !! p = Some g' -> slab_ok s' tlh p g') ->
  (forall a n, slab_object Γ' a n <-> slab_object Γ a n /\ ~ dead a \/ new a n) ->
  (forall a, dead a -> exists n, slab_object Γ a n) ->
  (forall x, h_bytes s' !! x = h_bytes s !! x \/
     exists a n, dead a /\ slab_object Γ a n /\ a <= x < a + n) ->
  (forall a n m, new a n -> object s Γ L a m -> ~ dead a -> False) ->
  core_step s tlh Γ L G P dead new s' Γ' L G P.
Proof.
  intros Hc Hl Ht Hb HΓ Hok Hobj Hdead Hbytes Hfresh.
  destruct (core_local s tlh Γ L G P s' Γ') as [Hc' Hsp]; [done|done| |apply Ht| | |].
  { intros t (t' & ? & Em & Ea)%Ht. exists t'. split_and!; [done..|]. by injection Em. }
  { intros q Hq. apply Hb. destruct (Γ !! q) eqn:E; [|done]. by apply (owned_kind _ _ _ _ _ _ _ _ Hc) in E. }
  { intros p g' Hp. split; [apply HΓ; eauto|by apply Hok]. }
  assert (forall p, owned Γ' L p <-> owned Γ L p) as Hown by (intros p; unfold owned; by rewrite HΓ).
  constructor; [done|..].
  - intros a n. unfold object. rewrite Hobj. setoid_rewrite Hsp. split.
    + intros [[[? ?]|?]|(m & Hm & ->)]; [tauto..|]. left. split; [eauto|].
      intros [n' Hn']%Hdead. by eapply (slab_not_span _ _ _ _ _ _ _ _ _ Hc).
    + tauto.
  - intros a n x Ha Hd Hx. destruct (Hbytes x) as [|(a' & n' & Hd' & Ha' & Hx')]; [done|exfalso].
    destruct (objects_disjoint s tlh Γ L G P a n a' n') as [[-> _]|Hdis]; [done|done|by left|done|lia].
  - intros d Hd1 Hd2 Hd3. rewrite Hown. split_and!; [done..|]. split_and!.
    + by rewrite Hl.
    + apply Hb. destruct (Γ !! (d + 64)) eqn:E; [|done]. exfalso. apply Hd3. right. by rewrite E.
    + intros x Hx. destruct (Hbytes x) as [|(a & n & _ & Ha & Hx')]; [done|exfalso].
      destruct (object_in s tlh Γ L G P a n) as (d' & Ho & (Hal & _) & ? & ? & ?); [done|by left|].
      destruct (decide (d' = d)) as [->|Hne]; [done|].
      destruct (aligned_apart d d'); [apply Hd1|done|done|lia..].
    + apply rtree_view_eq. by rewrite Hl.
  - intros x Hx. by rewrite Hl.
  - destruct Ht as (Ho & Hm & Hs). constructor; [by rewrite Hl|done| |done].
    intros t (t' & ? & ? & _)%Hm. eauto.
  - exact Hfresh.
  - intros d Hd. right. split; [by apply Hown|]. apply rtree_view_eq. by rewrite Hl.
  - apply only_grows_same; by rewrite Hl.
  - intros a n _ _. apply rtree_view_eq. by rewrite Hl.
Qed.

(** Rewriting list words and a bin. *)
Lemma core_step_links s tlh Γ L G P i X s' lk b :
  heap_core s tlh Γ L G P -> relinked s tlh i X s' lk b -> (forall q, X q -> is_Some (Γ !! q)) ->
  core_step s tlh Γ L G P nothing nothing_new s' Γ L G P.
Proof.
  intros Hc Hr HX. destruct (rl_tlh _ _ _ _ _ _ _ Hr) as (t & Ht & _ & Et).
  pose proof (rl_state _ _ _ _ _ _ _ Hr) as Es.
  apply core_step_local; [done|unfold local; by rewrite Es| | |done| | |by intros ? []|left; by rewrite Es|by intros ? ? ? []].
  - split_and!.
    + intros x Hx. rewrite Et. by rewrite lookup_insert_ne.
    + intros x Hx. rewrite Ht in Hx. injection Hx as <-. rewrite Et, lookup_insert_eq. eauto.
    + by rewrite Es.
  - intros q Hq. apply Hr. intros [g Hg]%HX. congruence.
  - intros p g Hp. eapply slab_ok_frame; [by apply (hc_slab _ _ _ _ _ _ Hc)|..]; try (by rewrite Es).
    apply Hr.
  - intros a n. unfold nothing, nothing_new. tauto.
Qed.

(** Counting and other changes of the heap record that leave bins alone. *)
Lemma heap_step_record s tlh Γ L G P t t' st s' :
  heap s tlh Γ L G P -> h_tlhs s !! tlh = Some t ->
  mail_part t' = mail_part t -> active_spans t' = active_spans t -> bins t' = bins t ->
  (forall p, is_Some (h_stats s !! p) -> is_Some (st !! p)) ->
  s' = set_h_tlhs (<[tlh := t']> (h_tlhs s)) (set_h_stats st s) ->
  heap_step s tlh Γ L G P nothing nothing_new s' Γ L G P.
Proof.
  intros [Hc Hb] Ht Em Ea Eb Hst ->. split.
  - apply core_step_local; [done|done| |done|done| | |by intros ? []|by left|by intros ? ? ? []].
    + split_and!; [| |done]; cbn.
      * intros x Hx. by rewrite lookup_insert_ne.
      * intros x Hx. rewrite Ht in Hx. injection Hx as <-. rewrite lookup_insert_eq. eauto.
    + intros p g Hp. eapply slab_ok_frame; [by apply (hc_slab _ _ _ _ _ _ Hc)|done..].
    + intros a n. unfold nothing, nothing_new. tauto.
  - apply (bins_but_ext s _ _ Γ); [|done..]. intros x Hx. rewrite Ht in Hx. injection Hx as <-.
    cbn. rewrite lookup_insert_eq. eauto.
Qed.

(** ** Steps on one slab *)

(** The address of a block determines its slab. *)
Lemma blk_slab s tlh p g k q g' k' :
  slab_ok s tlh p g -> slab_ok s tlh q g' -> 0 <= k < sg_max g -> 0 <= k' < sg_max g' ->
  blk p g k = blk q g' k' -> p = q.
Proof.
  intros Hp Hq Hk Hk' E. pose proof (sb_ghost _ _ _ _ Hp) as Hg. pose proof (sb_ghost _ _ _ _ Hq) as Hg'.
  pose proof (sg_size_bounds g Hg). pose proof (sg_size_bounds g' Hg').
  destruct (blk_in p g k Hg Hk), (blk_in q g' k' Hg' Hk').
  destruct (sb_chunk _ _ _ _ Hp) as (Hal & _), (sb_chunk _ _ _ _ Hq) as (Hal' & _).
  destruct (decide (p = q)) as [|Hne]; [done|].
  destruct (aligned_apart (p - 64) (q - 64)); [done|done|lia|lia..].
Qed.

Lemma core_step_slab s tlh Γ L G P p g g' s' :
  heap_core s tlh Γ L G P -> Γ !! p = Some g -> sg_class g' = sg_class g ->
  s' = set_h_bodies (h_bodies s') (set_h_bytes (h_bytes s') s) ->
  (forall q, q <> p -> body_of s' q = body_of s q) -> slab_ok s' tlh p g' ->
  (forall x, h_bytes s' !! x = h_bytes s !! x \/
     exists k, live g k /\ ~ live g' k /\ blk p g k <= x < blk p g k + sg_size g) ->
  core_step s tlh Γ L G P (fun a => exists k, live g k /\ ~ live g' k /\ a = blk p g k)
    (fun a n => exists k, live g' k /\ ~ live g k /\ a = blk p g k /\ n = sg_size g)
    s' (<[p := g']> Γ) L G P.
Proof.
  intros Hc Hp Ecl Es Hb Hok Hby. pose proof (hc_slab _ _ _ _ _ _ Hc) as Hsl.
  assert (sg_size g' = sg_size g) as Esz by (unfold sg_size; by rewrite Ecl).
  assert (forall k, blk p g' k = blk p g k) as Ebl by (intros; unfold blk; by rewrite Esz).
  assert (forall q h k, Γ !! q = Some h -> live h k -> 0 <= k < sg_max h) as Hlive.
  { intros q h k Hq [Hk _]. pose proof (go_n _ (sb_ghost _ _ _ _ (Hsl q h Hq))). lia. }
  assert (forall q h k j, Γ !! q = Some h -> live h k -> live g j -> blk q h k = blk p g j -> q = p) as Hinj.
  { intros q h k j Hq Hk Hj E. eapply (blk_slab s tlh); [by apply Hsl|by apply Hsl|by eapply Hlive..|done]. }
  apply core_step_local; [done|unfold local; by rewrite Es| | | | | | | |].
  - split_and!; rewrite Es; eauto.
  - intros q Hq. apply Hb. intros ->. congruence.
  - intros q. rewrite lookup_insert. case_decide; [|done]. subst. by rewrite Hp.
  - intros q h Hq. apply lookup_insert_Some in Hq as [[<- <-]|[Hne Hq]]; [done|].
    pose proof (Hsl q h Hq) as Hqok.
    eapply slab_ok_frame; [exact Hqok|by rewrite Es|by rewrite Hb|by rewrite Es| |by rewrite Es].
    intros x Hx. destruct (Hby x) as [|(k & Hk & _ & Hx')]; [done|exfalso].
    pose proof (Hsl p g Hp) as Hpok. pose proof (sb_ghost _ _ _ _ Hpok) as Hg.
    destruct (blk_in p g k Hg); [by eapply Hlive|].
    destruct (sb_chunk _ _ _ _ Hpok) as (Hal & _), (sb_chunk _ _ _ _ Hqok) as (Hal' & _).
    destruct (aligned_apart (p - 64) (q - 64)); [done|done|lia|lia..].
  - intros a n. split.
    + intros (q & h & k & Hq & Hk & -> & ->).
      apply lookup_insert_Some in Hq as [[<- <-]|[Hne Hq]].
      * rewrite Ebl, Esz. destruct (decide (live g k)) as [Hl|Hl]; [left|right; by exists k].
        split; [by exists p, g, k|]. intros (j & _ & Hj & E%blk_inj); [by subst|].
        apply (sb_ghost _ _ _ _ (Hsl p g Hp)).
      * left. split; [by exists q, h, k|]. intros (j & Hj & _ & E). apply Hne. symmetry.
        by eapply Hinj.
    + intros [[(q & h & k & Hq & Hk & -> & ->) Hnd]|(k & Hk & _ & -> & ->)].
      * destruct (decide (q = p)) as [->|Hne].
        -- rewrite Hp in Hq. injection Hq as <-. exists p, g', k. rewrite lookup_insert_eq, Ebl, Esz.
           split_and!; [done| |done..]. destruct (decide (live g' k)); [done|]. exfalso. apply Hnd. by exists k.
        -- exists q, h, k. by rewrite lookup_insert_ne.
      * exists p, g', k. by rewrite lookup_insert_eq, Ebl, Esz.
  - intros a (k & Hk & _ & ->). exists (sg_size g). by exists p, g, k.
  - intros x. destruct (Hby x) as [|(k & Hk & Hk' & Hx)]; [by left|right].
    exists (blk p g k), (sg_size g). split_and!; [by exists k|by exists p, g, k|lia..].
  - intros a n m (k & Hk & Hn & -> & _) Ho _. pose proof (sb_ghost _ _ _ _ (Hsl p g Hp)) as Hg.
    assert (sg_max g' = sg_max g) as Em by (unfold sg_max; by rewrite Esz).
    destruct (Hk) as [Hkr _]. pose proof (go_n _ (sb_ghost _ _ _ _ Hok)).
    pose proof (sg_size_bounds g Hg). destruct (blk_in p g k Hg); [lia|].
    replace p with (p - 64 + 64) in Hp by lia.
    destruct (slab_object_in _ _ _ _ _ _ _ _ _ _ Hc Hp Ho) as (j & Hj & E & _); [lia|].
    replace (p - 64 + 64) with p in E by lia. apply blk_inj in E; [by subst|done].
Qed.

(** Handing out block [k]. *)
Lemma core_step_take s tlh Γ L G P p g g' k s' :
  heap_core s tlh Γ L G P -> Γ !! p = Some g -> sg_class g' = sg_class g ->
  ~ live g k -> (forall j, live g' j <-> live g j \/ j = k) ->
  only_slab p s s' -> slab_ok s' tlh p g' ->
  core_step s tlh Γ L G P nothing (fun a n => a = blk p g k /\ n = sg_size g)
    s' (<[p := g']> Γ) L G P.
Proof.
  intros Hc Hp Ecl Hk Hl (Es & _ & Hb) Hok. eapply core_step_weaken.
  - eapply (core_step_slab s tlh Γ L G P p g g'); [done..|by rewrite Es|done|done|]. left. by rewrite Es.
  - intros a. unfold nothing. split; [done|]. intros (j & Hj & Hn & _). apply Hn, Hl. by left.
  - intros a n. split.
    + intros [-> ->]. exists k. rewrite Hl. auto.
    + intros (j & [Hj|Hj]%Hl & Hn & -> & ->); [done|]. by subst j.
Qed.

(** Taking back block [k]. *)
Lemma core_step_give s tlh Γ L G P p g g' k s' :
  heap_core s tlh Γ L G P -> Γ !! p = Some g -> sg_class g' = sg_class g ->
  live g k -> (forall j, live g' j <-> live g j /\ j <> k) ->
  s' = set_h_bodies (h_bodies s') (set_h_bytes (h_bytes s') s) ->
  (forall q, q <> p -> body_of s' q = body_of s q) ->
  (forall x, ~ (blk p g k <= x < blk p g k + 8) -> h_bytes s' !! x = h_bytes s !! x) ->
  slab_ok s' tlh p g' ->
  core_step s tlh Γ L G P (fun a => a = blk p g k) nothing_new s' (<[p := g']> Γ) L G P.
Proof.
  intros Hc Hp Ecl Hk Hl Es Hb Hby Hok. eapply core_step_weaken.
  - eapply (core_step_slab s tlh Γ L G P p g g'); [done..|].
    intros x. destruct (decide (blk p g k <= x < blk p g k + 8)) as [Hx|Hx]; [right|left; auto].
    pose proof (sg_size_bounds g (sb_ghost _ _ _ _ (hc_slab _ _ _ _ _ _ Hc p g Hp))).
    exists k. split_and!; [done| |lia..]. by intros [_ ?]%Hl.
  - intros a. split.
    + intros ->. exists k. split_and!; [done| |done]. by intros [_ ?]%Hl.
    + intros (j & Hj & Hn & ->). destruct (decide (j = k)) as [->|]; [done|]. exfalso. by apply Hn, Hl.
  - intros a n. unfold nothing_new. split; [done|]. by intros (j & [Hj _]%Hl & ? & _).
Qed.

(** ** Steps that exchange chunks with the pools *)

(** What lies in mapped memory that a frame spares is as before. *)
Lemma frame_chunk_same (C B D : Z -> Prop) s s' d :
  mem_frame C B D s s' -> chunk_ok s d -> ~ C d -> ~ B (d + 64) ->
  (forall x, d <= x < d + 2 ^ 21 -> ~ D x) ->
  rtree_view s' (block_of d) = rtree_view s (block_of d) -> chunk_same s s' d.
Proof.
  intros Hf (_ & _ & _ & Hm) HH HB HD Hv. split_and!; [..|done].
  - apply Hf; [apply Hm; lia|done].
  - apply Hf; [apply Hm; lia|done].
  - intros x Hx. apply Hf; auto.
Qed.

Lemma owned_chunk_ok s tlh Γ L G P d : heap_core s tlh Γ L G P -> owned Γ L d ->
  chunk_ok s d /\ d ∉ G ++ concat P.
Proof.
  intros Hc [Hd|[g Hd]]; replace d with (d + 64 - 64) by lia.
  - destruct (sh_span _ _ _ _ _ (hc_span _ _ _ _ _ _ Hc) _ Hd) as [sp Hok].
    split; [apply Hok|by apply (hc_span _ _ _ _ _ _ Hc)].
  - split; [by eapply sb_chunk, (hc_slab _ _ _ _ _ _ Hc)|by eapply (hc_out _ _ _ _ _ _ Hc)].
Qed.

(** The part [Γ0] of the slabs, and the spans, survive a change of state that
    keeps their chunks. *)
Lemma core_frame s tlh Γ L G P s' Γ0 G' P' :
  heap_core s tlh Γ L G P -> Γ0 ⊆ Γ -> vmm_inv s' G' P' -> rtree_inv s' ->
  thread_part s' = thread_part s -> (forall x, mapped s x = true -> mapped s' x = true) ->
  (forall d, owned Γ0 L d -> chunk_same s s' d /\ d ∉ G' ++ concat P') ->
  heap_core s' tlh Γ0 L G' P' /\ (forall a n, span_block s' L a n <-> span_block s L a n).
Proof.
  intros Hc HΓ Hv Hr Et Hm Hd. destruct (thread_global _ _ Et) as (Eg & Eh & Es).
  assert (forall q, q - 64 + 64 = q) as Eq by lia.
  destruct (span_heap_keep s s' tlh L G P G' P') as [Hh Hb]; [apply Hc|done..| | | |].
  - intros q Hq. destruct (Hd (q - 64)) as [(E1 & E2 & _) ?]; [left; by rewrite Eq|].
    rewrite Eq in E2. done.
  - rewrite Eh. eauto.
  - by rewrite Es.
  - split; [|done]. constructor; [done| | |].
    + injection Eg as -> _. apply Hc.
    + intros p g Hp. destruct (Hd (p - 64)) as [(E1 & E2 & E3 & _) _]; [right; by rewrite Eq, Hp|].
      rewrite Eq in E2. eapply slab_ok_frame.
      * apply (hc_slab _ _ _ _ _ _ Hc). by eapply lookup_weaken.
      * done.
      * by rewrite E2.
      * done.
      * intros x Hx. apply E3. lia.
      * by injection Eg.
    + intros p g Hp. apply (Hd (p - 64)). right. by rewrite Eq, Hp.
Qed.

Lemma thread_step_same tlh s s' : thread_part s' = thread_part s -> thread_step tlh s s'.
Proof.
  intros (Eg & Eh & Es)%thread_global. constructor; [done|by rewrite Eh| |by rewrite Es].
  rewrite Eh. eauto.
Qed.

(** An empty slab gives its chunk back. *)
Lemma core_step_release s tlh Γ L G P p g s' G' P' :
  heap_core s tlh Γ L G P -> Γ !! p = Some g -> (forall k, ~ live g k) ->
  released s (p - 64) G P s' G' P' ->
  core_step s tlh Γ L G P nothing nothing_new s' (delete p Γ) L G' P'.
Proof.
  intros Hc Hp Hno [Rv Rr Rf Rt Rw Rp]. assert (forall q, q - 64 + 64 = q) as Eq by lia.
  pose proof (sb_chunk _ _ _ _ (hc_slab _ _ _ _ _ _ Hc p g Hp)) as (Halp & _).
  assert (forall d, chunk_ok s d -> d <> p - 64 -> chunk_same s s' d) as Hsame.
  { intros d Hd Hne. eapply frame_chunk_same; [exact Rf|done|done|done| |].
    - intros x Hx Hx'. destruct (aligned_apart d (p - 64)); [apply Hd|done|done|unfold LZ_PAGE_SIZE, LZ_HUGE_PAGE_SIZE in *; lia..].
    - rewrite Rw. destruct (Z.eqb_spec (block_of d) (block_of (p - 64))) as [E|]; [|done].
      exfalso. apply Hne. eapply chunk_block_inj; [exact Hd| |done].
      exact (sb_chunk _ _ _ _ (hc_slab _ _ _ _ _ _ Hc p g Hp)). }
  assert (forall d, owned (delete p Γ) L d -> owned Γ L d /\ d <> p - 64) as Hown.
  { intros d [Hd|Hd].
    - split; [by left|]. intros ->. rewrite Eq in Hd. by eapply owned_kind.
    - destruct (decide (d + 64 = p)) as [E|Hne]; [rewrite E, lookup_delete_eq in Hd; by destruct Hd|].
      rewrite lookup_delete_ne in Hd by done. split; [by right|lia]. }
  destruct (core_frame s tlh Γ L G P s' (delete p Γ) G' P') as [Hc' Hsp]; [done|apply delete_subseteq|done..|apply Rf| |].
  { intros d [Ho Hne]%Hown. destruct (owned_chunk_ok _ _ _ _ _ _ _ Hc Ho) as [Hok Hn].
    split; [by apply Hsame|]. rewrite Rp. by apply not_elem_of_cons. }
  assert (forall a n, object s Γ L a n -> exists d, chunk_same s s' d /\ d <= a /\ a + n <= d + 2 ^ 21 /\
    block_of a = block_of d) as Hkept.
  { intros a n Ha. destruct (object_block _ _ _ _ _ _ _ _ Hc Ha) as (d & Ho & Hok & ? & ? & ? & ?). exists d.
    split_and!; [|done..]. apply (Hsame d Hok). intros ->. rewrite <- (Eq p) in Hp.
    destruct (slab_object_in _ _ _ _ _ _ _ _ _ _ Hc Hp Ha) as (k & Hk & _); [lia|]. by eapply Hno. }
  constructor; [done| | | |apply Rf|by apply thread_step_same|by intros ? ? ? []| |apply Rf|].
  - intros a n. unfold object. setoid_rewrite Hsp.
    assert (slab_object (delete p Γ) a n <-> slab_object Γ a n) as Ho.
    { split; intros (q & h & k & Hq & Hk & Hrest); exists q, h, k; (split; [|done]).
      - by apply lookup_delete_Some in Hq as [_ ?].
      - rewrite lookup_delete_ne; [done|]. intros <-. rewrite Hp in Hq. injection Hq as <-. by eapply Hno. }
    rewrite Ho. unfold nothing, nothing_new. tauto.
  - intros a n x Ha _ Hx. destruct (Hkept a n Ha) as (d & (_ & _ & E & _) & ? & ? & ?). apply E. lia.
  - intros d Hok Hn Ho. assert (d <> p - 64) as Hne.
    { intros ->. apply Ho. right. by rewrite Eq, Hp. }
    split_and!; [rewrite Rp; by apply not_elem_of_cons| |by apply Hsame].
    by intros [? _]%Hown.
  - intros d [Ho Hne]%Hown. right. split; [done|].
    apply (Hsame d); [by eapply owned_chunk_ok|done].
  - intros a n Ha _. destruct (Hkept a n Ha) as (d & (_ & _ & _ & E) & _ & _ & ->). exact E.
Qed.

(** No chunk could be had. *)
Lemma core_step_no_chunk s tlh Γ L G P s' G' P' :
  heap_core s tlh Γ L G P -> vmm_inv s' G' P' -> rtree_inv s' -> rtree_part s' = rtree_part s ->
  thread_part s' = thread_part s -> mem_frame (fun a => a = NULL) nowhere nowhere s s' ->
  (forall d, mapped s d = true -> d <> NULL -> d ∉ G ++ concat P -> d ∉ G' ++ concat P') ->
  core_step s tlh Γ L G P nothing nothing_new s' Γ L G' P'.
Proof.
  intros Hc Hv Hr Er Et Hf Ho.
  assert (forall d, chunk_ok s d -> d ∉ G ++ concat P -> chunk_same s s' d /\ d ∉ G' ++ concat P') as Hsame.
  { intros d Hok Hn. pose proof (chunk_ok_self _ _ Hok). assert (d <> NULL) by (destruct Hok; lia).
    split; [|auto]. eapply frame_chunk_same; [exact Hf|done..|]. by apply rtree_view_eq. }
  destruct (core_frame s tlh Γ L G P s' Γ G' P') as [Hc' Hsp]; [done..|apply Hf| |].
  { intros d Hd. by apply Hsame; eapply owned_chunk_ok. }
  constructor; [done| | | |apply Hf|by apply thread_step_same|by intros ? ? ? []| |apply Hf|].
  - intros a n. unfold object. setoid_rewrite Hsp. unfold nothing, nothing_new. tauto.
  - intros a n x Ha _ Hx. destruct (object_in _ _ _ _ _ _ _ _ Hc Ha) as (d & Hd & Hok & ? & ? & ?).
    destruct (Hsame d) as [(_ & _ & E) _]; [by eapply owned_chunk_ok..|]. apply E. lia.
  - intros d Hok Hn Hd. destruct (Hsame d Hok Hn). done.
  - intros d Hd. right. split; [done|]. by apply rtree_view_eq.
  - intros a n _ _. by apply rtree_view_eq.
Qed.

(** A new, empty slab. *)
Lemma core_step_create s tlh Γ L G P c i s' G' P' :
  heap_core s tlh Γ L G P -> slab_created s tlh c i G P s' G' P' ->
  core_step s tlh Γ L G P nothing nothing_new s' (<[c + 64 := fresh_ghost i]> Γ) L G' P' /\
  ~ owned Γ L c /\ (forall q, owned Γ L (q - 64) -> body_of s' q = body_of s q).
Proof.
  intros Hc [Ck Cv Cr Cn Cf Ct Cw Co Ci].
  assert (forall d, chunk_ok s d -> d ∉ G ++ concat P ->
    chunk_same s s' d /\ d ∉ G' ++ concat P' /\ d <> c) as Hsame.
  { intros d Hok Hn. pose proof (chunk_ok_self _ _ Hok). assert (d <> NULL) by (destruct Hok; lia).
    destruct (Co d) as [? ?]; [done..|]. split_and!; [|done..].
    eapply frame_chunk_same; [exact Cf|done|done|cbv beta; lia|done|]. apply Cw.
    pose proof (sb_chunk _ _ _ _ Ck) as Hcc. replace (c + 64 - 64) with c in Hcc by lia.
    intros E. by eapply (chunk_block_inj s s') in E. }
  assert (~ owned Γ L c) as Hnew.
  { intros Ho. destruct (owned_chunk_ok _ _ _ _ _ _ _ Hc Ho) as [Hok Hn].
    by destruct (Hsame c Hok Hn) as (_ & _ & ?). }
  assert (Γ !! (c + 64) = None) as HΓ.
  { destruct (Γ !! (c + 64)) eqn:E; [|done]. exfalso. apply Hnew. right. by rewrite E. }
  destruct (core_frame s tlh Γ L G P s' Γ G' P') as [Hc' Hsp]; [done..|apply Cf| |].
  { intros d Hd. destruct (owned_chunk_ok _ _ _ _ _ _ _ Hc Hd) as [Hok Hn].
    destruct (Hsame d Hok Hn) as (? & ? & _). done. }
  split_and!; [|done|].
  2: { intros q Hq. destruct (owned_chunk_ok _ _ _ _ _ _ _ Hc Hq) as [Hok Hn].
       destruct (Hsame _ Hok Hn) as ((_ & E & _) & _). by replace (q - 64 + 64) with q in E by lia. }
  constructor; [| | | |apply Cf|by apply thread_step_same|by intros ? ? ? []| |apply Cf|].
  - destruct Hc' as [H1 H2 H3 H4]. constructor; [done|done|..];
      intros p g [[<- <-]|[? ?]]%lookup_insert_Some; [done|by apply H3| |by eapply H4].
    by replace (c + 64 - 64) with c by lia.
  - intros a n. unfold object. setoid_rewrite Hsp.
    assert (slab_object (<[c + 64 := fresh_ghost i]> Γ) a n <-> slab_object Γ a n) as Ho.
    { split; intros (q & h & k & Hq & Hk & Hrest).
      - apply lookup_insert_Some in Hq as [[<- <-]|[_ Hq]]; [destruct Hk; cbn in *; lia|].
        by exists q, h, k.
      - exists q, h, k. rewrite lookup_insert_ne; [done|]. intros <-. congruence. }
    rewrite Ho. unfold nothing, nothing_new. tauto.
  - intros a n x Ha _ Hx. destruct (object_in _ _ _ _ _ _ _ _ Hc Ha) as (d & Hd & Hok & ? & ? & ?).
    destruct (Hsame d) as [(_ & _ & E) _]; [by eapply owned_chunk_ok..|]. apply E. lia.
  - intros d Hok Hn Hd. destruct (Hsame d Hok Hn) as (? & ? & Hne). split_and!; [done| |done].
    intros [?|Hx]; [apply Hd; by left|]. rewrite lookup_insert_ne in Hx by lia. apply Hd. by right.
  - intros d Hd. destruct (decide (d = c)) as [->|Hne]; [by left|right].
    assert (owned Γ L d) as Ho.
    { destruct Hd as [?|Hx]; [by left|]. rewrite lookup_insert_ne in Hx by lia. by right. }
    split; [done|]. destruct (owned_chunk_ok _ _ _ _ _ _ _ Hc Ho) as [Hok Hn].
    apply (Hsame d Hok Hn).
  - intros a n Ha _. destruct (object_block _ _ _ _ _ _ _ _ Hc Ha) as (d & Hd & Hok & _ & _ & _ & ->).
    apply (Hsame d Hok). by eapply owned_chunk_ok.
Qed.

(** ** The bin of a slab that takes a block back *)

Lemma bins_ok_but s tlh Γ i : bins_ok s tlh Γ -> bins_but s tlh Γ i.
Proof.
  intros (t & Ht & Hlen & Hb). exists t. split_and!; [done..|]. intros j b Hj _. apply Hb; lia.
Qed.

Lemma bins_ok_class s tlh Γ i : bins_ok s tlh Γ -> 0 <= i < 88 ->
  exists t b Pl Fl, h_tlhs s !! tlh = Some t /\ bins t !! Z.to_nat i = Some b /\
    lists (links s) b Pl Fl /\ cover Γ i (current_slab b) Pl Fl.
Proof.
  intros (t & Ht & Hlen & Hb) Hi. destruct (lookup_lt_is_Some_2 (bins t) (Z.to_nat i)) as [b Hlb]; [lia|].
  destruct (Hb i b) as (Pl & Fl & ? & ?); [lia..|done|]. by exists t, b, Pl, Fl.
Qed.

(** The bin while slab [p] has just taken a block back: it is current or on
    the partial list, where it may have become empty. *)
Record cover_but (Γ : gmap Z slab_ghost) (i cur : Z) (Pl Fl : list Z) (p : Z) : Prop := {
  cb_cur : cur = NULL \/ of_class Γ i cur /\ cur ∉ Pl ++ Fl;
  cb_partial : forall q, q ∈ Pl -> exists g, Γ !! q = Some g /\ sg_class g = i /\
    sg_n g = sg_max g /\ sg_free g <> [] /\ (q <> p -> Z.of_nat (length (sg_free g)) < sg_n g);
  cb_full : forall q, q ∈ Fl -> exists g, Γ !! q = Some g /\ sg_class g = i /\ full_slab g;
  cb_all : forall q, of_class Γ i q -> q = cur \/ q ∈ Pl ++ Fl;
  cb_here : p = cur /\ cur <> NULL \/ p ∈ Pl
}.

Lemma cover_but_done Γ i cur Pl Fl p g :
  cover_but Γ i cur Pl Fl p -> Γ !! p = Some g ->
  (p ∈ Pl -> Z.of_nat (length (sg_free g)) < sg_n g) -> cover Γ i cur Pl Fl.
Proof.
  intros [Hc Hp Hf Ha _] Hg Hl. constructor; [done| |done..].
  intros q Hq. destruct (Hp q Hq) as (h & Hh & Hi & Hn & He & Hlt). exists h. split_and!; [done..|].
  split_and!; [done..|]. destruct (decide (q = p)) as [->|]; [|auto]. rewrite Hg in Hh.
  injection Hh as <-. auto.
Qed.

(** A current or partial slab leaves the bin. *)
Lemma cover_delete_cur Γ i p q Pl Fl :
  cover_but Γ i p (q :: Pl) Fl p -> p <> NULL -> NoDup ((q :: Pl) ++ Fl) ->
  cover (delete p Γ) i q Pl Fl.
Proof.
  intros [Hc Hp Hf Ha _] Hp0 [Hq _]%NoDup_cons. destruct Hc as [?|[_ Hc]]; [done|].
  assert (forall r, r ∈ (q :: Pl) ++ Fl -> r <> p) as Hne by (intros r Hr ->; done).
  constructor.
  - right. split; [|done]. destruct (Hp q) as (g & Hg & Hi & _); [set_solver|]. exists g.
    rewrite lookup_delete_ne; [done|]. intros <-. apply (Hne p); [set_solver|done].
  - intros r Hr. destruct (Hp r) as (g & Hg & Hi & ? & ? & Hlt); [set_solver|]. exists g.
    assert (r <> p) by (apply Hne; set_solver). rewrite lookup_delete_ne by done.
    split_and!; [done..|]. split_and!; auto.
  - intros r Hr. destruct (Hf r Hr) as (g & Hg & ?). exists g.
    rewrite lookup_delete_ne; [done|]. intros <-. apply (Hne p); [set_solver|done].
  - intros r (g & Hg & Hi). apply lookup_delete_Some in Hg as [Hrp Hg].
    destruct (Ha r) as [?|Hr]; [by exists g|congruence|]. set_solver.
Qed.

Lemma cover_delete_partial Γ i cur p l1 l2 Fl :
  cover_but Γ i cur (l1 ++ p :: l2) Fl p -> NoDup ((l1 ++ p :: l2) ++ Fl) ->
  cover (delete p Γ) i cur (l1 ++ l2) Fl.
Proof.
  intros [Hc Hp Hf Ha _] Hnd.
  assert (p ∉ (l1 ++ l2) ++ Fl) as Hn.
  { rewrite <- app_assoc in Hnd. apply NoDup_app in Hnd as (_ & H1 & [H2 _]%NoDup_cons).
    intros Hx. destruct (decide (p ∈ l1)) as [Hl|Hl]; [apply (H1 p Hl); set_solver|]. set_solver. }
  constructor.
  - destruct Hc as [?|[(g & Hg & Hi) Hc]]; [by left|right]. split; [|set_solver]. exists g.
    rewrite lookup_delete_ne; [done|]. intros <-. apply Hc. set_solver.
  - intros r Hr. destruct (Hp r) as (g & Hg & Hi & ? & ? & Hlt); [set_solver|]. exists g.
    assert (r <> p) by (intros ->; set_solver). rewrite lookup_delete_ne by done.
    split_and!; [done..|]. split_and!; auto.
  - intros r Hr. destruct (Hf r Hr) as (g & Hg & ?). exists g.
    rewrite lookup_delete_ne; [done|]. intros <-. set_solver.
  - intros r (g & Hg & Hi). apply lookup_delete_Some in Hg as [Hrp Hg].
    destruct (Ha r) as [?|Hr]; [by exists g|by left|]. set_solver.
Qed.

(** Taking a block back keeps the cover, once a full slab has moved. *)
Lemma cover_push Γ i cur Pl Fl p g g' :
  cover Γ i cur Pl Fl -> Γ !! p = Some g -> sg_class g = i -> sg_class g' = i ->
  sg_n g' = sg_n g -> sg_free g' <> [] -> p ∉ Fl -> p <> NULL ->
  cover_but (<[p := g']> Γ) i cur Pl Fl p.
Proof.
  intros [Hc Hp Hf Ha] Hg Hi Hi' En Hne HpF Hp0.
  assert (forall q, of_class (<[p := g']> Γ) i q <-> of_class Γ i q) as Ho.
  { intros q. unfold of_class. rewrite lookup_insert. case_decide; [|done]. subst q. naive_solver. }
  assert (sg_max g' = sg_max g) as Em by (unfold sg_max, sg_size; congruence).
  constructor.
  - by rewrite Ho.
  - intros q Hq. destruct (Hp q Hq) as (h & Hh & Hj & Hn & He & Hl). rewrite lookup_insert.
    case_decide as Hd.
    + subst q. exists g'. rewrite Hg in Hh. injection Hh as <-. split_and!; [done..|congruence|done|done].
    + exists h. split_and!; auto.
  - intros q Hq. rewrite lookup_insert_ne by (by intros <-). auto.
  - intros q. rewrite Ho. auto.
  - destruct (Ha p) as [->|[?|?]%elem_of_app]; [by exists g|by left|by right|done].
Qed.

(** A full slab that takes a block back, moved to the partial list. *)
Lemma cover_rescued Γ i cur Pl l1 l2 p g g' :
  cover Γ i cur Pl (l1 ++ p :: l2) -> NoDup (Pl ++ l1 ++ p :: l2) -> Γ !! p = Some g ->
  sg_class g' = i -> sg_n g' = sg_n g -> sg_free g' <> [] ->
  cover_but (<[p := g']> Γ) i cur (p :: Pl) (l1 ++ l2) p.
Proof.
  intros [Hc Hp Hf Ha] Hnd Hg Hi' En Hne.
  destruct (Hf p) as (g0 & Hg0 & Hi & Hfull); [set_solver|]. rewrite Hg in Hg0. injection Hg0 as <-.
  assert (forall q, of_class (<[p := g']> Γ) i q <-> of_class Γ i q) as Ho.
  { intros q. unfold of_class. rewrite lookup_insert. case_decide; [|done]. subst q. naive_solver. }
  assert (sg_max g' = sg_max g) as Em by (unfold sg_max, sg_size; congruence).
  apply NoDup_app in Hnd as (_ & Hdis & HndF).
  assert (p ∉ l1 ++ l2) as Hpl.
  { apply NoDup_app in HndF as (_ & Hd & [? _]%NoDup_cons). intros [Hx|Hx]%elem_of_app; [|done].
    apply (Hd _ Hx). set_solver. }
  constructor.
  - rewrite Ho. destruct Hc as [|[? Hc]]; [by left|right]. split; [done|]. set_solver.
  - intros q [->|Hq]%elem_of_cons.
    + exists g'. rewrite lookup_insert_eq. destruct Hfull. split_and!; [done..|congruence|done|done].
    + assert (q <> p) by (intros ->; apply (Hdis p Hq); set_solver).
      destruct (Hp q Hq) as (h & Hh & Hj & Hn & He & Hl). exists h. rewrite lookup_insert_ne by done.
      split_and!; auto.
  - intros q Hq. assert (q <> p) by (by intros ->). rewrite lookup_insert_ne by done. apply Hf. set_solver.
  - intros q Hq%Ho. destruct (Ha q Hq) as [->|Hx]; [by left|right]. set_solver.
  - right. set_solver.
Qed.

(** ** The bin of an allocation *)

(** A change of the current slab. *)
Lemma cover_cur Γ i p Pl Fl g g' :
  cover Γ i p Pl Fl -> Γ !! p = Some g -> sg_class g = i -> sg_class g' = i -> p <> NULL ->
  cover (<[p := g']> Γ) i p Pl Fl.
Proof.
  intros [Hc Hp Hf Ha] Hg Hi Hi' Hp0. destruct Hc as [?|[_ Hc]]; [done|].
  assert (forall q, q ∈ Pl ++ Fl -> (<[p := g']> Γ) !! q = Γ !! q) as Hne.
  { intros q Hq. apply lookup_insert_ne. by intros <-. }
  constructor.
  - right. split; [|done]. exists g'. by rewrite lookup_insert_eq.
  - intros q Hq. rewrite Hne by set_solver. auto.
  - intros q Hq. rewrite Hne by set_solver. auto.
  - intros q (h & Hh & Hj). destruct (decide (q = p)) as [->|Hqp]; [by left|].
    rewrite lookup_insert_ne in Hh by done. apply Ha. by exists h.
Qed.

Lemma heap_step_cur s tlh Γ L G P i t b g g' new s' :
  heap s tlh Γ L G P -> 0 <= i < 88 -> h_tlhs s !! tlh = Some t -> bins t !! Z.to_nat i = Some b ->
  Γ !! current_slab b = Some g -> sg_class g = i -> sg_class g' = i ->
  only_slab (current_slab b) s s' ->
  core_step s tlh Γ L G P nothing new s' (<[current_slab b := g']> Γ) L G P ->
  heap_step s tlh Γ L G P nothing new s' (<[current_slab b := g']> Γ) L G P.
Proof.
  intros [Hc Hb] Hi Ht Hlb Hg Ei Ei' (Es & Hl & Hbd) Hst. split; [done|].
  assert (current_slab b <> NULL) as Hp0.
  { destruct (slab_ok_range _ _ _ _ (hc_slab _ _ _ _ _ _ Hc _ _ Hg)). lia. }
  assert (forall q, links s' q = links s q) as Hlk.
  { intros q. destruct (decide (q = current_slab b)) as [->|]; [done|]. by apply links_body, Hbd. }
  assert (h_tlhs s' = h_tlhs s) as Eh by (by rewrite Es).
  destruct (bins_ok_class _ _ _ i Hb Hi) as (t' & b' & Pl & Fl & Ht' & Hlb' & Hli & Hcv).
  rewrite Ht in Ht'. injection Ht' as <-. rewrite Hlb in Hlb'. injection Hlb' as <-.
  eapply (bins_restore s' s' tlh i nothing (links s') b); [|done| | |done| |by eapply cover_cur].
  - apply (bins_but_ext s _ _ Γ); [rewrite Eh; eauto|done| |by apply bins_ok_but].
    intros q h Hne. rewrite lookup_insert_Some. split.
    + intros [[<- <-]|[_ ?]]; [done|done].
    + intros Hq. right. split; [|done]. intros <-. congruence.
  - eapply relinked_refl; [by rewrite Eh|done].
  - by intros q [].
  - eapply lists_ext; [|exact Hli]. auto.
Qed.

(** The full list with the exhausted current slab in front, if there is one. *)
Definition retired (cur : Z) (Fl : list Z) : list Z := if cur =? NULL then Fl else cur :: Fl.

(** Bin [i] has no block to hand out from its current slab. *)
Definition no_block (Γ : gmap Z slab_ghost) (i cur : Z) : Prop :=
  cur = NULL \/ exists g, Γ !! cur = Some g /\ sg_class g = i /\ full_slab g.

Lemma cover_retired Γ i cur Pl Fl : cover Γ i cur Pl Fl -> no_block Γ i cur ->
  (forall q, q ∈ retired cur Fl -> exists g, Γ !! q = Some g /\ sg_class g = i /\ full_slab g) /\
  (forall q, q ∈ retired cur Fl <-> (q = cur /\ cur <> NULL) \/ q ∈ Fl).
Proof.
  intros [_ _ Hf _] Hn. unfold retired. destruct (Z.eqb_spec cur NULL) as [E|E].
  - split; [done|]. intros q. tauto.
  - destruct Hn as [?|Hn]; [done|]. split; [|set_solver].
    intros q [->|Hq]%elem_of_cons; [done|auto].
Qed.

Lemma cover_promote Γ i cur p Pl Fl :
  cover Γ i cur (p :: Pl) Fl -> NoDup ((p :: Pl) ++ Fl) -> no_block Γ i cur -> Γ !! NULL = None ->
  cover Γ i p Pl (retired cur Fl).
Proof.
  intros Hcv Hnd Hn H0. destruct (cover_retired _ _ _ _ _ Hcv Hn) as [Hfull Hin].
  destruct (Hcv) as [Hc Hp Hf Ha]. cbn in Hnd. apply NoDup_cons in Hnd as [Hpn _].
  constructor; [|intros; apply Hp; set_solver|done|].
  - right. split; [destruct (Hp p) as (g & ? & ? & _); [set_solver|]; by exists g|].
    intros [?|[[-> ?]|?]%Hin]%elem_of_app; [set_solver| |set_solver].
    destruct Hc as [?|[_ Hc]]; [done|]. set_solver.
  - intros q Hq. rewrite elem_of_app, Hin. destruct (Ha q Hq) as [->|Hx]; [|set_solver].
    right. right. left. split; [done|]. intros ->. destruct Hq as (g & Hg & _). congruence.
Qed.

Lemma cover_fresh Γ i cur p Fl :
  cover Γ i cur [] Fl -> no_block Γ i cur -> Γ !! NULL = None -> Γ !! p = None ->
  cover (<[p := fresh_ghost i]> Γ) i p [] (retired cur Fl).
Proof.
  intros Hcv Hn H0 Hp. destruct (cover_retired _ _ _ _ _ Hcv Hn) as [Hfull Hin].
  assert (forall q, q ∈ retired cur Fl -> p <> q) as Hne.
  { intros q (g & Hg & _)%Hfull <-. congruence. }
  constructor.
  - right. split; [exists (fresh_ghost i); by rewrite lookup_insert_eq|]. cbn. intros Hx. by apply (Hne p).
  - intros q Hq. by apply not_elem_of_nil in Hq.
  - intros q Hq. rewrite lookup_insert_ne by auto. auto.
  - intros q (g & Hg & Hi). cbn. apply lookup_insert_Some in Hg as [[-> _]|[Hqp Hg]]; [by left|right].
    apply Hin. destruct (cv_all _ _ _ _ _ Hcv q) as [->|Hx]; [by exists g|left|by right].
    split; [done|]. intros ->. congruence.
Qed.

End steps.
