(* ===== verification/TlhSpec.v ===== *)
(** * What a thread-local heap promises

    Allocation, release, reaping of the mailbox and the delivery of remote
    frees, refined to adding and removing members of one set of disjoint
    objects. *)

From S2P Require Import Prelude Common Sizes Machine Wp Dll Testbed Security Rtree Vmm VmmSpec.
From S2P Require Import Provision Telemetry Span SpanSpec Slab Tlh SlabSpec BinSpec HeapSpec.

Section tlh_rules.
Context `{EnvLaws}.

(** ** Release into a slab *)

Lemma of_class_slab s tlh Γ L G P i q : heap_core s tlh Γ L G P -> of_class Γ i q -> has_slab s q.
Proof.
  intros Hc (g & Hg & _). pose proof (hc_slab _ _ _ _ _ _ Hc q g Hg) as Hok.
  split; [eapply slab_ok_mapped; [exact Hok|lia]|].
  destruct (sb_body _ _ _ _ Hok) as (sl & ? & _). eauto.
Qed.

(** Destroying the empty slab [p] after it left its bin. *)
Lemma wp_destroy_slab tlh p g Γ L G P Q s :
  heap_core s tlh Γ L G P -> Γ !! p = Some g -> (forall k, ~ live g k) ->
  bins_ok s tlh (delete p Γ) ->
  (forall s' G' P', heap_step s tlh Γ L G P nothing nothing_new s' (delete p Γ) L G' P' ->
     has_slab s' p -> Q tt s') ->
  wp (lz_slab_destroy p) Q s.
Proof.
  intros Hc Hp Hno Hb HQ. pose proof (hc_slab _ _ _ _ _ _ Hc p g Hp) as Hok.
  assert (forall q j, of_class (delete p Γ) j q -> has_slab s q) as Hslab.
  { intros q j (h & Hh & Hj). eapply (of_class_slab _ _ _ _ _ _ j); [exact Hc|]. exists h.
    by apply lookup_delete_Some in Hh as [_ ?]. }
  eapply (wp_slab_destroy tlh p g G P); [apply Hc..|exact Hok|by eapply (hc_out _ _ _ _ _ _ Hc)|].
  intros s' G' P' Hr. pose proof (re_frame _ _ _ _ _ _ _ Hr) as Hf. eapply HQ.
  - split; [by eapply core_step_release|].
    destruct (thread_global _ _ (re_thread _ _ _ _ _ _ _ Hr)) as (_ & Eh & _).
    eapply (bins_but_ext s); [|..|done|exact Hb].
    + rewrite Eh. eauto.
    + intros q j _ Hq. apply links_body, Hf; [by eapply Hslab|done].
  - destruct (of_class_slab s tlh Γ L G P (sg_class g) p) as [Hm [sl Hsl]]; [done|by exists g|].
    split; [by apply Hf|]. exists sl. rewrite (frame_body _ _ _ _ _ Hf); done.
Qed.

Lemma wp_recycle tlh i p g Γ L G P s lk b Pl Fl Q s2 :
  heap_core s tlh Γ L G P -> bins_but s tlh Γ i -> 0 <= i < 88 ->
  relinked s tlh i (of_class Γ i) s2 lk b -> lists lk b Pl Fl ->
  cover_but Γ i (current_slab b) Pl Fl p -> Γ !! p = Some g -> sg_class g = i -> (forall k, ~ live g k) ->
  (forall s' Γ' G' P', heap_step s tlh Γ L G P nothing nothing_new s' Γ' L G' P' ->
     has_slab s' p -> Q tt s') ->
  wp (lz_tlh_recycle_empty_slab tlh p) Q s2.
Proof.
  intros Hc Hbb Hi Hr Hli Hcv Hp Ei Hno HQ.
  assert (of_class Γ i p) as Hop by (by exists g).
  assert (forall q, of_class Γ i q -> has_slab s q) as HN by (intros q; by eapply of_class_slab).
  assert (forall q, q ∈ Pl ++ Fl -> of_class Γ i q) as HX.
  { intros q [Hq|Hq]%elem_of_app.
    - destruct (cb_partial _ _ _ _ _ _ Hcv q Hq) as (h & ? & ? & _). by exists h.
    - destruct (cb_full _ _ _ _ _ _ Hcv q Hq) as (h & ? & ? & _). by exists h. }
  destruct (hc_slab _ _ _ _ _ _ Hc p g Hp) as [(sl & Hb & Hrep) _ _ _ _].
  assert (size_class sl = i) as Esc by (rewrite (sr_class _ _ _ Hrep); done).
  destruct (HN p Hop) as [Hm _].
  assert (forall q, of_class Γ i q -> is_Some (Γ !! q)) as Hdom by (intros q (h & -> & _); eauto).
  assert (forall s3 lk3 b3 Pl3 Fl3, relinked s tlh i (of_class Γ i) s3 lk3 b3 -> lists lk3 b3 Pl3 Fl3 ->
    cover (delete p Γ) i (current_slab b3) Pl3 Fl3 -> wp (lz_slab_destroy p) Q s3) as Hdestroy.
  { intros s3 lk3 b3 Pl3 Fl3 Hr3 Hl3 Hc3. pose proof (core_step_links _ _ _ _ _ _ _ _ _ _ _ Hc Hr3 Hdom) as Hst.
    eapply (wp_destroy_slab tlh p g Γ L G P); [apply Hst|done|done| |].
    - eapply bins_restore; [exact Hbb|done|exact Hr3|done| |exact Hl3|exact Hc3].
      intros q h Hne. rewrite lookup_delete_Some. split; [by intros [_ ?]|]. intros Hq. split; [|done].
      intros <-. rewrite Hp in Hq. by injection Hq as <-.
    - intros s4 G' P' [Hs4 Hb4] Hsl. eapply HQ; [|done]. split; [|done]. by eapply core_step_before. }
  unfold lz_tlh_recycle_empty_slab. wp_step. eapply wp_rl_slab; [exact Hr|done|exact Hb|].
  intros n' p' _. cbn [size_class set_slab_next set_slab_prev]. rewrite Esc.
  wp_step. eapply wp_rl_bin; [exact Hr|]. destruct (Z.eqb_spec p (current_slab b)) as [Ec|Ec].
  - assert (p <> NULL) as Hp0.
    { destruct (slab_ok_range _ _ _ _ (hc_slab _ _ _ _ _ _ Hc p g Hp)). lia. }
    assert (p ∉ Pl) as HpP.
    { rewrite Ec. destruct (cb_cur _ _ _ _ _ _ Hcv) as [?|[_ ?]]; [congruence|set_solver]. }
    destruct (Z.eqb_spec (partial_list b) NULL) as [E|E].
    + wp_step. eapply HQ.
      * split; [by eapply core_step_links|].
        eapply bins_restore; [exact Hbb|done|exact Hr|done|done|exact Hli|]. by eapply cover_but_done.
      * destruct (HN p Hop) as [Hm' _]. split; [by rewrite (rl_mapped _ _ _ _ _ _ _ _ Hr)|].
        destruct (rl_slab _ _ _ _ _ _ _ _ _ Hr Hb) as (? & ? & _ & ?). eauto.
    + destruct (dll_head _ _ _ _ (li_partial _ _ _ _ Hli) E) as [Pl' ->].
      destruct (HN (partial_list b)) as [_ [slq Hbq]]; [apply HX; set_solver|].
      wp_step. eapply wp_promote; [done|exact Hr|exact Hli|exact HX|exact Hbq|].
      intros s3 lk3 b3 Hr3 Hl3 Ec3. eapply Hdestroy; [exact Hr3|exact Hl3|].
      rewrite Ec3. rewrite <- Ec in Hcv. apply cover_delete_cur; [done|done|apply Hli].
  - destruct (cb_here _ _ _ _ _ _ Hcv) as [[? _]|Hin]; [done|].
    apply list_elem_of_split in Hin as (l1 & l2 & ->).
    wp_step. eapply wp_unlink_partial; [done|exact Hr|exact Hli|exact HX|].
    intros s3 lk3 b3 Hr3 Hl3 Ec3. eapply Hdestroy; [exact Hr3|exact Hl3|].
    rewrite Ec3. apply cover_delete_partial; [done|apply Hli].
Qed.

(** The test for a slab that was full, and the move to the partial list. *)
Lemma wp_rescue_if tlh i p g k Γ L G P t b Pl Fl sl Q s :
  let g' := with_free (k :: sg_free g) g in
  let Γ' := <[p := g']> Γ in
  heap_core s tlh Γ' L G P -> Γ !! p = Some g -> live g k -> sg_class g = i ->
  h_tlhs s !! tlh = Some t -> bins t !! Z.to_nat i = Some b ->
  lists (links s) b Pl Fl -> cover Γ i (current_slab b) Pl Fl -> body_of s p = BSlab sl ->
  (forall s2 lk b' Pl' Fl', relinked s tlh i (of_class Γ' i) s2 lk b' -> lists lk b' Pl' Fl' ->
     cover_but Γ' i (current_slab b') Pl' Fl' p -> Q tt s2) ->
  wp (if used_objects sl =? u32 (max_objects sl - 1)
      then lz_tlh_rescue_from_full tlh p else mret tt) Q s.
Proof.
  intros g' Γ' Hc Hp Hk Ei Ht Hlb Hli Hcv Hb HQ.
  assert (Γ' !! p = Some g') as Hp' by apply lookup_insert_eq.
  pose proof (hc_slab _ _ _ _ _ _ Hc p g' Hp') as Hok. pose proof (sb_ghost _ _ _ _ Hok) as Hg'.
  destruct (slab_ok_range _ _ _ _ Hok) as [Hp0 _].
  pose proof (slab_ok_mapped _ _ _ _ p Hok ltac:(lia)) as Hm.
  destruct (sb_body _ _ _ _ Hok) as (sl0 & Hb0 & [_ _ _ _ Hcls _ Hmax Hus]).
  rewrite Hb in Hb0. injection Hb0 as <-.
  pose proof (go_n _ Hg') as Hn. change (sg_max g') with (sg_max g) in *. change (sg_n g') with (sg_n g) in *.
  change (sg_class g') with (sg_class g) in *.
  assert (63 <= sg_max g < 2 ^ 17) as Hmb by (by apply (sg_max_bounds g')).
  cbn [g' with_free sg_free length] in Hus.
  rewrite Hmax, Hus, u32_small by lia.
  pose proof (relinked_refl s tlh i (of_class Γ' i) t b Ht Hlb) as Hr.
  assert (forall q, of_class Γ i q <-> of_class Γ' i q) as Hof.
  { intros q. unfold of_class, Γ'. rewrite lookup_insert. case_decide; [|done]. subst q.
    split; [intros _; by exists g'|intros _; by exists g]. }
  assert (forall q, of_class Γ' i q -> has_slab s q) as HN by (intros q; by eapply of_class_slab).
  assert (p ∉ Fl -> cover_but Γ' i (current_slab b) Pl Fl p) as Hcb.
  { intros HpF. apply (cover_push Γ i _ Pl Fl p g); [done..|lia]. }
  destruct (decide (p ∈ Fl)) as [HpF|HpF].
  - destruct (cv_full _ _ _ _ _ Hcv p HpF) as (g0 & Hg0 & _ & Efull & Efree).
    rewrite Hp in Hg0. injection Hg0 as <-. rewrite Efree, Efull. cbn [length].
    rewrite (proj2 (Z.eqb_eq _ _)) by lia.
    apply list_elem_of_split in HpF as (l1 & l2 & ->).
    eapply (wp_rescue s tlh i (of_class Γ' i) HN p sl); [exact Hr|exact Hli| |exact Hb|congruence| |].
    + intros q Hq. apply Hof. by eapply cover_member.
    + intros Ec. destruct (cv_cur _ _ _ _ _ Hcv) as [E|[_ Hn']]; [lia|]. rewrite Ec in Hn'. set_solver.
    + intros s2 lk b' Hr2 Hl2 Ec. eapply HQ; [exact Hr2|exact Hl2|]. rewrite Ec.
      eapply cover_rescued; [exact Hcv|apply Hli|exact Hp|done..].
  - destruct (Z.eqb_spec (sg_n g - Z.of_nat (S (length (sg_free g)))) (sg_max g - 1)) as [E|E].
    + assert (p = current_slab b) as Ec.
      { destruct (cv_all _ _ _ _ _ Hcv p) as [?|[HpP|?]%elem_of_app]; [by exists g|done| |done].
        destruct (cv_partial _ _ _ _ _ Hcv p HpP) as (g0 & Hg0 & _ & _ & He & _).
        rewrite Hp in Hg0. injection Hg0 as <-. destruct (sg_free g); [done|]. cbn [length] in E. lia. }
      unfold lz_tlh_rescue_from_full. wp_step. eapply wp_slab_at; [done..|]. rewrite Hcls, Ei.
      wp_step. eapply wp_rl_bin; [exact Hr|]. rewrite <- Ec, Z.eqb_refl. wp_step. eapply HQ; eauto.
    + wp_step. eapply HQ; eauto.
Qed.

(** The statistics at the end of a free. *)
Lemma wp_free_count tlh p Γ L G P Q s :
  heap s tlh Γ L G P -> has_slab s p ->
  (forall s', heap_step s tlh Γ L G P nothing nothing_new s' Γ L G P -> Q tt s') ->
  wp (t ← tlh_at tlh; if stat_slot t =? NULL then mret tt
      else sl ← slab_at p; count_free tlh (block_size sl)) Q s.
Proof.
  intros Hh [Hm [sl Hsl]] HQ.
  destruct (sh_tlh _ _ _ _ _ (hc_span _ _ _ _ _ _ (hp_core _ _ _ _ _ _ Hh))) as (t & Ht & _ & Hst).
  wp_step. eapply wp_tlh_at; [exact Ht|]. destruct (Z.eqb_spec (stat_slot t) NULL).
  { wp_step. apply HQ. split; [apply core_step_refl|]; apply Hh. }
  wp_step. eapply wp_slab_at; [done..|].
  eapply wp_count_free; [exact Ht|exact Hst|]. intros v st Hdom. apply HQ.
  eapply (heap_step_record s tlh Γ L G P t (set_local_bytes_free_batch v t) st); try done.
  intros q Hq. by apply Hdom.
Qed.

(** The heap right after the block was pushed, its bin not yet settled. *)
Lemma pushed_bins s tlh Γ L G P p g k s1 :
  heap s tlh Γ L G P -> Γ !! p = Some g -> live g k ->
  s1 = set_h_bodies (h_bodies s1) (set_h_bytes (h_bytes s1) s) ->
  links s1 p = links s p -> (forall q, q <> p -> body_of s1 q = body_of s q) ->
  (forall x, ~ (blk p g k <= x < blk p g k + 8) -> h_bytes s1 !! x = h_bytes s !! x) ->
  slab_ok s1 tlh p (with_free (k :: sg_free g) g) ->
  let Γ1 := <[p := with_free (k :: sg_free g) g]> Γ in
  core_step s tlh Γ L G P (fun a => a = blk p g k) nothing_new s1 Γ1 L G P /\
  bins_but s1 tlh Γ1 (sg_class g) /\ h_tlhs s1 = h_tlhs s /\ (forall q, links s1 q = links s q).
Proof.
  intros [Hc Hb] Hp Hk Es Hl Hbd Hy Hok Γ1.
  assert (forall q, links s1 q = links s q) as Hlk.
  { intros q. destruct (decide (q = p)) as [->|]; [done|]. by apply links_body, Hbd. }
  assert (h_tlhs s1 = h_tlhs s) as Eh by (by rewrite Es). split_and!; [| |done|done].
  - eapply core_step_give; try done. intros j. unfold live. cbn [with_free sg_n sg_free].
    rewrite not_elem_of_cons. tauto.
  - eapply (bins_but_ext s); [rewrite Eh; eauto|done| |by apply bins_ok_but].
    intros q h Hne. unfold Γ1. rewrite lookup_insert_Some.
    split; [by intros [[<- <-]|[_ ?]]|by right; split; [intros <-; simplify_eq|]].
Qed.

Lemma wp_free_to_slab tlh p g k Γ L G P Q s :
  heap s tlh Γ L G P -> Γ !! p = Some g -> live g k ->
  (forall s' Γ' G' P',
     heap_step s tlh Γ L G P (fun a => a = blk p g k) nothing_new s' Γ' L G' P' -> Q tt s') ->
  wp (free_to_slab tlh p (blk p g k)) Q s.
Proof.
  intros Hh Hp Hk HQ. pose proof (hc_slab _ _ _ _ _ _ (hp_core _ _ _ _ _ _ Hh) p g Hp) as Hok.
  set (i := sg_class g). assert (0 <= i < 88) as Hi by (pose proof (go_class _ (sb_ghost _ _ _ _ Hok)); lia).
  destruct (bins_ok_class _ _ _ i (hp_bins _ _ _ _ _ _ Hh) Hi) as (t & b & Pl & Fl & Ht & Hlb & Hli & Hcv).
  unfold free_to_slab. eapply wp_push_free_list; [exact Hok|done|apply Hh|].
  intros s1 Es1 Hl1 Hb1 Hy1 Hok1.
  destruct (pushed_bins s tlh Γ L G P p g k s1) as (Hst1 & Hbb1 & Eh1 & Hlk); [done..|].
  set (g1 := with_free (k :: sg_free g) g) in *. set (Γ1 := <[p := g1]> Γ) in *.
  pose proof (cs_core _ _ _ _ _ _ _ _ _ _ _ _ _ Hst1) as Hc1.
  assert (forall s' Γ' G' P', heap_step s1 tlh Γ1 L G P nothing nothing_new s' Γ' L G' P' ->
    has_slab s' p -> wp (t ← tlh_at tlh; if stat_slot t =? NULL then mret tt
      else sl ← slab_at p; count_free tlh (block_size sl)) Q s') as Hfin.
  { intros s' Γ' G' P' Hst' Hsl. eapply wp_free_count; [by eapply heap_step_heap|done|].
    intros s2 [Hst2 Hb2]. eapply HQ. split; [|done]. destruct Hst' as [Hst' _].
    eapply core_step_after; [exact Hst1|]. by eapply core_step_before. }
  assert (Γ1 !! p = Some g1) as Hp1 by apply lookup_insert_eq.
  destruct (of_class_slab _ _ _ _ _ _ i p Hc1) as [Hm1 [sl1 Hsl1]]; [by exists g1|].
  wp_step. eapply wp_slab_at; [done..|]. wp_step.
  eapply (wp_rescue_if tlh i p g k Γ L G P t b Pl Fl);
    [exact Hc1|done|done|done|by rewrite Eh1|done|eapply lists_ext; [|exact Hli]; auto|done|exact Hsl1|].
  fold g1. fold Γ1. intros s2 lk2 b2 Pl2 Fl2 Hr2 Hli2 Hcb2.
  destruct (rl_slab _ _ _ _ _ _ _ _ _ Hr2 Hsl1) as (n2 & p2 & _ & Hsl2).
  assert (mapped s2 p = true) as Hm2 by (by rewrite (rl_mapped _ _ _ _ _ _ _ _ Hr2)).
  wp_step. eapply wp_slab_at; [done..|]. cbn [used_objects set_slab_next set_slab_prev].
  destruct (sb_body _ _ _ _ Hok1) as (sl' & Hsl' & [_ _ _ _ _ _ _ Hus]).
  rewrite Hsl1 in Hsl'. injection Hsl' as <-. pose proof (sb_ghost _ _ _ _ Hok1) as Hg1.
  pose proof (ghost_used g1 Hg1). wp_step. destruct (Z.eqb_spec (used_objects sl1) 0) as [E|E].
  - eapply (wp_recycle tlh i p g1 Γ1 L G P s1); [done|done|done|exact Hr2|exact Hli2|done..| |exact Hfin].
    apply no_live_iff; [done|lia].
  - wp_step. eapply Hfin; [split|by split; eauto].
    + eapply core_step_links; [done|exact Hr2|]. by intros q (h & -> & _).
    + eapply bins_restore; [exact Hbb1|done|exact Hr2|done|done|exact Hli2|].
      eapply cover_but_done; [exact Hcb2|exact Hp1|]. intros _. lia.
Qed.

(** ** Spans of the heap *)

(** The slabs survive an operation of the span engine. *)
Lemma span_step_slabs s tlh Γ L G P s' L' G' P' :
  heap s tlh Γ L G P -> span_heap s' tlh L' G' P' -> only_tlh tlh s s' ->
  (forall x, mapped s x = true -> mapped s' x = true) ->
  (forall d, is_Some (Γ !! (d + 64)) -> chunk_same s s' d /\ d ∉ G' ++ concat P') ->
  heap_core s' tlh Γ L' G' P' /\ bins_ok s' tlh Γ /\ thread_step tlh s s'.
Proof.
  intros [Hc Hb] Hs (Eg & Eo & Et & Est) Hm Hd. assert (forall q, q - 64 + 64 = q) as Eq by lia.
  split_and!.
  - constructor; [done|injection Eg as -> _; apply Hc|..]; intros p g Hp;
      (destruct (Hd (p - 64)) as [(E1 & E2 & E3 & _) Hn]; [by rewrite Eq, Hp|]); [|done].
    rewrite Eq in E2. eapply slab_ok_frame;
      [by apply (hc_slab _ _ _ _ _ _ Hc)|done|by rewrite E2|done| |by injection Eg].
    intros x Hx. apply E3. lia.
  - apply (bins_but_ext s _ _ Γ); [| |done|done].
    + intros t (t' & ? & E)%Et. exists t'. split; [done|]. by injection E.
    + intros p j _ (g & Hp & _). apply links_body. destruct (Hd (p - 64)) as [(_ & E & _) _]; [by rewrite Eq, Hp|].
      by rewrite Eq in E.
  - constructor; [done|done| |done]. intros t (t' & ? & E)%Et. exists t'. split; [done|].
    unfold mail_part. by injection E as _ -> -> -> -> _ -> ->.
Qed.

Lemma span_free_step s tlh Γ L G P c i n s' L' G' P' :
  heap s tlh Γ L G P -> c + 64 ∈ L -> span_block s L (c + i * 4096) n ->
  c <= c + i * 4096 < c + 2 ^ 21 ->
  span_free_post s tlh c i L G P s' L' G' P' ->
  heap_step s tlh Γ L G P (fun a => a = c + i * 4096) nothing_new s' Γ L' G' P'.
Proof.
  intros Hh Hin Hblk Hrange [Fh Fb Fl Ff Ft]. pose proof (hp_core _ _ _ _ _ _ Hh) as Hc.
  destruct (owned_chunk_ok s tlh Γ L G P c Hc) as [Hcok _]; [by left|]. pose proof (proj1 Hcok) as Halc.
  assert (forall d, d + 64 ∈ L' -> d + 64 ∈ L) as Hsub.
  { intros d Hd. destruct Fl as [(_ & -> & _)|(_ & (l1 & l2 & -> & ->) & _)]; [done|set_solver]. }
  assert (forall d, chunk_ok s d -> d <> c -> rtree_view s' (block_of d) = rtree_view s (block_of d)) as Hview.
  { intros d Hd Hne. destruct Fl as [(_ & _ & _ & _ & -> & _)|(_ & _ & _ & ->)]; [done|].
    destruct (Z.eqb_spec (block_of d) (block_of c)) as [E|]; [|done].
    by eapply (chunk_block_inj s s) in E. }
  assert (forall d, chunk_ok s d -> d + 64 ∉ L -> chunk_same s s' d) as Hsame.
  { intros d Hd Hn. assert (d <> c) by (by intros ->). eapply frame_chunk_same; [exact Ff|done|done|done| |].
    - intros x Hx Hx'. unfold LZ_PAGE_SIZE, LZ_HUGE_PAGE_SIZE in Hx'.
      destruct (aligned_apart d c); [apply Hd|done|done|lia..].
    - by apply Hview. }
  assert (forall d, d + 64 ∉ L -> d ∉ G ++ concat P -> d ∉ G' ++ concat P') as Hout.
  { intros d Hd Hn. destruct Fl as [(_ & _ & -> & -> & _)|(_ & _ & E & _)]; [done|].
    rewrite E. apply not_elem_of_cons. split; [by intros ->|done]. }
  destruct (span_step_slabs s tlh Γ L G P s' L' G' P') as (Hc' & Hb' & Ht'); [done..|apply Ff| |].
  { intros d [g Hg]. assert (d + 64 ∉ L) by (by eapply owned_kind).
    destruct (owned_chunk_ok s tlh Γ L G P d Hc) as [? ?]; [right; eauto|]. auto. }
  assert ((forall b k, span_block s L b k -> c <= b < c + 2 ^ 21 -> b = c + i * 4096) ->
    forall a m, object s Γ L a m -> a <> c + i * 4096 -> c <= a -> a + m <= c + 2 ^ 21 -> 0 < m -> False) as Hkept.
  { intros Hlast a m Ha Hne ? ? ?. destruct Ha as [Ha|(j & Hj & ->)]; [|by apply Hne, (Hlast _ _ Hj); lia].
    destruct (sh_span _ _ _ _ _ (hc_span _ _ _ _ _ _ Hc) _ Hin) as [sp Hsp].
    destruct (span_object_in s tlh Γ L G P c sp a m) as (j & m' & Hj & -> & ->);
      [done|done|apply Hsp|by left|lia|].
    eapply (slab_not_span _ _ _ _ _ _ _ _ m' Hc Ha). exists (c + 64), sp, j.
    split_and!; [done|apply Hsp|done|lia]. }
  split; [|done]. constructor; [done| | | |apply Ff|done|by intros ? ? ? []| |apply Ff|].
  - intros a m. unfold object, nothing_new. setoid_rewrite Fb. split.
    + intros [Ho|(j & [Hj Hne] & ->)]; left; (split; [|done || idtac]); [by left| |right; eauto].
      intros ->. by eapply (slab_not_span _ _ _ _ _ _ _ _ _ Hc).
    + intros [[[?|(j & ? & ->)] Hne]|[]]; [by left|right]. eauto.
  - intros a m x Ha Hne Hx. destruct Fl as [(_ & _ & _ & _ & _ & E)|(Hlast & _)]; [by rewrite E|].
    destruct (object_in _ _ _ _ _ _ _ _ Hc Ha) as (d & Ho & Hok & ? & ? & ?).
    apply (frame_byte _ _ _ _ _ Ff); [apply Hok; lia|]. unfold LZ_PAGE_SIZE, LZ_HUGE_PAGE_SIZE. intros Hx'.
    destruct (decide (d = c)) as [->|Hdc]; [|destruct (aligned_apart d c); [apply Hok|done|done|lia..]].
    eapply Hkept; [exact Hlast|exact Ha|done|lia..].
  - intros d Hok Hn Ho. assert (d + 64 ∉ L) by (intros ?; apply Ho; by left).
    split_and!; [by apply Hout| |by apply Hsame]. intros [?|?]; apply Ho; [left; auto|by right].
  - intros d Hd. right. assert (owned Γ L d) as Ho by (destruct Hd; [left; auto|by right]).
    split; [done|]. destruct Fl as [(_ & _ & _ & _ & -> & _)|(_ & (l1 & l2 & -> & ->) & _ & Hw)]; [done|].
    assert (d <> c) as Hne.
    { intros ->. destruct Hd as [Hd|[g Hd]]; [|by eapply (owned_kind s)].
      apply (unlinked_nodes l1 l2 (c + 64) (c + 64)) in Hd; [by destruct Hd|].
      apply (sh_nodup _ _ _ _ _ (hc_span _ _ _ _ _ _ Hc)). }
    rewrite Hw. destruct (Z.eqb_spec (block_of d) (block_of c)) as [E|]; [|done].
    exfalso. eapply (chunk_block_inj s s) in E; [done| |done]. by eapply owned_chunk_ok.
  - intros a m Ha Hne. destruct Fl as [(_ & _ & _ & _ & -> & _)|(Hlast & _)]; [done|].
    destruct (object_in _ _ _ _ _ _ _ _ Hc Ha) as (d & _ & Hok & ? & ? & ?).
    assert (block_of a = block_of d) as -> by (apply block_of_chunk; destruct Hok as (? & ? & ? & _); [done|lia..]).
    apply Hview; [done|]. intros ->. eapply Hkept; [exact Hlast|exact Ha|done|lia..].
Qed.

Lemma span_alloc_step s tlh Γ L G P req r s' L' G' P' :
  heap s tlh Γ L G P -> span_alloc_post s tlh req L G P r s' L' G' P' ->
  heap_step s tlh Γ L G P nothing (fun a n => r <> NULL /\ a = r /\ n = req * 4096) s' Γ L' G' P'.
Proof.
  intros Hh [Ah Al Ab Ap Ad Af At Ao Av _ Ai _]. pose proof (hp_core _ _ _ _ _ _ Hh) as Hc.
  assert (forall d, chunk_ok s d -> d ∉ G ++ concat P ->
    d ∉ G' ++ concat P' /\ (d + 64 ∈ L' -> d + 64 ∈ L)) as Hout.
  { intros d Hok Hn. destruct (Ao d) as [? Hnew]; [by apply chunk_ok_self|destruct Hok; lia|done|].
    split; [done|]. intros Hd. destruct (decide (d + 64 ∈ L)) as [|Hd']; [done|].
    exfalso. apply (Hnew _ Hd Hd'). lia. }
  assert (forall d, chunk_ok s d -> d ∉ G ++ concat P ->
    rtree_view s' (block_of d) = rtree_view s (block_of d)) as Hview.
  { intros d Hok Hn. apply Av. intros p Hp Hnp E. destruct (Ao d) as [_ Hnew];
      [by apply chunk_ok_self|destruct Hok; lia|done|].
    destruct (sh_span _ _ _ _ _ Ah p Hp) as [sp Hsp].
    eapply (chunk_block_inj s s') in E; [|done|apply Hsp]. by apply (Hnew p). }
  assert (forall d, chunk_ok s d -> d ∉ G ++ concat P -> d + 64 ∉ L -> chunk_same s s' d) as Hsame.
  { intros d Hok Hn Hd. destruct (Hout d Hok Hn) as [_ Hd']. eapply frame_chunk_same; [exact Af|done|..].
    - intros [E|(p & Hp & Hp' & ->)]; [destruct Hok; lia|]. replace (p - 64 + 64) with p in * by lia. auto.
    - auto.
    - intros x _ [].
    - by apply Hview. }
  destruct (span_step_slabs s tlh Γ L G P s' L' G' P') as (Hc' & Hb' & Ht'); [done|done|apply At|apply Af| |].
  { intros d [g Hg]. assert (d + 64 ∉ L) by (by eapply owned_kind).
    destruct (owned_chunk_ok s tlh Γ L G P d Hc) as [Hok Hn]; [right; eauto|].
    split; [by apply Hsame|by apply Hout]. }
  split; [|done]. constructor; [done| | | |apply Af|done| | |apply Af|].
  - intros a n. unfold object. setoid_rewrite Ab. split.
    + intros [Ho|(j & [Hj|(Hr & -> & ->)] & ->)]; [left|left|by right]; (split; [|auto]);
        [by left|right; by exists j].
    + intros [[[?|(j & ? & ->)] _]|(? & -> & ->)]; [by left|right; exists j; auto|].
      right. exists req. split; [by right|done].
  - intros a n x Ha _ Hx. destruct (object_in _ _ _ _ _ _ _ _ Hc Ha) as (d & Ho & Hok & ? & ? & ?).
    apply (frame_byte _ _ _ _ _ Af); [apply Hok; lia|done].
  - intros d Hok Hn Ho. assert (d + 64 ∉ L) by (intros ?; apply Ho; by left).
    destruct (Hout d Hok Hn) as [? Hd']. split_and!; [done| |by apply Hsame].
    intros [?|?]; apply Ho; [left; auto|by right].
  - intros a n m (Hr & -> & ->) Ho _. destruct Ho as [Ho|(j & Hj & ->)].
    + eapply (slab_not_span _ _ _ _ _ _ _ _ req Hc' Ho). apply Ab. auto.
    + destruct (span_block_in _ _ _ _ _ _ _ (hc_span _ _ _ _ _ _ Hc) Hj) as (_ & _ & _ & _ & _ & ? & _).
      assert (span_block s' L' r req) as Hr' by (apply Ab; auto).
      destruct (span_block_in _ _ _ _ _ _ _ Ah Hr') as (_ & _ & _ & _ & _ & ? & _).
      specialize (Ad Hr _ _ Hj). lia.
  - intros d Hd. destruct (decide (owned Γ L d)) as [Ho|Ho].
    + right. split; [done|]. by apply Hview; eapply owned_chunk_ok.
    + left. destruct Hd as [Hd|Hd]; [|exfalso; apply Ho; by right].
      replace d with (d + 64 - 64) by lia. apply Ai; [done|]. intros ?. apply Ho. by left.
  - intros a n Ha _. destruct (object_block _ _ _ _ _ _ _ _ Hc Ha) as (d & Hd & _ & _ & _ & _ & ->).
    by apply Hview; eapply owned_chunk_ok.
Qed.

(** ** Release of any object *)

(** The header found by masking the address of an object. *)
Lemma object_header s tlh Γ L G P a n :
  heap_core s tlh Γ L G P -> object s Γ L a n ->
  let d := a .& chunk_mask in
  mapped s a = true /\ mapped s d = true /\ 0 < a < 2 ^ 64 /\
  magic (chunk_of s d) = LZ_CHUNK_MAGIC_V2 /\ owning_tlh (chunk_of s d) = tlh /\
  (chunk_type (chunk_of s d) = LZ_CHUNK_TYPE_SLAB /\
     (exists g k, Γ !! (d + 64) = Some g /\ live g k /\ a = blk (d + 64) g k) \/
   chunk_type (chunk_of s d) = LZ_CHUNK_TYPE_SPAN /\ d + 64 ∈ L /\ d <= a < d + 2 ^ 21 /\
     exists sp i m, body_of s (d + 64) = BSpan sp /\ run sp i m /\ a = d + i * 4096).
Proof.
  intros Hc Ho. destruct (object_in _ _ _ _ _ _ _ _ Hc Ho) as (d & Hd & Hok & ? & ? & ?).
  destruct (Hok) as (Hal & Hpos & Hlim & Hm). cbv zeta. rewrite (chunk_mask_in d) by (done || lia).
  split; [apply Hm; lia|]. split; [apply Hm; lia|]. split; [lia|].
  destruct Hd as [Hd|[g Hd]].
  - destruct (sh_span _ _ _ _ _ (hc_span _ _ _ _ _ _ Hc) _ Hd) as [sp [Hb _ _ Hh]].
    replace (d + 64 - 64) with d in Hh by lia. destruct Hh as (Hmg & _ & How & Hty).
    split_and!; [done..|]. right.
    destruct (span_object_in _ _ _ _ _ _ _ _ _ _ Hc Hd Hb Ho) as (i & m & ? & ? & _); [lia|].
    split_and!; [done|done|lia|lia|]. by exists sp, i, m.
  - pose proof (sb_header _ _ _ _ (hc_slab _ _ _ _ _ _ Hc _ _ Hd)) as Hh.
    replace (d + 64 - 64) with d in Hh by lia. destruct Hh as (Hmg & _ & How & Hty & _).
    split_and!; [done..|]. left. split; [done|].
    destruct (slab_object_in _ _ _ _ _ _ _ _ _ _ Hc Hd Ho) as (k & ? & ? & _); [lia|]. by exists g, k.
Qed.

(** The dispatch on the chunk type, in a local free and in the reap loop. *)
Lemma wp_release_object tlh a n Γ L G P Q s :
  heap s tlh Γ L G P -> object s Γ L a n ->
  (forall s' Γ' L' G' P',
     heap_step s tlh Γ L G P (fun x => x = a) nothing_new s' Γ' L' G' P' -> Q tt s') ->
  let d := a .& chunk_mask in
  wp (if chunk_type (chunk_of s d) =? LZ_CHUNK_TYPE_SLAB
      then free_to_slab tlh (d + LZ_CACHE_LINE_SIZE) a
      else if chunk_type (chunk_of s d) =? LZ_CHUNK_TYPE_SPAN
      then lz_span_free_local tlh d a else mret tt) Q s.
Proof.
  intros Hh Ho HQ d. pose proof (hp_core _ _ _ _ _ _ Hh) as Hc.
  destruct (object_header _ _ _ _ _ _ _ _ Hc Ho) as (_ & _ & _ & _ & _ & Hk). fold d in Hk. clearbody d.
  unfold LZ_CACHE_LINE_SIZE.
  destruct Hk as [[-> (g & k & Hg & Hk & ->)]|(-> & Hin & Hr & sp & i & m & Hb & Hrun & ->)].
  - change (LZ_CHUNK_TYPE_SLAB =? LZ_CHUNK_TYPE_SLAB) with true. cbv iota.
    eapply wp_free_to_slab; [exact Hh|exact Hg|exact Hk|]. intros. by eapply HQ.
  - change (LZ_CHUNK_TYPE_SPAN =? LZ_CHUNK_TYPE_SLAB) with false.
    change (LZ_CHUNK_TYPE_SPAN =? LZ_CHUNK_TYPE_SPAN) with true. cbv iota.
    assert (i = (d + i * 4096 - d) / 4096) as Ei by (rewrite Z.add_simpl_l, Z.div_mul; lia).
    eapply wp_span_free_local; [apply Hc|exact Hin|exact Hb|exact Hr|exact Ei|..].
    + intros Hno. by apply Hno in Hrun.
    + intros m' s' L' G' P' _ Hp. eapply HQ, (span_free_step s tlh Γ L G P d i m);
        [done|done| |done|done].
      exists (d + 64), sp, i. split_and!; [done..|lia].
Qed.

(** ** The mailbox *)

(** The nodes [R] wait to be freed: linked through their first words, which
    have been written, and each an object of the heap. *)
Record pending (s : state) (Γ : gmap Z slab_ghost) (L R : list Z) : Prop := {
  pe_chain : node_chain (h_bytes s) (fun next _ => next) R;
  pe_nodup : NoDup R;
  pe_object : forall a, a ∈ R -> is_Some (h_bytes s !! a) /\ exists n, object s Γ L a n
}.

Lemma pending_step s tlh Γ L G P dead new s' Γ' L' G' P' R :
  heap_core s tlh Γ L G P -> pending s Γ L R ->
  core_step s tlh Γ L G P dead new s' Γ' L' G' P' -> (forall a, a ∈ R -> ~ dead a) ->
  pending s' Γ' L' R.
Proof.
  intros Hc [Hch Hnd Ho] Hst Hd.
  assert (forall a x, a ∈ R -> a <= x < a + 8 -> h_bytes s' !! x = h_bytes s !! x) as Hb.
  { intros a x Ha Hx. destruct (Ho a Ha) as [_ [n Hn]].
    destruct (object_in _ _ _ _ _ _ _ _ Hc Hn) as (_ & _ & _ & ? & _).
    apply (cs_bytes _ _ _ _ _ _ _ _ _ _ _ _ _ Hst a n); [done|auto|lia]. }
  constructor; [|done|].
  - by eapply node_chain_ext.
  - intros a Ha. destruct (Ho a Ha) as [Hs [n Hn]]. split; [rewrite (Hb a a Ha); [done|lia]|].
    exists n. apply (cs_objects _ _ _ _ _ _ _ _ _ _ _ _ _ Hst). auto.
Qed.

Lemma pending_bound s Γ L R : pending s Γ L R -> (length R < node_bound s)%nat.
Proof.
  intros [_ Hnd Ho]. unfold node_bound. rewrite <- size_dom, <- (size_list_to_set (C := gset Z) R) by done.
  apply Nat.lt_succ_r, subseteq_size. intros a Ha%elem_of_list_to_set. apply elem_of_dom. by apply Ho.
Qed.

Lemma wp_reap_loop tlh R fuel Γ L G P Q s :
  heap s tlh Γ L G P -> pending s Γ L R -> (length R < fuel)%nat ->
  (forall s' Γ' L' G' P',
     heap_step s tlh Γ L G P (fun a => a ∈ R) nothing_new s' Γ' L' G' P' -> Q tt s') ->
  wp (reap_loop fuel tlh (hd NULL R)) Q s.
Proof.
  revert fuel Γ L G P s. induction R as [|a R IH]; intros fuel Γ L G P s Hh Hpe Hf HQ;
    (destruct fuel as [|fuel]; [lia|]); cbn [reap_loop hd].
  - cbn [Z.eqb]. wp_step. eapply HQ. split; [|apply Hh].
    eapply core_step_weaken; [by apply core_step_refl, Hh| |done]. intros a. unfold nothing. set_solver.
  - pose proof (hp_core _ _ _ _ _ _ Hh) as Hc. pose proof (pe_nodup _ _ _ _ Hpe) as [HaR _]%NoDup_cons.
    destruct (pe_object _ _ _ _ Hpe a) as [_ [n Hn]]; [set_solver|].
    destruct (object_header _ _ _ _ _ _ _ _ Hc Hn) as (Hma & Hmd & Hr & _).
    zfalse (a =? NULL). wp_step. apply wp_load64; [done|by eapply object_word_mapped|].
    destruct (pe_chain _ _ _ _ Hpe) as [-> _]. wp_step. apply wp_chunk_at; [done|].
    wp_step. change (lz_span_free_remote tlh) with (lz_span_free_local tlh).
    eapply wp_release_object; [exact Hh|exact Hn|]. intros s1 Γ1 L1 G1 P1 Hst.
    pose proof (heap_step_heap _ _ _ _ _ _ _ _ _ _ _ _ _ Hst) as Hh1. destruct Hst as [Hst _].
    assert (pending s Γ L R) as HpeR.
    { destruct Hpe as [[_ ?] [_ ?]%NoDup_cons Ho]. constructor; [done..|]. intros; apply Ho. set_solver. }
    apply (IH fuel Γ1 L1 G1 P1); [done| |cbn in Hf; lia|].
    + eapply (pending_step s tlh Γ L); [exact Hc|exact HpeR|exact Hst|]. by intros x Hx ->.
    + intros s2 Γ2 L2 G2 P2 [Hst2 Hb2]. eapply HQ. split; [|done].
      eapply core_step_weaken; [by eapply core_step_trans| |done]. intros x. cbv beta. set_solver.
Qed.

(** The heap together with its mailbox. *)
Record mail_heap (s : state) (tlh : Z) (Γ : gmap Z slab_ghost) (L G : list Z) (P : list (list Z))
    (R : list Z) : Prop := {
  mh_heap : heap s tlh Γ L G P;
  mh_head : exists t, h_tlhs s !! tlh = Some t /\ remote_free_head t = hd NULL R;
  mh_pending : pending s Γ L R
}.

(** What no operation of the heap on its objects changes in its record. *)
Definition rest_part (t : lz_tlh_t) :=
  (outgoing_batch t, thread_id t, is_zombie t, next_zombie t, stat_slot t).

(** What an operation of the heap does to its objects, with the mailbox left
    at [R']. *)
Record tlh_step (s : state) (tlh : Z) (Γ : gmap Z slab_ghost) (L G : list Z) (P : list (list Z))
    (dead : Z -> Prop) (new : Z -> Z -> Prop)
    (s' : state) (Γ' : gmap Z slab_ghost) (L' G' : list Z) (P' : list (list Z)) (R' : list Z)
    : Prop := {
  tp_heap : mail_heap s' tlh Γ' L' G' P' R';
  tp_objects : forall a n, object s' Γ' L' a n <-> object s Γ L a n /\ ~ dead a \/ new a n;
  tp_bytes : forall a n x, object s Γ L a n -> ~ dead a -> a <= x < a + n ->
    h_bytes s' !! x = h_bytes s !! x;
  tp_other : forall d, chunk_ok s d -> d ∉ G ++ concat P -> ~ owned Γ L d ->
    d ∉ G' ++ concat P' /\ ~ owned Γ' L' d /\ chunk_same s s' d;
  tp_mapped : forall x, mapped s x = true -> mapped s' x = true;
  tp_global : global_part s' = global_part s /\ forall t, t <> tlh -> h_tlhs s' !! t = h_tlhs s !! t;
  tp_fresh : forall a n m, new a n -> object s Γ L a m -> ~ dead a -> False;
  tp_record : forall t, h_tlhs s !! tlh = Some t ->
    exists t', h_tlhs s' !! tlh = Some t' /\ rest_part t' = rest_part t;
  tp_stats : forall p, is_Some (h_stats s !! p) -> is_Some (h_stats s' !! p);
  tp_index : forall d, owned Γ' L' d -> registers s' d \/
    owned Γ L d /\ rtree_view s' (block_of d) = rtree_view s (block_of d);
  tp_grows : only_grows s s';
  tp_entry : forall a n, object s Γ L a n -> ~ dead a ->
    rtree_view s' (block_of a) = rtree_view s (block_of a)
}.

Lemma tlh_step_keep s tlh Γ L G P R dead new s' Γ' L' G' P' :
  mail_heap s tlh Γ L G P R -> heap_step s tlh Γ L G P dead new s' Γ' L' G' P' ->
  (forall a, a ∈ R -> ~ dead a) -> tlh_step s tlh Γ L G P dead new s' Γ' L' G' P' R.
Proof.
  intros [Hh (t & Ht & Ehd) Hpe] Hst Hd. pose proof (heap_step_heap _ _ _ _ _ _ _ _ _ _ _ _ _ Hst) as Hh'.
  destruct Hst as [Hst _]. destruct (Hst) as [_ O B D M [Tg To Tm Ts] F I Lg V]. constructor; try done.
  2: { intros t0 (t' & ? & Em)%Tm. exists t'. split; [done|]. unfold rest_part. by injection Em as _ -> -> -> -> ->. }
  constructor; [done| |].
  - destruct (Tm t Ht) as (t' & ? & Em). exists t'. split; [done|]. rewrite <- Ehd. by injection Em.
  - eapply pending_step; [apply Hh|done..].
Qed.

Lemma record_trans tlh s1 s2 s3 :
  (forall t, h_tlhs s1 !! tlh = Some t ->
     exists t', h_tlhs s2 !! tlh = Some t' /\ rest_part t' = rest_part t) ->
  (forall t, h_tlhs s2 !! tlh = Some t ->
     exists t', h_tlhs s3 !! tlh = Some t' /\ rest_part t' = rest_part t) ->
  forall t, h_tlhs s1 !! tlh = Some t ->
     exists t', h_tlhs s3 !! tlh = Some t' /\ rest_part t' = rest_part t.
Proof.
  intros H12 H23 t (t1 & (t2 & ? & ?)%H23 & ?)%H12. exists t2. split; [done|congruence].
Qed.

Lemma tlh_step_trans s1 tlh Γ1 L1 G1 P1 dead1 s2 Γ2 L2 G2 P2 R2 dead2 new s3 Γ3 L3 G3 P3 R3 :
  tlh_step s1 tlh Γ1 L1 G1 P1 dead1 nothing_new s2 Γ2 L2 G2 P2 R2 ->
  tlh_step s2 tlh Γ2 L2 G2 P2 dead2 new s3 Γ3 L3 G3 P3 R3 ->
  tlh_step s1 tlh Γ1 L1 G1 P1 (fun a => dead1 a \/ dead2 a) new s3 Γ3 L3 G3 P3 R3.
Proof.
  intros [C1 O1 B1 D1 M1 [T1 T1'] _ K1 S1 I1 Lg1 V1] [C2 O2 B2 D2 M2 [T2 T2'] Fr2 K2 S2 I2 Lg2 V2].
  assert (forall a n, object s1 Γ1 L1 a n -> ~ dead1 a -> object s2 Γ2 L2 a n) as Hk.
  { intros a n Ha Hd. apply O1. by left. }
  constructor; [done| | | |auto| | |by eapply record_trans|auto|by eapply index_step_trans|
    by eapply only_grows_trans|intros a n Ha Hd; rewrite (V2 a n), (V1 a n); auto].
  - intros a n. rewrite O2, O1. unfold nothing_new. tauto.
  - intros a n x Ha Hd Hx. rewrite (B2 a n), (B1 a n); auto.
  - intros d Hd1 Hd2 Hd3. destruct (D1 d) as (Hn & Ho & E1); [done..|].
    destruct (D2 d) as (Hn' & Ho' & E2); [by eapply chunk_ok_mono|done..|].
    split_and!; [done|done|]. by eapply chunk_same_trans.
  - split; [congruence|]. intros t Ht. by rewrite T2', T1'.
  - intros a n m Hn Ha Hd. apply (Fr2 a n m Hn); auto.
Qed.

Lemma tlh_step_weaken s tlh Γ L G P dead new s' Γ' L' G' P' R' dead' new' :
  tlh_step s tlh Γ L G P dead new s' Γ' L' G' P' R' ->
  (forall a, dead' a <-> dead a) -> (forall a n, new' a n <-> new a n) ->
  tlh_step s tlh Γ L G P dead' new' s' Γ' L' G' P' R'.
Proof.
  intros [C O B D M T F K S' I Lg V] Hd Hn. constructor; try done.
  - intros a n. by rewrite Hd, Hn, O.
  - intros a n x Ha. rewrite Hd. eauto.
  - intros a n m. rewrite Hd, Hn. eauto.
  - intros a n Ha. rewrite Hd. eauto.
Qed.

(** Emptying the mailbox slot. *)
Lemma heap_set_mail s tlh Γ L G P t v :
  heap s tlh Γ L G P -> h_tlhs s !! tlh = Some t ->
  heap (set_h_tlhs (<[tlh := set_remote_free_head v t]> (h_tlhs s)) s) tlh Γ L G P.
Proof.
  intros [Hc Hb] Ht. constructor.
  - eapply core_local; [exact Hc|done| |done|done|].
    + intros t0 Ht0. rewrite Ht in Ht0. injection Ht0 as <-. cbn. rewrite lookup_insert_eq. eauto.
    + intros p g Hp. split; [by rewrite Hp|].
      eapply slab_ok_frame; [by apply (hc_slab _ _ _ _ _ _ Hc)|done..].
  - apply (bins_but_ext s _ _ Γ); [|done..]. intros t0 Ht0. rewrite Ht in Ht0. injection Ht0 as <-.
    cbn. rewrite lookup_insert_eq. eauto.
Qed.

Lemma wp_tlh_reap tlh R Γ L G P Q s :
  mail_heap s tlh Γ L G P R ->
  (forall s' Γ' L' G' P',
     tlh_step s tlh Γ L G P (fun a => a ∈ R) nothing_new s' Γ' L' G' P' [] -> Q tt s') ->
  wp (lz_tlh_reap tlh) Q s.
Proof.
  intros [Hh (t & Ht & Ehd) Hpe] HQ. unfold lz_tlh_reap.
  wp_step. eapply wp_tlh_at; [exact Ht|]. wp_step. eapply wp_update_tlh; [exact Ht|].
  set (s0 := set_h_tlhs _ s). assert (heap s0 tlh Γ L G P) as Hh0 by by apply heap_set_mail.
  assert (forall s' Γ' L' G' P', heap_step s0 tlh Γ L G P (fun a => a ∈ R) nothing_new s' Γ' L' G' P' ->
    Q tt s') as Hfin.
  { intros s' Γ' L' G' P' Hst. eapply HQ.
    pose proof (heap_step_heap _ _ _ _ _ _ _ _ _ _ _ _ _ Hst) as Hh'.
    destruct Hst as [[_ O B D M [Tg To Tm Ts] F I Lg V] _].
    constructor; [|exact O|exact B|exact D|exact M| |exact F| |exact Ts|exact I|by eapply (only_grows_trans s s0)|exact V].
    - constructor; [done| |by constructor; [|constructor|intros a []%not_elem_of_nil]].
      destruct (Tm (set_remote_free_head NULL t)) as (t' & ? & Em); [apply lookup_insert_eq|].
      exists t'. split; [done|]. by injection Em.
    - split; [by rewrite Tg|]. intros x Hx. rewrite To by done. cbn. by rewrite lookup_insert_ne.
    - intros t0 Ht0. rewrite Ht in Ht0. injection Ht0 as <-.
      destruct (Tm (set_remote_free_head NULL t)) as (t' & ? & Em); [apply lookup_insert_eq|].
      exists t'. split; [done|]. unfold rest_part. by injection Em as _ -> -> -> -> ->. }
  rewrite Ehd. destruct (Z.eqb_spec (hd NULL R) NULL) as [E|E].
  - wp_step. assert (R = []) as ->.
    { destruct R as [|a R]; [done|]. cbn in E. subst a.
      destruct (pe_object _ _ _ _ Hpe NULL) as [_ [n Hn]]; [set_solver|].
      destruct (object_header _ _ _ _ _ _ _ _ (hp_core _ _ _ _ _ _ Hh) Hn) as (_ & _ & ? & _). lia. }
    eapply Hfin. split; [|apply Hh0]. eapply core_step_weaken; [apply core_step_refl, Hh0| |done].
    intros a. unfold nothing. set_solver.
  - do 2 wp_step. eapply wp_reap_loop; [exact Hh0| |by eapply (pending_bound s)|exact Hfin].
    destruct Hpe as [? ? ?]. by constructor.
Qed.

(** ** Allocation from the current slab *)

Lemma ghost_nonnull s tlh Γ L G P p g : heap_core s tlh Γ L G P -> Γ !! p = Some g -> p <> NULL.
Proof. intros Hc Hp. destruct (slab_ok_range _ _ _ _ (hc_slab _ _ _ _ _ _ Hc p g Hp)). lia. Qed.

Lemma blk_nonnull s tlh p g k : slab_ok s tlh p g -> 0 <= k < sg_max g -> blk p g k <> NULL.
Proof.
  intros Hok Hk. destruct (slab_ok_range _ _ _ _ Hok). destruct (blk_in p g k (sb_ghost _ _ _ _ Hok)); lia.
Qed.

Lemma wp_has_free_node tlh p g Q s :
  slab_ok s tlh p g -> Q (match sg_free g with [] => false | _ => true end) s ->
  wp (has_free_node p) Q s.
Proof.
  intros Hok HQ. destruct (slab_ok_range _ _ _ _ Hok). destruct (sb_body _ _ _ _ Hok) as (sl & Hb & Hr).
  unfold has_free_node. zfalse (p =? NULL). wp_step.
  eapply wp_slab_at; [eapply slab_ok_mapped; [exact Hok|lia]|exact Hb|]. wp_step.
  rewrite (sr_head _ _ _ Hr). destruct (sg_free g) as [|k F] eqn:E; cbn [fmap list_fmap hd]; [done|].
  pose proof (sb_ghost _ _ _ _ Hok) as Hg. pose proof (go_n _ Hg).
  pose proof (go_free _ Hg k) as Hk. rewrite E in Hk. specialize (Hk ltac:(set_solver)).
  pose proof (blk_nonnull _ _ _ _ k Hok ltac:(lia)). by zfalse (blk p g k =? NULL).
Qed.

Section current.
Context (s : state) (tlh : Z) (Γ : gmap Z slab_ghost) (L G : list Z) (P : list (list Z)).
Context (i : Z) (t : lz_tlh_t) (b : lz_bin_t) (g : slab_ghost).
Context (Hh : heap s tlh Γ L G P) (Hi : 0 <= i < 88).
Context (Ht : h_tlhs s !! tlh = Some t) (Hb : bins t !! Z.to_nat i = Some b).
Context (Hg : Γ !! current_slab b = Some g) (Ei : sg_class g = i).

(** The current slab hands out one block of its class. *)
Definition handed (r : Z) (a n : Z) : Prop := a = r /\ n = lz_class_to_size i.

Lemma wp_pop_current k F Q :
  sg_free g = k :: F ->
  (forall r s' Γ', r <> NULL -> heap_step s tlh Γ L G P nothing (handed r) s' Γ' L G P ->
     h_tlhs s' = h_tlhs s -> of_class Γ' i (current_slab b) -> Q r s') ->
  wp (pop_free_list (current_slab b)) Q s.
Proof.
  intros EF HQ. pose proof (hc_slab _ _ _ _ _ _ (hp_core _ _ _ _ _ _ Hh) _ _ Hg) as Hok.
  pose proof (sb_ghost _ _ _ _ Hok) as Hgo. destruct (Hgo) as [_ Hn Hnd Hf]. rewrite EF in Hf, Hnd.
  apply NoDup_cons in Hnd as [HkF _]. pose proof (Hf k ltac:(set_solver)) as Hk.
  eapply wp_pop_free_list; [exact Hok|exact EF|]. intros s' Hon Hok'. eapply HQ.
  - apply (blk_nonnull s tlh); [done|lia].
  - eapply (heap_step_cur s tlh Γ L G P i t b g (with_free F g)); [done..|].
    eapply core_step_weaken; [eapply (core_step_take _ _ _ _ _ _ _ g _ k)|done|].
    + apply Hh.
    + done.
    + done.
    + intros [_ Hn']. rewrite EF in Hn'. set_solver.
    + intros j. unfold live. cbn [with_free sg_n sg_free]. rewrite EF, not_elem_of_cons.
      destruct (decide (j = k)) as [->|]; [|tauto]. split; [by right|]. intros _. done.
    + done.
    + done.
    + intros a n. unfold handed, sg_size. by rewrite Ei.
  - destruct Hon as (-> & _). done.
  - exists (with_free F g). by rewrite lookup_insert_eq.
Qed.

Lemma wp_pop_sized k F Q :
  sg_free g = k :: F ->
  (forall r s' Γ', r <> NULL -> heap_step s tlh Γ L G P nothing (handed r) s' Γ' L G P ->
     Q (r, lz_class_to_size i) s') ->
  wp (pop_sized (current_slab b)) Q s.
Proof.
  intros EF HQ. unfold pop_sized. wp_step. eapply wp_pop_current; [exact EF|].
  intros r s' Γ' Hr Hst _ (g' & Hg' & Ei'). wp_step.
  pose proof (hc_slab _ _ _ _ _ _ (cs_core _ _ _ _ _ _ _ _ _ _ _ _ _ (proj1 Hst)) _ _ Hg') as Hok.
  destruct (sb_body _ _ _ _ Hok) as (sl & Hbs & Hrep).
  eapply wp_slab_at; [eapply slab_ok_mapped; [exact Hok|lia]|exact Hbs|]. wp_step.
  rewrite (sr_size _ _ _ Hrep). unfold sg_size. rewrite Ei'. by eapply HQ.
Qed.

(** Carving a block when the free list is empty, and the exhausted slab. *)
Lemma wp_bump_current Q :
  sg_free g = [] ->
  (forall r s' Γ', r <> NULL -> heap_step s tlh Γ L G P nothing (handed r) s' Γ' L G P ->
     Q (r, lz_class_to_size i) s') ->
  (forall s', full_slab g -> heap_step s tlh Γ L G P nothing nothing_new s' Γ L G P ->
     h_tlhs s' = h_tlhs s -> Q (NULL, 0) s') ->
  wp (bump_alloc (current_slab b)) Q s.
Proof.
  intros EF HQ Hno. pose proof (hc_slab _ _ _ _ _ _ (hp_core _ _ _ _ _ _ Hh) _ _ Hg) as Hok.
  pose proof (go_n _ (sb_ghost _ _ _ _ Hok)) as Hn.
  eapply wp_bump_alloc; [exact Hok|..].
  - intros Hlt s' Hon Hok'. unfold sg_size. rewrite Ei. eapply HQ.
    + apply (blk_nonnull s tlh); [done|lia].
    + eapply (heap_step_cur s tlh Γ L G P i t b g (with_n (sg_n g + 1) g)); [done..|].
      eapply core_step_weaken; [eapply (core_step_take _ _ _ _ _ _ _ g _ (sg_n g))|done|].
      * apply Hh.
      * done.
      * done.
      * intros [? _]. lia.
      * intros j. unfold live. cbn [with_n sg_n sg_free]. rewrite EF.
        pose proof (not_elem_of_nil j). split; [|intros [[? ?]| ->]; (split; [lia|done])].
        intros [? ?]. destruct (decide (j = sg_n g)); [by right|left; split; [lia|done]].
      * done.
      * done.
      * intros a n. unfold handed, sg_size. by rewrite Ei.
  - intros Hfull s' Hon Hok'. eapply Hno; [by split| |destruct Hon as (-> & _); done].
    rewrite <- (insert_id Γ (current_slab b) g) at 2 by done.
    eapply (heap_step_cur s tlh Γ L G P i t b g g); [done..|].
    eapply core_step_weaken.
    + destruct Hon as (Es & _ & Hbd). eapply (core_step_slab s tlh Γ L G P _ g g);
        [apply Hh|done|done|by rewrite Es|done|done|left; by rewrite Es].
    + intros a. unfold nothing. split; [done|]. by intros (k & ? & ? & _).
    + intros a n. unfold nothing_new. split; [done|]. by intros (k & ? & ? & _).
Qed.

End current.

(** ** The fast and warm paths *)

(** Bin [i] of the heap. *)
Definition bin_is (s : state) (tlh i : Z) (b : lz_bin_t) : Prop :=
  exists t, h_tlhs s !! tlh = Some t /\ bins t !! Z.to_nat i = Some b.

Lemma wp_bin_at tlh i b Q s : bin_is s tlh i b -> Q b s -> wp (bin_at tlh i) Q s.
Proof.
  intros (t & Ht & Hb) HQ. unfold bin_at. wp_step. eapply wp_tlh_at; [done|]. rewrite Hb. by wp_step.
Qed.

(** The current slab is absent or a slab of the class. *)
Lemma heap_bin s tlh Γ L G P i : heap s tlh Γ L G P -> 0 <= i < 88 ->
  exists b, bin_is s tlh i b /\
    (current_slab b = NULL \/ exists g, Γ !! current_slab b = Some g /\ sg_class g = i).
Proof.
  intros Hh Hi. destruct (bins_ok_class _ _ _ i (hp_bins _ _ _ _ _ _ Hh) Hi)
    as (t & b & Pl & Fl & Ht & Hb & _ & Hcv).
  exists b. split; [by exists t|]. destruct (cv_cur _ _ _ _ _ Hcv) as [?|[(g & ? & ?) _]]; eauto.
Qed.

(** The attempt on the current slab, before or after the reap. *)
Lemma wp_try_current tlh i Γ L G P (k : Z -> M (Z * Z)) Q s :
  heap s tlh Γ L G P -> 0 <= i < 88 ->
  (forall r s' Γ', r <> NULL -> heap_step s tlh Γ L G P nothing (handed i r) s' Γ' L G P ->
     Q (r, lz_class_to_size i) s') ->
  (forall b, bin_is s tlh i b ->
     (current_slab b = NULL \/
      exists g, Γ !! current_slab b = Some g /\ sg_class g = i /\ sg_free g = []) ->
     wp (k (current_slab b)) Q s) ->
  wp (bin ← bin_at tlh i;
      let slab := current_slab bin in
      b ← has_free_node slab;
      if b : bool then pop_sized slab else k slab) Q s.
Proof.
  intros Hh Hi HQ Hk. destruct (heap_bin _ _ _ _ _ _ _ Hh Hi) as (b & (t & Ht & Hb) & Hcur).
  assert (bin_is s tlh i b) as Hbin by (by exists t).
  wp_step. eapply wp_bin_at; [exact Hbin|]. cbv zeta. wp_step.
  destruct Hcur as [E|(g & Hg & Ei)].
  { unfold has_free_node. rewrite E. cbn [Z.eqb]. wp_step. rewrite <- E. apply Hk; [done|by left]. }
  eapply wp_has_free_node; [by apply (hc_slab _ _ _ _ _ _ (hp_core _ _ _ _ _ _ Hh))|].
  destruct (sg_free g) as [|j F] eqn:EF.
  - apply Hk; [done|right; eauto].
  - eapply wp_pop_sized; eauto.
Qed.

Lemma wp_alloc_fast tlh i Γ L G P R Q s :
  mail_heap s tlh Γ L G P R -> 0 <= i < 88 ->
  (forall r R0 s' Γ' L' G' P' R', R0 = [] /\ R' = R \/ R0 = R /\ R' = [] -> r <> NULL ->
     tlh_step s tlh Γ L G P (fun a => a ∈ R0) (handed i r) s' Γ' L' G' P' R' ->
     Q (r, lz_class_to_size i) s') ->
  (forall s' Γ' L' G' P' b,
     tlh_step s tlh Γ L G P (fun a => a ∈ R) nothing_new s' Γ' L' G' P' [] ->
     bin_is s' tlh i b -> no_block Γ' i (current_slab b) -> Q (NULL, 0) s') ->
  wp (tlh_alloc_fast tlh i) Q s.
Proof.
  intros Hmh Hi HQ Hno. unfold tlh_alloc_fast.
  eapply (wp_try_current tlh i Γ L G P (fun _ => lz_tlh_reap tlh;; bin ← bin_at tlh i;
    let slab := current_slab bin in
    b ← has_free_node slab; if b : bool then pop_sized slab else bump_alloc slab));
    [apply Hmh|done|..].
  { intros r s' Γ' Hr Hst. eapply (HQ r [] s' Γ' L G P R); [by left|done|].
    eapply tlh_step_weaken; [eapply tlh_step_keep; [exact Hmh|exact Hst|auto]| |done].
    intros a. unfold nothing. set_solver. }
  intros _ _ _. wp_step. eapply wp_tlh_reap; [exact Hmh|]. intros s1 Γ1 L1 G1 P1 Hs1.
  pose proof (tp_heap _ _ _ _ _ _ _ _ _ _ _ _ _ _ Hs1) as Hmh1.
  assert (forall new s2 Γ2, heap_step s1 tlh Γ1 L1 G1 P1 nothing new s2 Γ2 L1 G1 P1 ->
    tlh_step s tlh Γ L G P (fun a => a ∈ R) new s2 Γ2 L1 G1 P1 []) as Hthen.
  { intros new s2 Γ2 Hst. eapply tlh_step_weaken.
    - eapply tlh_step_trans; [exact Hs1|]. eapply tlh_step_keep; [exact Hmh1|exact Hst|auto].
    - intros a. unfold nothing. tauto.
    - done. }
  eapply (wp_try_current tlh i Γ1 L1 G1 P1 bump_alloc); [apply Hmh1|done|..].
  { intros r s2 Γ2 Hr Hst. apply (HQ r R s2 Γ2 L1 G1 P1 []); [by right|done|by apply Hthen]. }
  intros b (t & Ht & Hb) [E|(g & Hg & Ei & EF)].
  - unfold bump_alloc. rewrite E. cbn [Z.eqb]. wp_step. eapply Hno; [exact Hs1|by exists t|by left].
  - eapply wp_bump_current; [apply Hmh1|exact Hi|exact Ht|exact Hb|exact Hg|exact Ei|exact EF|..].
    + intros r s2 Γ2 Hr Hst. apply (HQ r R s2 Γ2 L1 G1 P1 []); [by right|done|by apply Hthen].
    + intros s2 Hfull Hst Eh. eapply (Hno s2 Γ1 L1 G1 P1 b); [by apply Hthen|exists t; by rewrite Eh|].
      right. eauto.
Qed.

(** ** The slow path *)

Lemma wp_retire_if s0 tlh i X cur Pl Fl Q s lk b :
  (forall p, X p -> has_slab s0 p) -> relinked s0 tlh i X s lk b -> lists lk b Pl Fl ->
  (forall q, q ∈ Pl ++ Fl -> X q) -> (cur <> NULL -> X cur /\ cur ∉ Pl ++ Fl) ->
  (forall s' lk' b', relinked s0 tlh i X s' lk' b' -> lists lk' b' Pl (retired cur Fl) ->
     partial_list b' = partial_list b -> Q tt s') ->
  wp (retire_current tlh i cur) Q s.
Proof.
  intros HN Hr Hli HX Hc HQ. unfold retired in HQ. destruct (Z.eqb_spec cur NULL) as [E|E].
  - unfold retire_current. rewrite E. cbn [Z.eqb negb]. wp_step. eapply HQ; eauto.
  - destruct (Hc E) as [HXc Hn]. eapply (wp_retire s0 tlh i X HN); [exact Hr|exact Hli| |done|done|exact HQ].
    intros q [->|Hq]%elem_of_cons; [done|auto].
Qed.

Lemma ghost_null s tlh Γ L G P : heap_core s tlh Γ L G P -> Γ !! NULL = None.
Proof. intros Hc. destruct (Γ !! NULL) eqn:E; [|done]. by apply (ghost_nonnull _ _ _ _ _ _ _ _ Hc) in E. Qed.

(** The first partial slab takes the place of the exhausted one. *)
Lemma wp_slow_partial tlh i Γ L G P t b p Pl Fl Q s :
  heap s tlh Γ L G P -> 0 <= i < 88 -> h_tlhs s !! tlh = Some t -> bins t !! Z.to_nat i = Some b ->
  lists (links s) b (p :: Pl) Fl -> cover Γ i (current_slab b) (p :: Pl) Fl ->
  no_block Γ i (current_slab b) ->
  (forall r s' Γ' b', r <> NULL -> heap_step s tlh Γ L G P nothing (handed i r) s' Γ' L G P ->
     bin_is s' tlh i b' -> of_class Γ' i (current_slab b') -> Q r s') ->
  wp (retire_current tlh i (current_slab b);;
      promote_partial tlh i;;
      bin ← bin_at tlh i;
      pop_free_list (current_slab bin)) Q s.
Proof.
  intros [Hc Hb] Hi Ht Hlb Hli Hcv Hnb HQ.
  assert (forall q, of_class Γ i q -> has_slab s q) as HN by (intros q; by eapply of_class_slab).
  pose proof (relinked_refl s tlh i (of_class Γ i) t b Ht Hlb) as Hr.
  assert (forall q, q ∈ retired (current_slab b) Fl -> of_class Γ i q) as HF.
  { intros q (g & ? & ? & _)%(proj1 (cover_retired _ _ _ _ _ Hcv Hnb)). by exists g. }
  assert (forall q, q ∈ (p :: Pl) ++ Fl -> of_class Γ i q) as HX by (intros; by eapply cover_member).
  wp_step. eapply (wp_retire_if s tlh i (of_class Γ i)); [done|exact Hr|exact Hli|done| |].
  { intros Hn. destruct (cv_cur _ _ _ _ _ Hcv) as [?|[? ?]]; done. }
  intros s1 lk1 b1 Hr1 Hl1 _.
  destruct (cv_partial _ _ _ _ _ Hcv p) as (g & Hg & Ei & _ & HF' & _); [set_solver|].
  assert (of_class Γ i p) as Hop by (by exists g). destruct (HN p Hop) as [_ [sl Hsl]].
  wp_step. eapply (wp_promote s tlh i (of_class Γ i) HN p sl); [exact Hr1|exact Hl1| |exact Hsl|].
  { intros q [?|?]%elem_of_app; [apply HX; set_solver|auto]. }
  intros s2 lk2 b2 Hr2 Hl2 Ec2.
  assert (core_step s tlh Γ L G P nothing nothing_new s2 Γ L G P) as Hst2.
  { eapply core_step_links; [done|exact Hr2|]. by intros q (h & -> & _). }
  assert (bins_ok s2 tlh Γ) as Hb2.
  { eapply bins_restore; [by apply bins_ok_but|exact Hi|exact Hr2|done|done|exact Hl2|].
    rewrite Ec2. apply cover_promote; [done|apply Hli|done|by eapply ghost_null]. }
  wp_step. eapply wp_rl_bin; [exact Hr2|].
  destruct (rl_tlh _ _ _ _ _ _ _ Hr2) as (t0 & Ht0 & Hlt & Et2). rewrite Ht in Ht0. injection Ht0 as <-.
  assert (h_tlhs s2 !! tlh = Some (set_bins (<[Z.to_nat i := b2]> (bins t)) t)) as Ht2
    by (by rewrite Et2, lookup_insert_eq).
  assert (bins (set_bins (<[Z.to_nat i := b2]> (bins t)) t) !! Z.to_nat i = Some b2) as Hlb2
    by (cbn; by apply list_lookup_insert_eq).
  destruct (sg_free g) as [|k F] eqn:EF; [done|].
  eapply (wp_pop_current s2 tlh Γ L G P i _ b2 g); [constructor; [apply Hst2|done]|done|exact Ht2|done| |done|exact EF|].
  { by rewrite Ec2. }
  intros r s3 Γ3 Hr3 [Hst3 Hb3] Eh3 Ho3. eapply (HQ r s3 Γ3 b2); [done| |by exists (set_bins (<[Z.to_nat i := b2]> (bins t)) t); rewrite Eh3|done].
  split; [by eapply core_step_before|done].
Qed.

(** Bins of the other classes after a slab of class [i] was created. *)
Lemma created_bins s tlh Γ L G P c i s1 G' P' :
  heap s tlh Γ L G P -> slab_created s tlh c i G P s1 G' P' ->
  let Γ1 := <[c + 64 := fresh_ghost i]> Γ in
  core_step s tlh Γ L G P nothing nothing_new s1 Γ1 L G' P' /\ bins_but s1 tlh Γ1 i /\
  Γ !! (c + 64) = None /\ h_tlhs s1 = h_tlhs s /\
  (forall q j, of_class Γ j q -> of_class Γ1 j q /\ links s1 q = links s q).
Proof.
  intros [Hc Hb] Hcr Γ1. destruct (core_step_create _ _ _ _ _ _ _ _ _ _ _ Hc Hcr) as (Hst & Hnew & Hsame).
  assert (Γ !! (c + 64) = None) as HΓ.
  { destruct (Γ !! (c + 64)) eqn:E; [|done]. exfalso. apply Hnew. right. by rewrite E. }
  destruct (thread_global _ _ (sc_thread _ _ _ _ _ _ _ _ _ Hcr)) as (_ & Eh & _).
  assert (forall q j, of_class Γ j q -> of_class Γ1 j q /\ links s1 q = links s q) as Hof.
  { intros q j (g & Hg & Hj). split.
    - exists g. unfold Γ1. rewrite lookup_insert_ne; [done|]. intros <-. congruence.
    - apply links_body, Hsame. right. by replace (q - 64 + 64) with q by lia. }
  split_and!; [done| |done|done|done].
  apply (bins_but_ext s _ _ Γ); [rewrite Eh; eauto|intros q j _ Hq; by eapply Hof| |by apply bins_ok_but].
  intros q h Hne. unfold Γ1. rewrite lookup_insert_Some. split; [by intros [[_ <-]|[_ ?]]|].
  intros Hq. right. split; [|done]. intros <-. congruence.
Qed.

(** The exhausted slab is retired and the new one made current. *)
Lemma wp_install_slab {A} tlh i Γ L G P t b Fl c G' P' (k : M A) Q s s1 :
  heap s tlh Γ L G P -> 0 <= i < 40 -> h_tlhs s !! tlh = Some t -> bins t !! Z.to_nat i = Some b ->
  lists (links s) b [] Fl -> cover Γ i (current_slab b) [] Fl -> no_block Γ i (current_slab b) ->
  slab_created s tlh c i G P s1 G' P' ->
  let Γ1 := <[c + 64 := fresh_ghost i]> Γ in
  (forall s2 b2, heap_step s tlh Γ L G P nothing nothing_new s2 Γ1 L G' P' ->
     bin_is s2 tlh i b2 -> current_slab b2 = c + 64 -> wp k Q s2) ->
  wp (retire_current tlh i (current_slab b);;
      update_bin tlh i (set_current_slab (c + 64));;
      k) Q s1.
Proof.
  intros Hh Hi Ht Hlb Hli Hcv Hnb Hcr Γ1 HQ.
  destruct (created_bins _ _ _ _ _ _ _ _ _ _ _ Hh Hcr) as (Hst1 & Hbb1 & HΓ & Eh1 & Hof).
  fold Γ1 in Hst1, Hbb1, Hof.
  pose proof (cs_core _ _ _ _ _ _ _ _ _ _ _ _ _ Hst1) as Hc1.
  assert (forall q, of_class Γ1 i q -> has_slab s1 q) as HN by (intros q; by eapply of_class_slab).
  assert (relinked s1 tlh i (of_class Γ1 i) s1 (links s1) b) as Hr1
    by (eapply relinked_refl; [by rewrite Eh1|done]).
  assert (forall q, q ∈ [] ++ Fl -> of_class Γ i q) as HX by (intros; by eapply cover_member).
  wp_step. eapply (wp_retire_if s1 tlh i (of_class Γ1 i) (current_slab b) [] Fl); [done|exact Hr1|..].
  { eapply lists_ext; [|exact Hli]. intros q Hq. by eapply Hof, HX. }
  { intros q Hq. by apply Hof, HX. }
  { intros Hn. destruct (cv_cur _ _ _ _ _ Hcv) as [?|[? ?]]; [done|]. split; [by apply Hof|done]. }
  intros s2 lk2 b2 Hr2 Hl2 _. wp_step. eapply wp_rl_update_bin; [exact Hr2|]. intros s3 Hr3.
  destruct (rl_tlh _ _ _ _ _ _ _ Hr3) as (t0 & Ht0 & Hlt & Et3).
  eapply (HQ s3 (set_current_slab (c + 64) b2)); [split| |done].
  - eapply core_step_before; [exact Hst1|]. eapply core_step_links; [done|exact Hr3|].
    by intros q (h & -> & _).
  - eapply bins_restore; [exact Hbb1|lia|exact Hr3|done|done|destruct Hl2; by constructor|].
    cbn. apply cover_fresh; [done|done|by eapply ghost_null, Hh|done].
  - eexists. rewrite Et3, lookup_insert_eq. split; [done|]. cbn. by apply list_lookup_insert_eq.
Qed.

(** The first block of a new current slab. *)
Lemma wp_first_block tlh i Γ L G P b c Q s :
  heap s tlh Γ L G P -> 0 <= i < 40 -> bin_is s tlh i b -> current_slab b = c + 64 ->
  Γ !! (c + 64) = Some (fresh_ghost i) ->
  (forall r s' Γ', r <> NULL -> heap_step s tlh Γ L G P nothing (handed i r) s' Γ' L G P ->
     bin_is s' tlh i b -> of_class Γ' i (current_slab b) -> Q r s') ->
  wp (sl ← slab_at (c + 64);
      let ptr := bump_ptr sl in
      update_slab (c + 64) (set_bump_ptr (ptr + block_size sl));;
      update_slab (c + 64) (fun sl => set_used_objects (u32 (used_objects sl + 1)) sl);;
      mret ptr) Q s.
Proof.
  intros Hh Hi (t & Ht & Hlb) Ec Hg HQ. set (g := fresh_ghost i) in *.
  pose proof (hc_slab _ _ _ _ _ _ (hp_core _ _ _ _ _ _ Hh) _ _ Hg) as Hok.
  destruct (sg_max_bounds _ (sb_ghost _ _ _ _ Hok)) as [Hmax _].
  destruct (sb_body _ _ _ _ Hok) as (sl & Hsl & [_ _ Hbump _ _ Hsz _ _]).
  assert (sg_n g = 0) as En by done.
  wp_step. eapply wp_slab_at; [eapply slab_ok_mapped; [exact Hok|lia]|exact Hsl|]. cbv zeta.
  destruct Hbump as [Hbump|[_ E]]; [|lia]. rewrite Hbump, Hsz.
  replace (blk (c + 64) g (sg_n g) + sg_size g) with (blk (c + 64) g (sg_n g + 1)) by (unfold blk; lia).
  eapply wp_carve; [exact Hok|lia|]. intros s4 Hon Hok4. rewrite <- Ec in Hg, Hok4, Hon.
  eapply (HQ _ s4 (<[current_slab b := with_n (sg_n g + 1) g]> Γ)).
  - apply (blk_nonnull s tlh); [done|lia].
  - eapply (heap_step_cur s tlh Γ L G P i t b g); [done|lia|done..|].
    eapply core_step_weaken; [eapply (core_step_take _ _ _ _ _ _ _ g _ (sg_n g))|done|];
      [apply Hh|exact Hg|done| | |done|exact Hok4|by rewrite Ec].
    + intros [? _]. lia.
    + intros j. unfold live. cbn. pose proof (not_elem_of_nil j).
      split; [intros [? _]; right; lia|]. intros [[? _]| ->]; [lia|split; [lia|done]].
  - exists t. destruct Hon as (-> & _). done.
  - exists (with_n (sg_n g + 1) g). by rewrite lookup_insert_eq.
Qed.

(** A new slab takes the place of the exhausted one. *)
Lemma wp_slow_create tlh i Γ L G P t b Fl Q s :
  heap s tlh Γ L G P -> 0 <= i < 40 -> h_tlhs s !! tlh = Some t -> bins t !! Z.to_nat i = Some b ->
  lists (links s) b [] Fl -> cover Γ i (current_slab b) [] Fl -> no_block Γ i (current_slab b) ->
  (forall s' G' P', heap_step s tlh Γ L G P nothing nothing_new s' Γ L G' P' -> refused_since s s' ->
     Q NULL s') ->
  (forall r s' Γ' G' P' b', r <> NULL -> heap_step s tlh Γ L G P nothing (handed i r) s' Γ' L G' P' ->
     bin_is s' tlh i b' -> of_class Γ' i (current_slab b') -> Q r s') ->
  wp (new_slab ← lz_slab_create tlh i;
      if new_slab =? NULL then mret NULL
      else
        retire_current tlh i (current_slab b);;
        update_bin tlh i (set_current_slab new_slab);;
        sl ← slab_at new_slab;
        let ptr := bump_ptr sl in
        update_slab new_slab (set_bump_ptr (ptr + block_size sl));;
        update_slab new_slab (fun sl => set_used_objects (u32 (used_objects sl + 1)) sl);;
        mret ptr) Q s.
Proof.
  intros Hh Hi Ht Hlb Hli Hcv Hnb Hno HQ. destruct (Hh) as [Hc Hb].
  wp_step. eapply (wp_slab_create tlh i G P); [apply Hc|apply Hc|done|..].
  { intros s1 G' P' Hv Hr Er Et Hf Ho Href. cbn [Z.eqb]. wp_step. eapply Hno; [|exact Href].
    destruct (thread_global _ _ Et) as (_ & Eh & _). split; [by eapply core_step_no_chunk|].
    apply (bins_but_ext s _ _ Γ); [rewrite Eh; eauto| |done|done].
    intros q j _ Hq. apply links_body, Hf; [|done]. by eapply (of_class_slab _ _ _ _ _ _ j). }
  intros c s1 G' P' Hc0 Hcr. zfalse (c + 64 =? NULL).
  eapply (wp_install_slab tlh i Γ L G P t b Fl); [done..|exact Hcr|]. intros s2 b2 Hst2 Hbin2 Ec2.
  pose proof (heap_step_heap _ _ _ _ _ _ _ _ _ _ _ _ _ Hst2) as Hh2. destruct Hst2 as [Hst2 _].
  eapply wp_first_block; [exact Hh2|done|exact Hbin2|done|apply lookup_insert_eq|].
  intros r s3 Γ3 Hr [Hst3 Hb3] Hbin3 Ho3. eapply (HQ r s3 Γ3 G' P' b2); [done| |done|done].
  split; [by eapply core_step_before|done].
Qed.

Lemma wp_alloc_slow tlh i Γ L G P b Q s :
  heap s tlh Γ L G P -> 0 <= i < 40 -> bin_is s tlh i b -> no_block Γ i (current_slab b) ->
  (forall s' G' P', heap_step s tlh Γ L G P nothing nothing_new s' Γ L G' P' -> refused_since s s' ->
     Q NULL s') ->
  (forall r s' Γ' G' P' b', r <> NULL -> heap_step s tlh Γ L G P nothing (handed i r) s' Γ' L G' P' ->
     bin_is s' tlh i b' -> of_class Γ' i (current_slab b') -> Q r s') ->
  wp (lz_tlh_alloc_slow tlh i) Q s.
Proof.
  intros Hh Hi (t & Ht & Hb) Hnb Hno HQ.
  destruct (bins_ok_class _ _ _ i (hp_bins _ _ _ _ _ _ Hh)) as (t' & b' & Pl & Fl & Ht' & Hb' & Hli & Hcv); [lia|].
  rewrite Ht in Ht'. injection Ht' as <-. rewrite Hb in Hb'. injection Hb' as <-.
  unfold lz_tlh_alloc_slow. wp_step. eapply wp_bin_at; [by exists t|]. cbv zeta.
  destruct (Z.eqb_spec (partial_list b) NULL) as [E|E]; cbn [negb].
  - pose proof (li_partial _ _ _ _ Hli) as Hd. rewrite E in Hd. apply dll_nil in Hd as ->.
    eapply wp_slow_create; eauto.
  - destruct (dll_head _ _ _ _ (li_partial _ _ _ _ Hli) E) as [Pl' ->].
    eapply wp_slow_partial; [exact Hh|lia|exact Ht|exact Hb|exact Hli|exact Hcv|exact Hnb|].
    intros. by eapply HQ.
Qed.

(** ** Allocation *)

Lemma tlh_step_after s tlh Γ L G P dead new s1 Γ1 L1 G1 P1 R1 s2 Γ2 L2 G2 P2 :
  tlh_step s tlh Γ L G P dead new s1 Γ1 L1 G1 P1 R1 ->
  heap_step s1 tlh Γ1 L1 G1 P1 nothing nothing_new s2 Γ2 L2 G2 P2 ->
  tlh_step s tlh Γ L G P dead new s2 Γ2 L2 G2 P2 R1.
Proof.
  intros Hs Hst. pose proof (tp_heap _ _ _ _ _ _ _ _ _ _ _ _ _ _ Hs) as Hmh.
  pose proof (tlh_step_keep _ _ _ _ _ _ _ _ _ _ _ _ _ _ Hmh Hst) as Hs2.
  destruct Hs2 as [C2 O2 B2 D2 M2 [T2 T2'] _ K2 S2 I2 Lg2 V2]; [auto|].
  destruct Hs as [C1 O1 B1 D1 M1 [T1 T1'] Fr1 K1 S1 I1 Lg1 V1].
  constructor; [done| | | |auto| |exact Fr1|by eapply record_trans|auto|by eapply index_step_trans|
    by eapply only_grows_trans|intros a n Ha Hd; rewrite (V2 a n), (V1 a n); auto; apply O1; by left].
  - intros a n. rewrite O2, O1. unfold nothing, nothing_new. tauto.
  - intros a n x Ha Hd Hx. rewrite (B2 a n), (B1 a n); auto. apply O1. by left.
  - intros d Hd1 Hd2 Hd3. destruct (D1 d) as (Hn & Ho & E1); [done..|].
    destruct (D2 d) as (Hn' & Ho' & E2); [by eapply chunk_ok_mono|done..|].
    split_and!; [done|done|]. by eapply chunk_same_trans.
  - split; [congruence|]. intros t Ht. by rewrite T2', T1'.
Qed.

(** The statistics at the end of an allocation. *)
Lemma wp_alloc_count {A} tlh n (r : A) Γ L G P Q s :
  heap s tlh Γ L G P ->
  (forall s', heap_step s tlh Γ L G P nothing nothing_new s' Γ L G P -> Q r s') ->
  wp (update_tlh tlh (fun t => set_bytes_allocated (u64 (bytes_allocated t + n)) t);;
      count_alloc tlh n;;
      mret r) Q s.
Proof.
  intros Hh HQ.
  destruct (sh_tlh _ _ _ _ _ (hc_span _ _ _ _ _ _ (hp_core _ _ _ _ _ _ Hh))) as (t & Ht & _ & Hst).
  wp_step. eapply wp_update_tlh; [exact Ht|]. set (t1 := set_bytes_allocated _ t).
  set (s1 := set_h_tlhs _ s).
  assert (heap_step s tlh Γ L G P nothing nothing_new s1 Γ L G P) as Hs1.
  { eapply (heap_step_record s tlh Γ L G P t t1 (h_stats s)); try done. }
  assert (h_tlhs s1 !! tlh = Some t1) as Ht1 by apply lookup_insert_eq.
  wp_step. eapply wp_count_alloc; [exact Ht1|exact Hst|]. intros v st Hdom. wp_step. eapply HQ.
  pose proof (heap_step_heap _ _ _ _ _ _ _ _ _ _ _ _ _ Hs1) as Hh1.
  destruct (heap_step_record s1 tlh Γ L G P t1 (set_local_bytes_alloc_batch v t1) st
    (set_h_tlhs (<[tlh := set_local_bytes_alloc_batch v t1]> (h_tlhs s1)) (set_h_stats st s1)))
    as [Hs2 Hb2]; [done..| |done|].
  { intros p Hp. by apply Hdom. }
  split; [|done]. destruct Hs1 as [Hs1 _]. by eapply core_step_before.
Qed.

(** What the caller of an allocation gets: one new object of [n] bytes at
    [r], after the mailbox was possibly emptied, or none when the kernel
    refused memory on the way. *)
Definition alloc_result s tlh Γ L G P R (n r : Z) (s' : state) : Prop :=
  exists R0 Γ' L' G' P' R', (R0 = [] /\ R' = R \/ R0 = R /\ R' = []) /\
    tlh_step s tlh Γ L G P (fun a => a ∈ R0) (fun a m => r <> NULL /\ a = r /\ m = n)
      s' Γ' L' G' P' R' /\ (r = NULL -> refused_since s s').

Lemma wp_tlh_alloc_slab tlh size Γ L G P R Q s :
  mail_heap s tlh Γ L G P R -> 0 <= size <= LZ_MAX_SLAB_OBJ_SIZE ->
  (forall r s', alloc_result s tlh Γ L G P R (lz_class_to_size (lz_size_to_class size)) r s' ->
     Q r s') ->
  wp (lz_tlh_alloc tlh size) Q s.
Proof.
  intros Hmh Hsz HQ. pose proof (slab_class_bound size Hsz) as Hi. unfold lz_tlh_alloc.
  zfalse (LZ_MAX_SLAB_OBJ_SIZE <? size). cbv zeta. set (i := lz_size_to_class size) in *.
  assert (forall r R0 s1 Γ1 L1 G1 P1 R1, (R0 = [] /\ R1 = R \/ R0 = R /\ R1 = []) -> r <> NULL ->
    tlh_step s tlh Γ L G P (fun a => a ∈ R0) (handed i r) s1 Γ1 L1 G1 P1 R1 ->
    wp (if r =? NULL then mret NULL
        else
          update_tlh tlh (fun t => set_bytes_allocated (u64 (bytes_allocated t + lz_class_to_size i)) t);;
          count_alloc tlh (lz_class_to_size i);;
          mret r) Q s1) as Hfin.
  { intros r R0 s1 Γ1 L1 G1 P1 R1 HR Hr Hs1. zfalse (r =? NULL).
    eapply (wp_alloc_count tlh _ r Γ1 L1 G1 P1); [apply Hs1|]. intros s2 Hst.
    apply HQ. exists R0, Γ1, L1, G1, P1, R1. split_and!; [done| |done].
    eapply tlh_step_after; [|exact Hst]. eapply tlh_step_weaken; [exact Hs1|done|].
    intros a m. unfold handed. tauto. }
  wp_step. eapply wp_alloc_fast; [exact Hmh|lia|..].
  - intros r R0 s1 Γ1 L1 G1 P1 R1 HR Hr Hs1. cbv beta iota. wp_step.
    rewrite (proj2 (Z.eqb_neq r NULL) Hr). wp_step. cbv beta iota. by eapply Hfin.
  - intros s1 Γ1 L1 G1 P1 b Hs1 Hbin Hnb. cbv beta iota. cbn [Z.eqb].
    pose proof (tp_heap _ _ _ _ _ _ _ _ _ _ _ _ _ _ Hs1) as Hmh1.
    assert (forall new s2 Γ2 G2 P2, heap_step s1 tlh Γ1 L1 G1 P1 nothing new s2 Γ2 L1 G2 P2 ->
      tlh_step s tlh Γ L G P (fun a => a ∈ R) new s2 Γ2 L1 G2 P2 []) as Hthen.
    { intros new s2 Γ2 G2 P2 Hst. eapply tlh_step_weaken.
      - eapply tlh_step_trans; [exact Hs1|]. eapply tlh_step_keep; [exact Hmh1|exact Hst|auto].
      - intros a. unfold nothing. tauto.
      - done. }
    wp_step. wp_step. eapply wp_alloc_slow; [apply Hmh1|lia|exact Hbin|exact Hnb|..].
    + intros s2 G2 P2 Hst Href. cbn [Z.eqb]. wp_step. cbv beta iota. cbn [Z.eqb]. wp_step. apply HQ.
      exists R, Γ1, L1, G2, P2, []. split; [by right|].
      split; [|intros _; eapply refused_since_after; [apply (tp_grows _ _ _ _ _ _ _ _ _ _ _ _ _ _ Hs1)|done]].
      eapply tlh_step_weaken; [by apply Hthen|done|]. intros a m. unfold nothing_new. tauto.
    + intros r s2 Γ2 G2 P2 b2 Hr Hst Hbin2 (g & Hg & Eg).
      rewrite (proj2 (Z.eqb_neq r NULL) Hr). wp_step. eapply wp_bin_at; [exact Hbin2|].
      pose proof (hc_slab _ _ _ _ _ _ (cs_core _ _ _ _ _ _ _ _ _ _ _ _ _ (proj1 Hst)) _ _ Hg) as Hok.
      destruct (sb_body _ _ _ _ Hok) as (sl & Hsl & Hrep).
      wp_step. eapply wp_slab_at; [eapply slab_ok_mapped; [exact Hok|lia]|exact Hsl|].
      wp_step. cbv beta iota. rewrite (sr_size _ _ _ Hrep). unfold sg_size. rewrite Eg.
      eapply (Hfin r R); [by right|done|]. by apply Hthen.
Qed.

(** Whole pages, as a call of the heap. *)
Lemma wp_tlh_span_alloc tlh size Γ L G P R Q s :
  mail_heap s tlh Γ L G P R -> 0 < size <= 511 * 4096 ->
  (forall r s', (r <> NULL -> r mod 4096 = 0) ->
     alloc_result s tlh Γ L G P R (pages_for size * 4096) r s' -> Q r s') ->
  wp (lz_span_alloc tlh size) Q s.
Proof.
  intros Hmh Hsz HQ. assert (1 <= pages_for size < 512) by (unfold pages_for; dlia).
  eapply wp_span_alloc; [apply Hmh|by rewrite required_pages_eq by lia|done|].
  intros r s' L' G' P' Hp. apply HQ; [intros Hr; by apply (sa_place _ _ _ _ _ _ _ _ _ _ _ Hp)|].
  exists [], Γ, L', G', P', R. split_and!; [by left| |apply (sa_null _ _ _ _ _ _ _ _ _ _ _ Hp)].
  eapply tlh_step_weaken; [eapply tlh_step_keep; [exact Hmh|by eapply span_alloc_step; [apply Hmh|]|auto]| |done].
  intros a. unfold nothing. set_solver.
Qed.

Lemma wp_tlh_alloc tlh size Γ L G P R Q s :
  mail_heap s tlh Γ L G P R -> 0 <= size <= 511 * 4096 ->
  (forall n r s', size <= n -> alloc_result s tlh Γ L G P R n r s' -> Q r s') ->
  wp (lz_tlh_alloc tlh size) Q s.
Proof.
  intros Hmh Hsz HQ. destruct (Z.leb_spec size LZ_MAX_SLAB_OBJ_SIZE) as [Hle|Hgt].
  - eapply wp_tlh_alloc_slab; [exact Hmh|lia|]. intros r s'. apply HQ.
    apply size_class_fits. unfold class_size_limit. lia.
  - unfold lz_tlh_alloc. ztrue (LZ_MAX_SLAB_OBJ_SIZE <? size). unfold LZ_MAX_SLAB_OBJ_SIZE in Hgt.
    eapply wp_tlh_span_alloc; [exact Hmh|lia|]. intros r s' _ Hr. eapply HQ; [|exact Hr].
    unfold pages_for. dlia.
Qed.

(** ** Release *)

Lemma wp_tlh_free_local tlh a n Γ L G P Q s :
  heap s tlh Γ L G P -> object s Γ L a n ->
  (forall s' Γ' L' G' P',
     heap_step s tlh Γ L G P (fun x => x = a) nothing_new s' Γ' L' G' P' -> Q tt s') ->
  wp (lz_tlh_free tlh a) Q s.
Proof.
  intros Hh Ho HQ.
  destruct (object_header _ _ _ _ _ _ _ _ (hp_core _ _ _ _ _ _ Hh) Ho) as (_ & Hmd & Hr & Hmg & How & _).
  unfold lz_tlh_free. zfalse (a =? NULL). wp_step. apply wp_chunk_at; [done|].
  rewrite Hmg, Z.eqb_refl. cbn [negb]. unfold tlh_free_in. wp_step. apply wp_chunk_at; [done|].
  rewrite How, Z.eqb_refl. by eapply wp_release_object.
Qed.

End tlh_rules.

(** ** Theorems *)

Section tlh_theorems.
Context `{EnvLaws}.

Lemma object_aligned s tlh Γ L G P a n :
  heap_core s tlh Γ L G P -> object s Γ L a n -> a mod 16 = 0 /\ n mod 16 = 0.
Proof.
  intros Hc [(p & g & k & Hp & _ & -> & ->)|(m & (p & sp & i & Hp & Hb & Hr & ->) & ->)].
  - pose proof (hc_slab _ _ _ _ _ _ Hc p g Hp) as Hok.
    pose proof (go_class _ (sb_ghost _ _ _ _ Hok)) as Hcl.
    destruct (sb_chunk _ _ _ _ Hok) as (Hal & _).
    assert (sg_size g mod 16 = 0) as Hs by (apply class_size_mult16; lia).
    split; [|done]. unfold blk. apply mod_mul_add; [lia|dlia|].
    rewrite <- Z.mul_mod_idemp_r, Hs, Z.mul_0_r by lia. done.
  - destruct (span_run_in _ _ _ _ _ _ _ _ _ (hc_span _ _ _ _ _ _ Hc) Hp Hb Hr) as (_ & _ & ? & _). dlia.
Qed.

(** The objects of a heap are memory-safe: each one starts at a multiple of
    16, has at least 16 bytes and lies in the payload of one chunk of the
    heap, mapped and clear of the two metadata lines; masking its address
    gives that chunk, whose header names the heap as owner; and any two
    objects are either the same or disjoint. *)
Theorem heap_objects_disjoint s tlh Γ L G P a n b m :
  heap s tlh Γ L G P -> object s Γ L a n -> object s Γ L b m ->
  a mod 16 = 0 /\ 16 <= n /\
  (let d := a .& chunk_mask in
   owning_tlh (chunk_of s d) = tlh /\ d + 128 <= a /\ a + n <= d + 2 ^ 21) /\
  (forall x, a <= x < a + n -> mapped s x = true) /\
  (a = b /\ n = m \/ a + n <= b \/ b + m <= a).
Proof.
  intros [Hc _] Ha Hb. destruct (object_aligned _ _ _ _ _ _ _ _ Hc Ha) as [Ha16 _].
  destruct (object_in _ _ _ _ _ _ _ _ Hc Ha) as (d & _ & (Hal & Hpos & Hlim & Hm) & ? & ? & ?).
  destruct (object_header _ _ _ _ _ _ _ _ Hc Ha) as (_ & _ & _ & _ & How & _). cbv zeta in *.
  rewrite (chunk_mask_in d) in * by (done || lia).
  split_and!; [done|lia|done|lia|lia| |by eapply objects_disjoint].
  intros x Hx. apply Hm. lia.
Qed.

(** C11. Refinement of heap allocation (up to 511 pages): the call returns; the
    set of objects gains exactly the returned one, of at least the requested
    size, and loses exactly the objects the mailbox held if it was reaped on
    the way; NULL adds nothing and is answered only when the kernel refused
    memory during the call.  The new object is disjoint from every object
    still in use, whose bytes are untouched; chunks of other heaps are
    neither written nor taken. *)
Theorem tlh_alloc_refines s tlh size Γ L G P R :
  mail_heap s tlh Γ L G P R -> 0 <= size <= 511 * 4096 ->
  wp (lz_tlh_alloc tlh size) (fun r s' => exists n R0 Γ' L' G' P' R',
    size <= n /\ (R0 = [] /\ R' = R \/ R0 = R /\ R' = []) /\
    tlh_step s tlh Γ L G P (fun a => a ∈ R0) (fun a m => r <> NULL /\ a = r /\ m = n)
      s' Γ' L' G' P' R' /\
    (r = NULL -> refused_since s s') /\
    (r <> NULL -> forall b m, object s Γ L b m -> b ∉ R0 -> b + m <= r \/ r + n <= b)) s.
Proof.
  intros Hmh Hsz. eapply wp_tlh_alloc; [exact Hmh|done|].
  intros n r s' Hn (R0 & Γ' & L' & G' & P' & R' & HR & Hs & Hnull). exists n, R0, Γ', L', G', P', R'.
  split_and!; [done..|]. intros Hr b m Hb HbR.
  assert (object s' Γ' L' b m) as Hb' by (apply (tp_objects _ _ _ _ _ _ _ _ _ _ _ _ _ _ Hs); by left).
  assert (object s' Γ' L' r n) as Hr' by (apply (tp_objects _ _ _ _ _ _ _ _ _ _ _ _ _ _ Hs); by right).
  pose proof (hp_core _ _ _ _ _ _ (mh_heap _ _ _ _ _ _ _ (tp_heap _ _ _ _ _ _ _ _ _ _ _ _ _ _ Hs))) as Hc.
  destruct (objects_disjoint _ _ _ _ _ _ _ _ _ _ Hc Hb' Hr') as [[-> _]|?]; [exfalso|done].
  by eapply (tp_fresh _ _ _ _ _ _ _ _ _ _ _ _ _ _ Hs r n m).
Qed.

(** C12. Refinement of a local free: releasing an object of the heap that is not
    already in its mailbox removes exactly that object, whichever list its
    slab is on and whether or not the slab or span becomes empty and its
    chunk goes back to the pools; all other objects keep their bytes. *)
Theorem tlh_free_refines s tlh a n Γ L G P R :
  mail_heap s tlh Γ L G P R -> object s Γ L a n -> a ∉ R ->
  wp (lz_tlh_free tlh a) (fun _ s' => exists Γ' L' G' P',
    tlh_step s tlh Γ L G P (fun x => x = a) nothing_new s' Γ' L' G' P' R) s.
Proof.
  intros Hmh Ha HaR. eapply wp_tlh_free_local; [apply Hmh|exact Ha|].
  intros s' Γ' L' G' P' Hst. exists Γ', L', G', P'. eapply tlh_step_keep; [done..|].
  by intros x Hx ->.
Qed.

(** C17. Refinement of the reap: the walk over the mailbox terminates, frees
    exactly the objects that were waiting in it, from slabs and spans alike,
    and leaves it empty; every other object keeps its bytes. *)
Theorem tlh_reap_refines s tlh Γ L G P R :
  mail_heap s tlh Γ L G P R ->
  wp (lz_tlh_reap tlh) (fun _ s' => exists Γ' L' G' P',
    tlh_step s tlh Γ L G P (fun a => a ∈ R) nothing_new s' Γ' L' G' P' []) s.
Proof.
  intros Hmh. eapply wp_tlh_reap; [exact Hmh|]. intros s' Γ' L' G' P' Hs. by exists Γ', L', G', P'.
Qed.

End tlh_theorems.

(** ** Witnesses *)

(** A heap with one slab of 16-byte blocks: block 0 is free, block 1 waits in
    the mailbox, block 2 in the batch of another thread, block 3 is in use. *)
Definition slab_base : Z := 0x7f0000200080.
Definition four_blocks : slab_ghost := mk_ghost 0 4 [0].
Definition four_ghost : gmap Z slab_ghost := {[ 0x7f0000200040 := four_blocks ]}.
Definition four_slab : lz_slab_t :=
  mk_slab 0 0 slab_base 0x7f0000400000 (slab_base + 64) slab_base 0 16 131064 3.
Definition four_header : lz_chunk_header_t :=
  let c := mk_chunk 0 8192 LZ_CHUNK_MAGIC_V2 0 3 0 LZ_CHUNK_TYPE_SLAB in
  set_checksum (lz_calc_checksum c) c.
Definition four_owner : lz_tlh_t :=
  set_remote_free_head (slab_base + 16)
    (set_bins (mk_bin 0x7f0000200040 0 0 :: replicate 87 (mk_bin 0 0 0)) (empty_tlh 0)).
Definition four_sender : lz_tlh_t :=
  set_outgoing_batch (mk_batch 8192 (slab_base + 32) (slab_base + 32) 1) (empty_tlh 0).
Definition four_state : state :=
  set_h_tlhs (<[ 8192 := four_owner ]> {[ 12288 := four_sender ]})
    (set_st_mapped [(0x7f0000200000, 0x7f0000400000)]
      (set_h_chunks {[ 0x7f0000200000 := four_header ]}
        (set_h_bodies {[ 0x7f0000200040 := BSlab four_slab ]}
          (set_h_bytes (set_le_bytes (set_le_bytes (set_le_bytes ∅ slab_base slab_base 8)
            (slab_base + 16) 0 8) (slab_base + 32) 0 8) boot_state)))).

Lemma four_slab_ok : slab_ok four_state 8192 0x7f0000200040 four_blocks.
Proof.
  constructor.
  - exists four_slab. split; [done|]. constructor; try done. by left.
  - vm_compute. done.
  - constructor; [done|done| |].
    + repeat constructor. apply not_elem_of_nil.
    + intros k ->%list_elem_of_singleton. done.
  - split_and!; [done..|]. intros x Hx. unfold mapped. cbn. lia.
  - by split_and!.
Qed.

Lemma four_lookup p g : four_ghost !! p = Some g -> p = 0x7f0000200040 /\ g = four_blocks.
Proof. unfold four_ghost. intros [<- <-]%lookup_singleton_Some. done. Qed.

Lemma four_bin_empty s j : 0 < j -> bin_ok s four_ghost j (mk_bin 0 0 0).
Proof.
  intros Hj. exists [], []. split; [by constructor; [..|constructor]|]. constructor.
  - by left.
  - intros p Hp. by apply not_elem_of_nil in Hp.
  - intros p Hp. by apply not_elem_of_nil in Hp.
  - intros p (g & [_ ->]%four_lookup & Hc). cbn in Hc. lia.
Qed.

Lemma four_heap_ok : heap four_state 8192 four_ghost [] [] (replicate 16 []).
Proof.
  constructor; [constructor|].
  - constructor; [by apply vmm_inv_boot|by apply rtree_inv_empty| |constructor|..].
    + exists four_owner. split_and!; [done|done|by left].
    + intros p Hp. by apply not_elem_of_nil in Hp.
    + intros p Hp. by apply not_elem_of_nil in Hp.
  - cbn. lia.
  - intros p g [-> ->]%four_lookup. apply four_slab_ok.
  - intros p g _. apply not_elem_of_nil.
  - exists four_owner. split_and!; [done|done|]. intros j b Hj _ Hb.
    destruct (decide (j = 0)) as [->|Hj0].
    + injection Hb as <-. exists [], []. split; [by constructor; [..|constructor]|]. constructor.
      * right. split; [by exists four_blocks|apply not_elem_of_nil].
      * intros p Hp. by apply not_elem_of_nil in Hp.
      * intros p Hp. by apply not_elem_of_nil in Hp.
      * intros p (g & [-> _]%four_lookup & _). by left.
    + destruct (Z.to_nat j) as [|k] eqn:E; [lia|]. cbn in Hb.
      apply (lookup_replicate 87) in Hb as [-> _]. apply four_bin_empty. lia.
Qed.

(** Blocks 1, 2 and 3 are objects. *)
Lemma four_object k : 1 <= k <= 3 -> object four_state four_ghost [] (slab_base + k * 16) 16.
Proof.
  intros Hk. left. exists 0x7f0000200040, four_blocks, k. split_and!; [done| |done|done].
  split; [cbn; lia|]. cbn. intros ->%list_elem_of_singleton. lia.
Qed.

Lemma four_mail_ok : mail_heap four_state 8192 four_ghost [] [] (replicate 16 []) [slab_base + 16].
Proof.
  constructor; [apply four_heap_ok|by exists four_owner|]. constructor.
  - vm_compute. done.
  - repeat constructor. apply not_elem_of_nil.
  - intros a ->%list_elem_of_singleton. split; [exists 0; by vm_compute|]. exists 16. by apply (four_object 1).
Qed.

Lemma heap_objects_disjoint_witness :
  let a := slab_base + 2 * 16 in
  let b := slab_base + 3 * 16 in
  a mod 16 = 0 /\ 16 <= 16 /\
  (let d := a .& chunk_mask in
   owning_tlh (chunk_of four_state d) = 8192 /\ d + 128 <= a /\ a + 16 <= d + 2 ^ 21) /\
  (forall x, a <= x < a + 16 -> mapped four_state x = true) /\
  (a = b /\ 16 = 16 \/ a + 16 <= b \/ b + 16 <= a).
Proof.
  apply (heap_objects_disjoint four_state 8192 four_ghost [] [] (replicate 16 []));
    [apply four_heap_ok|apply four_object; lia..].
Defined.

Lemma tlh_alloc_refines_witness :
  wp (lz_tlh_alloc 8192 100) (fun r s' => exists n R0 Γ' L' G' P' R',
    100 <= n /\ (R0 = [] /\ R' = [slab_base + 16] \/ R0 = [slab_base + 16] /\ R' = []) /\
    tlh_step four_state 8192 four_ghost [] [] (replicate 16 []) (fun a => a ∈ R0)
      (fun a m => r <> NULL /\ a = r /\ m = n) s' Γ' L' G' P' R' /\
    (r = NULL -> refused_since four_state s') /\
    (r <> NULL -> forall b m, object four_state four_ghost [] b m -> b ∉ R0 ->
       b + m <= r \/ r + n <= b)) four_state.
Proof. apply (tlh_alloc_refines four_state 8192 100); [apply four_mail_ok|lia]. Defined.

Lemma tlh_free_refines_witness :
  wp (lz_tlh_free 8192 (slab_base + 3 * 16)) (fun _ s' => exists Γ' L' G' P',
    tlh_step four_state 8192 four_ghost [] [] (replicate 16 []) (fun x => x = slab_base + 3 * 16)
      nothing_new s' Γ' L' G' P' [slab_base + 16]) four_state.
Proof.
  apply (tlh_free_refines four_state 8192 _ 16); [apply four_mail_ok|apply four_object; lia|].
  intros E%list_elem_of_singleton. unfold slab_base in E. lia.
Defined.

Lemma tlh_reap_refines_witness :
  wp (lz_tlh_reap 8192) (fun _ s' => exists Γ' L' G' P',
    tlh_step four_state 8192 four_ghost [] [] (replicate 16 []) (fun a => a ∈ [slab_base + 16])
      nothing_new s' Γ' L' G' P' []) four_state.
Proof. apply (tlh_reap_refines four_state 8192). apply four_mail_ok. Defined.
