(* ===== verification/RemoteSpec.v ===== *)
(** * Cross-thread frees

    A thread that frees an object of another heap collects it in its outgoing
    batch, and a flush hands the batch to the mailbox of the owner.  Batch and
    mailbox together always hold exactly the objects freed and not yet
    reaped, in order. *)

From S2P Require Import Prelude Common Sizes Machine Wp Dll Testbed Security Rtree Vmm VmmSpec.
From S2P Require Import Provision Telemetry Span SpanSpec Slab Tlh SlabSpec BinSpec HeapSpec TlhSpec.

(** ** Words written into freed objects *)

Section remote_rules.
Context `{EnvLaws}.

(** Writing links into objects, and the mailbox word, leaves a heap intact. *)
Lemma heap_poke s o Γ L G P m T s' :
  heap s o Γ L G P -> s' = set_h_tlhs T (set_h_bytes m s) ->
  (forall t, h_tlhs s !! o = Some t -> exists t', T !! o = Some t' /\ bins t' = bins t /\
     active_spans t' = active_spans t /\ stat_slot t' = stat_slot t) ->
  (forall x, m !! x = h_bytes s !! x \/ exists a n, object s Γ L a n /\ a <= x < a + n) ->
  heap s' o Γ L G P /\ forall a n, object s' Γ L a n <-> object s Γ L a n.
Proof.
  intros [Hc Hb] -> HT Hm. split; [constructor|].
  - eapply core_local; [exact Hc|done| |done|done|].
    + intros t (t' & ? & _ & ? & ?)%HT. exists t'. done.
    + intros p g Hp. split; [by rewrite Hp|].
      destruct (hc_slab _ _ _ _ _ _ Hc p g Hp) as [Hbd Hch Hg Hok Hhd]. constructor; try done.
      eapply node_chain_ext; [|exact Hch]. intros f x Hf Hx. cbn.
      destruct (Hm x) as [|(a & n & Ha & Hax)]; [done|exfalso].
      apply list_elem_of_fmap in Hf as (k & -> & Hk). pose proof (go_free _ Hg k Hk) as Hkr.
      pose proof (go_n _ Hg). pose proof (sg_size_bounds g Hg). destruct (blk_in p g k Hg); [lia|].
      destruct (object_in _ _ _ _ _ _ _ _ Hc Ha) as (d & _ & (Hal & _) & ? & ? & ?).
      destruct (decide (d = p - 64)) as [->|Hne];
        [|destruct (aligned_apart d (p - 64)); [done|apply Hok|done|lia..]].
      replace p with (p - 64 + 64) in Hp by lia.
      destruct (slab_object_in _ _ _ _ _ _ _ _ _ _ Hc Hp Ha) as (j & [_ Hj] & -> & ->); [lia|].
      replace (p - 64 + 64) with p in * by lia.
      destruct (Z.lt_total k j) as [Hlt|[->|Hlt]]; [|done|];
        pose proof (blk_apart p g _ _ Hg Hlt); lia.
  - apply (bins_but_ext s _ _ Γ); [|done..]. intros t (t' & ? & ? & _)%HT. eauto.
  - done.
Qed.

(** The batch that heap [tlh] collects for heap [o]: its nodes [B], newest
    first. *)
Definition batch_for (s : state) (tlh o : Z) (B : list Z) : Prop :=
  exists t, h_tlhs s !! tlh = Some t /\
    batch_count (outgoing_batch t) = Z.of_nat (length B) /\ (length B <= 64)%nat /\
    batch_head (outgoing_batch t) = hd NULL B /\
    (B <> [] -> target_tlh (outgoing_batch t) = o /\ last B = Some (batch_tail (outgoing_batch t))).

(** Heap [o] with mailbox [R], and the batch [B] of objects of [o] that [tlh]
    has not sent yet. *)
Record sending (s : state) (tlh o : Z) (Γ : gmap Z slab_ghost) (L G : list Z) (P : list (list Z))
    (R B : list Z) : Prop := {
  sn_mail : mail_heap s o Γ L G P R;
  sn_batch : batch_for s tlh o B;
  sn_pending : pending s Γ L B;
  sn_apart : forall a, a ∈ B -> a ∉ R
}.

(** Only the first words of the objects [W], the batch of [tlh] and the
    mailbox word of [o] change. *)
Definition poked (s s' : state) (tlh o : Z) (W : list Z) : Prop :=
  s' = set_h_tlhs (h_tlhs s') (set_h_bytes (h_bytes s') s) /\
  (forall h r, h_tlhs s !! h = Some r -> exists m b,
     h_tlhs s' !! h = Some (set_remote_free_head m (set_outgoing_batch b r)) /\
     (h <> tlh -> b = outgoing_batch r) /\ (h <> o -> m = remote_free_head r)) /\
  forall x, (forall w, w ∈ W -> ~ (w <= x < w + 8)) -> h_bytes s' !! x = h_bytes s !! x.

(** Pointing the last node of a chain at another chain. *)
Lemma node_chain_splice m B R w :
  let m' := set_le_bytes m w (hd NULL R) 8 in
  node_chain m (fun next _ => next) B -> node_chain m' (fun next _ => next) R -> last B = Some w ->
  0 <= hd NULL R < 2 ^ 64 -> (forall a, a ∈ B -> a = w \/ w + 8 <= a \/ a + 8 <= w) -> NoDup B ->
  node_chain m' (fun next _ => next) (B ++ R).
Proof.
  intros m' HB HR Hl Hv Hd Hnd. induction B as [|a B IH]; [done|].
  cbn [node_chain app] in *. destruct HB as [Ha HB]. apply NoDup_cons in Hnd as [HaB Hnd].
  destruct B as [|b B].
  - cbn in Hl. injection Hl as ->. split; [|done]. cbn [app]. by apply le_bytes_set_eq.
  - rewrite last_cons_cons in Hl. split; [|apply IH; [done|done|intros; apply Hd; by right|done]].
    cbn [app hd] in *. rewrite <- Ha. apply le_bytes_set_ne. change (Z.of_nat 8) with 8.
    destruct (Hd a) as [->|?]; [by left| |lia]. exfalso. apply HaB. by apply last_Some_elem_of.
Qed.

(** Nodes are apart, being distinct objects. *)
Lemma object_words_apart s o Γ L G P a n b m :
  heap_core s o Γ L G P -> object s Γ L a n -> object s Γ L b m -> a <> b -> a + 8 <= b \/ b + 8 <= a.
Proof.
  intros Hc Ha Hb Hne. destruct (object_in _ _ _ _ _ _ _ _ Hc Ha) as (_ & _ & _ & ? & _).
  destruct (object_in _ _ _ _ _ _ _ _ Hc Hb) as (_ & _ & _ & ? & _).
  destruct (objects_disjoint _ _ _ _ _ _ _ _ _ _ Hc Ha Hb) as [[? _]|?]; [done|lia].
Qed.

(** The mailbox of [o] after its heap record or words of other objects change. *)
Lemma mail_poke s o Γ L G P R w v T t t' s' :
  mail_heap s o Γ L G P R -> s' = set_h_tlhs T (set_h_bytes (set_le_bytes (h_bytes s) w v 8) s) ->
  h_tlhs s !! o = Some t -> T !! o = Some t' -> bins t' = bins t -> active_spans t' = active_spans t ->
  stat_slot t' = stat_slot t -> (exists n, object s Γ L w n) ->
  heap s' o Γ L G P /\ (forall a n, object s' Γ L a n <-> object s Γ L a n) /\
  (forall l, (forall a, a ∈ l -> exists n, object s Γ L a n) -> w ∉ l ->
     node_chain (h_bytes s) (fun next _ => next) l -> node_chain (h_bytes s') (fun next _ => next) l) /\
  (forall a, is_Some (h_bytes s !! a) -> is_Some (h_bytes s' !! a)).
Proof.
  intros [Hh _ _] Es Ht Ht' E1 E2 E3 [n Hw]. pose proof (hp_core _ _ _ _ _ _ Hh) as Hc.
  destruct (object_in _ _ _ _ _ _ _ _ Hc Hw) as (_ & _ & _ & Hn & _).
  destruct (heap_poke s o Γ L G P (set_le_bytes (h_bytes s) w v 8) T s') as [Hh' Ho]; [done|done| | |].
  - intros t0 Ht0. rewrite Ht in Ht0. injection Ht0 as <-. eauto.
  - intros x. destruct (decide (w <= x < w + 8)) as [Hx|Hx].
    + right. exists w, n. split; [done|lia].
    + left. apply set_le_bytes_ne. change (Z.of_nat 8) with 8. lia.
  - split_and!; [done|done|..].
    + intros l Hl Hwl. apply node_chain_ext. intros a x Ha Hx. rewrite Es. cbn [h_bytes set_h_tlhs set_h_bytes].
      destruct (Hl a Ha) as [na Hna]. assert (w <> a) by (by intros ->).
      destruct (object_words_apart _ _ _ _ _ _ _ _ _ _ Hc Hw Hna); [done|..];
        apply set_le_bytes_ne; change (Z.of_nat 8) with 8; lia.
    + intros a Ha. rewrite Es. cbn [h_bytes set_h_tlhs set_h_bytes].
      apply set_le_bytes_some. by left.
Qed.

Lemma object_word_range s o Γ L G P R : heap_core s o Γ L G P ->
  (forall a, a ∈ R -> exists n, object s Γ L a n) -> 0 <= hd NULL R < 2 ^ 64.
Proof.
  intros Hc HR. destruct R as [|a R]; cbn [hd]; [lia|]. destruct (HR a) as [n Hn]; [set_solver|].
  destruct (object_header _ _ _ _ _ _ _ _ Hc Hn) as (_ & _ & ? & _). lia.
Qed.

Lemma poked_trans s1 s2 s3 tlh o W1 W2 W :
  poked s1 s2 tlh o W1 -> poked s2 s3 tlh o W2 -> (forall w, w ∈ W1 \/ w ∈ W2 -> w ∈ W) ->
  poked s1 s3 tlh o W.
Proof.
  intros (E1 & H1 & B1) (E2 & H2 & B2) HW. split_and!.
  - rewrite E2, E1. done.
  - intros h r Hr. destruct (H1 h r Hr) as (m1 & b1 & Hr1 & Hb1 & Hm1).
    destruct (H2 h _ Hr1) as (m2 & b2 & Hr2 & Hb2 & Hm2). exists m2, b2. split_and!; [done|..].
    + intros Hh. rewrite (Hb2 Hh). by apply Hb1.
    + intros Hh. rewrite (Hm2 Hh). by apply Hm1.
  - intros x Hx. rewrite B2, B1; [done|intros w Hw; apply Hx, HW; auto..].
Qed.

(** Records that keep their batch or mailbox word. *)
Lemma record_poke r : r = set_remote_free_head (remote_free_head r) (set_outgoing_batch (outgoing_batch r) r).
Proof. by destruct r. Qed.

Lemma poked_word s s' tlh o w v W T :
  s' = set_h_tlhs T (set_h_bytes (set_le_bytes (h_bytes s) w v 8) s) ->
  (forall h r, h_tlhs s !! h = Some r -> exists m b,
     T !! h = Some (set_remote_free_head m (set_outgoing_batch b r)) /\
     (h <> tlh -> b = outgoing_batch r) /\ (h <> o -> m = remote_free_head r)) ->
  w ∈ W -> poked s s' tlh o W.
Proof.
  intros -> HT Hw. split_and!; [done|exact HT|]. intros x Hx. apply set_le_bytes_ne.
  change (Z.of_nat 8) with 8. specialize (Hx w Hw). lia.
Qed.

(** Rewriting the batch of [tlh]. *)
Lemma insert_batch_poke (T : gmap Z lz_tlh_t) tlh o r b :
  T !! tlh = Some r -> forall h r0, T !! h = Some r0 -> exists m b',
    <[tlh := set_outgoing_batch b r]> T !! h = Some (set_remote_free_head m (set_outgoing_batch b' r0)) /\
    (h <> tlh -> b' = outgoing_batch r0) /\ (h <> o -> m = remote_free_head r0).
Proof.
  intros Hr h r0 Hr0. destruct (decide (h = tlh)) as [->|Hne].
  - rewrite Hr in Hr0. injection Hr0 as <-. exists (remote_free_head r), b.
    rewrite lookup_insert_eq. split_and!; [by destruct r|done|done].
  - exists (remote_free_head r0), (outgoing_batch r0). rewrite lookup_insert_ne by done.
    split_and!; [by rewrite <- record_poke|done|done].
Qed.

(** The mailbox word of [o] and the batch of [tlh] after a flush. *)
Lemma delivered_records (T : gmap Z lz_tlh_t) tlh o t to m b :
  T !! tlh = Some t -> T !! o = Some to -> tlh <> o -> forall h r, T !! h = Some r -> exists m' b',
    <[tlh := set_outgoing_batch b t]> (<[o := set_remote_free_head m to]> T) !! h =
      Some (set_remote_free_head m' (set_outgoing_batch b' r)) /\
    (h <> tlh -> b' = outgoing_batch r) /\ (h <> o -> m' = remote_free_head r).
Proof.
  intros Ht Hto Hne h r Hr. destruct (decide (h = tlh)) as [->|Hn]; [|destruct (decide (h = o)) as [->|Hn2]].
  - rewrite lookup_insert_eq. rewrite Ht in Hr. injection Hr as <-.
    exists (remote_free_head t), b. split_and!; [by destruct t|done..].
  - rewrite lookup_insert_ne, lookup_insert_eq by done. rewrite Hto in Hr. injection Hr as <-.
    exists m, (outgoing_batch to). split_and!; [by destruct to|done..].
  - rewrite !lookup_insert_ne by done. exists (remote_free_head r), (outgoing_batch r).
    rewrite <- record_poke. done.
Qed.

(** Flushing moves the batch to the front of the mailbox. *)
Lemma wp_deliver tlh o Γ L G P R B Q s :
  sending s tlh o Γ L G P R B -> tlh <> o -> o <> NULL ->
  (forall s', sending s' tlh o Γ L G P (B ++ R) [] ->
     (forall a n, object s' Γ L a n <-> object s Γ L a n) -> poked s s' tlh o B -> Q tt s') ->
  wp (lz_tlh_flush_outgoing_batch tlh) Q s.
Proof.
  intros [Hmh (t & Ht & Hcnt & Hlen & Hhd & HB) HpB Hap] Hne Ho HQ.
  unfold lz_tlh_flush_outgoing_batch. wp_step. eapply wp_tlh_at; [exact Ht|]. rewrite Hcnt.
  destruct B as [|b B0] eqn:EB.
  { change (Z.of_nat (length (@nil Z)) =? 0) with true. cbn [orb]. wp_step. apply HQ; [|done|].
    - constructor; [done| |done|done]. exists t. by split_and!.
    - split_and!; [by destruct s| |done]. intros h r Hr.
      exists (remote_free_head r), (outgoing_batch r). by rewrite <- record_poke. }
  rewrite <- EB in *. assert (B <> []) as HB0 by (by rewrite EB).
  destruct (HB HB0) as [Htg Hlast]. rewrite Htg.
  assert (Z.of_nat (length B) =? 0 = false) as -> by (rewrite EB; done). zfalse (o =? NULL). cbn [orb].
  destruct (Hmh) as [Hh (to & Hto & Ehd) HpR]. pose proof (hp_core _ _ _ _ _ _ Hh) as Hc.
  set (w := batch_tail (outgoing_batch t)) in *.
  assert (w ∈ B) as HwB by (by apply last_Some_elem_of).
  destruct (pe_object _ _ _ _ HpB w HwB) as [_ [nw Hw]].
  destruct (object_header _ _ _ _ _ _ _ _ Hc Hw) as (Hmw & _).
  wp_step. eapply wp_tlh_at; [exact Hto|]. rewrite Ehd.
  wp_step. apply wp_store64; [done|by eapply object_word_mapped|]. wp_step. eapply wp_update_tlh; [exact Hto|].
  eapply wp_update_tlh; [cbn; by rewrite lookup_insert_ne by done|]. set (s' := set_h_tlhs _ _).
  set (to' := set_remote_free_head (batch_head (outgoing_batch t)) to) in *.
  set (t' := set_outgoing_batch (mk_batch NULL NULL NULL 0) t) in *.
  assert (forall a, a ∈ B ++ R -> is_Some (h_bytes s !! a) /\ exists n, object s Γ L a n) as Hall.
  { intros a [?|?]%elem_of_app; [by apply HpB|by apply HpR]. }
  assert (h_tlhs s' !! o = Some to') as Hto' by (cbn; by rewrite lookup_insert_ne, lookup_insert_eq by done).
  destruct (mail_poke s o Γ L G P R w (hd NULL R) (h_tlhs s') to to' s') as (Hh' & Hobj & Hch & Hsome);
    [done..|by exists nw|].
  assert (forall a, a ∈ B -> a = w \/ w + 8 <= a \/ a + 8 <= w) as Hapart.
  { intros a Ha. destruct (decide (a = w)) as [|Hn]; [by left|right].
    destruct (pe_object _ _ _ _ HpB a Ha) as [_ [na Hna]].
    destruct (object_words_apart _ _ _ _ _ _ _ _ _ _ Hc Hna Hw); [done|lia..]. }
  apply HQ; [|exact Hobj|].
  - constructor; [constructor; [done| |]| | |].
    + exists to'. split; [done|]. cbn. rewrite Hhd, EB. done.
    + constructor.
      * apply node_chain_splice; [apply HpB| |done|eapply object_word_range; [exact Hc|apply HpR]|exact Hapart|apply HpB].
        apply Hch; [apply HpR|by apply Hap|apply HpR].
      * apply NoDup_app. split_and!; [apply HpB|exact Hap|apply HpR].
      * intros a Ha. destruct (Hall a Ha) as [Hs [n Hn]]. split; [by apply Hsome|]. exists n. by apply Hobj.
    + exists t'. cbn. rewrite lookup_insert_eq. split_and!; [done|done|lia|done|done].
    + constructor; [done|constructor|]. intros a Ha. by apply not_elem_of_nil in Ha.
    + intros a Ha. by apply not_elem_of_nil in Ha.
  - eapply poked_word; [done|by apply delivered_records|done].
Qed.

(** Writing a link into an object that is in neither list. *)
Lemma sending_poke s tlh o Γ L G P R B w v n :
  sending s tlh o Γ L G P R B -> object s Γ L w n -> w ∉ B -> w ∉ R ->
  let s' := set_h_bytes (set_le_bytes (h_bytes s) w v 8) s in
  sending s' tlh o Γ L G P R B /\ (forall a m, object s' Γ L a m <-> object s Γ L a m).
Proof.
  intros [Hmh Hbf HpB Hap] Hw HwB HwR s'. destruct (Hmh) as [Hh (to & Hto & Ehd) HpR].
  destruct (mail_poke s o Γ L G P R w v (h_tlhs s) to to s') as (Hh' & Hobj & Hch & Hsome);
    [done|by destruct s|done..|by exists n|].
  assert (forall l, pending s Γ L l -> w ∉ l -> pending s' Γ L l) as Hpe.
  { intros l [H1 H2 H3] Hl. constructor; [apply Hch; [apply H3|done|done]|done|].
    intros a Ha. destruct (H3 a Ha) as [? [m ?]]. split; [by apply Hsome|]. exists m. by apply Hobj. }
  split; [|done]. constructor; [constructor; [done|by exists to|by apply Hpe]|done|by apply Hpe|done].
Qed.

(** The last part of a remote free: the object becomes the head of the batch. *)
Lemma wp_batch_push tlh o a n Γ L G P R B t Q s :
  sending s tlh o Γ L G P R B -> tlh <> o -> object s Γ L a n -> a ∉ B -> a ∉ R ->
  (length B < 64)%nat -> h_tlhs s !! tlh = Some t -> target_tlh (outgoing_batch t) = o ->
  (forall s', sending s' tlh o Γ L G P R (a :: B) ->
     (forall x m, object s' Γ L x m <-> object s Γ L x m) -> poked s s' tlh o [a] -> Q tt s') ->
  wp (t ← tlh_at tlh;
      let batch := outgoing_batch t in
      store64 a (batch_head batch);;
      update_tlh tlh (fun t => set_outgoing_batch
        (mk_batch (target_tlh batch) a
          (if batch_count batch =? 0 then a else batch_tail batch)
          (u32 (batch_count batch + 1))) t)) Q s.
Proof.
  intros Hsn Hne Ha HaB HaR Hlen Ht Htg HQ. destruct (Hsn) as [Hmh (t0 & Ht0 & Hcnt & _ & Hhd & HB) HpB Hap].
  rewrite Ht in Ht0. injection Ht0 as <-. destruct (Hmh) as [Hh (to & Hto & Ehd) HpR].
  pose proof (hp_core _ _ _ _ _ _ Hh) as Hc.
  destruct (object_header _ _ _ _ _ _ _ _ Hc Ha) as (Hma & _).
  wp_step. eapply wp_tlh_at; [exact Ht|]. cbv zeta. wp_step. apply wp_store64; [done|by eapply object_word_mapped|].
  rewrite Hhd, Hcnt, Htg, u32_small by lia.
  eapply wp_update_tlh; [exact Ht|]. set (s1 := set_h_bytes _ s). set (t' := set_outgoing_batch _ t).
  set (s' := set_h_tlhs _ s1). assert (h_tlhs s' = <[tlh := t']> (h_tlhs s)) as Eh by done.
  destruct (mail_poke s o Γ L G P R a (hd NULL B) (h_tlhs s') to to s') as (Hh' & Hobj & Hch & Hsome);
    [done|done|done|by rewrite Eh, lookup_insert_ne|done..|by exists n|].
  assert (is_Some (h_bytes s' !! a)) as Hsa.
  { apply set_le_bytes_some. right. change (Z.of_nat 8) with 8. lia. }
  apply HQ; [|exact Hobj|].
  - constructor; [constructor; [done| |]| | |].
    + exists to. by rewrite Eh, lookup_insert_ne.
    + destruct HpR as [H1 H2 H3]. constructor; [apply Hch; [apply H3|done|done]|done|].
      intros x Hx. destruct (H3 x Hx) as [? [m ?]]. split; [by apply Hsome|]. exists m. by apply Hobj.
    + exists t'. rewrite Eh, lookup_insert_eq.
      cbn [t' outgoing_batch set_outgoing_batch batch_count batch_head target_tlh batch_tail length hd].
      split_and!; [done|lia|lia|done|]. intros _. split; [done|]. destruct B as [|b B]; [done|].
      rewrite last_cons_cons. replace (Z.of_nat (length (b :: B)) =? 0) with false; [by apply HB|].
      symmetry. apply Z.eqb_neq. cbn [length]. lia.
    + destruct HpB as [H1 H2 H3]. constructor.
      * apply (node_chain_push (h_bytes s) (fun next _ => next)); [eapply object_word_range; [exact Hc|apply H3]| |done].
        intros b Hb. destruct (H3 b Hb) as [_ [m Hm]].
        apply (object_words_apart _ _ _ _ _ _ _ _ _ _ Hc Ha Hm). by intros ->.
      * by constructor.
      * intros x [->|Hx]%elem_of_cons; [split; [done|]; exists n; by apply Hobj|].
        destruct (H3 x Hx) as [? [m ?]]. split; [by apply Hsome|]. exists m. by apply Hobj.
    + intros x [->|Hx]%elem_of_cons; [done|auto].
  - eapply poked_word; [done| |set_solver]. intros h r0 Hr0. by apply insert_batch_poke.
Qed.

Lemma wp_batch_remote tlh o a n Γ L G P R B Q s :
  sending s tlh o Γ L G P R B -> tlh <> o -> o <> NULL -> object s Γ L a n -> a ∉ B -> a ∉ R ->
  (forall s' R' B', B' ++ R' = a :: B ++ R -> sending s' tlh o Γ L G P R' B' ->
     (forall x m, object s' Γ L x m <-> object s Γ L x m) -> poked s s' tlh o (a :: B) -> Q tt s') ->
  wp (batch_remote tlh o a) Q s.
Proof.
  intros Hsn Hne Ho Ha HaB HaR HQ. destruct (Hsn) as [Hmh _ _ _].
  destruct (object_header _ _ _ _ _ _ _ _ (hp_core _ _ _ _ _ _ (mh_heap _ _ _ _ _ _ _ Hmh)) Ha) as (Hma & _).
  unfold batch_remote. wp_step. apply wp_store64; [done|eapply object_word_mapped; [apply Hmh|exact Ha]|].
  destruct (sending_poke s tlh o Γ L G P R B a NULL n Hsn Ha HaB HaR) as [Hsn1 Hobj1].
  set (s1 := set_h_bytes _ s) in *.
  assert (poked s s1 tlh o (a :: B)) as Hp1.
  { eapply (poked_word _ _ _ _ a NULL); [by destruct s| |set_solver]. intros h r Hr.
    exists (remote_free_head r), (outgoing_batch r). by rewrite <- record_poke. }
  destruct (sn_batch _ _ _ _ _ _ _ _ _ Hsn1) as (t & Ht & Hcnt & Hlen & Hhd & HB).
  wp_step. eapply wp_tlh_at; [exact Ht|]. cbv zeta. wp_step.
  destruct (negb (target_tlh (outgoing_batch t) =? o) || (LZ_BATCH_MAX_SIZE <=? batch_count (outgoing_batch t))) eqn:Ec.
  - wp_step. eapply wp_deliver; [exact Hsn1|done|done|]. intros s2 Hsn2 Hobj2 Hp2.
    destruct (sn_batch _ _ _ _ _ _ _ _ _ Hsn2) as (t2 & Ht2 & Hcnt2 & _ & Hhd2 & _).
    eapply wp_update_tlh; [exact Ht2|]. set (t3 := set_outgoing_batch _ t2). set (s3 := set_h_tlhs _ s2).
    destruct (Hsn2) as [[Hh2 (to2 & Hto2 & Ehd2) HpR2] _ HpB2 _].
    destruct (heap_poke s2 o Γ L G P (h_bytes s2) (h_tlhs s3) s3) as [Hh3 Hobj3];
      [done|by destruct s2|intros ? ?; cbn; rewrite lookup_insert_ne by done; eauto|by left|].
    assert (sending s3 tlh o Γ L G P (B ++ R) []) as Hsn3.
    { constructor; [constructor; [done| |by destruct HpR2]| |by destruct HpB2|].
      - exists to2. cbn. by rewrite lookup_insert_ne.
      - exists t3. cbn. rewrite lookup_insert_eq. split_and!; [done|done|cbn; lia|done|done].
      - intros x Hx. by apply not_elem_of_nil in Hx. }
    assert (forall x m, object s3 Γ L x m <-> object s Γ L x m) as Hobj.
    { intros x m. by rewrite Hobj3, Hobj2, Hobj1. }
    eapply (wp_batch_push tlh o a n Γ L G P (B ++ R) [] t3); [exact Hsn3|done|by apply Hobj|
      apply not_elem_of_nil|set_solver|cbn; lia|apply lookup_insert_eq|done|].
    intros s4 Hsn4 Hobj4 Hp4. eapply (HQ s4 (B ++ R) [a]); [done|exact Hsn4|intros; by rewrite Hobj4|].
    eapply poked_trans; [exact Hp1| |intros w [Hw|Hw]; exact Hw].
    eapply poked_trans; [exact Hp2| |intros w [Hw|Hw]; [|exact Hw]; set_solver].
    eapply (poked_trans _ s3 _ _ _ []); [|exact Hp4|set_solver].
    split_and!; [by destruct s2| |done]. intros h r Hr. by apply insert_batch_poke.
  - apply orb_false_iff in Ec as [Htg Hlt]. apply negb_false_iff, Z.eqb_eq in Htg.
    unfold LZ_BATCH_MAX_SIZE in Hlt. rewrite Hcnt in Hlt.
    wp_step. eapply (wp_batch_push tlh o a n Γ L G P R B t);
      [exact Hsn1|done|by apply Hobj1|done|done|lia|exact Ht|done|].
    intros s4 Hsn4 Hobj4 Hp4. eapply (HQ s4 R (a :: B)); [done|exact Hsn4|intros; by rewrite Hobj4|].
    eapply poked_trans; [exact Hp1|exact Hp4|set_solver].
Qed.

End remote_rules.

(** ** Theorems *)

Section remote_theorems.
Context `{EnvLaws}.

(** A free of another thread's object: nothing of the owner's heap changes
    but the first words of objects already freed; the object joins the
    outgoing batch, and if the batch was full it was delivered to the mailbox
    of the owner first, so that batch and mailbox together hold exactly the
    old ones with the new object in front. *)
Theorem remote_free_queued s tlh o a n Γ L G P R B :
  sending s tlh o Γ L G P R B -> tlh <> o -> o <> NULL -> object s Γ L a n -> a ∉ B -> a ∉ R ->
  wp (lz_tlh_free tlh a) (fun _ s' => exists R' B',
    B' ++ R' = a :: B ++ R /\ sending s' tlh o Γ L G P R' B' /\
    (forall x m, object s' Γ L x m <-> object s Γ L x m) /\ poked s s' tlh o (a :: B)) s.
Proof.
  intros Hsn Hne Ho Ha HaB HaR.
  pose proof (hp_core _ _ _ _ _ _ (mh_heap _ _ _ _ _ _ _ (sn_mail _ _ _ _ _ _ _ _ _ Hsn))) as Hc.
  destruct (object_header _ _ _ _ _ _ _ _ Hc Ha) as (_ & Hmd & Hr & Hmg & How & _).
  unfold lz_tlh_free. zfalse (a =? NULL). wp_step. apply wp_chunk_at; [done|].
  rewrite Hmg, Z.eqb_refl. cbn [negb]. unfold tlh_free_in. wp_step. apply wp_chunk_at; [done|].
  rewrite How. rewrite (proj2 (Z.eqb_neq o tlh)) by congruence.
  eapply wp_batch_remote; [exact Hsn|done|done|exact Ha|done|done|]. intros. by exists R', B'.
Qed.

(** Delivery: flushing hands the whole batch to the owner's mailbox, newest
    first and in front of what waited there, and empties the batch; no object
    is lost, duplicated or changed beyond its first word. *)
Theorem flush_delivers s tlh o Γ L G P R B :
  sending s tlh o Γ L G P R B -> tlh <> o -> o <> NULL ->
  wp (lz_tlh_flush_outgoing_batch tlh) (fun _ s' =>
    sending s' tlh o Γ L G P (B ++ R) [] /\
    (forall a n, object s' Γ L a n <-> object s Γ L a n) /\ poked s s' tlh o B) s.
Proof. intros Hsn Hne Ho. eapply wp_deliver; [exact Hsn|done|done|]. by intros. Qed.

End remote_theorems.

(** ** Witnesses *)

Lemma four_sending :
  sending four_state 12288 8192 four_ghost [] [] (replicate 16 []) [slab_base + 16] [slab_base + 32].
Proof.
  constructor; [apply four_mail_ok| | |].
  - exists four_sender. split_and!; [done|done|cbn; lia|done|done].
  - constructor.
    + vm_compute. done.
    + repeat constructor. apply not_elem_of_nil.
    + intros a ->%list_elem_of_singleton. split; [exists 0; by vm_compute|]. exists 16.
      by apply (four_object 2).
  - intros a ->%list_elem_of_singleton E%list_elem_of_singleton. unfold slab_base in E. lia.
Qed.

Lemma remote_free_queued_witness :
  wp (lz_tlh_free 12288 (slab_base + 3 * 16)) (fun _ s' => exists R' B',
    B' ++ R' = [slab_base + 3 * 16; slab_base + 32; slab_base + 16] /\
    sending s' 12288 8192 four_ghost [] [] (replicate 16 []) R' B' /\
    (forall x m, object s' four_ghost [] x m <-> object four_state four_ghost [] x m) /\
    poked four_state s' 12288 8192 [slab_base + 3 * 16; slab_base + 32]) four_state.
Proof.
  apply (remote_free_queued four_state 12288 8192 (slab_base + 3 * 16) 16 four_ghost [] []
    (replicate 16 []) [slab_base + 16] [slab_base + 32]);
    [apply four_sending|lia|lia|apply four_object; lia|..];
    intros E%list_elem_of_singleton; unfold slab_base in E; lia.
Defined.

Lemma flush_delivers_witness :
  wp (lz_tlh_flush_outgoing_batch 12288) (fun _ s' =>
    sending s' 12288 8192 four_ghost [] [] (replicate 16 []) ([slab_base + 32] ++ [slab_base + 16]) [] /\
    (forall a n, object s' four_ghost [] a n <-> object four_state four_ghost [] a n) /\
    poked four_state s' 12288 8192 [slab_base + 32]) four_state.
Proof. apply (flush_delivers four_state 12288 8192); [apply four_sending|lia|lia]. Defined.
