(* ===== verification/Lzmalloc.v ===== *)
(** * lzmalloc.c: the allocation API and the life of thread-local heaps

    Routing by size to slabs, spans and direct mappings, the registry of
    heaps left by dead threads, and initialisation.  [me] identifies the
    calling thread; it selects the thread-local pointer to the heap. *)

From Stdlib Require Import Ascii.
From S2P Require Import Prelude Common Sizes Machine Security Rtree Vmm Telemetry Span.
From S2P Require Import Slab Tlh.

(** sizeof(lz_tlh_t), rounded to cache lines. *)
Definition sizeof_tlh : Z := 2240.

Definition EINVAL : Z := 22.
Definition ENOMEM : Z := 12.

(** Size of the static bootstrap heap of posix_hooks.c. *)
Definition LZ_BASE_HEAP_SIZE : Z := 4 * 1024 * 1024.

(** Contents after memcpy(dst, src, n) and memset(dst, 0, n). *)
Definition copy_bytes (m : gmap Z Z) (dst src n : Z) : gmap Z Z :=
  kmap (fun a => a + (dst - src)) (filter (fun kv => (src <=? kv.1) && (kv.1 <? src + n) = true) m)
    ∪ clear_range dst (dst + n) m.

Section lzmalloc.
Context `{Env}.

(** Mapped memory and the static heap of the program. *)
Definition accessible (s : state) (a : Z) : bool :=
  mapped s a || ((g_base_heap <=? a) && (a <? g_base_heap + LZ_BASE_HEAP_SIZE)).
Definition check_accessible (a : Z) : M unit :=
  fun s => if accessible s a then Done tt s else Stop Segv s.

(** What [rs] leaves uncovered of the bytes from [lo] to [hi]. *)
Definition uncovered (rs : list (Z * Z)) (lo hi : Z) : list (Z * Z) :=
  foldr (fun r gaps => gaps ≫= cut_range r.1 r.2) (if lo <? hi then [(lo, hi)] else []) rs.
Definition check_range (a n : Z) : M unit := fun s =>
  match uncovered ((g_base_heap, g_base_heap + LZ_BASE_HEAP_SIZE) :: st_mapped s) a (a + n) with
  | [] => Done tt s
  | _ => Stop Segv s
  end.
Definition memset_zero (dst n : Z) : M unit :=
  check_range dst n;;
  modify (fun s => set_h_bytes (clear_range dst (dst + n) (h_bytes s)) s).
Definition memcpy (dst src n : Z) : M unit :=
  check_range dst n;; check_range src n;;
  modify (fun s => set_h_bytes (copy_bytes (h_bytes s) dst src n) s).

(** ** Large objects *)

Definition lz_sys_alloc_huge_aligned (total_size : Z) : M Z :=
  o ← map_huge_aligned total_size;
  match o with
  | None => mret NULL
  | Some p => madvise_hugepage p total_size;; mret p
  end.

(** One index entry per 2 MiB of the mapping. *)
Definition huge_blocks (total_bytes : Z) : nat :=
  Z.to_nat ((total_bytes + LZ_HUGE_PAGE_SIZE - 1) / LZ_HUGE_PAGE_SIZE).

Definition format_direct_header (ptr : Z) : M unit :=
  update_chunk ptr (set_magic LZ_CHUNK_MAGIC_V2);;
  update_chunk ptr (set_owning_tlh NULL);;
  update_chunk ptr (set_chunk_type LZ_CHUNK_TYPE_DIRECT);;
  update_chunk ptr (set_node_id 0);;
  update_chunk ptr (set_canary 0);;
  update_chunk ptr (set_chunk_next NULL);;
  update_chunk ptr (fun c => set_checksum (lz_calc_checksum c) c).

(** Header, size words and index entries of a directly mapped object. *)
Definition format_direct (ptr total_bytes size : Z) : M unit :=
  format_direct_header ptr;;
  store_body (ptr + LZ_CACHE_LINE_SIZE) (BDirect total_bytes size);;
  for_loop (huge_blocks total_bytes) 0
    (fun k => lz_rtree_set (ptr + k * LZ_HUGE_PAGE_SIZE) ptr).

(** The direct path of [lz_malloc] (offset 128) and of [lz_memalign]. *)
Definition alloc_direct (payload_offset size : Z) : M Z :=
  let required_bytes := u64 (payload_offset + size) in
  let total_bytes := LZ_ALIGN_UP required_bytes LZ_HUGE_PAGE_SIZE in
  ptr ← lz_sys_alloc_huge_aligned total_bytes;
  if ptr =? NULL then mret NULL
  else
    format_direct ptr total_bytes size;;
    mret (u64 (ptr + payload_offset)).

Definition direct_at (p : Z) : M (Z * Z) :=
  check_mapped p;;
  b ← fetch (fun s => body_of s p);
  match b with BDirect total size => mret (total, size) | _ => stop Segv end.

Definition free_direct (chunk : Z) : M unit :=
  '(total_bytes, _) ← direct_at (chunk + LZ_CACHE_LINE_SIZE);
  for_loop (huge_blocks total_bytes) 0
    (fun k => lz_rtree_clear (chunk + k * LZ_HUGE_PAGE_SIZE));;
  munmap chunk total_bytes.

(** ** Heaps of dead threads *)

Definition zombie_lock : M unit :=
  b ← fetch g_zombie_lock;
  if b : bool then stop Spin else modify (set_g_zombie_lock true).
Definition zombie_unlock : M unit := modify (set_g_zombie_lock false).

Definition lz_resurrect_zombie : M Z :=
  zombie_lock;;
  head ← fetch g_zombie_tlhs;
  (if negb (head =? NULL) then
     t ← tlh_at head;
     modify (set_g_zombie_tlhs (next_zombie t));;
     update_tlh head (set_next_zombie NULL)
   else mret tt);;
  zombie_unlock;;
  mret head.

Definition tls_of (me : Z) (s : state) : Z := default NULL (tls_tlh_ptr s !! me).
Definition set_tls (me v : Z) : M unit :=
  modify (fun s => set_tls_tlh_ptr (<[me := v]> (tls_tlh_ptr s)) s).

(** Bound of a walk over distinct heaps. *)
Definition heap_bound (s : state) : nat := S (size (h_tlhs s)).

Fixpoint reap_zombies (fuel : nat) (current : Z) : M unit :=
  match fuel with
  | O => stop NoFuel
  | S fuel =>
      if current =? NULL then mret tt
      else
        lz_tlh_reap current;;
        t ← tlh_at current;
        reap_zombies fuel (next_zombie t)
  end.

Definition lzmalloc_gc (me : Z) : M unit :=
  tls ← fetch (tls_of me);
  (if negb (tls =? NULL) then lz_tlh_reap tls else mret tt);;
  zombie_lock;;
  current ← fetch g_zombie_tlhs;
  zombie_unlock;;
  fuel ← fetch heap_bound;
  reap_zombies fuel current;;
  lz_vmm_purge_all_caches.

(** ** Life of a heap *)

(** Publish the pending statistics of a heap. *)
Definition flush_statistics (tlh : Z) : M unit :=
  t ← tlh_at tlh;
  if negb (stat_slot t =? NULL) then
    (if 0 <? local_bytes_alloc_batch t
     then stat_add (stat_slot t) (local_bytes_alloc_batch t) else mret tt);;
    (if 0 <? local_bytes_free_batch t
     then stat_add (stat_slot t) (- local_bytes_free_batch t) else mret tt);;
    update_tlh tlh (set_local_bytes_alloc_batch 0);;
    update_tlh tlh (set_local_bytes_free_batch 0)
  else mret tt.

Definition lz_tlh_destructor (tlh : Z) : M unit :=
  if tlh =? NULL then mret tt
  else
    lz_tlh_flush_outgoing_batch tlh;;
    flush_statistics tlh;;
    update_tlh tlh (set_is_zombie 1);;
    zombie_lock;;
    z ← fetch g_zombie_tlhs;
    update_tlh tlh (set_next_zombie z);;
    modify (set_g_zombie_tlhs tlh);;
    zombie_unlock.

(** The environment scan of [lz_system_init]: is telemetry asked for? *)
Fixpoint scan_telemetry (envs : list string) : bool :=
  match envs with
  | [] => false
  | env :: envs =>
      if strncmp_eq 19 env "LZMALLOC_TELEMETRY=" then true else scan_telemetry envs
  end.

Definition lz_system_init : M unit :=
  lz_security_init;;
  lz_vmm_init;;
  lz_rtree_init;;
  match environ with
  | None => mret tt
  | Some envs => if scan_telemetry envs then lz_telemetry_init else mret tt
  end.

(** atomic_fetch_add of the thread counter. *)
Definition next_thread_id : M Z :=
  n ← fetch g_thread_counter;
  modify (set_g_thread_counter (u32 (n + 1)));;
  mret n.

(** The zeroed pages of a new heap. *)
Definition zero_tlh : lz_tlh_t :=
  mk_tlh (replicate (Z.to_nat LZ_MAX_SIZE_CLASSES) (mk_bin NULL NULL NULL)) NULL NULL
    (mk_batch NULL NULL NULL 0) 0 0 0 0 0 NULL NULL.

(** Attach the thread to its statistics slot. *)
Definition attach_statistics (tlh : Z) : M unit :=
  update_tlh tlh (set_local_bytes_alloc_batch 0);;
  update_tlh tlh (set_local_bytes_free_batch 0);;
  t ← tlh_at tlh;
  let max_thread_slots := LZ_MAX_TELEMETRY_SLOTS - LZ_THREAD_SLOT_BASE_IDX in
  let safe_idx := thread_id t mod max_thread_slots in
  slot ← lz_telemetry_get_slot (LZ_THREAD_SLOT_BASE_IDX + safe_idx);
  update_tlh tlh (set_stat_slot slot).

Definition ensure_tls_init (me : Z) : M unit :=
  tls ← fetch (tls_of me);
  if negb (tls =? NULL) then mret tt
  else
    tlh ← lz_resurrect_zombie;
    set_tls me tlh;;
    tlh ← (if negb (tlh =? NULL) then
        update_tlh tlh (set_is_zombie 0);;
        tid ← next_thread_id;
        update_tlh tlh (set_thread_id tid);;
        mret tlh
      else
        o ← mmap sizeof_tlh;
        match o with
        | None => stop Trap
        | Some tlh =>
            modify (fun s => set_h_tlhs (<[tlh := zero_tlh]> (h_tlhs s)) s);;
            set_tls me tlh;;
            tid ← next_thread_id;
            lz_tlh_init tlh tid;;
            update_tlh tlh (set_is_zombie 0);;
            update_tlh tlh (set_next_zombie NULL);;
            mret tlh
        end);
    attach_statistics tlh.

(** ** The API *)

Definition lz_malloc (me size : Z) : M Z :=
  let size := if size =? 0 then 1 else size in
  if size <=? LZ_MAX_SLAB_OBJ_SIZE then
    ensure_tls_init me;;
    tls ← fetch (tls_of me);
    lz_tlh_alloc tls size
  else if size <=? 1048576 then
    ensure_tls_init me;;
    tls ← fetch (tls_of me);
    lz_span_alloc tls size
  else alloc_direct 128 size.

(** The chunk registered for [ptr], asked twice as in the code. *)
Definition find_chunk (ptr : Z) : M Z :=
  chunk ← lz_rtree_get ptr;
  if chunk =? NULL then lz_rtree_get (ptr .& chunk_mask) else mret chunk.

Definition lz_free (me ptr : Z) : M unit :=
  if ptr =? NULL then mret tt
  else
    chunk ← find_chunk ptr;
    if chunk =? NULL then mret tt
    else
      c ← chunk_at chunk;
      if negb (magic c =? LZ_CHUNK_MAGIC_V2) then mret tt
      else if chunk_type c =? LZ_CHUNK_TYPE_DIRECT then free_direct chunk
      else
        ensure_tls_init me;;
        tls ← fetch (tls_of me);
        lz_tlh_free tls ptr.

Definition lz_calloc (me num size : Z) : M Z :=
  let '(num, size) := if (num =? 0) || (size =? 0) then (1, 1) else (num, size) in
  if SIZE_MAX / num <? size then mret NULL
  else
    let total_size := u64 (num * size) in
    ptr ← lz_malloc me total_size;
    if ptr =? NULL then mret NULL
    else
      (if total_size <=? 1048576 then memset_zero ptr total_size else mret tt);;
      mret ptr.

Definition lz_malloc_usable_size (ptr : Z) : M Z :=
  if ptr =? NULL then mret 0
  else
    chunk ← find_chunk ptr;
    if chunk =? NULL then mret 0
    else
      c ← chunk_at chunk;
      if negb (magic c =? LZ_CHUNK_MAGIC_V2) then mret 0
      else if chunk_type c =? LZ_CHUNK_TYPE_DIRECT then
        '(_, size) ← direct_at (chunk + LZ_CACHE_LINE_SIZE); mret size
      else if chunk_type c =? LZ_CHUNK_TYPE_SLAB then
        sl ← slab_at (chunk + LZ_CACHE_LINE_SIZE); mret (block_size sl)
      else if chunk_type c =? LZ_CHUNK_TYPE_SPAN then
        let start_page := u32 (u64 (ptr - chunk) / LZ_PAGE_SIZE) in
        n ← load_alloc_size (chunk + LZ_CACHE_LINE_SIZE) start_page;
        mret (n * LZ_PAGE_SIZE)
      else mret 0.

Definition lz_realloc (me ptr new_size : Z) : M Z :=
  if ptr =? NULL then lz_malloc me new_size
  else if new_size =? 0 then lz_free me ptr;; mret NULL
  else
    old_size ← lz_malloc_usable_size ptr;
    if old_size =? 0 then mret NULL
    else if new_size <=? old_size then mret ptr
    else
      new_ptr ← lz_malloc me new_size;
      if new_ptr =? NULL then mret NULL
      else
        memcpy new_ptr ptr old_size;;
        lz_free me ptr;;
        mret new_ptr.

Definition is_power_of_two (x : Z) : bool := negb (x =? 0) && (x .& u64 (x - 1) =? 0).

Definition lz_memalign (me alignment size : Z) : M Z :=
  if (alignment =? 0) || negb (is_power_of_two alignment) then mret NULL
  else if (alignment <=? 64) && (size <=? LZ_MAX_SLAB_OBJ_SIZE) then
    lz_malloc me (LZ_ALIGN_UP size alignment)
  else if (alignment <=? LZ_PAGE_SIZE) && (size <=? 1048576) then
    ensure_tls_init me;;
    tls ← fetch (tls_of me);
    lz_span_alloc tls size
  else alloc_direct (LZ_ALIGN_UP 128 alignment) size.

(** Return code and the value stored to [*memptr], if any. *)
Definition lz_posix_memalign (me memptr alignment size : Z) : M (Z * option Z) :=
  if memptr =? NULL then mret (EINVAL, None)
  else if negb (alignment mod 8 =? 0) || negb (is_power_of_two alignment) then mret (EINVAL, None)
  else
    ptr ← lz_memalign me alignment size;
    if ptr =? NULL then mret (ENOMEM, None) else mret (0, Some ptr).

Definition lz_aligned_alloc (me alignment size : Z) : M Z :=
  if (alignment =? 0) || negb (is_power_of_two alignment) then mret NULL
  else if negb (size mod alignment =? 0) then mret NULL
  else lz_memalign me alignment size.

Definition page_size_or_default : Z := if sys_pagesize <=? 0 then 4096 else sys_pagesize.

Definition lz_valloc (me size : Z) : M Z := lz_memalign me page_size_or_default size.

Definition lz_pvalloc (me size : Z) : M Z :=
  let page_size := page_size_or_default in
  lz_memalign me page_size (LZ_ALIGN_UP size page_size).

End lzmalloc.
