(* ===== verification/PosixHooks.v ===== *)
(** * posix_hooks.c: the bootstrap allocator and the interposed symbols

    A bump allocator over a static 4 MiB array serves the requests that come
    before the constructor has run; afterwards the hooks forward to the API.
    [me] identifies the calling thread. *)

From S2P Require Import Prelude Common Machine Lzmalloc.

Definition LZ_ABI_ALIGNMENT : Z := 16.
(** sizeof(lz_base_header_t) *)
Definition sizeof_base_header : Z := 16.

Section posix_hooks.
Context `{Env}.

Definition is_base_ptr (ptr : Z) : bool :=
  (g_base_heap <=? ptr) && (ptr <? g_base_heap + LZ_BASE_HEAP_SIZE).

(** Offset of the block header and end of the block, from the current
    offset: one iteration of the compare-and-swap loop. *)
Definition base_place (current_offset alignment size : Z) : Z * Z :=
  let base_addr := u64 (g_base_heap + current_offset) in
  let payload_addr := LZ_ALIGN_UP (u64 (base_addr + sizeof_base_header)) alignment in
  let aligned_offset := u64 (payload_addr - sizeof_base_header - g_base_heap) in
  let total_size := LZ_ALIGN_UP size LZ_ABI_ALIGNMENT in
  (aligned_offset, u64 (aligned_offset + sizeof_base_header + total_size)).

Definition lz_base_malloc_aligned (alignment size : Z) : M Z :=
  let alignment := if alignment <? LZ_ABI_ALIGNMENT then LZ_ABI_ALIGNMENT else alignment in
  let size := if size =? 0 then LZ_ABI_ALIGNMENT else size in
  current_offset ← fetch g_base_offset;
  let '(aligned_offset, new_offset) := base_place current_offset alignment size in
  modify (set_g_base_offset new_offset);;
  if LZ_BASE_HEAP_SIZE <? new_offset then stop Trap
  else
    let header := u64 (g_base_heap + aligned_offset) in
    modify (fun s => set_h_base_sizes (<[header := size]> (h_base_sizes s)) s);;
    mret (header + sizeof_base_header).

Definition lz_base_malloc (size : Z) : M Z := lz_base_malloc_aligned LZ_ABI_ALIGNMENT size.

(** [((lz_base_header_t* )ptr - 1)->exact_size] *)
Definition base_size (ptr : Z) : M Z :=
  fetch (fun s => default 0 (h_base_sizes s !! (ptr - sizeof_base_header))).

Definition lz_bootstrap_system : M unit :=
  lz_system_init;; modify (set_g_lz_ready 1).

Definition ready : M bool := r ← fetch g_lz_ready; mret (r =? 1).

(** ** Routing *)

Definition lz_malloc_routed (me size : Z) : M Z :=
  r ← ready;
  if r : bool then lz_malloc me size else lz_base_malloc size.

Definition lz_free_routed (me ptr : Z) : M unit :=
  if ptr =? NULL then mret tt
  else if is_base_ptr ptr then mret tt
  else
    r ← ready;
    if r : bool then lz_free me ptr else mret tt.

(** ** Hooks *)

Definition malloc (me size : Z) : M Z := lz_malloc_routed me size.
Definition free (me ptr : Z) : M unit := lz_free_routed me ptr.

Definition calloc (me num size : Z) : M Z :=
  if 2 ^ 64 <=? num * size then mret NULL
  else
    let total := num * size in
    r ← ready;
    if r : bool then lz_calloc me num size
    else
      ptr ← lz_base_malloc total;
      (if negb (ptr =? NULL) then memset_zero ptr total else mret tt);;
      mret ptr.

Definition realloc (me ptr new_size : Z) : M Z :=
  if ptr =? NULL then lz_malloc_routed me new_size
  else if new_size =? 0 then lz_free_routed me ptr;; mret NULL
  else if is_base_ptr ptr then
    old_size ← base_size ptr;
    if new_size <=? old_size then mret ptr
    else
      new_ptr ← lz_malloc_routed me new_size;
      (if negb (new_ptr =? NULL) then memcpy new_ptr ptr old_size else mret tt);;
      mret new_ptr
  else
    r ← fetch g_lz_ready;
    if r =? 0 then mret NULL else lz_realloc me ptr new_size.

Definition posix_memalign (me memptr alignment size : Z) : M (Z * option Z) :=
  r ← ready;
  if r : bool then lz_posix_memalign me memptr alignment size
  else if memptr =? NULL then stop Segv
  else ptr ← lz_base_malloc_aligned alignment size; mret (0, Some ptr).

Definition memalign (me alignment size : Z) : M Z :=
  r ← ready;
  if r : bool then lz_memalign me alignment size else lz_base_malloc_aligned alignment size.

Definition aligned_alloc (me alignment size : Z) : M Z :=
  r ← ready;
  if r : bool then lz_aligned_alloc me alignment size else lz_base_malloc_aligned alignment size.

Definition valloc (me size : Z) : M Z :=
  r ← ready;
  if r : bool then lz_valloc me size
  else lz_base_malloc_aligned page_size_or_default size.

Definition pvalloc (me size : Z) : M Z := valloc me size.

Definition malloc_usable_size (ptr : Z) : M Z :=
  if ptr =? NULL then mret 0
  else if is_base_ptr ptr then base_size ptr
  else
    r ← ready;
    if r : bool then lz_malloc_usable_size ptr else mret 0.

Definition reallocarray (me ptr nmemb size : Z) : M Z :=
  if 2 ^ 64 <=? nmemb * size then mret NULL
  else realloc me ptr (nmemb * size).

Definition cfree (me ptr : Z) : M unit := free me ptr.

(** The symbols of the C library. *)
Definition __libc_malloc (me size : Z) : M Z := malloc me size.
Definition __libc_free (me ptr : Z) : M unit := free me ptr.
Definition __libc_realloc (me ptr size : Z) : M Z := realloc me ptr size.
Definition __libc_calloc (me n size : Z) : M Z := calloc me n size.
Definition __libc_cfree (me ptr : Z) : M unit := free me ptr.
Definition __libc_memalign (me align size : Z) : M Z := memalign me align size.

End posix_hooks.
