(* ===== verification/HooksSpec.v ===== *)
(** * What the bootstrap allocator promises *)

From S2P Require Import Prelude Common Machine Wp Testbed Lzmalloc PosixHooks.

Section base_heap.
Context `{Env}.

(** The static array is 16-byte aligned and lies in user space. *)
Definition base_heap_ok : Prop :=
  g_base_heap mod 16 = 0 /\ 0 < g_base_heap /\ g_base_heap + LZ_BASE_HEAP_SIZE <= 2 ^ 47.

(** The size as the allocator adjusts it. *)
Definition eff_size (n : Z) : Z := if n =? 0 then 16 else n.

(** Where one request lands, without wrap-around. *)
Lemma base_place_spec cur k size :
  base_heap_ok -> 0 <= cur < 2 ^ 62 -> 4 <= k <= 40 -> 1 <= size < 2 ^ 62 ->
  let '(off, new) := base_place cur (2 ^ k) size in
  cur <= off /\ (g_base_heap + off + 16) mod 2 ^ k = 0 /\
  off + 16 + size <= new < off + 16 + size + 16 /\ off < cur + 2 ^ k + 16 /\ 0 <= new < 2 ^ 64 /\
  new mod 16 = 0.
Proof.
  intros (Ha & Hb & Hc) Hcur Hk Hs. unfold base_place, sizeof_base_header, LZ_BASE_HEAP_SIZE in *.
  assert (2 ^ 4 <= 2 ^ k <= 2 ^ 40) as Hk' by (split; apply Z.pow_le_mono_r; lia).
  change (2 ^ 4) with 16 in Hk'. change (2 ^ 40) with 1099511627776 in Hk'.
  rewrite (u64_small (g_base_heap + cur)), (u64_small (g_base_heap + cur + 16)) by lia.
  destruct (LZ_ALIGN_UP_spec (g_base_heap + cur + 16) k) as [Hal Hr]; [lia..|].
  set (pay := LZ_ALIGN_UP (g_base_heap + cur + 16) (2 ^ k)) in *. clearbody pay.
  change LZ_ABI_ALIGNMENT with (2 ^ 4). destruct (LZ_ALIGN_UP_spec size 4) as [Hal' Hr']; [lia..|].
  set (tot := LZ_ALIGN_UP size (2 ^ 4)) in *. clearbody tot. change (2 ^ 4) with 16 in *.
  rewrite (u64_small (pay - 16 - g_base_heap)) by lia. rewrite u64_small by lia.
  assert (pay mod 16 = 0) by (apply (mod_pow2_weaken _ 4 k); [lia|done]).
  split_and!; try lia; [|dlia].
  by replace (g_base_heap + (pay - 16 - g_base_heap) + 16) with pay by lia.
Qed.

(** A request (alignment exponent, size) and the block it got. *)
Record base_request := mk_req { req_k : Z; req_size : Z }.

Definition req_ok (q : base_request) : Prop := 0 <= req_k q <= 40 /\ 0 <= req_size q < 2 ^ 62.

Fixpoint base_requests (qs : list base_request) : M (list Z) :=
  match qs with
  | [] => mret []
  | q :: qs =>
      r ← lz_base_malloc_aligned (2 ^ req_k q) (req_size q);
      rs ← base_requests qs;
      mret (r :: rs)
  end.

(** Block [r] serves request [q] above offset [lo]. *)
Definition serves (lo : Z) (q : base_request) (r : Z) (s' : state) : Prop :=
  r mod 2 ^ req_k q = 0 /\ r mod 16 = 0 /\ g_base_heap + lo + 16 <= r /\
  r + eff_size (req_size q) <= g_base_heap + g_base_offset s' /\
  h_base_sizes s' !! (r - 16) = Some (eff_size (req_size q)).

(** One request: the block it gets, or the trap when the array is exhausted. *)
Lemma base_malloc_run k size s :
  base_heap_ok -> 0 <= g_base_offset s <= LZ_BASE_HEAP_SIZE -> 0 <= k <= 40 -> 0 <= size < 2 ^ 62 ->
  match lz_base_malloc_aligned (2 ^ k) size s with
  | Done r s' =>
      serves (g_base_offset s) (mk_req k size) r s' /\
      g_base_offset s <= g_base_offset s' <= LZ_BASE_HEAP_SIZE /\
      g_base_offset s' <= g_base_offset s + 2 ^ Z.max k 4 + size + 64 /\
      (forall a, a < g_base_heap + g_base_offset s -> h_base_sizes s' !! a = h_base_sizes s !! a) /\
      s' = set_g_base_offset (g_base_offset s') (set_h_base_sizes (h_base_sizes s') s)
  | Stop Trap _ => LZ_BASE_HEAP_SIZE < g_base_offset s + 2 ^ Z.max k 4 + size + 64
  | Stop _ _ => False
  end.
Proof.
  intros Hb Hcur Hk Hs.
  assert (exists k', 4 <= k' <= 40 /\ k <= k' /\ k' = Z.max k 4 /\
    (if 2 ^ k <? LZ_ABI_ALIGNMENT then LZ_ABI_ALIGNMENT else 2 ^ k) = 2 ^ k') as (k' & Hk' & Hkk & Em & E).
  { exists (Z.max k 4). split_and!; [lia..|]. unfold LZ_ABI_ALIGNMENT. destruct (Z.ltb_spec (2 ^ k) 16) as [Hlt|Hge].
    - assert (k < 4) by (apply (Z.pow_lt_mono_r_iff 2); lia). by replace (Z.max k 4) with 4 by lia.
    - assert (4 <= k) by (apply (Z.pow_le_mono_r_iff 2); lia). by replace (Z.max k 4) with k by lia. }
  assert (1 <= eff_size size < 2 ^ 62 /\ eff_size size <= size + 16) as Hes.
  { unfold eff_size. destruct (Z.eqb_spec size 0); lia. }
  pose proof (base_place_spec (g_base_offset s) k' (eff_size size) Hb ltac:(unfold LZ_BASE_HEAP_SIZE in Hcur; lia) Hk' ltac:(lia)) as Hp.
  unfold lz_base_malloc_aligned, mbind, M_bind, fetch, modify. rewrite E.
  change (if size =? 0 then LZ_ABI_ALIGNMENT else size) with (eff_size size).
  destruct (base_place _ _ _) as [off new]. destruct Hp as (Hlo & Hal & Hn & Hoff & Hnr & _).
  rewrite <- Em. destruct (Z.ltb_spec LZ_BASE_HEAP_SIZE new) as [Hx|Hx]; cbn [stop]; [cbn; lia|].
  destruct Hb as (Hb16 & Hb0 & Hb1). unfold LZ_BASE_HEAP_SIZE in *.
  rewrite (u64_small (g_base_heap + off)) by lia. unfold sizeof_base_header. cbn.
  unfold serves. cbn. replace (g_base_heap + off + 16 - 16) with (g_base_heap + off) by lia.
  rewrite lookup_insert_eq. split_and!; [|..|done]; try lia.
  - apply (mod_pow2_weaken _ k k'); [lia|done].
  - apply (mod_pow2_weaken _ 4 k'); [lia|done].
  - done.
  - intros a Ha. rewrite lookup_insert_ne by lia. done.
Qed.

Lemma base_requests_run s qs :
  base_heap_ok -> 0 <= g_base_offset s <= LZ_BASE_HEAP_SIZE -> Forall req_ok qs ->
  match base_requests qs s with
  | Done rs s' =>
      length rs = length qs /\ g_base_offset s <= g_base_offset s' <= LZ_BASE_HEAP_SIZE /\
      (forall a, a < g_base_heap + g_base_offset s -> h_base_sizes s' !! a = h_base_sizes s !! a) /\
      (forall i q r, qs !! i = Some q -> rs !! i = Some r -> serves (g_base_offset s) q r s') /\
      (forall i j qi ri rj, (i < j)%nat -> qs !! i = Some qi -> rs !! i = Some ri ->
         rs !! j = Some rj -> ri + eff_size (req_size qi) <= rj - 16)
  | Stop r _ => r = Trap
  end.
Proof.
  intros Hb Hcur Hall. revert s Hcur. induction Hall as [|q qs [Hk Hs] Hall IH]; intros s Hcur.
  - cbn. split_and!; try done; lia.
  - cbn [base_requests]. unfold mbind, M_bind.
    pose proof (base_malloc_run (req_k q) (req_size q) s Hb Hcur Hk Hs) as H1.
    destruct (lz_base_malloc_aligned _ _ s) as [r s1|rs]; [|by destruct rs].
    destruct H1 as ((S1 & S2 & S3 & S4 & S5) & H2 & _ & H3 & _). specialize (IH s1 ltac:(lia)).
    destruct (base_requests qs s1) as [rs s2|]; [|done].
    destruct IH as (Hl & Ho & Hfr & Hsv & Hd). cbn [req_k req_size] in *.
    assert (1 <= eff_size (req_size q)) by (unfold eff_size; destruct (Z.eqb_spec (req_size q) 0); lia).
    unfold mret, M_ret. split_and!; [cbn; lia|lia|lia|..].
    + intros a Ha. rewrite Hfr, H3 by lia. done.
    + intros [|i] q' r' Hq Hr; cbn in Hq, Hr; simplify_eq.
      * split_and!; [done..|lia|]. rewrite Hfr by lia. done.
      * destruct (Hsv _ _ _ Hq Hr) as (? & ? & ? & ? & ?). split_and!; [done..|lia|done|done].
    + intros [|i] [|j] qi ri rj Hij Hq Hr Hr'; cbn in Hq, Hr, Hr'; simplify_eq; [lia| |lia|].
      * destruct (lookup_lt_is_Some_2 qs j) as [qj Hqj]; [rewrite <- Hl; by eapply lookup_lt_Some|].
        destruct (Hsv _ _ _ Hqj Hr') as (_ & _ & ? & _). lia.
      * eapply (Hd i j); [lia|done..].
Qed.

(** The bootstrap allocator: any sequence of requests (alignment up to
    2^40, sizes below 2^62) either traps for exhaustion or returns blocks that
    are aligned as asked (and to 16), lie in the static array in increasing
    order with room for every header, hence are pairwise disjoint, and whose
    recorded sizes survive all later requests. *)
Theorem base_requests_disjoint s qs :
  base_heap_ok -> 0 <= g_base_offset s <= LZ_BASE_HEAP_SIZE -> Forall req_ok qs ->
  match base_requests qs s with
  | Done rs s' =>
      length rs = length qs /\ g_base_offset s <= g_base_offset s' <= LZ_BASE_HEAP_SIZE /\
      (forall i q r, qs !! i = Some q -> rs !! i = Some r -> serves (g_base_offset s) q r s') /\
      (forall i j qi ri rj, (i < j)%nat -> qs !! i = Some qi -> rs !! i = Some ri ->
         rs !! j = Some rj -> ri + eff_size (req_size qi) <= rj - 16)
  | Stop r _ => r = Trap
  end.
Proof.
  intros Hb Hcur Hall. pose proof (base_requests_run s qs Hb Hcur Hall) as Hr.
  destruct (base_requests qs s); [|done]. destruct Hr as (? & ? & _ & ? & ?). done.
Qed.

(** One early request near the start of the array, whatever its size wraps to. *)
Lemma wp_base_malloc_low m tot size Q s :
  base_heap_ok -> g_base_offset s = m -> 0 <= m <= 64 -> m mod 16 = 0 -> size <> 0 ->
  LZ_ALIGN_UP size LZ_ABI_ALIGNMENT = tot -> 0 <= tot <= 64 ->
  Q (g_base_heap + m + 16)
    (set_h_base_sizes (<[g_base_heap + m := size]> (h_base_sizes s))
      (set_g_base_offset (m + 16 + tot) s)) ->
  wp (lz_base_malloc size) Q s.
Proof.
  intros (Ha & Hb & Hc) Hm Hr H16 Hs Ht Htot HQ. unfold LZ_BASE_HEAP_SIZE in Hc.
  unfold lz_base_malloc, lz_base_malloc_aligned. wp_step. wp_step. rewrite Hm.
  change (LZ_ABI_ALIGNMENT <? LZ_ABI_ALIGNMENT) with false. zfalse (size =? 0). cbv iota.
  unfold base_place, sizeof_base_header. rewrite Ht.
  rewrite (u64_small (g_base_heap + m)), (u64_small (g_base_heap + m + 16)) by lia.
  change LZ_ABI_ALIGNMENT with (2 ^ 4). rewrite LZ_ALIGN_UP_id by (lia || dlia).
  rewrite (u64_small (g_base_heap + m + 16 - 16 - g_base_heap)) by lia.
  replace (g_base_heap + m + 16 - 16 - g_base_heap) with m by lia.
  rewrite (u64_small (m + 16 + tot)), (u64_small (g_base_heap + m)) by lia. wp_step. wp_step.
  unfold LZ_BASE_HEAP_SIZE. zfalse (4 * 1024 * 1024 <? m + 16 + tot). by wp_steps.
Qed.

(** C40. Wrap-around in the bootstrap allocator: before the constructor has
    run, malloc(SIZE_MAX) succeeds and the next request lands 16 bytes after
    it, inside the size that was recorded for it. *)
Theorem base_malloc_wraps s :
  base_heap_ok -> g_base_offset s = 0 -> g_lz_ready s = 0 ->
  wp (r1 ← malloc 0 SIZE_MAX; n ← base_size r1; r2 ← malloc 0 8; mret (r1, n, r2))
    (fun '(r1, n, r2) _ => r1 = g_base_heap + 16 /\ n = SIZE_MAX /\ r2 = r1 + 16) s.
Proof.
  intros Hb Hz Hr. unfold malloc, lz_malloc_routed, ready. wp_steps. rewrite Hr.
  change (0 =? 1) with false. cbv iota.
  apply (wp_base_malloc_low 0 0); [done..|]. unfold base_size. wp_steps.
  cbn [g_lz_ready set_h_base_sizes set_g_base_offset h_base_sizes]. rewrite Hr.
  change (0 =? 1) with false. cbv iota. apply (wp_base_malloc_low 16 16); [done..|]. wp_steps.
  unfold sizeof_base_header. replace (g_base_heap + 0 + 16 - 16) with (g_base_heap + 0) by lia.
  rewrite lookup_insert_eq. split_and!; [lia|done|lia].
Qed.

End base_heap.

Lemma test_base_heap_ok : base_heap_ok.
Proof. by split_and!. Qed.

Lemma base_requests_disjoint_witness :
  let qs := [mk_req 6 100; mk_req 0 0; mk_req 12 5000] in
  match base_requests qs boot_state with
  | Done rs s' =>
      length rs = length qs /\ 0 <= g_base_offset s' <= LZ_BASE_HEAP_SIZE /\
      (forall i q r, qs !! i = Some q -> rs !! i = Some r -> serves 0 q r s') /\
      (forall i j qi ri rj, (i < j)%nat -> qs !! i = Some qi -> rs !! i = Some ri ->
         rs !! j = Some rj -> ri + eff_size (req_size qi) <= rj - 16)
  | Stop r _ => r = Trap
  end.
Proof.
  apply (base_requests_disjoint boot_state); [apply test_base_heap_ok|done|].
  repeat constructor; cbn; lia.
Defined.

Lemma base_malloc_wraps_witness :
  wp (r1 ← malloc 0 SIZE_MAX; n ← base_size r1; r2 ← malloc 0 8; mret (r1, n, r2))
    (fun '(r1, n, r2) _ => r1 = g_base_heap + 16 /\ n = SIZE_MAX /\ r2 = r1 + 16) boot_state.
Proof. apply base_malloc_wraps; [apply test_base_heap_ok|done|done]. Defined.
