(* ===== verification/LzmallocSpec.v ===== *)
(** * What the allocation API promises

    The direct path of large objects, the overflow and argument checks of the
    entry points, and the life of heaps across thread exit. *)

From Stdlib Require Import Ascii.
From S2P Require Import Prelude Common Sizes Machine Wp Testbed Security Rtree Vmm VmmSpec.
From S2P Require Import Provision Telemetry Span Slab Tlh Lzmalloc.

(** ** Large objects *)

(** A directly mapped object: its header, its size words and its mapping. *)
Record direct_object (s : state) (base total size : Z) : Prop := {
  do_aligned : base mod 2 ^ 21 = 0 /\ total mod 2 ^ 21 = 0 /\ 0 < total;
  do_range : 0 < base /\ base + total <= 2 ^ 47;
  do_header : let h := chunk_of s base in
    magic h = LZ_CHUNK_MAGIC_V2 /\ chunk_type h = LZ_CHUNK_TYPE_DIRECT /\
    checksum h = lz_calc_checksum h;
  do_body : body_of s (base + 64) = BDirect total size;
  do_mapped : forall x, base <= x < base + total -> mapped s x = true;
  do_apart : forall i a x, g_rtree_root s !! i = Some a -> a <> NULL ->
    a <= x < a + sizeof_leaf -> x < base \/ base + total <= x
}.

(** [b] is the number of one of the 2 MiB blocks of the mapping. *)
Definition block_in (base total b : Z) : Prop :=
  block_of base <= b < block_of base + total / 2 ^ 21.

Lemma block_of_nth base k :
  base mod 2 ^ 21 = 0 -> 0 <= base -> 0 <= k -> base + k * 2 ^ 21 < 2 ^ 48 ->
  block_of (base + k * 2 ^ 21) = block_of base + k.
Proof.
  intros Ha Hb Hk Hl. unfold block_of. rewrite Z.div_add by lia.
  assert (base / 2 ^ 21 + k < 2 ^ 27).
  { rewrite <- Z.div_add by lia. apply Z.div_lt_upper_bound; lia. }
  pose proof (Z.div_pos base (2 ^ 21) Hb ltac:(lia)).
  rewrite !Z.mod_small by lia. done.
Qed.

Lemma huge_blocks_exact total :
  0 <= total -> total mod 2 ^ 21 = 0 -> Z.of_nat (huge_blocks total) = total / 2 ^ 21.
Proof.
  intros H0 Hm. unfold huge_blocks, LZ_HUGE_PAGE_SIZE. change 2097152 with (2 ^ 21).
  rewrite Z2Nat.id by (apply Z.div_pos; lia). dlia.
Qed.

Section direct.
Context `{EnvLaws}.

(** Registering (or clearing) one entry per block. *)
Lemma wp_index_loop base total v Q s :
  rtree_inv s -> base mod 2 ^ 21 = 0 -> 0 <= base -> 0 <= total -> total mod 2 ^ 21 = 0 ->
  base + total <= 2 ^ 47 ->
  (forall s', rtree_inv s' -> mem_ext s s' -> vmm_part s' = vmm_part s ->
     thread_part s' = thread_part s ->
     (forall b, ~ block_in base total b -> rtree_view s' b = rtree_view s b) ->
     (forall b, block_in base total b -> rtree_view s' b = v \/
        rtree_view s' b = NULL /\ leaf_refused_since s s') -> Q tt s') ->
  wp (for_loop (huge_blocks total) 0 (fun k => lz_rtree_set (base + k * LZ_HUGE_PAGE_SIZE) v)) Q s.
Proof.
  intros Hi Ha Hb Ht Htm Hl HQ.
  pose proof (huge_blocks_exact total Ht Htm) as Hn.
  apply (wp_for_loop (fun k s' => rtree_inv s' /\ mem_ext s s' /\ vmm_part s' = vmm_part s /\
    thread_part s' = thread_part s /\
    (forall b, ~ (block_of base <= b < block_of base + k) -> rtree_view s' b = rtree_view s b) /\
    (forall b, block_of base <= b < block_of base + k -> rtree_view s' b = v \/
       rtree_view s' b = NULL /\ leaf_refused_since s s'))).
  - split_and!; try done. intros b Hb'. lia.
  - intros k s' Hk (I1 & E1 & V1 & T1 & O1 & R1). rewrite Hn in Hk.
    unfold LZ_HUGE_PAGE_SIZE. change 2097152 with (2 ^ 21).
    assert (base + k * 2 ^ 21 < 2 ^ 47) by dlia.
    apply wp_rtree_set; [done|lia|].
    intros s2 [I2 E2 V2 T2 W2 L2]. rewrite block_of_nth in W2 by lia.
    pose proof (og_log _ _ (ext_leaves _ _ E1)) as G1. pose proof (og_log _ _ (ext_leaves _ _ E2)) as G2.
    assert (forall b, rtree_view s' b = v \/ rtree_view s' b = NULL /\ leaf_refused_since s s' ->
      rtree_view s' b = v \/ rtree_view s' b = NULL /\ leaf_refused_since s s2) as Hmono.
    { intros b [?|[? ?]]; [by left|right]. split; [done|by eapply leaf_refused_since_before]. }
    split_and!; [done|by etransitivity|congruence|congruence|..].
    + intros b Hb'. destruct W2 as [[_ W]|[_ W]]; rewrite W; [|apply O1; lia].
      destruct (Z.eqb_spec b (block_of base + k)); [lia|]. apply O1. lia.
    + intros b Hb'. destruct W2 as [[_ W]|[Hoom W]]; rewrite W.
      * destruct (Z.eqb_spec b (block_of base + k)); [by left|]. apply Hmono, R1. lia.
      * destruct (Z.eq_dec b (block_of base + k)) as [->|]; [|apply Hmono, R1; lia].
        destruct L2 as [[? _]|[_ L2]]; [done|]. destruct Hoom as (Hz & _). rewrite block_of_nth in Hz by lia.
        right. split; [unfold rtree_view; by rewrite Hz|].
        eapply leaf_refused_since_after; [exact G1|]. exists (st_clock s'), [(st_clock s', sizeof_leaf)].
        split; [exact L2|by left].
  - intros s' (I1 & E1 & V1 & T1 & O1 & R1). rewrite Hn in *. apply HQ; try done.
Qed.

(** The header writes of a large object. *)
Lemma wp_direct_header p Q s :
  mapped s p = true ->
  (forall s', only_chunk p s s' -> (let h := chunk_of s' p in
     magic h = LZ_CHUNK_MAGIC_V2 /\ chunk_type h = LZ_CHUNK_TYPE_DIRECT /\
     checksum h = lz_calc_checksum h) -> Q tt s') ->
  wp (format_direct_header p) Q s.
Proof.
  intros Hm HQ. unfold format_direct_header. pose proof (only_chunk_refl p s) as H0'.
  do 6 (wp_step; eapply wp_update_only; [eassumption|exact Hm|]; clear dependent H0';
        let s' := fresh "s" in let E := fresh "E" in intros s' H0' E).
  eapply wp_update_only; [eassumption|exact Hm|]. intros s' H1' E'. apply HQ; [done|].
  cbv zeta. rewrite E', E4, E3, E2, E1, E0, E. done.
Qed.

(** What a successful direct allocation establishes; [req] is the sum of
    offset and size as the code computes it. *)
Record direct_alloc_post (s : state) (off req size r : Z) (s' : state) (base total : Z) : Prop := {
  da_ptr : r = base + off;
  da_object : direct_object s' base total size;
  da_total : req <= total < req + 2 ^ 21;
  da_fresh : forall x, base <= x < base + total -> mapped s x = false /\ byte_of s' x = 0;
  da_ext : mem_ext s s';
  da_vmm : vmm_part s' = vmm_part s;
  da_thread : thread_part s' = thread_part s;
  da_rtree : rtree_inv s';
  da_view : forall b, ~ block_in base total b -> rtree_view s' b = rtree_view s b;
  da_index : forall b, block_in base total b ->
    rtree_view s' b = base \/ rtree_view s' b = NULL /\ leaf_refused_since s s'
}.

(** Stamping header and size words of a fresh mapping at [base]. *)
Lemma wp_direct_stamp base total size (k : M unit) Q s0 s :
  fresh_mapping s0 base total s -> 2 ^ 21 <= total ->
  (forall s', s' = set_h_bodies (<[base + 64 := BDirect total size]> (h_bodies s))
       (set_h_chunks (h_chunks s') s) ->
     (let h := chunk_of s' base in magic h = LZ_CHUNK_MAGIC_V2 /\
       chunk_type h = LZ_CHUNK_TYPE_DIRECT /\ checksum h = lz_calc_checksum h) ->
     mem_ext s0 s' -> wp k Q s') ->
  wp (format_direct_header base;; store_body (base + LZ_CACHE_LINE_SIZE) (BDirect total size);; k) Q s.
Proof.
  intros [_ _ Ff Fm _ Fe _ _ _ _] Ht HQ.
  assert (forall x, base <= x < base + total -> mapped s x = true) as Hin.
  { intros x Hx. rewrite Fm. destruct (mapped s0 x); [done|]. cbn. lia. }
  wp_step. apply wp_direct_header; [apply Hin; lia|]. intros s3 [E3 O3] Hh3.
  unfold LZ_CACHE_LINE_SIZE. wp_step. apply wp_store_body; [rewrite E3; apply Hin; lia|].
  apply HQ; [cbn; by rewrite E3|exact Hh3|].
  assert (forall x, mapped s0 x = true -> x < base \/ base + total <= x) as Hout.
  { intros x Hx. destruct (decide (base <= x < base + total)) as [Hx'|]; [|lia].
    rewrite Ff in Hx by done. done. }
  destruct Fe as [Em Ec Eb Ed El].
  constructor; [..|eapply (only_grows_trans s0 s); [exact Em|exact El|apply only_grows_same; cbn; by rewrite E3]];
    intros x Hx; pose proof (Hout x Hx).
  - transitivity (mapped s x); [|auto]. unfold mapped. cbn. by rewrite E3.
  - rewrite <- (Ec x Hx), <- O3 by lia. done.
  - rewrite body_of_insert, decide_False by lia. rewrite <- Eb by done. by rewrite E3.
  - rewrite <- Ed by done. cbn. by rewrite E3.
Qed.

(** What the kernel answers to a direct allocation of [req] bytes in [s]. *)
Definition direct_answer (s : state) (req : Z) : option Z :=
  sys_mmap (st_clock s) (st_mapped s) (LZ_ALIGN_UP req (2 ^ 21) + 2 ^ 21).

Lemma wp_alloc_direct off size req Q s :
  rtree_inv s -> 0 <= off <= 2 ^ 45 -> u64 (off + size) = req -> 0 < req <= 2 ^ 47 ->
  (match direct_answer s req with
   | None => Q NULL (mmap_failed s (LZ_ALIGN_UP req (2 ^ 21) + 2 ^ 21))
   | Some _ => forall r s' base,
       direct_alloc_post s off req size r s' base (LZ_ALIGN_UP req (2 ^ 21)) -> Q r s'
   end) ->
  wp (alloc_direct off size) Q s.
Proof.
  intros Hr Ho Es Hp HQ. unfold alloc_direct. rewrite Es. unfold direct_answer in HQ.
  change LZ_HUGE_PAGE_SIZE with (2 ^ 21).
  destruct (LZ_ALIGN_UP_spec req 21) as [Hal Hrg]; [lia..|].
  set (total := LZ_ALIGN_UP req (2 ^ 21)) in *. clearbody total.
  assert (2 ^ 21 <= total) by (clear - Hal Hrg Hp; dlia).
  wp_step. unfold lz_sys_alloc_huge_aligned. wp_step.
  apply wp_map_huge_aligned; [lia|done|unfold LZ_HUGE_PAGE_SIZE; lia|..].
  { change LZ_HUGE_PAGE_SIZE with (2 ^ 21). intros E. rewrite E in HQ. by wp_steps. }
  change LZ_HUGE_PAGE_SIZE with (2 ^ 21). intros raw base s1 Em Hfm. rewrite Em in HQ. clear raw Em. unfold madvise_hugepage. wp_steps. set (s2 := set_st_clock _ s1).
  assert (fresh_mapping s base total s2) as [Fa [Fr1 Fr2] Ff Fm Fz Fe Fre Fv Ft Fl].
  { destruct Hfm as [? ? ? ? ? He1 ? ? ? ?]. constructor; try done. by transitivity s1. }
  zfalse (base =? NULL). wp_step. unfold format_direct.
  apply (wp_direct_stamp base total size _ _ s s2); [by constructor|done|]. intros s4 E4 Hh4 He4.
  assert (forall x, mapped s4 x = mapped s2 x) as Hm4 by (intros; rewrite E4; done).
  assert (rtree_part s4 = rtree_part s) as Er by (rewrite <- Fre, E4; done).
  assert (rtree_inv s4) as Hr4 by (eapply rtree_inv_ext; [exact Hr|done|apply He4]).
  assert (forall x, base <= x < base + total -> mapped s4 x = true) as Hin4.
  { intros x Hx. rewrite Hm4, Fm. destruct (mapped s x); [done|]. cbn. lia. }
  apply wp_index_loop; [done|done|lia|lia|done|lia|].
  intros s5 I5 X5 V5 T5 W5 R5. wp_steps.
  rewrite (u64_small (base + off)) by lia. apply (HQ _ _ base).
  constructor; [done|..].
  - constructor; [split_and!; [done|done|lia]|lia|..].
    + cbv zeta. rewrite (ext_chunk _ _ X5) by (apply Hin4; lia). exact Hh4.
    + rewrite (ext_body _ _ X5) by (apply Hin4; lia). rewrite E4. unfold body_of. cbn. by rewrite lookup_insert_eq.
    + intros x Hx. apply X5. auto.
    + intros i a x Hi Ha Hx. destruct (decide (base <= x < base + total)) as [Hi2|]; [exfalso|lia].
      apply (og_leaves _ _ (ext_leaves _ _ X5) i a x) in Hi; [|exact Hx|auto].
      assert (g_rtree_root s4 = g_rtree_root s) as Err by by injection Er. rewrite Err in Hi.
      pose proof (proj2 (root_leaf _ Hr _ _ Hi Ha) x Hx) as Hmx. by rewrite (Ff x Hi2) in Hmx.
  - lia.
  - intros x Hx. split; [by apply Ff|]. unfold byte_of. rewrite (ext_byte _ _ X5) by auto.
    destruct (Fz x Hx) as (_ & _ & Ez). rewrite E4. cbn. unfold s2 in Ez. cbn in Ez. by rewrite Ez.
  - by etransitivity.
  - rewrite V5, <- Fv. by rewrite E4.
  - rewrite T5, <- Ft. by rewrite E4.
  - done.
  - intros b Hb. rewrite W5 by done. by apply rtree_view_eq.
  - intros b Hb. destruct (R5 b Hb) as [?|[? ?]]; [by left|right]. split; [done|].
    eapply leaf_refused_since_after; [apply (ext_leaves _ _ He4)|done].
Qed.

(** ** Release of large objects *)

(** The state after a large object was unmapped. *)
Record direct_free_post (s : state) (base total : Z) (s' : state) : Prop := {
  df_unmapped : forall x, base <= x < base + total -> mapped s' x = false;
  df_kept : forall x, mapped s x = true -> x < base \/ base + total <= x -> mapped s' x = true /\
    chunk_of s' x = chunk_of s x /\ body_of s' x = body_of s x /\ h_bytes s' !! x = h_bytes s !! x;
  df_vmm : vmm_part s' = vmm_part s;
  df_thread : thread_part s' = thread_part s;
  df_rtree : rtree_inv s';
  df_view : forall b, ~ block_in base total b -> rtree_view s' b = rtree_view s b;
  df_index : forall b, block_in base total b -> rtree_view s' b = NULL;
  df_grows : only_grows s s'
}.

Lemma wp_direct_at p total size Q s :
  mapped s p = true -> body_of s p = BDirect total size -> Q (total, size) s -> wp (direct_at p) Q s.
Proof. intros Hm Hb HQ. unfold direct_at. wp_steps. by rewrite Hb. Qed.

Lemma wp_free_direct base total size Q s :
  rtree_inv s -> direct_object s base total size ->
  (forall s', direct_free_post s base total s' -> Q tt s') -> wp (free_direct base) Q s.
Proof.
  intros Hr [(Ha & Ht & Hpos) Hrange Hh Hb Hm Hap] HQ. assert (2 ^ 21 <= total) by (clear - Ht Hpos; dlia).
  unfold free_direct, LZ_CACHE_LINE_SIZE. wp_step. eapply wp_direct_at; [apply Hm; lia|done|].
  cbv beta iota. wp_step. unfold lz_rtree_clear. apply wp_index_loop; [done|done|lia|lia|done|lia|].
  intros s1 I1 [Em Ec Eb Ed El] V1 T1 W1 R1. apply wp_munmap. apply HQ.
  assert (total mod 4096 = 0) by (by apply (mod_pow2_weaken _ 12 21)). rewrite page_round_id by done.
  set (s2 := set_st_mapped _ _).
  assert (forall x, mapped s2 x = mapped s1 x && negb ((base <=? x) && (x <? base + total))) as Hm2.
  { intros x. exact (in_ranges_cut base (base + total) (st_mapped s1) x). }
  constructor; try done.
  - intros x Hx. rewrite Hm2. replace ((base <=? x) && (x <? base + total)) with true by lia.
    apply andb_false_r.
  - intros x Hx Hout. split_and!; [|exact (Ec x Hx)|exact (Eb x Hx)|exact (Ed x Hx)].
    rewrite Hm2, Em by done. cbn. lia.
  - constructor.
    + intros i a Hi Hn. destruct (root_leaf _ I1 i a Hi Hn) as [Hs Hx]. split; [done|].
      intros x Hxr. rewrite Hm2, Hx by done. cbn.
      enough (x < base \/ base + total <= x) by lia.
      destruct (decide (base <= x < base + total)) as [Hi2|]; [|lia].
      apply (og_leaves _ _ El i a x) in Hi; [|exact Hxr|by apply Hm]. by eapply Hap.
    + apply I1.
  - intros b Hb'. rewrite (rtree_view_eq s1 s2) by done. by destruct (R1 b Hb') as [->|[-> _]].
  - eapply (only_grows_trans s s1); [exact Em|exact El|done].
Qed.

End direct.

(** ** Theorems: large objects *)

Section theorems.
Context `{EnvLaws}.

Lemma malloc_direct_eq me size :
  1048576 < size -> lz_malloc me size = alloc_direct 128 size.
Proof.
  intros Hs. unfold lz_malloc. zfalse (size =? 0). unfold LZ_MAX_SLAB_OBJ_SIZE.
  zfalse (size <=? 32768). zfalse (size <=? 1048576). done.
Qed.

(** C28. Large allocations: above 1 MiB (up to 2^46 bytes) malloc asks the
    kernel for one mapping.  If that call is refused it returns NULL and only
    the refusal is recorded.  Otherwise it returns the address 128 bytes into a
    fresh, zero-filled, 2 MiB-aligned mapping that holds the object, carries a
    valid header with the requested size, overlaps nothing that was mapped and
    whose pages resolve, in the index, to its header; a page may resolve to
    nothing only when the kernel refused a leaf during this call.  No other
    memory, pool or heap changes. *)
Theorem malloc_direct_refines s me size :
  rtree_inv s -> 1048576 < size <= 2 ^ 46 ->
  let total := LZ_ALIGN_UP (128 + size) (2 ^ 21) in
  wp (lz_malloc me size) (fun r s' =>
    match direct_answer s (128 + size) with
    | None => r = NULL /\ s' = mmap_failed s (total + 2 ^ 21)
    | Some _ => exists base, direct_alloc_post s 128 (128 + size) size r s' base total
    end) s.
Proof.
  intros Hr Hs total. rewrite malloc_direct_eq by lia.
  apply (wp_alloc_direct _ _ (128 + size)); [done|lia|by rewrite u64_small by lia|lia|].
  destruct (direct_answer _ _); [|done]. eauto.
Qed.

(** C29. Release of a large object through any pointer that resolves to its
    header: exactly its mapping disappears, every index entry of it is
    cleared and the others stay, and everything else that was mapped keeps
    its contents. *)
Theorem free_direct_refines s me ptr base total size :
  rtree_inv s -> direct_object s base total size -> base <= ptr < base + total ->
  rtree_view s (block_of ptr) = base ->
  wp (lz_free me ptr) (fun _ s' => direct_free_post s base total s') s.
Proof.
  intros Hr Ho Hp Hv. destruct (do_range _ _ _ _ Ho) as [Hb Hl].
  unfold lz_free. zfalse (ptr =? NULL). wp_step. unfold find_chunk. wp_step.
  apply wp_rtree_get; [done|lia|]. rewrite Hv. zfalse (base =? NULL). wp_steps.
  zfalse (base =? NULL). wp_step. destruct (do_header _ _ _ _ Ho) as (Hm & Ht & _).
  apply wp_chunk_at; [apply (do_mapped _ _ _ _ Ho); lia|].
  rewrite Hm, Ht, Z.eqb_refl. cbn [negb]. rewrite Z.eqb_refl.
  by eapply wp_free_direct.
Qed.

(** C39. Address arithmetic near SIZE_MAX: for the last 127 sizes the sum of
    header and size wraps, so malloc asks the kernel for a single aligned
    2 MiB chunk (4 MiB before trimming) and, whenever that is granted, returns
    a pointer 128 bytes into it while recording the impossible size. *)
Theorem malloc_size_wraps s me size :
  rtree_inv s -> 2 ^ 64 - 128 < size < 2 ^ 64 ->
  is_Some (sys_mmap (st_clock s) (st_mapped s) (2 ^ 22)) ->
  wp (lz_malloc me size) (fun r s' =>
    exists base, 0 < base /\ r = base + 128 /\ direct_object s' base (2 ^ 21) size) s.
Proof.
  intros Hr Hs [raw Hraw]. rewrite malloc_direct_eq by lia.
  assert (u64 (128 + size) = 128 + size - 2 ^ 64) as E.
  { unfold u64. rewrite <- (Z.mod_add _ (-1)) by lia. rewrite Z.mod_small; lia. }
  assert (LZ_ALIGN_UP (128 + size - 2 ^ 64) (2 ^ 21) = 2 ^ 21) as Et.
  { destruct (LZ_ALIGN_UP_spec (128 + size - 2 ^ 64) 21) as [Hm Ht]; [lia..|]. clear - Hm Ht Hs. dlia. }
  apply (wp_alloc_direct _ _ (128 + size - 2 ^ 64)); [done|lia|done|lia|]. unfold direct_answer. rewrite Et.
  change (2 ^ 21 + 2 ^ 21) with (2 ^ 22). rewrite Hraw. intros r s' base Hp. exists base.
  split_and!; [apply (da_object _ _ _ _ _ _ _ _ Hp)|apply Hp|apply Hp].
Qed.

(** Over-aligned large requests: for a power of two up to 2 MiB, with a
    size above 1 MiB or an alignment above a page, memalign fails cleanly or
    returns a pointer with that alignment into a mapping that holds the
    object. *)
Theorem memalign_direct_aligned s me k size :
  rtree_inv s -> 0 <= k <= 21 -> 0 <= size <= 2 ^ 46 -> 1048576 < size \/ 12 < k ->
  wp (lz_memalign me (2 ^ k) size) (fun r s' =>
    r = NULL /\ refused_since s s' \/
    r mod 2 ^ k = 0 /\ exists base total off, 128 <= off /\
      direct_alloc_post s off (off + size) size r s' base total) s.
Proof.
  intros Hr Hk Hs Hor. assert (0 < 2 ^ k <= 2 ^ 21) as Hk2.
  { split; [apply pow2_pos; lia|apply Z.pow_le_mono_r; lia]. }
  unfold lz_memalign. change (is_power_of_two (2 ^ k)) with (LZ_IS_POWER_OF_TWO (2 ^ k)).
  replace (LZ_IS_POWER_OF_TWO (2 ^ k)) with true.
  2: { symmetry. apply LZ_IS_POWER_OF_TWO_spec; [lia|]. exists k. split; [lia|done]. }
  zfalse (2 ^ k =? 0). cbn [orb negb]. unfold LZ_MAX_SLAB_OBJ_SIZE, LZ_PAGE_SIZE.
  assert (12 < k -> 4096 < 2 ^ k) as Hbig.
  { intros. change 4096 with (2 ^ 12). apply Z.pow_lt_mono_r; lia. }
  replace ((2 ^ k <=? 64) && (size <=? 32768)) with false by lia.
  replace ((2 ^ k <=? 4096) && (size <=? 1048576)) with false by lia.
  destruct (LZ_ALIGN_UP_spec 128 k) as [Ha Hb]; [lia..|].
  set (off := LZ_ALIGN_UP 128 (2 ^ k)) in *. clearbody off.
  apply (wp_alloc_direct _ _ (off + size)); [done|lia|by rewrite u64_small by lia|lia|].
  destruct (direct_answer s (off + size)); [|left; split; [done|apply mmap_failed_since]].
  - intros r s' base Hp. right. split; [|eexists base, _, off; split; [lia|exact Hp]].
    rewrite (da_ptr _ _ _ _ _ _ _ _ Hp). apply mod_mul_add; [lia| |done].
    apply (mod_pow2_weaken _ k 21); [lia|].
    by destruct (do_aligned _ _ _ _ (da_object _ _ _ _ _ _ _ _ Hp)).
Qed.

(** ** Theorems: argument checks *)

(** The chunk base of a pointer has the block number of the pointer. *)
Lemma block_of_mask ptr : 0 <= ptr < 2 ^ 64 -> block_of (ptr .& chunk_mask) = block_of ptr.
Proof.
  intros Hp. unfold chunk_mask. change (1 <<. LZ_CHUNK_SHIFT) with (2 ^ 21).
  rewrite land_lnot64_mask by lia. unfold block_of. by rewrite Z.div_mul by lia.
Qed.

Lemma wp_find_chunk ptr Q s :
  rtree_inv s -> 0 <= ptr < 2 ^ 64 -> Q (rtree_view s (block_of ptr)) s -> wp (find_chunk ptr) Q s.
Proof.
  intros Hr Hp HQ. unfold find_chunk. wp_step. apply wp_rtree_get; [done..|].
  destruct (Z.eqb_spec (rtree_view s (block_of ptr)) NULL) as [E|E]; [|by wp_steps].
  assert (0 <= ptr .& chunk_mask < 2 ^ 64) as Hm.
  { unfold chunk_mask. change (1 <<. LZ_CHUNK_SHIFT) with (2 ^ 21). rewrite land_lnot64_mask by lia. dlia. }
  apply wp_rtree_get; [done..|]. by rewrite block_of_mask by done.
Qed.

(** Pointers the allocator does not know: freeing an address whose chunk
    is not registered (any foreign pointer, or NULL) returns with the state
    unchanged, and its usable size is 0. *)
Theorem free_unknown_noop s me ptr :
  rtree_inv s -> 0 <= ptr < 2 ^ 64 -> ptr = NULL \/ rtree_view s (block_of ptr) = NULL ->
  wp (lz_free me ptr) (fun _ s' => s' = s) s /\
  wp (lz_malloc_usable_size ptr) (fun n s' => n = 0 /\ s' = s) s.
Proof.
  intros Hr Hp Hv. unfold lz_free, lz_malloc_usable_size.
  destruct (Z.eqb_spec ptr NULL) as [->|Hn]; [split; by wp_steps|].
  destruct Hv as [?|Hv]; [done|]. split; (wp_step; apply wp_find_chunk; [done..|]; rewrite Hv; by wp_steps).
Qed.

(** C35. The overflow check of calloc is exact: when the product does not fit
    64 bits the call returns NULL and touches nothing; otherwise it is malloc
    of the true product, followed by clearing up to 1 MiB. *)
Theorem calloc_overflow_checked s me num size :
  0 <= num < 2 ^ 64 -> 0 <= size < 2 ^ 64 ->
  (2 ^ 64 <= num * size -> lz_calloc me num size s = Done NULL s) /\
  (0 < num * size < 2 ^ 64 -> lz_calloc me num size s =
     (ptr ← lz_malloc me (num * size);
      if ptr =? NULL then mret NULL
      else
        (if num * size <=? 1048576 then memset_zero ptr (num * size) else mret tt);;
        mret ptr) s) /\
  (num * size = 0 -> lz_calloc me num size s = lz_calloc me 1 1 s).
Proof.
  intros Hn Hs. unfold lz_calloc, SIZE_MAX. split_and!.
  - intros Hp. zfalse (num =? 0). zfalse (size =? 0). cbn [orb].
    assert ((2 ^ 64 - 1) / num < size) by (apply Z.div_lt_upper_bound; lia).
    ztrue ((2 ^ 64 - 1) / num <? size). done.
  - intros Hp. assert (num <> 0 /\ size <> 0) as [? ?] by (split; intros ->; lia).
    zfalse (num =? 0). zfalse (size =? 0). cbn [orb].
    assert (size <= (2 ^ 64 - 1) / num) by (apply Z.div_le_lower_bound; lia).
    zfalse ((2 ^ 64 - 1) / num <? size). by rewrite u64_small by lia.
  - intros [->| ->]%Z.mul_eq_0; [done|]. by destruct (num =? 0).
Qed.

(** The two environment scans agree: the guard in [lz_system_init] (19
    characters of "LZMALLOC_TELEMETRY=") finds a setting exactly when
    [lz_internal_has_env] does, so telemetry is started whenever it is asked
    for and the second check never undoes the first. *)
Theorem telemetry_scan_agrees envs :
  scan_telemetry envs = has_env_in envs "LZMALLOC_TELEMETRY".
Proof.
  rewrite has_env_in_existsb. induction envs as [|env envs IH]; [done|].
  cbn [scan_telemetry existsb]. rewrite IH.
  change (S (String.length "LZMALLOC_TELEMETRY")) with 19%nat.
  change ("LZMALLOC_TELEMETRY" +:+ "=") with "LZMALLOC_TELEMETRY="%string.
  by destruct (strncmp_eq _ _ _).
Qed.

End theorems.

(** ** Theorems: life of heaps *)

Section heaps.
Context `{EnvLaws}.

(** Where the outgoing batch of a heap would be delivered. *)
Definition batch_deliverable (s : state) (tlh : Z) (b : lz_batch_t) : Prop :=
  batch_count b = 0 \/ target_tlh b = NULL \/
  target_tlh b <> tlh /\ is_Some (h_tlhs s !! target_tlh b) /\ mapped s (batch_tail b) = true /\
  mapped s (batch_tail b + 7) = true.

(** The batch [b] of heap [tlh] as the flush leaves it, in the state [s'].  An
    empty batch stays.  Otherwise the target's mailbox starts with the batch,
    whose tail is linked to what the mailbox held, and the batch is empty.
    Other heaps keep their records and all other bytes their values. *)
Definition delivers (s : state) (tlh : Z) (b : lz_batch_t) (s' : state) (b' : lz_batch_t) : Prop :=
  if (batch_count b =? 0) || (target_tlh b =? NULL) then
    b' = b /\ h_bytes s' = h_bytes s /\ forall u, u <> tlh -> h_tlhs s' !! u = h_tlhs s !! u
  else
    b' = mk_batch NULL NULL NULL 0 /\ exists owner, h_tlhs s !! target_tlh b = Some owner /\
      h_tlhs s' !! target_tlh b = Some (set_remote_free_head (batch_head b) owner) /\
      h_bytes s' = set_le_bytes (h_bytes s) (batch_tail b) (remote_free_head owner) 8 /\
      forall u, u <> tlh -> u <> target_tlh b -> h_tlhs s' !! u = h_tlhs s !! u.

Lemma wp_flush_batch tlh t Q s :
  h_tlhs s !! tlh = Some t -> batch_deliverable s tlh (outgoing_batch t) ->
  (forall s' b', h_tlhs s' !! tlh = Some (set_outgoing_batch b' t) ->
     delivers s tlh (outgoing_batch t) s' b' ->
     s' = set_h_bytes (h_bytes s') (set_h_tlhs (h_tlhs s') s) -> Q tt s') ->
  wp (lz_tlh_flush_outgoing_batch tlh) Q s.
Proof.
  intros Ht Hd HQ. unfold lz_tlh_flush_outgoing_batch. wp_step. eapply wp_tlh_at; [done|].
  unfold delivers in HQ. destruct ((batch_count _ =? 0) || (target_tlh _ =? NULL)) eqn:E.
  { wp_step. apply (HQ s (outgoing_batch t)); [rewrite Ht; by destruct t|done|by destruct s]. }
  apply orb_false_iff in E as [E1 E2]. apply Z.eqb_neq in E1, E2.
  destruct Hd as [?|[?|(Hne & [owner Ho] & Hm & Hm7)]]; [done..|].
  wp_step. eapply wp_tlh_at; [done|]. wp_step. apply wp_store64; [done|done|].
  wp_step. eapply wp_update_tlh; [exact Ho|]. eapply wp_update_tlh.
  { cbn. rewrite lookup_insert_ne by done. exact Ht. }
  eapply HQ; [cbn; apply lookup_insert_eq| |state_eq]. split; [done|]. exists owner. cbn.
  split_and!; [done|by rewrite lookup_insert_ne, lookup_insert_eq|done|].
  intros u Hu1 Hu2. by rewrite !lookup_insert_ne.
Qed.

(** Publishing the pending statistics moves them into the slot. *)
Lemma wp_flush_statistics tlh t Q s :
  h_tlhs s !! tlh = Some t -> (stat_slot t = NULL \/ is_Some (h_stats s !! stat_slot t)) ->
  (forall s' t', h_tlhs s' !! tlh = Some t' ->
     (exists a f, t' = set_local_bytes_free_batch f (set_local_bytes_alloc_batch a t) /\
        (stat_slot t <> NULL -> a = 0 /\ f = 0)) ->
     s' = set_h_stats (h_stats s') (set_h_tlhs (<[tlh := t']> (h_tlhs s)) s) ->
     (forall p, is_Some (h_stats s !! p) -> is_Some (h_stats s' !! p)) ->
     (forall c, stat_slot t <> NULL -> h_stats s !! stat_slot t = Some c ->
        0 <= local_bytes_alloc_batch t -> 0 <= local_bytes_free_batch t ->
        exists c', h_stats s' !! stat_slot t = Some c' /\ net_bytes c' t' = net_bytes c t) ->
     (forall p, p <> stat_slot t -> h_stats s' !! p = h_stats s !! p) -> Q tt s') ->
  wp (flush_statistics tlh) Q s.
Proof.
  intros Ht Hst HQ. unfold flush_statistics. wp_step. eapply wp_tlh_at; [done|].
  destruct (Z.eqb_spec (stat_slot t) NULL) as [E|E]; cbn [negb].
  { wp_steps. apply (HQ s t); [done| | |done|done|done].
    - exists (local_bytes_alloc_batch t), (local_bytes_free_batch t). split; [by destruct t|done].
    - destruct s. unfold set_h_stats, set_h_tlhs. cbn in *. f_equal. by rewrite insert_id. }
  destruct Hst as [?|[c Hc]]; [done|].
  set (a := local_bytes_alloc_batch t). set (f := local_bytes_free_batch t).
  assert (forall c1 s1, h_stats s1 !! stat_slot t = Some c1 ->
    s1 = set_h_stats (h_stats s1) s -> (forall p, is_Some (h_stats s !! p) -> is_Some (h_stats s1 !! p)) ->
    (forall p, p <> stat_slot t -> h_stats s1 !! p = h_stats s !! p) ->
    (0 <= a -> 0 <= f -> u64 (stat_bytes_allocated c1) = u64 (stat_bytes_allocated c + a - f)) ->
    wp (update_tlh tlh (set_local_bytes_alloc_batch 0);;
        update_tlh tlh (set_local_bytes_free_batch 0)) Q s1) as Hlast.
  { intros c1 s1 Hc1 Es1 Hmono Hoth Hnet. wp_step. eapply wp_update_tlh; [rewrite Es1; exact Ht|].
    eapply wp_update_tlh; [cbn; apply lookup_insert_eq|].
    eapply HQ; [cbn; apply lookup_insert_eq|by exists 0, 0| |exact Hmono| |exact Hoth].
    - rewrite Es1. state_eq. cbn. by rewrite insert_insert_eq.
    - intros c0 _ Hc0 Ha Hf. rewrite Hc in Hc0. injection Hc0 as <-. exists c1. cbn.
      split; [done|]. unfold net_bytes. cbn. rewrite Z.add_0_r, Z.sub_0_r. by apply Hnet. }
  assert (forall (m : gmap Z lz_stat_counters_t) q v p, is_Some (m !! p) -> is_Some (<[q := v]> m !! p)) as Hins.
  { intros m q v p Hp. rewrite lookup_insert. by case_decide. }
  assert (forall (m m' : gmap Z lz_stat_counters_t) q v p, p <> q -> m !! p = m' !! p -> <[q := v]> m !! p = m' !! p) as Hne.
  { intros m m' q v p Hp <-. by rewrite lookup_insert_ne. }
  wp_step. destruct (Z.ltb_spec 0 a).
  - eapply wp_stat_add; [done|]. wp_step. destruct (Z.ltb_spec 0 f).
    + eapply wp_stat_add; [cbn; apply lookup_insert_eq|].
      eapply Hlast; [cbn; apply lookup_insert_eq|done|cbn; auto|cbn; auto|]. cbn. intros _ _. unfold u64. rewrite i64_mod.
      unfold i64. dlia.
    + wp_step. eapply Hlast; [cbn; apply lookup_insert_eq|done|cbn; auto|cbn; auto|]. cbn. intros _ ?. unfold u64.
      rewrite i64_mod. f_equal. lia.
  - wp_step. wp_step. destruct (Z.ltb_spec 0 f).
    + eapply wp_stat_add; [done|]. eapply Hlast; [cbn; apply lookup_insert_eq|done|cbn; auto|cbn; auto|].
      cbn. intros ? ?. unfold u64. rewrite i64_mod. f_equal. lia.
    + wp_step. eapply Hlast; [done|by destruct s|done|done|]. intros ? ?. f_equal. lia.
Qed.

Lemma wp_zombie_lock Q s :
  g_zombie_lock s = false -> Q tt (set_g_zombie_lock true s) -> wp zombie_lock Q s.
Proof. intros Hl HQ. unfold zombie_lock. wp_steps. rewrite Hl. by wp_steps. Qed.

(** C32. Thread exit and adoption: a heap handed over by the destructor is the
    next one a new thread adopts.  In between its record changes in the batch,
    the two statistics words, the zombie mark and the list link only: bins,
    span list and mailbox are the same, and so are chunk headers, slabs, spans,
    index, pools, registry and lock.  Its outgoing batch has been delivered to
    the mailbox of its target, the link word of the batch's tail being the only
    byte written, and its pending statistics have been published without loss
    in its own slot; other heaps and slots are untouched. *)
Theorem zombie_roundtrip s tlh t c :
  tlh <> NULL -> h_tlhs s !! tlh = Some t -> g_zombie_lock s = false ->
  batch_deliverable s tlh (outgoing_batch t) ->
  stat_slot t <> NULL -> h_stats s !! stat_slot t = Some c ->
  0 <= local_bytes_alloc_batch t -> 0 <= local_bytes_free_batch t ->
  wp (lz_tlh_destructor tlh;; lz_resurrect_zombie) (fun r s' => r = tlh /\
    s' = set_h_bytes (h_bytes s') (set_h_tlhs (h_tlhs s') (set_h_stats (h_stats s') s)) /\
    exists b' c', delivers s tlh (outgoing_batch t) s' b' /\
      h_tlhs s' !! tlh = Some (set_next_zombie NULL (set_is_zombie 1
        (set_local_bytes_free_batch 0 (set_local_bytes_alloc_batch 0 (set_outgoing_batch b' t))))) /\
      h_stats s' !! stat_slot t = Some c' /\ u64 (stat_bytes_allocated c') = net_bytes c t /\
      forall p, p <> stat_slot t -> h_stats s' !! p = h_stats s !! p) s.
Proof.
  intros H0' Ht Hl Hd Hs Hc Ha Hf. wp_step. unfold lz_tlh_destructor. zfalse (tlh =? NULL).
  wp_step. eapply wp_flush_batch; [done..|]. intros s1 b' Ht1 Hdel Es1.
  assert (h_stats s1 = h_stats s) as Eh1 by by rewrite Es1.
  wp_step. eapply wp_flush_statistics; [exact Ht1|right; rewrite Eh1; cbn; by rewrite Hc|].
  intros s2 t2 Ht2 (a & f & Et2 & Haf) Es2 _ Hnet Hoth.
  destruct (Hnet c) as (c' & Hc' & En); [done|by rewrite Eh1|done..|]. cbn [stat_slot set_outgoing_batch] in *.
  destruct Haf as [-> ->]; [done|]. clear Hnet.
  assert (forall u, u <> tlh -> h_tlhs s2 !! u = h_tlhs s1 !! u) as Hsame2.
  { intros u Hu. rewrite Es2. cbn. by rewrite lookup_insert_ne. }
  assert (g_zombie_lock s2 = false) as Hl2 by (rewrite Es2, Es1; done).
  wp_step. eapply wp_update_tlh; [exact Ht2|]. wp_step. apply wp_zombie_lock; [exact Hl2|].
  wp_steps. eapply wp_update_tlh; [cbn; apply lookup_insert_eq|]. unfold zombie_unlock. wp_steps.
  unfold lz_resurrect_zombie. wp_step. apply wp_zombie_lock; [done|]. wp_steps.
  cbn [g_zombie_tlhs set_g_zombie_tlhs set_g_zombie_lock set_h_tlhs]. zfalse (tlh =? NULL). cbn [negb].
  wp_step. eapply wp_tlh_at; [cbn; apply lookup_insert_eq|]. wp_steps.
  eapply wp_update_tlh; [cbn; apply lookup_insert_eq|]. unfold zombie_unlock. wp_steps.
  split; [done|]. split; [rewrite Es2, Es1; state_eq; cbn; congruence|]. exists b', c'.
  assert (forall u, u <> tlh -> forall v1 v2 v3, <[tlh := v1]> (<[tlh := v2]> (<[tlh := v3]> (h_tlhs s2))) !! u = h_tlhs s1 !! u) as Hrec.
  { intros u Hu v1 v2 v3. rewrite !lookup_insert_ne by done. by apply Hsame2. }
  assert (h_bytes s2 = h_bytes s1) as Eb2 by by rewrite Es2.
  split_and!.
  - unfold delivers in *. cbn. rewrite Eb2. destruct (_ || _) eqn:E; [destruct Hdel as (? & ? & Hu)|].
    + split_and!; [done..|]. intros u Hu'. rewrite Hrec by done. by apply Hu.
    + destruct Hdel as (? & owner & ? & Ho & ? & Hu). split; [done|]. exists owner.
      assert (target_tlh (outgoing_batch t) <> tlh) by
        (destruct Hd as [Hd|[Hd|(? & _)]]; [rewrite Hd in E; done|rewrite Hd, orb_true_r in E; done|done]).
      split_and!; [done|by rewrite Hrec|done|]. intros u Hu1 Hu2. rewrite Hrec by done. by apply Hu.
  - cbn. rewrite lookup_insert_eq. by rewrite Et2.
  - exact Hc'.
  - rewrite <- (net_bytes_zero c' (set_local_bytes_free_batch 0 (set_local_bytes_alloc_batch 0 (set_outgoing_batch b' t)))) by done.
    rewrite <- Et2. exact En.
  - intros p Hp. cbn. rewrite Hoth by done. by rewrite Eh1.
Qed.

(** Statistics slots of threads: whatever the thread id, the slot attached
    to a heap is inside the matrix and is never slot 0, which belongs to the
    memory manager; without a matrix the heap has no slot. *)
Theorem thread_slot_in_matrix s tlh t :
  h_tlhs s !! tlh = Some t -> 0 <= thread_id t ->
  wp (attach_statistics tlh) (fun _ s' => exists t', h_tlhs s' !! tlh = Some t' /\
    (g_telemetry_matrix s = NULL -> stat_slot t' = NULL) /\
    (g_telemetry_matrix s <> NULL -> exists i, 1 <= i < LZ_MAX_TELEMETRY_SLOTS /\
       stat_slot t' = g_telemetry_matrix s + i * sizeof_stat_slot)) s.
Proof.
  intros Ht Hid. unfold attach_statistics. wp_step. eapply wp_update_tlh; [exact Ht|].
  wp_step. eapply wp_update_tlh; [cbn; apply lookup_insert_eq|].
  wp_step. eapply wp_tlh_at; [cbn; apply lookup_insert_eq|]. cbn [thread_id set_local_bytes_free_batch set_local_bytes_alloc_batch].
  unfold LZ_MAX_TELEMETRY_SLOTS, LZ_THREAD_SLOT_BASE_IDX, lz_telemetry_get_slot. change (4096 - 1) with 4095.
  pose proof (Z.mod_pos_bound (thread_id t) 4095 ltac:(lia)) as Hi.
  set (i := thread_id t mod 4095) in *. clearbody i. wp_steps.
  cbn [g_telemetry_matrix set_h_tlhs]. unfold LZ_MAX_TELEMETRY_SLOTS. zfalse (4096 <=? 1 + i). rewrite orb_false_r.
  destruct (Z.eqb_spec (g_telemetry_matrix s) NULL) as [E|E]; wp_steps;
    (eapply wp_update_tlh; [cbn; apply lookup_insert_eq|]);
    (eexists; split; [cbn; apply lookup_insert_eq|]); cbn; split; try done.
  intros _. exists (1 + i). split; [lia|done].
Qed.

End heaps.

(** ** Witnesses *)

Lemma malloc_direct_refines_witness :
  let total := LZ_ALIGN_UP (128 + 3000000) (2 ^ 21) in
  wp (lz_malloc 1 3000000) (fun r s' =>
    match direct_answer boot_state (128 + 3000000) with
    | None => r = NULL /\ s' = mmap_failed boot_state (total + 2 ^ 21)
    | Some _ => exists base, direct_alloc_post boot_state 128 (128 + 3000000) 3000000 r s' base total
    end) boot_state.
Proof. apply malloc_direct_refines; [by apply rtree_inv_empty|lia]. Defined.

Lemma malloc_size_wraps_witness :
  wp (lz_malloc 1 SIZE_MAX) (fun r s' =>
    exists base, 0 < base /\ r = base + 128 /\ direct_object s' base (2 ^ 21) SIZE_MAX) boot_state.
Proof. apply malloc_size_wraps; [by apply rtree_inv_empty|unfold SIZE_MAX; lia|apply not_eq_None_Some; by vm_compute]. Defined.

Lemma memalign_direct_aligned_witness :
  wp (lz_memalign 1 (2 ^ 16) 100) (fun r s' =>
    r = NULL /\ refused_since boot_state s' \/
    r mod 2 ^ 16 = 0 /\ exists base total off, 128 <= off /\
      direct_alloc_post boot_state off (off + 100) 100 r s' base total) boot_state.
Proof. apply memalign_direct_aligned; [by apply rtree_inv_empty|lia|lia|lia]. Defined.

(** One registered 4 MiB object and the leaf that indexes it. *)
Definition direct_state : state :=
  set_st_mapped [(0x7f0000400000, 0x7f0000800000); (0x7f0000000000, 0x7f0000020000)]
    (set_h_chunks {[ 0x7f0000400000 := mk_chunk 0 0 LZ_CHUNK_MAGIC_V2 0 0 0 LZ_CHUNK_TYPE_DIRECT ]}
      (set_h_bodies {[ 0x7f0000400040 := BDirect 0x400000 3000000 ]}
        (set_h_leaves {[ 0x7f0000000000 := {[ 2 := 0x7f0000400000; 3 := 0x7f0000400000 ]} ]}
          (set_g_rtree_root {[ 4064 := 0x7f0000000000 ]} boot_state)))).

Lemma direct_state_root i a :
  g_rtree_root direct_state !! i = Some a -> i = 4064 /\ a = 0x7f0000000000.
Proof.
  change (g_rtree_root direct_state) with ({[ 4064 := 0x7f0000000000 ]} : gmap Z Z).
  by intros [<- <-]%lookup_singleton_Some.
Qed.

Lemma direct_state_rtree : rtree_inv direct_state.
Proof.
  constructor.
  - intros i a [-> ->]%direct_state_root _. split; [done|].
    intros x Hx. unfold mapped. unfold sizeof_leaf, LZ_RTREE_L2_ENTRIES in Hx.
    change (8 * (1 <<. LZ_RTREE_L2_BITS)) with 131072 in Hx. cbn. lia.
  - intros i j a [-> _]%direct_state_root [-> _]%direct_state_root _. done.
Qed.

Lemma direct_state_object : direct_object direct_state 0x7f0000400000 0x400000 3000000.
Proof.
  constructor; [done|done|done|done|..].
  - intros x Hx. unfold mapped. cbn. lia.
  - intros i a x [_ ->]%direct_state_root _ Hx. unfold sizeof_leaf, LZ_RTREE_L2_ENTRIES in Hx.
    change (8 * (1 <<. LZ_RTREE_L2_BITS)) with 131072 in Hx. lia.
Qed.

Lemma free_direct_refines_witness :
  wp (lz_free 1 0x7f0000400080)
    (fun _ s' => direct_free_post direct_state 0x7f0000400000 0x400000 s') direct_state.
Proof.
  apply (free_direct_refines _ _ _ _ _ 3000000);
    [apply direct_state_rtree|apply direct_state_object|lia|done].
Defined.

Lemma free_unknown_noop_witness :
  wp (lz_free 1 0x601000) (fun _ s' => s' = direct_state) direct_state /\
  wp (lz_malloc_usable_size 0x601000) (fun n s' => n = 0 /\ s' = direct_state) direct_state.
Proof. apply free_unknown_noop; [apply direct_state_rtree|lia|by right]. Defined.

Lemma calloc_overflow_checked_witness :
  (2 ^ 64 <= 2 ^ 33 * 2 ^ 33 -> lz_calloc 1 (2 ^ 33) (2 ^ 33) boot_state = Done NULL boot_state) /\
  (0 < 2 ^ 33 * 2 ^ 33 < 2 ^ 64 -> lz_calloc 1 (2 ^ 33) (2 ^ 33) boot_state =
     (ptr ← lz_malloc 1 (2 ^ 33 * 2 ^ 33);
      if ptr =? NULL then mret NULL
      else
        (if 2 ^ 33 * 2 ^ 33 <=? 1048576 then memset_zero ptr (2 ^ 33 * 2 ^ 33) else mret tt);;
        mret ptr) boot_state) /\
  (2 ^ 33 * 2 ^ 33 = 0 -> lz_calloc 1 (2 ^ 33) (2 ^ 33) boot_state = lz_calloc 1 1 1 boot_state).
Proof. apply calloc_overflow_checked; lia. Defined.

(** A heap with pending statistics and a batch of one node for another heap,
    whose mailbox holds one. *)
Definition exiting_tlh : lz_tlh_t :=
  mk_tlh (replicate 88 (mk_bin 0 0 0)) 0 0 (mk_batch 16384 0x7f0000200080 0x7f0000200080 1) 7 0 5000 300 5000 0 512.
Definition batch_owner : lz_tlh_t :=
  mk_tlh (replicate 88 (mk_bin 0 0 0)) 0 0x7f0000200090 (mk_batch 0 0 0 0) 8 0 0 0 0 0 0.
Definition exiting_state : state :=
  set_st_mapped [(0x7f0000200000, 0x7f0000400000)]
    (set_h_tlhs (<[ 8192 := exiting_tlh ]> {[ 16384 := batch_owner ]})
      (set_h_stats {[ 512 := mk_stat 0 100 0 0 ]} boot_state)).

Lemma zombie_roundtrip_witness :
  wp (lz_tlh_destructor 8192;; lz_resurrect_zombie) (fun r s' => r = 8192 /\
    s' = set_h_bytes (h_bytes s') (set_h_tlhs (h_tlhs s') (set_h_stats (h_stats s') exiting_state)) /\
    exists b' c', delivers exiting_state 8192 (outgoing_batch exiting_tlh) s' b' /\
      h_tlhs s' !! 8192 = Some (set_next_zombie NULL (set_is_zombie 1
        (set_local_bytes_free_batch 0 (set_local_bytes_alloc_batch 0 (set_outgoing_batch b' exiting_tlh))))) /\
      h_stats s' !! 512 = Some c' /\ u64 (stat_bytes_allocated c') = 4800 /\
      forall p, p <> 512 -> h_stats s' !! p = h_stats exiting_state !! p) exiting_state.
Proof.
  apply (zombie_roundtrip exiting_state 8192 exiting_tlh (mk_stat 0 100 0 0)); try done.
  right. right. split_and!; [done|by exists batch_owner|done|done].
Defined.

Lemma thread_slot_in_matrix_witness :
  wp (attach_statistics 8192) (fun _ s' => exists t', h_tlhs s' !! 8192 = Some t' /\
    (0x7f0000900000 = NULL -> stat_slot t' = NULL) /\
    (0x7f0000900000 <> NULL -> exists i, 1 <= i < LZ_MAX_TELEMETRY_SLOTS /\
       stat_slot t' = 0x7f0000900000 + i * sizeof_stat_slot))
    (set_g_telemetry_matrix 0x7f0000900000 exiting_state).
Proof.
  apply (thread_slot_in_matrix (set_g_telemetry_matrix 0x7f0000900000 exiting_state) 8192 exiting_tlh);
    done.
Defined.

(** ** Departures from the documented alignment *)

(** Alignments above 2 MiB are not honoured: the mapping is only 2 MiB
    aligned, so an object asked for at a 4 MiB boundary is placed off it. *)
Theorem memalign_above_huge_page_misaligned :
  wp (lz_memalign 1 (2 ^ 22) 100) (fun r _ => r <> NULL /\ r mod 2 ^ 22 = 2 ^ 21)
    (set_st_mapped [(0x7f0000000000, 0x7f0000200000)] boot_state).
Proof. vm_compute. split; [discriminate|reflexivity]. Qed.

(** A zero-byte request loses its alignment: it is promoted to a zero
    size, which malloc serves from the 16-byte class, so memalign(64, 0) after
    one small allocation returns an address that is not 64-byte aligned. *)
Theorem memalign_zero_size_misaligned :
  wp (lz_system_init;; _ ← lz_malloc 1 16; lz_memalign 1 64 0)
    (fun r _ => r <> NULL /\ r mod 64 = 16) boot_state.
Proof. vm_compute. split; [discriminate|reflexivity]. Qed.
