(* ===== verification/WorldSpec.v ===== *)
(** * All heaps of a process

    The invariant that ties every thread-local heap, its mailbox and outgoing
    batch, the large objects, the index and the registry of heaps together;
    what the client holds; and the lemmas that lift a step of one component to
    the whole process. *)

From S2P Require Import Prelude Common Sizes Machine Wp Dll Testbed Security Rtree Vmm VmmSpec.
From S2P Require Import Provision Telemetry Span SpanSpec Slab Tlh SlabSpec BinSpec HeapSpec.
From S2P Require Import TlhSpec RemoteSpec Lzmalloc LzmallocSpec.

(** ** A heap that a change of state leaves alone *)

(** The chunk at [d] is still there, as before. *)
Definition chunk_kept (s s' : state) (d : Z) : Prop :=
  chunk_ok s' d /\ chunk_of s' d = chunk_of s d /\ body_of s' (d + 64) = body_of s (d + 64) /\
  forall x, d <= x < d + 2 ^ 21 -> h_bytes s' !! x = h_bytes s !! x.

Lemma pending_frame s s' o Γ L G P R :
  heap_core s o Γ L G P -> pending s Γ L R ->
  (forall d x, owned Γ L d -> d <= x < d + 2 ^ 21 -> h_bytes s' !! x = h_bytes s !! x) ->
  (forall a n, object s' Γ L a n <-> object s Γ L a n) -> pending s' Γ L R.
Proof.
  intros Hc [Hch Hnd Ho] Hb Hobj.
  assert (forall a x, a ∈ R -> a <= x < a + 8 -> h_bytes s' !! x = h_bytes s !! x) as Hw.
  { intros a x Ha Hx. destruct (Ho a Ha) as [_ [n Hn]].
    destruct (object_in _ _ _ _ _ _ _ _ Hc Hn) as (d & Hd & _ & ? & ? & ?). apply (Hb d); [done|lia]. }
  constructor; [by eapply node_chain_ext|done|].
  intros a Ha. destruct (Ho a Ha) as [Hs [n Hn]]. split; [rewrite (Hw a a Ha) by lia; done|].
  exists n. by apply Hobj.
Qed.

Lemma mail_heap_frame s s' o t' Γ L G P G' P' R :
  mail_heap s o Γ L G P R -> vmm_inv s' G' P' -> rtree_inv s' ->
  g_lz_global_secret s' = g_lz_global_secret s ->
  (forall d, owned Γ L d -> chunk_kept s s' d /\ d ∉ G' ++ concat P') ->
  h_tlhs s' !! o = Some t' ->
  (forall t, h_tlhs s !! o = Some t -> bins t' = bins t /\ active_spans t' = active_spans t /\
     remote_free_head t' = remote_free_head t) ->
  stat_slot t' = NULL \/ is_Some (h_stats s' !! stat_slot t') ->
  mail_heap s' o Γ L G' P' R /\ forall a n, object s' Γ L a n <-> object s Γ L a n.
Proof.
  intros [[Hc Hb] (t & Ht & Ehd) Hpe] Hv Hr Ek Hd Ht' Et Hst.
  destruct (Et t Ht) as (Eb & Ea & Em). assert (forall q, q - 64 + 64 = q) as Eq by lia.
  destruct (span_heap_frame s s' o t' L G P G' P') as [Hh Hsp]; [apply Hc|done|done| |done| |done|].
  { intros q Hq. destruct (Hd (q - 64)) as [(? & ? & E & _) ?]; [left; by rewrite Eq|].
    rewrite Eq in E. done. }
  { intros t0 Ht0. congruence. }
  assert (forall a n, object s' Γ L a n <-> object s Γ L a n) as Hobj.
  { intros a n. unfold object. by setoid_rewrite Hsp. }
  split; [|done]. constructor; [constructor| |].
  - constructor; [done|rewrite Ek; apply Hc| |].
    + intros p g Hp. destruct (Hd (p - 64)) as [(E0 & E1 & E2 & E3) _]; [right; by rewrite Eq, Hp|].
      rewrite Eq in E2. eapply slab_ok_at; [by apply (hc_slab _ _ _ _ _ _ Hc)|done|by rewrite E2|done| |done].
      intros x Hx. apply E3. lia.
    + intros p g Hp. apply (Hd (p - 64)). right. by rewrite Eq, Hp.
  - apply (bins_but_ext s _ _ Γ); [| |done|done].
    + intros t0 Ht0. exists t'. split; [done|]. congruence.
    + intros p j _ (g & Hp & _). apply links_body.
      destruct (Hd (p - 64)) as [(_ & _ & E & _) _]; [right; by rewrite Eq, Hp|]. by rewrite Eq in E.
  - exists t'. split; [done|congruence].
  - eapply pending_frame; [exact Hc|done| |done]. intros d x Ho. by apply Hd.
Qed.

(** A heap keeps its chunks while another heap works. *)
Lemma mail_heap_other `{Env} s tlh Γ L G P dead new s' Γ' L' G' P' R' o Γo Lo Ro :
  heap_core s tlh Γ L G P -> tlh_step s tlh Γ L G P dead new s' Γ' L' G' P' R' ->
  mail_heap s o Γo Lo G P Ro -> o <> tlh ->
  mail_heap s' o Γo Lo G' P' Ro /\ (forall a n, object s' Γo Lo a n <-> object s Γo Lo a n) /\
  forall d, owned Γo Lo d -> chunk_same s s' d /\ ~ owned Γ' L' d.
Proof.
  intros Hc Hst Ho Hne. pose proof (hp_core _ _ _ _ _ _ (mh_heap _ _ _ _ _ _ _ Ho)) as Hco.
  assert (forall d, owned Γo Lo d -> chunk_same s s' d /\ chunk_ok s' d /\ d ∉ G' ++ concat P' /\
    ~ owned Γ' L' d) as Hd.
  { intros d Hd. destruct (owned_chunk_ok _ _ _ _ _ _ _ Hco Hd) as [Hok Hn].
    destruct (tp_other _ _ _ _ _ _ _ _ _ _ _ _ _ _ Hst d) as (? & ? & ?); [done..| |].
    - intros Hd'. apply Hne. eapply owned_owner; [exact Hco|exact Hc|done..].
    - split_and!; try done. eapply chunk_ok_mono; [apply Hst|done]. }
  destruct (mh_head _ _ _ _ _ _ _ Ho) as (t & Ht & _).
  destruct (tp_global _ _ _ _ _ _ _ _ _ _ _ _ _ _ Hst) as [Eg Et].
  pose proof (hp_core _ _ _ _ _ _ (mh_heap _ _ _ _ _ _ _ (tp_heap _ _ _ _ _ _ _ _ _ _ _ _ _ _ Hst))) as Hc'.
  destruct (mail_heap_frame s s' o t Γo Lo G P G' P' Ro) as [Hm Hobj]; [done|apply Hc'|apply Hc'|..].
  - by injection Eg.
  - intros d Ho'. destruct (Hd d Ho') as ((E1 & E2 & E3 & _) & ? & ? & _). by split_and!.
  - by rewrite Et.
  - intros t0 Ht0. rewrite Ht in Ht0. injection Ht0 as <-. done.
  - destruct (sh_tlh _ _ _ _ _ (hc_span _ _ _ _ _ _ Hco)) as (t0 & Ht0 & _ & Hs).
    rewrite Ht in Ht0. injection Ht0 as <-. destruct Hs; [by left|right]. by apply Hst.
  - split_and!; [done|done|]. intros d Ho'. by destruct (Hd d Ho') as (? & _ & _ & ?).
Qed.

(** ** The invariant *)

(** A heap: its slabs, spans, mailbox and outgoing batch. *)
Record heap_ghost := mk_hg {
  hg_slabs : gmap Z slab_ghost;
  hg_spans : list Z;
  hg_mail : list Z;
  hg_batch : list Z;
}.

(** A large object: bytes mapped, bytes asked for, and where they start. *)
Record direct_ghost := mk_dg {
  dg_total : Z;
  dg_size : Z;
  dg_off : Z;
}.

Definition holds (w : heap_ghost) (d : Z) : Prop := owned (hg_slabs w) (hg_spans w) d.
Definition hobject (s : state) (w : heap_ghost) (a n : Z) : Prop :=
  object s (hg_slabs w) (hg_spans w) a n.

(** The list of heaps left by dead threads. *)
Fixpoint zombies (s : state) (a : Z) (Zs : list Z) : Prop :=
  match Zs with
  | [] => a = NULL
  | z :: Zs => a = z /\ z <> NULL /\ exists t, h_tlhs s !! z = Some t /\ zombies s (next_zombie t) Zs
  end.

Section world.
Context `{Env}.

Record direct_ok (s : state) (G : list Z) (P : list (list Z)) (base : Z) (v : direct_ghost) : Prop := {
  dk_object : direct_object s base (dg_total v) (dg_size v);
  dk_place : 128 <= dg_off v /\ 0 < dg_size v /\ dg_off v + dg_size v <= dg_total v /\ dg_off v mod 16 = 0;
  dk_out : forall d, base <= d < base + dg_total v -> d mod 2 ^ 21 = 0 -> d ∉ G ++ concat P;
  dk_index : forall b, block_in base (dg_total v) b ->
    rtree_view s b = base \/ rtree_view s b = NULL /\ leaf_refused s
}.

(** The batch of heap [t] waits for one other heap. *)
Definition batch_ok (s : state) (W : gmap Z heap_ghost) (t : Z) (B : list Z) : Prop :=
  exists o, batch_for s t o B /\
    (B <> [] -> o <> t /\ exists w, W !! o = Some w /\ pending s (hg_slabs w) (hg_spans w) B).

Record registry (s : state) (W : gmap Z heap_ghost) : Prop := {
  rg_lock : g_zombie_lock s = false;
  rg_tls : forall me, tls_of me s = NULL \/ is_Some (W !! tls_of me s);
  rg_own : forall me me', tls_of me s = tls_of me' s -> tls_of me s = NULL \/ me = me';
  rg_zombies : exists Zs, zombies s (g_zombie_tlhs s) Zs /\ NoDup Zs /\
    forall z, z ∈ Zs -> is_Some (W !! z) /\ forall me, tls_of me s <> z
}.

(** The slots of the statistics matrix exist. *)
Definition matrix_ok (s : state) : Prop :=
  g_telemetry_matrix s = NULL \/
  forall i, 0 <= i < LZ_MAX_TELEMETRY_SLOTS ->
    is_Some (h_stats s !! (g_telemetry_matrix s + i * sizeof_stat_slot)).

Record world (s : state) (W : gmap Z heap_ghost) (D : gmap Z direct_ghost)
    (G : list Z) (P : list (list Z)) : Prop := {
  wd_vmm : vmm_inv s G P;
  wd_rtree : rtree_inv s;
  wd_secret : 0 <= g_lz_global_secret s < 2 ^ 64;
  wd_record : forall o w, W !! o = Some w -> o <> NULL /\ mapped s o = true;
  wd_heap : forall o w, W !! o = Some w ->
    mail_heap s o (hg_slabs w) (hg_spans w) G P (hg_mail w);
  wd_batch : forall t w, W !! t = Some w -> batch_ok s W t (hg_batch w);
  wd_apart : forall t w a, W !! t = Some w -> a ∈ hg_batch w ->
    (forall o v, W !! o = Some v -> a ∉ hg_mail v) /\
    (forall t' v, W !! t' = Some v -> a ∈ hg_batch v -> t' = t);
  wd_direct : forall base v, D !! base = Some v -> direct_ok s G P base v;
  wd_disjoint : forall base v base' v', D !! base = Some v -> D !! base' = Some v' ->
    base <> base' -> base + dg_total v <= base' \/ base' + dg_total v' <= base;
  wd_outside : forall base v o w, D !! base = Some v -> W !! o = Some w ->
    (o < base \/ base + dg_total v <= o) /\
    forall d, holds w d -> d < base \/ base + dg_total v <= d;
  wd_index : forall o w d, W !! o = Some w -> holds w d -> registers s d;
  wd_matrix : matrix_ok s;
  wd_registry : registry s W
}.

(** ** What the client holds *)

(** The address waits in a mailbox or a batch: it has been freed. *)
Definition queued (W : gmap Z heap_ghost) (a : Z) : Prop :=
  exists t w, W !! t = Some w /\ (a ∈ hg_mail w \/ a ∈ hg_batch w).

(** An object of [n] bytes at [a] that was allocated and not freed. *)
Definition in_use (s : state) (W : gmap Z heap_ghost) (D : gmap Z direct_ghost) (a n : Z) : Prop :=
  (exists o w, W !! o = Some w /\ hobject s w a n /\ ~ queued W a) \/
  (exists base v, D !! base = Some v /\ a = base + dg_off v /\ n = dg_size v).

Lemma wd_core s W D G P o w : world s W D G P -> W !! o = Some w ->
  heap_core s o (hg_slabs w) (hg_spans w) G P.
Proof. intros Hw Ho. apply (wd_heap _ _ _ _ _ Hw o w Ho). Qed.

Lemma hobject_in s W D G P o w a n : world s W D G P -> W !! o = Some w -> hobject s w a n ->
  exists d, holds w d /\ chunk_ok s d /\ 16 <= n /\ d + 128 <= a /\ a + n <= d + 2 ^ 21.
Proof. intros Hw Ho Ha. eapply object_in; [by eapply wd_core|done]. Qed.

(** An address is an object of one heap only. *)
Lemma hobject_heap s W D G P o w t v a n m :
  world s W D G P -> W !! o = Some w -> W !! t = Some v -> hobject s w a n -> hobject s v a m ->
  o = t.
Proof.
  intros Hw Ho Ht Ha Hb. destruct (hobject_in _ _ _ _ _ _ _ _ _ Hw Ho Ha) as (d & Hd & (Hal & _) & ? & ? & ?).
  destruct (hobject_in _ _ _ _ _ _ _ _ _ Hw Ht Hb) as (d' & Hd' & (Hal' & _) & ? & ? & ?).
  destruct (decide (d = d')) as [->|Hne]; [|destruct (aligned_apart d d'); [done|done|done|lia..]].
  eapply owned_owner; [by eapply wd_core|by eapply wd_core|done..].
Qed.

(** The nodes of a batch are objects of its target. *)
Lemma batch_object s W D G P t w a : world s W D G P -> W !! t = Some w -> a ∈ hg_batch w ->
  exists o v n, W !! o = Some v /\ o <> t /\ hobject s v a n.
Proof.
  intros Hw Ht Ha. destruct (wd_batch _ _ _ _ _ Hw t w Ht) as (o & _ & Hb).
  destruct Hb as (Hne & v & Hv & Hp); [by intros E; rewrite E in Ha; apply not_elem_of_nil in Ha|].
  destruct (pe_object _ _ _ _ Hp a Ha) as [_ [n Hn]]. by exists o, v, n.
Qed.

(** ** Large objects under a change of state *)

Lemma direct_chunk s base total size d :
  direct_object s base total size -> base <= d < base + total -> d mod 2 ^ 21 = 0 -> chunk_ok s d.
Proof.
  intros [(Hb & Ht & Hp) [Hr1 Hr2] _ _ Hm _] Hd Ha.
  assert (d + 2 ^ 21 <= base + total) by (clear - Hb Ht Ha Hd; dlia).
  split_and!; [done|lia|lia|]. intros x Hx. apply Hm. lia.
Qed.

Lemma block_in_chunk base total b :
  base mod 2 ^ 21 = 0 -> 0 < base -> base + total <= 2 ^ 47 -> total mod 2 ^ 21 = 0 ->
  block_in base total b ->
  exists d, base <= d < base + total /\ d mod 2 ^ 21 = 0 /\ block_of d = b.
Proof.
  intros Hb Hp Hl Ht [H1 H2]. exists (base + (b - block_of base) * 2 ^ 21).
  assert (0 <= b - block_of base < total / 2 ^ 21) as Hk by lia.
  set (k := b - block_of base) in *.
  assert (k * 2 ^ 21 < total) by (clear - Hk Ht; dlia).
  split_and!; [lia|lia| |].
  - by apply mod_mul_add; [lia|done|apply Z.mod_mul].
  - rewrite block_of_nth by lia. unfold k. lia.
Qed.

Lemma direct_frame s s' G P G' P' base v :
  direct_ok s G P base v ->
  (forall d, chunk_ok s d -> base <= d < base + dg_total v -> chunk_same s s' d /\ d ∉ G' ++ concat P') ->
  (forall x, base <= x < base + dg_total v -> mapped s' x = true) -> only_grows s s' ->
  direct_ok s' G' P' base v.
Proof.
  intros [Ho Hpl Hout Hi] Hd Hm Hl. pose proof Ho as [(Hb & Ht & Hpos) [Hr1 Hr2] Hh Hbd Hmp Hap].
  destruct (Hd base) as [(E1 & E2 & _ & _) _]; [eapply direct_chunk; [exact Ho|lia|done]|lia|].
  constructor; [|done| |].
  - constructor; [done|done|cbv zeta; by rewrite E1|by rewrite E2|done|].
    intros i a x Hia Ha Hx. destruct (decide (base <= x < base + dg_total v)) as [Hin|]; [exfalso|lia].
    apply (og_leaves _ _ Hl i a x) in Hia; [|exact Hx|auto]. specialize (Hap i a x Hia Ha Hx). lia.
  - intros d Hdr Hda. apply Hd; [by eapply direct_chunk|done].
  - intros b Hbi. destruct (block_in_chunk base (dg_total v) b) as (d & Hdr & Hda & <-); [done..|].
    destruct (Hd d) as [(_ & _ & _ & ->) _]; [by eapply direct_chunk|done|].
    destruct (Hi _ Hbi) as [?|[? ?]]; [by left|right]. split; [done|]. by eapply leaf_refused_grows; [apply Hl|].
Qed.

(** The chunk that holds an address of a large object. *)
Lemma direct_at_chunk s G P base v x : direct_ok s G P base v -> base <= x < base + dg_total v ->
  exists d, chunk_ok s d /\ base <= d < base + dg_total v /\ d <= x < d + 2 ^ 21 /\ block_of x = block_of d.
Proof.
  intros Hok Hx. destruct (dk_object _ _ _ _ _ Hok) as [(Hal & Ht & _) [? ?] _ _ _ _].
  set (d := x / 2 ^ 21 * 2 ^ 21). assert (d <= x < d + 2 ^ 21) by (unfold d; clear; dlia).
  assert (base <= d < base + dg_total v) as Hdr by (unfold d; clear - Hal Hx; dlia).
  assert (d mod 2 ^ 21 = 0) by (apply Z.mod_mul; lia). exists d.
  split_and!; [eapply direct_chunk; [apply Hok|done..]|lia..|]. apply block_of_chunk; [done|lia..].
Qed.

(** The chunk that holds the start of an object of the client. *)
Lemma in_use_chunk s W D G P a n : world s W D G P -> in_use s W D a n ->
  exists d, chunk_ok s d /\ block_of a = block_of d.
Proof.
  intros Hw [(o & w & Ho & Ha & _)|(base & v & Hb & -> & ->)].
  - destruct (object_block _ _ _ _ _ _ _ _ (wd_core _ _ _ _ _ _ _ Hw Ho) Ha) as (d & _ & ? & _ & _ & _ & ?).
    by exists d.
  - pose proof (wd_direct _ _ _ _ _ Hw base v Hb) as Hok. pose proof (dk_place _ _ _ _ _ Hok).
    destruct (direct_at_chunk _ _ _ _ _ (base + dg_off v) Hok) as (d & ? & _ & _ & ?); [lia|]. by exists d.
Qed.

Lemma zombies_frame s s' Zs a :
  (forall z t, h_tlhs s !! z = Some t -> exists t', h_tlhs s' !! z = Some t' /\ next_zombie t' = next_zombie t) ->
  zombies s a Zs -> zombies s' a Zs.
Proof.
  intros Ht. revert a. induction Zs as [|z Zs IH]; intros a; [done|]. cbn.
  intros (-> & Hz & t & (t' & Hz' & E)%Ht & Hr). split_and!; [done..|]. exists t'. rewrite E. auto.
Qed.

Lemma registry_frame s s' W W' :
  registry s W -> global_part s' = global_part s ->
  (forall z t, h_tlhs s !! z = Some t -> exists t', h_tlhs s' !! z = Some t' /\ next_zombie t' = next_zombie t) ->
  (forall o, is_Some (W !! o) -> is_Some (W' !! o)) -> registry s' W'.
Proof.
  intros [Hl Ht Ho (Zs & Hz & Hnd & Hin)] Eg Hn HW.
  unfold global_part in Eg. injection Eg as _ _ _ E1 _ E2 E3 _ _ _.
  assert (forall me, tls_of me s' = tls_of me s) as Et by (intros me; unfold tls_of; by rewrite E1).
  constructor.
  - by rewrite E3.
  - intros me. rewrite Et. destruct (Ht me); [by left|right; auto].
  - intros me me'. rewrite !Et. apply Ho.
  - exists Zs. rewrite E2. split_and!; [by eapply zombies_frame|done|]. intros z Hzs.
    destruct (Hin z Hzs) as [? Hx]. split; [auto|]. intros me. rewrite Et. apply Hx.
Qed.

(** ** Disjointness *)

(** A chunk of a heap and a large object are apart. *)
Lemma holds_direct s W D G P o w base v d :
  world s W D G P -> W !! o = Some w -> D !! base = Some v -> holds w d ->
  d + 2 ^ 21 <= base \/ base + dg_total v <= d.
Proof.
  intros Hw Ho Hb Hd. destruct (wd_outside _ _ _ _ _ Hw base v o w Hb Ho) as [_ Hout].
  specialize (Hout d Hd). destruct (owned_chunk_ok _ _ _ _ _ _ _ (wd_core _ _ _ _ _ _ _ Hw Ho) Hd) as [(Ha & _) _].
  destruct (do_aligned _ _ _ _ (dk_object _ _ _ _ _ (wd_direct _ _ _ _ _ Hw base v Hb))) as (Hal & _ & _).
  clear - Hout Ha Hal. destruct Hout; [left|by right]. dlia.
Qed.

Lemma hobject_direct s W D G P o w base v a n :
  world s W D G P -> W !! o = Some w -> D !! base = Some v -> hobject s w a n ->
  a + n <= base \/ base + dg_total v <= a.
Proof.
  intros Hw Ho Hb Ha. destruct (hobject_in _ _ _ _ _ _ _ _ _ Hw Ho Ha) as (d & Hd & _ & ? & ? & ?).
  destruct (holds_direct _ _ _ _ _ _ _ _ _ d Hw Ho Hb Hd); lia.
Qed.

(** Objects of the same or of different heaps. *)
Lemma hobjects_disjoint s W D G P o w t u a n b m :
  world s W D G P -> W !! o = Some w -> W !! t = Some u -> hobject s w a n -> hobject s u b m ->
  a = b /\ n = m \/ a + n <= b \/ b + m <= a.
Proof.
  intros Hw Ho Ht Ha Hc. destruct (decide (t = o)) as [->|Hne].
  - rewrite Ho in Ht. injection Ht as <-. eapply objects_disjoint; [by eapply wd_core|done..].
  - destruct (hobject_in _ _ _ _ _ _ _ _ _ Hw Ho Ha) as (d & Hd & (Hal & _) & ? & ? & ?).
    destruct (hobject_in _ _ _ _ _ _ _ _ _ Hw Ht Hc) as (d' & Hd' & (Hal' & _) & ? & ? & ?).
    destruct (decide (d = d')) as [->|Hn]; [|destruct (aligned_apart d d'); [done|done|done|lia..]].
    exfalso. apply Hne. eapply owned_owner; [by eapply wd_core|by eapply wd_core|done..].
Qed.

Lemma hobject_words s W D G P o w t u a n b m :
  world s W D G P -> W !! o = Some w -> W !! t = Some u -> hobject s w a n -> hobject s u b m ->
  a <> b -> a + 8 <= b \/ b + 8 <= a.
Proof.
  intros Hw Ho Ht Ha Hb Hne. destruct (hobject_in _ _ _ _ _ _ _ _ _ Hw Ho Ha) as (_ & _ & _ & ? & _).
  destruct (hobject_in _ _ _ _ _ _ _ _ _ Hw Ht Hb) as (_ & _ & _ & ? & _).
  destruct (hobjects_disjoint _ _ _ _ _ _ _ _ _ _ _ _ _ Hw Ho Ht Ha Hb) as [[? _]|?]; [done|lia].
Qed.

Lemma in_use_disjoint s W D G P a n b m :
  world s W D G P -> in_use s W D a n -> in_use s W D b m ->
  a = b /\ n = m \/ a + n <= b \/ b + m <= a.
Proof.
  intros Hw [(o & w & Ho & Ha & _)|(base & v & Hb & -> & ->)] [(t & u & Ht & Hc & _)|(base' & v' & Hb' & -> & ->)].
  - exact (hobjects_disjoint _ _ _ _ _ _ _ _ _ _ _ _ _ Hw Ho Ht Ha Hc).
  - destruct (dk_place _ _ _ _ _ (wd_direct _ _ _ _ _ Hw base' v' Hb')) as (? & ? & ?).
    destruct (hobject_direct _ _ _ _ _ _ _ _ _ _ _ Hw Ho Hb' Ha); lia.
  - destruct (dk_place _ _ _ _ _ (wd_direct _ _ _ _ _ Hw base v Hb)) as (? & ? & ?).
    destruct (hobject_direct _ _ _ _ _ _ _ _ _ _ _ Hw Ht Hb Hc); lia.
  - destruct (decide (base = base')) as [->|Hne]; [rewrite Hb in Hb'; injection Hb' as <-; by left|].
    destruct (dk_place _ _ _ _ _ (wd_direct _ _ _ _ _ Hw base v Hb)) as (? & ? & ?).
    destruct (dk_place _ _ _ _ _ (wd_direct _ _ _ _ _ Hw base' v' Hb')) as (? & ? & ?).
    destruct (wd_disjoint _ _ _ _ _ Hw _ _ _ _ Hb Hb' Hne); lia.
Qed.

(** ** A step of one heap *)

Section heap_step.
Context (s : state) (W : gmap Z heap_ghost) (D : gmap Z direct_ghost) (G : list Z) (P : list (list Z)).
Context (tlh : Z) (w : heap_ghost) (dead : Z -> Prop) (new : Z -> Z -> Prop).
Context (s' : state) (Γ' : gmap Z slab_ghost) (L' G' : list Z) (P' : list (list Z)) (R' : list Z).
Hypothesis Hw : world s W D G P.
Hypothesis Htlh : W !! tlh = Some w.
Hypothesis Hst : tlh_step s tlh (hg_slabs w) (hg_spans w) G P dead new s' Γ' L' G' P' R'.
Hypothesis Hdead : forall a t v, dead a -> W !! t = Some v -> a ∉ hg_batch v.
Hypothesis Hmail : forall a, a ∈ R' -> a ∈ hg_mail w.

Let w' := mk_hg Γ' L' R' (hg_batch w).
Let W' := <[tlh := w']> W.

Lemma step_lookup o v : W' !! o = Some v -> o = tlh /\ v = w' \/ o <> tlh /\ W !! o = Some v.
Proof. unfold W'. intros [[<- <-]|[? ?]]%lookup_insert_Some; auto. Qed.

Lemma step_other o v : W !! o = Some v -> o <> tlh ->
  mail_heap s' o (hg_slabs v) (hg_spans v) G' P' (hg_mail v) /\
  (forall a n, hobject s' v a n <-> hobject s v a n) /\
  forall d, holds v d -> chunk_same s s' d /\ ~ holds w' d.
Proof.
  intros Ho Hne. eapply (mail_heap_other s tlh); [by eapply wd_core|exact Hst|by eapply wd_heap|done].
Qed.

Lemma step_record z t : h_tlhs s !! z = Some t ->
  exists t', h_tlhs s' !! z = Some t' /\ outgoing_batch t' = outgoing_batch t /\
    next_zombie t' = next_zombie t.
Proof.
  intros Hz. destruct (decide (z = tlh)) as [->|Hne].
  - destruct (tp_record _ _ _ _ _ _ _ _ _ _ _ _ _ _ Hst t Hz) as (t' & ? & E). exists t'.
    injection E as -> _ _ -> _. done.
  - exists t. by rewrite (proj2 (tp_global _ _ _ _ _ _ _ _ _ _ _ _ _ _ Hst) z Hne).
Qed.

(** Queued objects of any heap survive, unless they are dead. *)
Lemma step_pending o v B : W !! o = Some v -> pending s (hg_slabs v) (hg_spans v) B ->
  (forall a, a ∈ B -> ~ dead a) ->
  exists v', W' !! o = Some v' /\ pending s' (hg_slabs v') (hg_spans v') B.
Proof.
  intros Ho Hp Hd. unfold W'. destruct (decide (o = tlh)) as [->|Hne].
  - rewrite lookup_insert_eq. eexists. split; [done|]. rewrite Htlh in Ho. injection Ho as <-.
    destruct Hp as [Hch Hnd Hob].
    assert (forall a x, a ∈ B -> a <= x < a + 8 -> h_bytes s' !! x = h_bytes s !! x) as Hb.
    { intros a x Ha Hx. destruct (Hob a Ha) as [_ [n Hn]].
      destruct (hobject_in _ _ _ _ _ _ _ _ _ Hw Htlh Hn) as (_ & _ & _ & ? & _).
      apply (tp_bytes _ _ _ _ _ _ _ _ _ _ _ _ _ _ Hst a n); [done|auto|lia]. }
    constructor; [by eapply node_chain_ext|done|]. intros a Ha. destruct (Hob a Ha) as [Hs [n Hn]].
    split; [rewrite (Hb a a Ha) by lia; done|]. exists n. apply Hst. auto.
  - exists v. rewrite lookup_insert_ne by done. split; [done|].
    destruct (step_other o v Ho Hne) as (_ & Hobj & Hc).
    eapply pending_frame; [by eapply wd_core|done| |done]. intros d x Hd'. by apply Hc.
Qed.

Lemma step_batch t v : W' !! t = Some v -> batch_ok s' W' t (hg_batch v).
Proof.
  intros Ht. assert (exists v0, W !! t = Some v0 /\ hg_batch v = hg_batch v0) as (v0 & Hv0 & ->).
  { apply step_lookup in Ht as [[-> ->]|[_ Ht]]; eauto. }
  destruct (wd_batch _ _ _ _ _ Hw t v0 Hv0) as (o & (r & Hr & Hb) & Ho).
  destruct (step_record t r Hr) as (r' & Hr' & Eb & _). exists o. split; [exists r'; by rewrite Eb|].
  intros HB. destruct (Ho HB) as (Hne & u & Hu & Hp). split; [done|].
  apply (step_pending o u); [done|done|]. intros a Ha Hd. exact (Hdead a t v0 Hd Hv0 Ha).
Qed.

(** The chunks of a large object are not the step's. *)
Lemma step_direct_other base v d : D !! base = Some v -> chunk_ok s d -> base <= d < base + dg_total v ->
  d ∉ G' ++ concat P' /\ chunk_same s s' d.
Proof.
  intros Hd Hc Hdr. pose proof (wd_direct _ _ _ _ _ Hw base v Hd) as Hok.
  destruct (tp_other _ _ _ _ _ _ _ _ _ _ _ _ _ _ Hst d) as (? & _ & ?); [done| | |done].
  - apply Hok; [done|apply Hc].
  - intros Ho. destruct (wd_outside _ _ _ _ _ Hw base v tlh w Hd Htlh) as [_ Hx]. specialize (Hx d Ho). lia.
Qed.

Lemma step_direct_chunk base v d : D !! base = Some v -> chunk_ok s d -> base <= d < base + dg_total v ->
  chunk_same s s' d.
Proof. intros. by eapply step_direct_other. Qed.

Lemma step_direct base v : D !! base = Some v -> direct_ok s' G' P' base v.
Proof.
  intros Hd. pose proof (wd_direct _ _ _ _ _ Hw base v Hd) as Hok. eapply direct_frame; [exact Hok| | |].
  - intros d Hc Hdr. by destruct (step_direct_other base v d Hd Hc Hdr).
  - intros x Hx. apply Hst. by apply (do_mapped _ _ _ _ (dk_object _ _ _ _ _ Hok)).
  - apply Hst.
Qed.

Lemma step_outside base v d : D !! base = Some v -> holds w' d -> d < base \/ base + dg_total v <= d.
Proof.
  intros Hd Ho. destruct (decide (base <= d < base + dg_total v)) as [Hr|]; [exfalso|lia].
  pose proof (hp_core _ _ _ _ _ _ (mh_heap _ _ _ _ _ _ _ (tp_heap _ _ _ _ _ _ _ _ _ _ _ _ _ _ Hst))) as Hc'.
  destruct (owned_chunk_ok _ _ _ _ _ _ _ Hc' Ho) as [(Ha & _) _].
  pose proof (wd_direct _ _ _ _ _ Hw base v Hd) as Hok.
  destruct (tp_other _ _ _ _ _ _ _ _ _ _ _ _ _ _ Hst d) as (_ & Hn & _); [..|done].
  - eapply direct_chunk; [apply Hok|done..].
  - by apply Hok.
  - intros Hx. destruct (wd_outside _ _ _ _ _ Hw base v tlh w Hd Htlh) as [_ Hy]. specialize (Hy d Hx). lia.
Qed.

Lemma world_step : world s' W' D G' P'.
Proof.
  pose proof (mh_heap _ _ _ _ _ _ _ (tp_heap _ _ _ _ _ _ _ _ _ _ _ _ _ _ Hst)) as [Hc' _].
  destruct (tp_global _ _ _ _ _ _ _ _ _ _ _ _ _ _ Hst) as [Eg _].
  assert (g_lz_global_secret s' = g_lz_global_secret s /\ g_telemetry_matrix s' = g_telemetry_matrix s)
    as [Es Em] by (by injection Eg).
  constructor; [apply Hc'|apply Hc'|rewrite Es; apply Hw|..].
  - intros o v [[-> ->]|[_ Ho]]%step_lookup; (split; [|apply Hst]); by eapply (wd_record _ _ _ _ _ Hw).
  - intros o v [[-> ->]|[Hne Ho]]%step_lookup; [apply Hst|by apply step_other].
  - apply step_batch.
  - intros t v a Ht Ha. assert (exists v0, W !! t = Some v0 /\ a ∈ hg_batch v0) as (v0 & Hv0 & Ha0).
    { apply step_lookup in Ht as [[-> ->]|[_ Ht]]; eauto. }
    destruct (wd_apart _ _ _ _ _ Hw t v0 a Hv0 Ha0) as [H1 H2]. split.
    + intros o u [[-> ->]|[_ Ho]]%step_lookup Hx; [by apply (H1 tlh w), Hmail|exact (H1 o u Ho Hx)].
    + intros t' u [[-> ->]|[_ Ho]]%step_lookup Hx; [by apply (H2 tlh w)|exact (H2 t' u Ho Hx)].
  - apply step_direct.
  - apply Hw.
  - intros base v o u Hd [[-> ->]|[_ Ho]]%step_lookup; [|by eapply wd_outside].
    destruct (wd_outside _ _ _ _ _ Hw base v tlh w Hd Htlh) as [? _].
    split; [done|]. intros d Ho. by apply (step_outside base v).
  - intros o v d [[-> ->]|[Hne Ho]]%step_lookup Hd.
    + destruct (tp_index _ _ _ _ _ _ _ _ _ _ _ _ _ _ Hst d Hd) as [?|[Hd' E]]; [done|].
      eapply registers_frame; [exact E|apply Hst|by eapply (wd_index _ _ _ _ _ Hw tlh w)].
    + destruct (step_other o v Ho Hne) as (_ & _ & Hc). destruct (Hc d Hd) as [(_ & _ & _ & E) _].
      eapply registers_frame; [exact E|apply Hst|by eapply (wd_index _ _ _ _ _ Hw o v)].
  - unfold matrix_ok. rewrite Em. destruct (wd_matrix _ _ _ _ _ Hw) as [?|Hm]; [by left|right].
    intros i Hi. apply Hst, Hm, Hi.
  - eapply registry_frame; [apply Hw|done| |].
    + intros z t (t' & ? & _ & ?)%step_record. eauto.
    + intros o. unfold W'. destruct (decide (tlh = o)) as [->|]; [by rewrite lookup_insert_eq|].
      by rewrite lookup_insert_ne.
Qed.

Hypothesis Hgone : forall a, a ∈ hg_mail w -> dead a \/ a ∈ R'.
Hypothesis Hkept : forall a, a ∈ R' -> ~ dead a.
Hypothesis Hdobj : forall a, dead a -> exists n, hobject s w a n.

(** Queues hold what they held, but for the dead. *)
Lemma step_queued a : queued W' a -> queued W a /\ ~ dead a.
Proof.
  intros (t & v & [[-> ->]|[Hne Ht]]%step_lookup & [Ha|Ha]).
  - split; [exists tlh, w; auto|auto].
  - split; [exists tlh, w; auto|]. intros Hd. by apply (Hdead a tlh w).
  - split; [exists t, v; auto|]. intros [n Hn]%Hdobj.
    destruct (pe_object _ _ _ _ (mh_pending _ _ _ _ _ _ _ (wd_heap _ _ _ _ _ Hw t v Ht)) a Ha) as [_ [m Hm]].
    apply Hne. by eapply (hobject_heap s W D G P t v tlh w).
  - split; [exists t, v; auto|]. intros Hd. by apply (Hdead a t v).
Qed.

Lemma step_unqueued a : queued W a -> dead a \/ queued W' a.
Proof.
  intros (t & v & Ht & Ha). unfold W'. destruct (decide (t = tlh)) as [->|Hne].
  - rewrite Htlh in Ht. injection Ht as <-. destruct Ha as [[?|?]%Hgone|?]; [by left| |];
      right; exists tlh, w'; rewrite lookup_insert_eq; auto.
  - right. exists t, v. rewrite lookup_insert_ne by done. auto.
Qed.

(** A queued object belongs to some heap. *)
Lemma queued_object a : queued W a -> exists o v n, W !! o = Some v /\ hobject s v a n.
Proof.
  intros (t & v & Ht & [Ha|Ha]).
  - destruct (pe_object _ _ _ _ (mh_pending _ _ _ _ _ _ _ (wd_heap _ _ _ _ _ Hw t v Ht)) a Ha) as [_ [n Hn]].
    by exists t, v, n.
  - destruct (batch_object _ _ _ _ _ _ _ _ Hw Ht Ha) as (o & u & n & ? & _ & ?). eauto.
Qed.

Lemma step_new_unqueued a n : new a n -> ~ queued W' a.
Proof.
  intros Hn [Hq Hd]%step_queued. destruct (queued_object a Hq) as (o & v & m & Ho & Hm).
  destruct (decide (o = tlh)) as [->|Hne].
  - rewrite Htlh in Ho. injection Ho as <-. by eapply (tp_fresh _ _ _ _ _ _ _ _ _ _ _ _ _ _ Hst a n m).
  - destruct (step_other o v Ho Hne) as (_ & Hobj & _). apply Hne.
    eapply (hobject_heap s' W' D G' P' o v tlh w' a m n); [apply world_step| | |by apply Hobj|].
    + unfold W'. by rewrite lookup_insert_ne.
    + unfold W'. by rewrite lookup_insert_eq.
    + apply Hst. by right.
Qed.

Lemma step_in_use a n : in_use s' W' D a n <-> in_use s W D a n /\ ~ dead a \/ new a n.
Proof.
  assert (forall base v, D !! base = Some v -> ~ dead (base + dg_off v)) as Hdir.
  { intros base v Hb [m Hm]%Hdobj.
    destruct (dk_place _ _ _ _ _ (wd_direct _ _ _ _ _ Hw base v Hb)) as (? & ? & ?).
    destruct (hobject_in _ _ _ _ _ _ _ _ _ Hw Htlh Hm) as (_ & _ & _ & ? & _).
    destruct (hobject_direct _ _ _ _ _ _ _ _ _ _ _ Hw Htlh Hb Hm); lia. }
  split.
  - intros [(o & v & [[-> ->]|[Hne Ho]]%step_lookup & Ha & Hq)|(base & v & Hb & -> & ->)].
    + apply (tp_objects _ _ _ _ _ _ _ _ _ _ _ _ _ _ Hst) in Ha as [[Ha Hd]|Ha]; [left|by right].
      split; [|done]. left. exists tlh, w. split_and!; [done..|]. by intros [?|?]%step_unqueued.
    + destruct (step_other o v Ho Hne) as (_ & Hobj & _). apply Hobj in Ha. left.
      assert (~ dead a) as Hd.
      { intros [m Hm]%Hdobj. apply Hne. by eapply (hobject_heap s W D G P o v tlh w). }
      split; [|done]. left. exists o, v. split_and!; [done..|]. by intros [?|?]%step_unqueued.
    + left. split; [right; eauto|by apply Hdir].
  - intros [[[(o & v & Ho & Ha & Hq)|Hb] Hd]|Hn].
    + left. destruct (decide (o = tlh)) as [->|Hne].
      * rewrite Htlh in Ho. injection Ho as <-. exists tlh, w'. unfold W' at 1. rewrite lookup_insert_eq.
        split_and!; [done|apply Hst; by left|]. by intros [? _]%step_queued.
      * exists o, v. unfold W' at 1. rewrite lookup_insert_ne by done.
        destruct (step_other o v Ho Hne) as (_ & Hobj & _).
        split_and!; [done|by apply Hobj|]. by intros [? _]%step_queued.
    + by right.
    + left. exists tlh, w'. unfold W' at 1. rewrite lookup_insert_eq.
      split_and!; [done|apply Hst; by right|by eapply step_new_unqueued].
Qed.

(** New objects are where none was. *)
Lemma step_fresh a n m : new a n -> in_use s W D a m -> ~ dead a -> False.
Proof.
  intros Hn Hu Hd. assert (hobject s' w' a n) as Ha' by (apply Hst; by right).
  assert (W' !! tlh = Some w') as Ht' by (unfold W'; by rewrite lookup_insert_eq).
  destruct Hu as [(o & v & Ho & Ha & _)|(base & v & Hb & -> & ->)].
  - destruct (decide (o = tlh)) as [->|Hne].
    + rewrite Htlh in Ho. injection Ho as <-. by eapply (tp_fresh _ _ _ _ _ _ _ _ _ _ _ _ _ _ Hst a n m).
    + destruct (step_other o v Ho Hne) as (_ & Hobj & _). apply Hne.
      eapply (hobject_heap s' W' D G' P' o v tlh w' a m n); [apply world_step| |done|by apply Hobj|done].
      unfold W'. by rewrite lookup_insert_ne.
  - pose proof (dk_place _ _ _ _ _ (wd_direct _ _ _ _ _ world_step base v Hb)).
    destruct (hobject_in _ _ _ _ _ _ _ _ _ world_step Ht' Ha') as (_ & _ & _ & ? & _).
    destruct (hobject_direct _ _ _ _ _ _ _ _ _ _ _ world_step Ht' Hb Ha'); lia.
Qed.

Lemma step_bytes a n x : in_use s W D a n -> ~ dead a -> a <= x < a + n ->
  h_bytes s' !! x = h_bytes s !! x.
Proof.
  intros [(o & v & Ho & Ha & _)|(base & v & Hb & -> & ->)] Hd Hx.
  - destruct (decide (o = tlh)) as [->|Hne].
    + rewrite Htlh in Ho. injection Ho as <-. by eapply (tp_bytes _ _ _ _ _ _ _ _ _ _ _ _ _ _ Hst a n).
    + destruct (step_other o v Ho Hne) as (_ & _ & Hc).
      destruct (hobject_in _ _ _ _ _ _ _ _ _ Hw Ho Ha) as (d & Hdh & _ & ? & ? & ?).
      destruct (Hc d Hdh) as [(_ & _ & E & _) _]. apply E. lia.
  - pose proof (wd_direct _ _ _ _ _ Hw base v Hb) as Hok. pose proof (dk_place _ _ _ _ _ Hok) as Hpl.
    destruct (direct_at_chunk _ _ _ _ _ x Hok) as (d & Hc & Hdr & Hdx & _); [lia|].
    destruct (step_direct_chunk base v d Hb Hc Hdr) as (_ & _ & E & _). by apply E.
Qed.

(** Objects keep their index entry. *)
Lemma step_entry a n : in_use s W D a n -> ~ dead a -> rtree_view s' (block_of a) = rtree_view s (block_of a).
Proof.
  intros [(o & v & Ho & Ha & _)|(base & v & Hb & -> & ->)] Hd.
  - destruct (decide (o = tlh)) as [->|Hne].
    + rewrite Htlh in Ho. injection Ho as <-. by eapply (tp_entry _ _ _ _ _ _ _ _ _ _ _ _ _ _ Hst a n).
    + destruct (step_other o v Ho Hne) as (_ & _ & Hc).
      destruct (object_block _ _ _ _ _ _ _ _ (wd_core _ _ _ _ _ _ _ Hw Ho) Ha) as (d & Hdh & _ & _ & _ & _ & ->).
      apply (Hc d Hdh).
  - pose proof (wd_direct _ _ _ _ _ Hw base v Hb) as Hok. pose proof (dk_place _ _ _ _ _ Hok) as Hpl.
    destruct (direct_at_chunk _ _ _ _ _ (base + dg_off v) Hok) as (d & Hc & Hdr & _ & ->); [lia|].
    apply (step_direct_chunk base v d Hb Hc Hdr).
Qed.

End heap_step.

End world.
