(* ===== verification/WorldSend.v ===== *)
(** * Frees across heaps, in the whole process

    Moving objects into batches and mailboxes, and writes of the client into
    its objects, seen from the invariant of the process. *)

From S2P Require Import Prelude Common Sizes Machine Wp Dll Testbed Security Rtree Vmm VmmSpec.
From S2P Require Import Provision Telemetry Span SpanSpec Slab Tlh SlabSpec BinSpec HeapSpec.
From S2P Require Import TlhSpec RemoteSpec Lzmalloc LzmallocSpec WorldSpec.

(** The same slabs and spans everywhere. *)
Definition same_heaps (W W' : gmap Z heap_ghost) : Prop :=
  forall o, (fun w => (hg_slabs w, hg_spans w)) <$> (W' !! o) =
            (fun w => (hg_slabs w, hg_spans w)) <$> (W !! o).

Lemma same_heaps_lookup W W' o w : same_heaps W W' -> W' !! o = Some w ->
  exists w0, W !! o = Some w0 /\ hg_slabs w = hg_slabs w0 /\ hg_spans w = hg_spans w0.
Proof.
  intros Hs Ho. specialize (Hs o). rewrite Ho in Hs. cbn in Hs.
  destruct (W !! o) as [w0|]; [|done]. exists w0. by injection Hs as -> ->.
Qed.

Lemma same_heaps_sym W W' : same_heaps W W' -> same_heaps W' W.
Proof. intros Hs o. by rewrite (Hs o). Qed.

Lemma same_heaps_trans W1 W2 W3 : same_heaps W1 W2 -> same_heaps W2 W3 -> same_heaps W1 W3.
Proof. intros H12 H23 o. by rewrite (H23 o), (H12 o). Qed.

(** Only bytes and heap records differ. *)
Definition bytes_records (s s' : state) : Prop :=
  s' = set_h_tlhs (h_tlhs s') (set_h_bytes (h_bytes s') s).

Lemma bytes_records_object s s' w a n : bytes_records s s' -> hobject s' w a n <-> hobject s w a n.
Proof. unfold bytes_records. intros ->. done. Qed.

Lemma bytes_records_inv s s' G P : bytes_records s s' -> vmm_inv s G P -> rtree_inv s ->
  vmm_inv s' G P /\ rtree_inv s'.
Proof.
  unfold bytes_records. intros Es Hv Hr. split.
  - eapply vmm_inv_frame; [exact Hv|by rewrite Es..|]. intros c _. by rewrite Es.
  - eapply rtree_inv_ext; [exact Hr|by rewrite Es..].
Qed.

Lemma bytes_records_trans s1 s2 s3 : bytes_records s1 s2 -> bytes_records s2 s3 -> bytes_records s1 s3.
Proof. unfold bytes_records. intros -> ->. done. Qed.

Section send.
Context `{EnvLaws}.

Lemma same_heaps_object s W W' o w a n : same_heaps W W' -> W' !! o = Some w -> hobject s w a n ->
  exists w0, W !! o = Some w0 /\ hobject s w0 a n.
Proof.
  intros Hs Ho Ha. destruct (same_heaps_lookup _ _ _ _ Hs Ho) as (w0 & Hw0 & E1 & E2). exists w0.
  split; [done|]. unfold hobject in *. by rewrite <- E1, <- E2.
Qed.

(** What the client holds when the objects [new] are queued. *)
Lemma in_use_queue s s' W W' D G P (new : Z -> Prop) a n :
  world s W D G P -> bytes_records s s' -> same_heaps W W' ->
  (forall y, queued W' y <-> queued W y \/ new y) ->
  (forall y, new y -> exists o w k, W !! o = Some w /\ hobject s w y k) ->
  in_use s' W' D a n <-> in_use s W D a n /\ ~ new a.
Proof.
  intros Hw Hb Hs Hq Hnew. split.
  - intros [(o & w & Ho & Ha & Hn)|(base & v & Hbv & -> & ->)].
    + apply (bytes_records_object s s') in Ha; [|done].
      destruct (same_heaps_object _ _ _ _ _ _ _ Hs Ho Ha) as (w0 & Hw0 & Ha0).
      rewrite Hq in Hn. split; [|tauto]. left. exists o, w0. split_and!; [done|done|tauto].
    + split; [right; eauto|]. intros (ox & wx & nx & Hox & Hx)%Hnew.
      destruct (dk_place _ _ _ _ _ (wd_direct _ _ _ _ _ Hw base v Hbv)) as (? & ? & ?).
      destruct (hobject_in _ _ _ _ _ _ _ _ _ Hw Hox Hx) as (_ & _ & _ & ? & _).
      destruct (hobject_direct _ _ _ _ _ _ _ _ _ _ _ Hw Hox Hbv Hx); lia.
  - intros [[(o & w & Ho & Ha & Hn)|?] Hne]; [left|by right].
    destruct (same_heaps_object _ _ _ _ _ _ _ (same_heaps_sym _ _ Hs) Ho Ha) as (w' & Hw' & Ha').
    exists o, w'. split_and!; [done|by apply (bytes_records_object s s')|]. rewrite Hq. tauto.
Qed.

(** The parts of the invariant that bytes and heap records do not touch. *)
Lemma world_quiet s s' W W' D G P :
  world s W D G P -> bytes_records s s' -> same_heaps W W' ->
  (forall z t, h_tlhs s !! z = Some t -> exists t', h_tlhs s' !! z = Some t' /\ next_zombie t' = next_zombie t) ->
  (forall o w, W' !! o = Some w -> mail_heap s' o (hg_slabs w) (hg_spans w) G P (hg_mail w)) ->
  (forall t w, W' !! t = Some w -> batch_ok s' W' t (hg_batch w)) ->
  (forall t w a, W' !! t = Some w -> a ∈ hg_batch w ->
    (forall o v, W' !! o = Some v -> a ∉ hg_mail v) /\
    (forall t' v, W' !! t' = Some v -> a ∈ hg_batch v -> t' = t)) ->
  world s' W' D G P.
Proof.
  intros Hw Es Hs Hz Hh Hb Ha. pose proof (fun o w => same_heaps_lookup W W' o w Hs) as Hl.
  destruct (bytes_records_inv s s' G P) as [Hv Hr]; [done|apply Hw|apply Hw|].
  constructor; [done|done| | |exact Hh|exact Hb|exact Ha| |apply Hw|..].
  - rewrite Es. apply Hw.
  - intros o w (w0 & Hw0 & _)%Hl. rewrite Es. by eapply (wd_record _ _ _ _ _ Hw).
  - intros base v Hd. destruct (wd_direct _ _ _ _ _ Hw base v Hd) as [[? ? ? ? ? ?] ? ? ?].
    rewrite Es. by constructor; [constructor|..].
  - intros base v o w Hd (w0 & Hw0 & E1 & E2)%Hl. unfold holds. rewrite E1, E2.
    by eapply (wd_outside _ _ _ _ _ Hw).
  - intros o w d (w0 & Hw0 & E1 & E2)%Hl Hd. unfold holds in Hd. rewrite E1, E2 in Hd. rewrite Es.
    by eapply (wd_index _ _ _ _ _ Hw o w0).
  - rewrite Es. apply Hw.
  - eapply registry_frame; [apply Hw|by rewrite Es|done|]. intros o [w Ho].
    destruct (same_heaps_lookup _ _ o w (same_heaps_sym _ _ Hs) Ho) as (w' & ? & _). by exists w'.
Qed.

(** ** Objects that move between a heap, a batch and a mailbox *)

Section poke.
Context (s : state) (W : gmap Z heap_ghost) (D : gmap Z direct_ghost) (G : list Z) (P : list (list Z)).
Context (tlh o : Z) (v : heap_ghost) (s' : state) (Wd : list Z).
Hypothesis Hw : world s W D G P.
Hypothesis Ho : W !! o = Some v.
Hypothesis Hp : poked s s' tlh o Wd.
Hypothesis Hobj : forall x, x ∈ Wd -> exists n, hobject s v x n.

Lemma poke_bytes a n x u w : W !! u = Some w -> hobject s w a n -> a ∉ Wd -> a <= x < a + n ->
  h_bytes s' !! x = h_bytes s !! x.
Proof.
  intros Hu Ha Hn Hx. apply Hp. intros y Hy Hxy. destruct (Hobj y Hy) as [m Hm].
  destruct (hobject_in _ _ _ _ _ _ _ _ _ Hw Ho Hm) as (_ & _ & _ & ? & _).
  destruct (hobjects_disjoint _ _ _ _ _ _ _ _ _ _ _ _ _ Hw Hu Ho Ha Hm) as [[-> _]|?]; [done|lia].
Qed.

Lemma poke_pending u w l : W !! u = Some w -> pending s (hg_slabs w) (hg_spans w) l ->
  (forall a, a ∈ l -> a ∉ Wd) -> pending s' (hg_slabs w) (hg_spans w) l.
Proof.
  intros Hu [Hch Hnd Hl] Hn.
  assert (forall a x, a ∈ l -> a <= x < a + 8 -> h_bytes s' !! x = h_bytes s !! x) as Hb.
  { intros a x Ha Hx. destruct (Hl a Ha) as [_ [n Hna]].
    destruct (hobject_in _ _ _ _ _ _ _ _ _ Hw Hu Hna) as (_ & _ & _ & ? & _).
    eapply (poke_bytes a n x u w); [done|done|auto|lia]. }
  constructor; [by eapply node_chain_ext|done|]. intros a Ha. destruct (Hl a Ha) as [Hs [n Hna]].
  split; [rewrite (Hb a a Ha) by lia; done|]. exists n. by apply (bytes_records_object s s' w); [apply Hp|].
Qed.

Lemma poke_other u w : W !! u = Some w -> u <> o ->
  mail_heap s' u (hg_slabs w) (hg_spans w) G P (hg_mail w).
Proof.
  intros Hu Hne. pose proof (wd_heap _ _ _ _ _ Hw u w Hu) as Hm. destruct (Hp) as (Es & Hr & Hb).
  destruct (sh_tlh _ _ _ _ _ (hc_span _ _ _ _ _ _ (wd_core _ _ _ _ _ _ _ Hw Hu))) as (r & Hru & _ & Hst).
  destruct (Hr u r Hru) as (m & b & Hr' & _ & Em). rewrite (Em Hne) in Hr'.
  destruct (bytes_records_inv s s' G P) as [Hv Hrt]; [done|apply Hw|apply Hw|].
  eapply mail_heap_frame; [exact Hm|done|done|by rewrite Es| |exact Hr'| |].
  - intros d Hd. destruct (owned_chunk_ok _ _ _ _ _ _ _ (wd_core _ _ _ _ _ _ _ Hw Hu) Hd) as [Hok Hn].
    split; [|done]. split_and!; [by rewrite Es..|]. intros x Hx. apply Hb. intros y Hy Hxy.
    destruct (Hobj y Hy) as [k Hk]. destruct (hobject_in _ _ _ _ _ _ _ _ _ Hw Ho Hk) as (d' & Hd' & (Hal' & _) & ? & ? & ?).
    destruct Hok as (Hal & _). destruct (decide (d = d')) as [->|Hdd];
      [|destruct (aligned_apart d d'); [done|done|done|lia..]].
    apply Hne. eapply owned_owner; [by eapply wd_core|by eapply (wd_core _ _ _ _ _ o)|done..].
  - intros t Ht. rewrite Hru in Ht. injection Ht as <-. done.
  - rewrite Es. exact Hst.
Qed.

Lemma poke_batch t B o' : t <> tlh -> batch_for s t o' B -> batch_for s' t o' B.
Proof.
  intros Hne (r & Hr & Hb). destruct (proj1 (proj2 Hp) t r Hr) as (m & b & Hr' & Eb & _).
  rewrite (Eb Hne) in Hr'. by eexists.
Qed.

(** Batch [B'] of [tlh] and mailbox [R'] of [o] afterwards. *)
Section moved.
Context (w : heap_ghost) (R' B' : list Z).
Hypothesis Ht : W !! tlh = Some w.
Hypothesis Hne : tlh <> o.
Hypothesis Hsn : sending s' tlh o (hg_slabs v) (hg_spans v) G P R' B'.
Hypothesis Hother : forall t u x, x ∈ Wd -> W !! t = Some u -> t <> tlh -> x ∉ hg_batch u.
Hypothesis Hfrom : forall x, x ∈ B' ++ R' -> x ∈ hg_mail v \/ x ∈ hg_batch w \/ x ∈ Wd.

Notation w' := (mk_hg (hg_slabs w) (hg_spans w) (hg_mail w) B').
Notation v' := (mk_hg (hg_slabs v) (hg_spans v) R' (hg_batch v)).
Notation W' := (<[tlh := w']> (<[o := v']> W)).

Lemma moved_lookup u x : W' !! u = Some x ->
  u = tlh /\ x = w' \/ u = o /\ x = v' \/ u <> tlh /\ u <> o /\ W !! u = Some x.
Proof. rewrite !lookup_insert_Some. naive_solver. Qed.

(** The objects of the new lists are in no other batch. *)
Lemma moved_free u x t : x ∈ B' ++ R' -> W !! t = Some u -> t <> tlh -> x ∉ hg_batch u.
Proof.
  intros Hx Htu Hn Hxb. destruct (Hfrom x Hx) as [Hm|[Hb|Hd]].
  - by apply (proj1 (wd_apart _ _ _ _ _ Hw t u x Htu Hxb) o v Ho).
  - by apply Hn, eq_sym, (proj2 (wd_apart _ _ _ _ _ Hw t u x Htu Hxb) tlh w Ht).
  - by apply (Hother t u x).
Qed.

Lemma moved_batch t x : W' !! t = Some x -> batch_ok s' W' t (hg_batch x).
Proof.
  intros [[-> ->]|Hx]%moved_lookup.
  - exists o. split; [apply Hsn|]. intros _. split; [done|]. exists v'.
    rewrite lookup_insert_ne, lookup_insert_eq by done. split; [done|apply Hsn].
  - assert (exists u, W !! t = Some u /\ hg_batch x = hg_batch u /\ t <> tlh) as (u & Hu & -> & Htt).
    { destruct Hx as [[-> ->]|(? & ? & ?)]; eauto. }
    destruct (wd_batch _ _ _ _ _ Hw t u Hu) as (o' & Hb & Hrest). exists o'.
    split; [by apply poke_batch|]. intros HB. destruct (Hrest HB) as (Hot & y & Hy & Hpe). split; [done|].
    assert (pending s' (hg_slabs y) (hg_spans y) (hg_batch u)) as Hpe'.
    { apply (poke_pending o'); [done|done|]. intros a Ha Had. by apply (Hother t u a). }
    destruct (decide (o' = tlh)) as [->|H1]; [|destruct (decide (o' = o)) as [->|H2]].
    + rewrite lookup_insert_eq. eexists. split; [done|]. rewrite Ht in Hy. by injection Hy as <-.
    + rewrite lookup_insert_ne, lookup_insert_eq by done. eexists. split; [done|].
      rewrite Ho in Hy. by injection Hy as <-.
    + rewrite !lookup_insert_ne by done. eauto.
Qed.

(** A batched object is in one batch and in no mailbox: that of the sender, and
    those of the others. *)
Lemma moved_apart_own a : a ∈ B' ->
  (forall u y, W' !! u = Some y -> a ∉ hg_mail y) /\ (forall t' y, W' !! t' = Some y -> a ∈ hg_batch y -> t' = tlh).
Proof.
  intros HaB. assert (exists n, hobject s v a n) as [n Hn].
  { destruct (pe_object _ _ _ _ (sn_pending _ _ _ _ _ _ _ _ _ Hsn) a HaB) as [_ [n Hn]]. exists n.
    by apply (bytes_records_object s s' v); [apply Hp|]. }
  assert (forall u y, W !! u = Some y -> u <> o -> a ∉ hg_mail y) as Hno.
  { intros u y Hu Huo Hay. apply Huo.
    destruct (pe_object _ _ _ _ (mh_pending _ _ _ _ _ _ _ (wd_heap _ _ _ _ _ Hw u y Hu)) a Hay) as [_ [m Hm]].
    by eapply (hobject_heap s W D G P u y o v). }
  split.
  - intros u y [[-> ->]|[[-> ->]|(_ & H2 & Hu)]]%moved_lookup Hay; [by apply (Hno tlh w)| |by apply (Hno u y)].
    by apply (sn_apart _ _ _ _ _ _ _ _ _ Hsn a).
  - intros t' y Hy Hay. destruct (decide (t' = tlh)) as [|Hn']; [done|exfalso].
    assert (exists u, W !! t' = Some u /\ a ∈ hg_batch u) as (u & Hu & Hau).
    { apply moved_lookup in Hy as [[-> ->]|[[-> ->]|(? & ? & ?)]]; [done|eauto..]. }
    eapply (moved_free u a t'); [apply elem_of_app; by left|done..].
Qed.

Lemma moved_apart_other t u a : t <> tlh -> W !! t = Some u -> a ∈ hg_batch u ->
  (forall z y, W' !! z = Some y -> a ∉ hg_mail y) /\ (forall t' y, W' !! t' = Some y -> a ∈ hg_batch y -> t' = t).
Proof.
  intros Htt Hu Hau. destruct (wd_apart _ _ _ _ _ Hw t u a Hu Hau) as [H1 H2]. split.
  - intros z y [[-> ->]|[[-> ->]|(_ & _ & Hz)]]%moved_lookup Hay; [exact (H1 tlh w Ht Hay)| |exact (H1 z y Hz Hay)].
    eapply (moved_free u a t); [apply elem_of_app; by right|done..].
  - intros t' y [[-> ->]|[[-> ->]|(_ & _ & Hz)]]%moved_lookup Hay; [exfalso|exact (H2 o v Ho Hay)|exact (H2 t' y Hz Hay)].
    eapply (moved_free u a t); [apply elem_of_app; by left|done..].
Qed.

Lemma world_send : world s' W' D G P.
Proof.
  apply (world_quiet s s' W); [done|apply Hp| | | |exact moved_batch|].
  - intros u. rewrite !lookup_insert. repeat case_decide; subst; rewrite ?Ht, ?Ho; done.
  - intros z r Hr. destruct (proj1 (proj2 Hp) z r Hr) as (m & b & Hr' & _). by eexists.
  - intros u x [[-> ->]|[[-> ->]|(H1 & H2 & Hu)]]%moved_lookup;
      [exact (poke_other tlh w Ht Hne)|apply Hsn|by apply poke_other].
  - intros t x a [[-> ->]|[[-> ->]|(? & ? & ?)]]%moved_lookup Ha;
      [by apply moved_apart_own|by eapply moved_apart_other..].
Qed.

End moved.

End poke.

(** ** Writes of the client *)

(** The object at [a] shares no byte with another object of a heap. *)
Lemma in_use_apart s W D G P a n o w b m :
  world s W D G P -> in_use s W D a n -> W !! o = Some w -> hobject s w b m ->
  a = b /\ n = m /\ ~ queued W b \/ a + n <= b \/ b + m <= a.
Proof.
  intros Hw [(t & u & Ht & Ha & Hq)|(base & v & Hb & -> & ->)] Ho Hob.
  - destruct (hobjects_disjoint _ _ _ _ _ _ _ _ _ _ _ _ _ Hw Ht Ho Ha Hob) as [[-> ->]|?]; auto.
  - destruct (dk_place _ _ _ _ _ (wd_direct _ _ _ _ _ Hw base v Hb)) as (? & ? & ?).
    destruct (hobject_direct _ _ _ _ _ _ _ _ _ _ _ Hw Ho Hb Hob); lia.
Qed.

Section write.
Context (s : state) (W : gmap Z heap_ghost) (D : gmap Z direct_ghost) (G : list Z) (P : list (list Z)).
Context (a n : Z) (m : gmap Z Z).
Hypothesis Hw : world s W D G P.
Hypothesis Ha : in_use s W D a n.
Hypothesis Hm : forall x, ~ (a <= x < a + n) -> m !! x = h_bytes s !! x.

Let s' := set_h_bytes m s.

Lemma write_pending o w l : W !! o = Some w -> pending s (hg_slabs w) (hg_spans w) l ->
  (forall b, b ∈ l -> queued W b) -> pending s' (hg_slabs w) (hg_spans w) l.
Proof.
  intros Ho [Hch Hnd Hl] Hq.
  assert (forall b x, b ∈ l -> b <= x < b + 8 -> m !! x = h_bytes s !! x) as Hb.
  { intros b x Hbl Hx. apply Hm. destruct (Hl b Hbl) as [_ [k Hk]].
    destruct (hobject_in _ _ _ _ _ _ _ _ _ Hw Ho Hk) as (_ & _ & _ & ? & _).
    destruct (in_use_apart _ _ _ _ _ _ _ _ _ _ _ Hw Ha Ho Hk) as [(_ & _ & Hn)|?]; [by destruct Hn; auto|lia]. }
  constructor; [by eapply node_chain_ext|done|]. intros b Hbl. destruct (Hl b Hbl) as [Hs [k Hk]].
  split; [cbn; rewrite (Hb b b Hbl) by lia; done|]. by exists k.
Qed.

Lemma write_heap o w : W !! o = Some w ->
  mail_heap s' o (hg_slabs w) (hg_spans w) G P (hg_mail w).
Proof.
  intros Ho. destruct (wd_heap _ _ _ _ _ Hw o w Ho) as [Hh Hhd Hpe].
  destruct (bytes_records_inv s s' G P) as [Hv Hrt]; [by destruct s|apply Hw|apply Hw|].
  destruct Ha as [(t & u & Ht & Hob & _)|(base & v & Hb & Ea & En)].
  - destruct (decide (t = o)) as [->|Hne].
    + rewrite Ho in Ht. injection Ht as <-. constructor; [|done|].
      * eapply (heap_poke s o (hg_slabs w) (hg_spans w) G P m (h_tlhs s)); [done|by destruct s|eauto|].
        intros x. destruct (decide (a <= x < a + n)); [right; eauto|left; auto].
      * eapply write_pending; [done|done|]. intros b Hb. exists o, w. auto.
    + destruct (sh_tlh _ _ _ _ _ (hc_span _ _ _ _ _ _ (hp_core _ _ _ _ _ _ Hh))) as (r & Hr & _ & Hst).
      eapply (mail_heap_frame s s' o r); [by eapply wd_heap|done|done|done| |done| |done].
      * intros d Hd. destruct (owned_chunk_ok _ _ _ _ _ _ _ (wd_core _ _ _ _ _ _ _ Hw Ho) Hd) as [Hok Hn].
        split; [|done]. split_and!; [done..|]. intros x Hx. apply Hm.
        destruct (hobject_in _ _ _ _ _ _ _ _ _ Hw Ht Hob) as (d' & Hd' & (Hal' & _) & ? & ? & ?).
        destruct Hok as (Hal & _). destruct (decide (d = d')) as [->|Hdd];
          [|destruct (aligned_apart d d'); [done|done|done|lia..]].
        exfalso. apply Hne. eapply owned_owner; [by eapply wd_core|by eapply (wd_core _ _ _ _ _ o)|done..].
      * intros r0 Hr0. rewrite Hr in Hr0. by injection Hr0 as <-.
  - destruct (sh_tlh _ _ _ _ _ (hc_span _ _ _ _ _ _ (hp_core _ _ _ _ _ _ Hh))) as (r & Hr & _ & Hst).
    eapply (mail_heap_frame s s' o r); [by eapply wd_heap|done|done|done| |done| |done].
    + intros d Hd. destruct (owned_chunk_ok _ _ _ _ _ _ _ (wd_core _ _ _ _ _ _ _ Hw Ho) Hd) as [Hok Hn].
      split; [|done]. split_and!; [done..|]. intros x Hx. apply Hm.
      destruct (dk_place _ _ _ _ _ (wd_direct _ _ _ _ _ Hw base v Hb)) as (? & ? & ?).
      destruct (holds_direct _ _ _ _ _ _ _ _ _ d Hw Ho Hb Hd); lia.
    + intros r0 Hr0. rewrite Hr in Hr0. by injection Hr0 as <-.
Qed.

Lemma world_write : world s' W D G P.
Proof.
  apply (world_quiet s s' W); [done|by destruct s|done|eauto|apply write_heap| |apply Hw].
  intros t w Ht. destruct (wd_batch _ _ _ _ _ Hw t w Ht) as (o & Hb & Hrest). exists o.
  split; [done|]. intros HB. destruct (Hrest HB) as (Hne & v & Hv & Hpe). split; [done|]. exists v.
  split; [done|]. eapply write_pending; [done|done|]. intros b Hb'. exists t, w. auto.
Qed.

End write.

(** ** Flushing a batch, and a free of an object of another heap *)

(** The heap a batch is for. *)
Lemma world_batch s W D G P tlh w o v :
  world s W D G P -> W !! tlh = Some w -> W !! o = Some v -> batch_for s tlh o (hg_batch w) ->
  (hg_batch w <> [] -> pending s (hg_slabs v) (hg_spans v) (hg_batch w)) ->
  sending s tlh o (hg_slabs v) (hg_spans v) G P (hg_mail v) (hg_batch w).
Proof.
  intros Hw Ht Ho Hb Hp. constructor; [by eapply wd_heap|done| |].
  - destruct (hg_batch w) eqn:E; [|by apply Hp]. constructor; [done|constructor|].
    intros a Ha. by apply not_elem_of_nil in Ha.
  - intros a Ha. by eapply (wd_apart _ _ _ _ _ Hw tlh w a).
Qed.

(** The effect of a flush or a remote free on the process. *)
Record sent (s : state) (W : gmap Z heap_ghost) (D : gmap Z direct_ghost) (G : list Z) (P : list (list Z))
    (new : Z -> Prop) (s' : state) (W' : gmap Z heap_ghost) : Prop := {
  st_world : world s' W' D G P;
  st_state : bytes_records s s';
  st_heaps : same_heaps W W';
  st_queued : forall y, queued W' y <-> queued W y \/ new y;
  st_bytes : forall a n x o w, W !! o = Some w -> hobject s w a n -> ~ queued W' a -> a <= x < a + n ->
    h_bytes s' !! x = h_bytes s !! x;
  st_direct : forall base v x, D !! base = Some v -> base <= x < base + dg_total v ->
    h_bytes s' !! x = h_bytes s !! x
}.

Lemma insert_queued (W : gmap Z heap_ghost) tlh o w v R' B' y :
  W !! tlh = Some w -> W !! o = Some v -> tlh <> o ->
  queued (<[tlh := mk_hg (hg_slabs w) (hg_spans w) (hg_mail w) B']>
    (<[o := mk_hg (hg_slabs v) (hg_spans v) R' (hg_batch v)]> W)) y <->
  y ∈ B' ++ R' \/ y ∈ hg_mail w \/ y ∈ hg_batch v \/
  exists t u, W !! t = Some u /\ t <> tlh /\ t <> o /\ (y ∈ hg_mail u \/ y ∈ hg_batch u).
Proof.
  intros Ht Ho Hne. unfold queued. rewrite elem_of_app. split.
  - intros (t & u & Hu & Hy). rewrite !lookup_insert_Some in Hu. naive_solver.
  - intros [[Hy|Hy]|[Hy|[Hy|(t & u & Hu & H1 & H2 & Hy)]]].
    + exists tlh. eexists. rewrite lookup_insert_eq. eauto.
    + exists o. eexists. rewrite lookup_insert_ne, lookup_insert_eq by done. eauto.
    + exists tlh. eexists. rewrite lookup_insert_eq. eauto.
    + exists o. eexists. rewrite lookup_insert_ne, lookup_insert_eq by done. eauto.
    + exists t, u. rewrite !lookup_insert_ne by done. eauto.
Qed.

Lemma sent_intro s W D G P tlh w o v s' R' B' Wd new :
  world s W D G P -> W !! tlh = Some w -> W !! o = Some v -> tlh <> o ->
  sending s' tlh o (hg_slabs v) (hg_spans v) G P R' B' -> poked s s' tlh o Wd ->
  (forall x, x ∈ Wd -> (x ∈ hg_batch w \/ ~ queued W x) /\ exists n, hobject s v x n) ->
  (forall x, x ∈ B' ++ R' <-> x ∈ hg_mail v \/ x ∈ hg_batch w \/ new x) ->
  (forall x, x ∈ Wd -> x ∈ B' ++ R') -> (forall x, new x -> x ∈ Wd) ->
  exists W', sent s W D G P new s' W' /\
    exists w', W' !! tlh = Some w' /\ hg_batch w' = B'.
Proof.
  intros Hw Ht Ho Hne Hsn Hp HWd Hq Hin Hnew.
  assert (forall x, x ∈ Wd -> exists n, hobject s v x n) as Hobj by (intros; by apply HWd).
  exists (<[tlh := mk_hg (hg_slabs w) (hg_spans w) (hg_mail w) B']>
    (<[o := mk_hg (hg_slabs v) (hg_spans v) R' (hg_batch v)]> W)).
  split; [|eexists; by rewrite lookup_insert_eq].
  assert (forall y, queued (<[tlh := mk_hg (hg_slabs w) (hg_spans w) (hg_mail w) B']>
    (<[o := mk_hg (hg_slabs v) (hg_spans v) R' (hg_batch v)]> W)) y <-> queued W y \/ new y) as Hqq.
  { intros y. rewrite insert_queued by done. rewrite Hq. unfold queued. split.
    - intros [[?|[?|?]]|[?|[?|(t & u & ? & _ & _ & ?)]]]; eauto 8.
    - intros [(t & u & Hu & Hy)|?]; [|tauto]. destruct (decide (t = tlh)) as [->|]; [|destruct (decide (t = o)) as [->|]].
      + rewrite Ht in Hu. injection Hu as <-. tauto.
      + rewrite Ho in Hu. injection Hu as <-. tauto.
      + right. right. right. eauto 8. }
  constructor.
  - eapply (world_send s W D G P tlh o v s' Wd); [done|done|done|done|done|done|done| |].
    + intros t u x Hx Hu Hn Hxu. destruct (HWd x Hx) as [[Hb|Hb] _]; [|apply Hb; exists t, u; auto].
      by apply Hn, eq_sym, (proj2 (wd_apart _ _ _ _ _ Hw t u x Hu Hxu) tlh w Ht).
    + intros x [?|[?|?]]%Hq; auto.
  - apply Hp.
  - intros u. rewrite !lookup_insert. repeat case_decide; subst; rewrite ?Ht, ?Ho; done.
  - exact Hqq.
  - intros a n x u y Hu Ha Hna Hx. eapply (poke_bytes s W D G P tlh o v s' Wd); try done.
    intros Had. apply Hna, Hqq. apply Hin, Hq in Had as [?|[?|?]]; [left; exists o, v; auto|left; exists tlh, w; auto|by right].
  - intros base z x Hb Hx. apply Hp. intros y Hy Hxy. destruct (Hobj y Hy) as [k Hk].
    destruct (hobject_in _ _ _ _ _ _ _ _ _ Hw Ho Hk) as (_ & _ & _ & ? & _).
    destruct (hobject_direct _ _ _ _ _ _ _ _ _ _ _ Hw Ho Hb Hk); lia.
Qed.

Lemma sent_refl s W D G P : world s W D G P -> sent s W D G P nothing s W.
Proof.
  intros Hw. constructor; [done|by destruct s|done| |done|done]. intros y. unfold nothing. tauto.
Qed.

Lemma sent_trans s1 W1 D G P new1 s2 W2 new2 s3 W3 new :
  sent s1 W1 D G P new1 s2 W2 -> sent s2 W2 D G P new2 s3 W3 ->
  (forall y, new y <-> new1 y \/ new2 y) -> sent s1 W1 D G P new s3 W3.
Proof.
  intros [_ E1 H1 Q1 B1 D1] [C2 E2 H2 Q2 B2 D2] Hn. constructor; [done|by eapply bytes_records_trans|
    by eapply same_heaps_trans| | |].
  - intros y. rewrite Q2, Q1, Hn. tauto.
  - intros a n x o w Ho Ha Hq Hx.
    destruct (same_heaps_object _ _ _ _ _ _ _ (same_heaps_sym _ _ H1) Ho Ha) as (w' & Ho' & Ha').
    rewrite (B2 a n x o w'); [|done|by apply (bytes_records_object s1 s2)|done|done].
    apply (B1 a n x o w); [done..| |done]. intros ?. apply Hq, Q2. by left.
  - intros base v x Hb Hx. rewrite (D2 base v x), (D1 base v x); done.
Qed.

(** A flush of heap [tlh]: what was queued stays queued. *)
Lemma wp_world_flush tlh w W D G P Q s :
  world s W D G P -> W !! tlh = Some w ->
  (forall s' W' w', sent s W D G P nothing s' W' -> W' !! tlh = Some w' -> hg_batch w' = [] -> Q tt s') ->
  wp (lz_tlh_flush_outgoing_batch tlh) Q s.
Proof.
  intros Hw Ht HQ. destruct (wd_batch _ _ _ _ _ Hw tlh w Ht) as (o & Hb & Hrest).
  destruct (decide (hg_batch w = [])) as [E|E].
  - destruct Hb as (r & Hr & Hc & _). rewrite E in Hc. unfold lz_tlh_flush_outgoing_batch. wp_step.
    eapply wp_tlh_at; [done|]. rewrite Hc. change (Z.of_nat (length (@nil Z)) =? 0) with true.
    cbn [orb]. wp_step. by eapply HQ; [apply sent_refl|..].
  - destruct (Hrest E) as (Hne & v & Ho & Hp). destruct (wd_record _ _ _ _ _ Hw o v Ho) as [Hn _].
    eapply wp_deliver; [by eapply world_batch|done|done|]. intros s' Hsn _ Hpk.
    destruct (sent_intro s W D G P tlh w o v s' (hg_batch w ++ hg_mail v) [] (hg_batch w) nothing)
      as (W' & Hs' & w' & Hw' & Eb); try done.
    + intros x Hx. split; [by left|]. by apply Hp.
    + intros x. unfold nothing. cbn. set_solver.
    + intros x Hx. cbn. set_solver.
    + by eapply HQ.
Qed.

(** Replacing the target of an empty batch. *)
Lemma world_retarget s W D G P tlh w r o v b :
  world s W D G P -> W !! tlh = Some w -> hg_batch w = [] -> h_tlhs s !! tlh = Some r ->
  W !! o = Some v -> tlh <> o -> b = set_target_tlh o (outgoing_batch r) ->
  sent s W D G P nothing (set_h_tlhs (<[tlh := set_outgoing_batch b r]> (h_tlhs s)) s) W.
Proof.
  intros Hw Ht Eb Hr Ho Hne ->. set (s' := set_h_tlhs _ s).
  assert (forall h, poked s s' tlh h []) as Hp.
  { intros h. split_and!; [by destruct s| |done]. intros z r0 Hr0. by apply insert_batch_poke. }
  constructor; [|apply (Hp o)|done|intros y; unfold nothing; tauto|done|done].
  apply (world_quiet s s' W); [done|apply (Hp o)|done| | | |apply Hw].
  - intros z r0 Hr0. destruct (proj1 (proj2 (Hp o)) z r0 Hr0) as (m & b & Hr' & _). by eexists.
  - intros u x Hu. destruct (decide (u = tlh)) as [->|Hn].
    + eapply (poke_other s W D G P tlh o v s' []); try done. intros y Hy. by apply not_elem_of_nil in Hy.
    + eapply (poke_other s W D G P tlh tlh w s' []); try done. intros y Hy. by apply not_elem_of_nil in Hy.
  - intros t x Hx. destruct (wd_batch _ _ _ _ _ Hw t x Hx) as (o' & Hb & Hrest).
    destruct (decide (t = tlh)) as [->|Hn].
    + rewrite Ht in Hx. injection Hx as <-. rewrite Eb in *. destruct Hb as (r0 & Hr0 & Hc & _ & Hh & _).
      rewrite Hr in Hr0. injection Hr0 as <-. exists o'. split; [|done]. eexists.
      cbn. rewrite lookup_insert_eq. split_and!; [done|done|lia|done|done].
    + exists o'. split; [by eapply (poke_batch s tlh o s' [])|]. intros HB.
      destruct (Hrest HB) as (? & y & Hy & Hpe). split; [done|]. exists y. split; [done|].
      eapply (poke_pending s W D G P tlh o v s' []); try done; [intros z Hz; by apply not_elem_of_nil in Hz|].
      intros z _. apply not_elem_of_nil.
Qed.

(** A word written into an object that is queued later. *)
Lemma sent_write s W D G P a n m s' W' :
  world s W D G P -> in_use s W D a n ->
  (forall x, ~ (a <= x < a + n) -> m !! x = h_bytes s !! x) ->
  (forall base v, D !! base = Some v -> a + n <= base \/ base + dg_total v <= a) ->
  sent (set_h_bytes m s) W D G P (fun y => y = a) s' W' -> sent s W D G P (fun y => y = a) s' W'.
Proof.
  intros Hw Ha Hm Hd [Hw' Es Hh Hq Hb Hbd]. constructor; [done| |done|done| |].
  - eapply bytes_records_trans; [|exact Es]. by destruct s.
  - intros b k x o w Ho Hob Hnq Hx. rewrite (Hb b k x o w) by done. apply Hm.
    destruct (in_use_apart _ _ _ _ _ _ _ _ _ _ _ Hw Ha Ho Hob) as [(-> & _ & _)|?]; [|lia].
    destruct Hnq. apply Hq. by right.
  - intros base v x Hbv Hx. rewrite (Hbd base v x) by done. apply Hm. specialize (Hd base v Hbv). lia.
Qed.

(** The object at [a] joins the batch of [tlh]. *)
Lemma wp_world_push tlh w o v a n W D G P r Q s :
  world s W D G P -> W !! tlh = Some w -> W !! o = Some v -> tlh <> o ->
  hobject s v a n -> ~ queued W a -> batch_for s tlh o (hg_batch w) ->
  (hg_batch w <> [] -> pending s (hg_slabs v) (hg_spans v) (hg_batch w)) ->
  (length (hg_batch w) < 64)%nat -> h_tlhs s !! tlh = Some r -> target_tlh (outgoing_batch r) = o ->
  (forall s' W', sent s W D G P (fun y => y = a) s' W' -> Q tt s') ->
  wp (t ← tlh_at tlh;
      let batch := outgoing_batch t in
      store64 a (batch_head batch);;
      update_tlh tlh (fun t => set_outgoing_batch
        (mk_batch (target_tlh batch) a
          (if batch_count batch =? 0 then a else batch_tail batch)
          (u32 (batch_count batch + 1))) t)) Q s.
Proof.
  intros Hw Ht Ho Hne Ha Hna Hb Hp Hlen Hr Htg HQ.
  assert (a ∉ hg_batch w /\ a ∉ hg_mail v) as [HaB HaR].
  { split; intros Hx; apply Hna; [exists tlh, w|exists o, v]; auto. }
  eapply (wp_batch_push tlh o a n); [by eapply world_batch|done|exact Ha|done|done|done|exact Hr|done|].
  intros s' Hsn _ Hpk.
  destruct (sent_intro s W D G P tlh w o v s' (hg_mail v) (a :: hg_batch w) [a] (fun y => y = a))
    as (W' & Hs' & _); try done.
  - intros x ->%list_elem_of_singleton. eauto.
  - intros x. set_solver.
  - intros x. set_solver.
  - intros x ->. set_solver.
  - by eapply HQ.
Qed.

(** A free by heap [tlh] of an object of heap [o]. *)
Lemma wp_world_remote tlh w o v a n W D G P Q s :
  world s W D G P -> W !! tlh = Some w -> W !! o = Some v -> tlh <> o ->
  hobject s v a n -> ~ queued W a ->
  (forall s' W', sent s W D G P (fun y => y = a) s' W' -> Q tt s') ->
  wp (batch_remote tlh o a) Q s.
Proof.
  intros Hw Ht Ho Hne Ha Hna HQ. destruct (hobject_in _ _ _ _ _ _ _ _ _ Hw Ho Ha) as (_ & _ & _ & Hn & _).
  destruct (object_header _ _ _ _ _ _ _ _ (wd_core _ _ _ _ _ _ _ Hw Ho) Ha) as (Hma & _).
  assert (in_use s W D a n) as Hu by (left; by exists o, v).
  unfold batch_remote. wp_step. apply wp_store64; [done|eapply object_word_mapped; [by eapply wd_core|exact Ha]|].
  set (m := set_le_bytes (h_bytes s) a NULL 8). set (s1 := set_h_bytes m s).
  assert (forall x, ~ (a <= x < a + n) -> m !! x = h_bytes s !! x) as Hm.
  { intros x Hx. apply set_le_bytes_ne. change (Z.of_nat 8) with 8. lia. }
  pose proof (world_write s W D G P a n m Hw Hu Hm) as Hw1. fold s1 in Hw1.
  assert (forall s' W', sent s1 W D G P (fun y => y = a) s' W' -> Q tt s') as HQ1.
  { intros s' W' Hs'. apply (HQ s' W'). eapply sent_write; [done..| |exact Hs'].
    intros base z Hbz. by eapply hobject_direct. }
  destruct (wd_batch _ _ _ _ _ Hw1 tlh w Ht) as (o' & Hb & Hrest).
  destruct (Hb) as (t & Htr & Hcnt & Hlen & Hhd & HB).
  wp_step. eapply wp_tlh_at; [exact Htr|]. cbv zeta. wp_step.
  destruct (negb (target_tlh (outgoing_batch t) =? o) || (LZ_BATCH_MAX_SIZE <=? batch_count (outgoing_batch t))) eqn:Ec.
  - wp_step. eapply wp_world_flush; [exact Hw1|exact Ht|]. intros s2 W2 w2 Hs2 Hw2 Eb2.
    pose proof (st_world _ _ _ _ _ _ _ _ Hs2) as Hwd2.
    destruct (same_heaps_object s1 W2 W o v a n (same_heaps_sym _ _ (st_heaps _ _ _ _ _ _ _ _ Hs2)) Ho Ha) as (v2 & Ho2 & Ha2).
    destruct (wd_batch _ _ _ _ _ Hwd2 tlh w2 Hw2) as (o2 & (r2 & Hr2 & _) & _).
    eapply wp_update_tlh; [exact Hr2|].
    pose proof (world_retarget s2 W2 D G P tlh w2 r2 o v2 _ Hwd2 Hw2 Eb2 Hr2 Ho2 Hne eq_refl) as Hs3.
    set (s3 := set_h_tlhs _ s2) in *.
    assert (forall x k, hobject s3 v2 x k <-> hobject s1 v2 x k) as Hob.
    { intros x k. apply (bytes_records_object s1 s3).
      eapply bytes_records_trans; [apply Hs2|apply Hs3]. }
    eapply (wp_world_push tlh w2 o v2 a n W2 D G P); try done; [apply Hs3|by apply Hob| |..].
    + intros [Hq|[]]%(st_queued _ _ _ _ _ _ _ _ Hs2). done.
    + rewrite Eb2. destruct (wd_batch _ _ _ _ _ Hwd2 tlh w2 Hw2) as (? & (r3 & Hr3 & Hc3 & _ & Hh3 & _) & _).
      rewrite Hr2 in Hr3. injection Hr3 as <-. rewrite Eb2 in Hc3, Hh3. eexists. cbn. rewrite lookup_insert_eq.
      split_and!; [done|done|lia|done|done].
    + rewrite Eb2. cbn. lia.
    + cbn. by rewrite lookup_insert_eq.
    + done.
    + intros s' W' Hs'. apply (HQ1 s' W'). eapply sent_trans; [|exact Hs'|].
      * eapply sent_trans; [exact Hs2|exact Hs3|]. intros y. instantiate (1 := nothing). unfold nothing. tauto.
      * intros y. unfold nothing. tauto.
  - apply orb_false_iff in Ec as [Htg Hlt]. apply negb_false_iff, Z.eqb_eq in Htg.
    unfold LZ_BATCH_MAX_SIZE in Hlt. rewrite Hcnt in Hlt. wp_step.
    eapply (wp_world_push tlh w o v a n W D G P t); try done; [|by intros E; destruct (Hrest E) as (_ & y & Hy & Hpe);
      destruct (HB E) as [E1 _]; assert (o' = o) as -> by congruence; rewrite Ho in Hy; injection Hy as <-|lia].
    exists t. split_and!; try done. intros E. destruct (HB E) as [E1 E2]. split; [congruence|done].
Qed.

End send.
