(* ===== verification/WorldLife.v ===== *)
(** * Threads and their heaps, in the whole process

    A thread attaches to a heap (its own, one left by a dead thread, or a new
    one) and leaves it when it exits: what this does to the invariant of the
    process and to the objects of the client. *)

From S2P Require Import Prelude Common Sizes Machine Wp Dll Testbed Security Rtree Vmm VmmSpec.
From S2P Require Import Provision Telemetry Span SpanSpec Slab Tlh SlabSpec BinSpec HeapSpec.
From S2P Require Import TlhSpec RemoteSpec Lzmalloc LzmallocSpec WorldSpec WorldSend.

(** The part of a heap record that its objects depend on. *)
Definition working (t : lz_tlh_t) :=
  (bins t, active_spans t, remote_free_head t, outgoing_batch t).

Definition slot_ok (s : state) (t : lz_tlh_t) : Prop :=
  stat_slot t = NULL \/ is_Some (h_stats s !! stat_slot t).

Section life.
Context `{EnvLaws}.

Lemma wd_slot s W D G P o w t : world s W D G P -> W !! o = Some w -> h_tlhs s !! o = Some t -> slot_ok s t.
Proof.
  intros Hw Ho Ht.
  destruct (sh_tlh _ _ _ _ _ (hc_span _ _ _ _ _ _ (wd_core _ _ _ _ _ _ _ Hw Ho))) as (r & Hr & _ & ?).
  rewrite Ht in Hr. by injection Hr as <-.
Qed.

(** ** Bookkeeping and fresh memory *)

(** A chunk of a heap or of a large object. *)
Definition in_world (W : gmap Z heap_ghost) (D : gmap Z direct_ghost) (d : Z) : Prop :=
  (exists o w, W !! o = Some w /\ holds w d) \/
  (exists base v, D !! base = Some v /\ base <= d < base + dg_total v).

Section frame.
Context (s s' : state) (W : gmap Z heap_ghost) (D D' : gmap Z direct_ghost) (G G' : list Z) (P P' : list (list Z)).
Hypothesis Hw : world s W D G P.
Hypothesis HD : D' ⊆ D.
Hypothesis Hv : vmm_inv s' G' P'.
Hypothesis Hpool : forall d, d ∈ G' ++ concat P' -> d ∈ G ++ concat P.
Hypothesis Hr : rtree_inv s'.
Hypothesis Hch : forall d, chunk_ok s d -> in_world W D' d -> chunk_same s s' d /\ chunk_ok s' d.
Hypothesis Hmr : forall o w, W !! o = Some w -> mapped s' o = true.
Hypothesis Hmd : forall base v x, D' !! base = Some v -> base <= x < base + dg_total v -> mapped s' x = true.
Hypothesis Hlg : only_grows s s'.
Hypothesis Ek : g_lz_global_secret s' = g_lz_global_secret s.
Hypothesis Ht : forall o w t, W !! o = Some w -> h_tlhs s !! o = Some t ->
  exists t', h_tlhs s' !! o = Some t' /\ working t' = working t /\ slot_ok s' t'.

Lemma frame_holds o w d : W !! o = Some w -> holds w d ->
  chunk_same s s' d /\ chunk_ok s' d /\ d ∉ G' ++ concat P'.
Proof.
  intros Ho Hd. destruct (owned_chunk_ok _ _ _ _ _ _ _ (wd_core _ _ _ _ _ _ _ Hw Ho) Hd) as [Hok Hn].
  destruct (Hch d Hok) as [? ?]; [left; eauto|]. split_and!; [done..|]. auto.
Qed.

Lemma frame_heap o w : W !! o = Some w ->
  mail_heap s' o (hg_slabs w) (hg_spans w) G' P' (hg_mail w) /\
  forall a n, hobject s' w a n <-> hobject s w a n.
Proof.
  intros Ho.
  destruct (sh_tlh _ _ _ _ _ (hc_span _ _ _ _ _ _ (wd_core _ _ _ _ _ _ _ Hw Ho))) as (t & Hto & _).
  destruct (Ht o w t Ho Hto) as (t' & Ht' & Ew & Hs). injection Ew as E1 E2 E3 E4.
  eapply (mail_heap_frame s s' o t'); [by eapply wd_heap|done..| |done| |done].
  - intros d Hd. destruct (frame_holds o w d Ho Hd) as ((? & ? & ? & _) & ? & ?). by split_and!.
  - intros t0 Ht0. rewrite Hto in Ht0. by injection Ht0 as <-.
Qed.

Lemma frame_object o w a n : W !! o = Some w -> hobject s' w a n <-> hobject s w a n.
Proof. intros Ho. by apply (frame_heap o w Ho). Qed.

Lemma frame_batch t w : W !! t = Some w -> batch_ok s' W t (hg_batch w).
Proof.
  intros Hx. destruct (wd_batch _ _ _ _ _ Hw t w Hx) as (o & (r & Hrr & Hb) & Hrest). exists o.
  destruct (Ht t w r Hx Hrr) as (r' & Hr' & Ew & _). injection Ew as _ _ _ E. split; [exists r'; by rewrite E|].
  intros HB. destruct (Hrest HB) as (Hne & v & Hvo & Hp). split; [done|]. exists v. split; [done|].
  eapply pending_frame; [by eapply wd_core|done| |by eapply frame_heap].
  intros d x Hd. by apply (frame_holds o v d Hvo Hd).
Qed.

Lemma world_frame : matrix_ok s' -> registry s' W -> world s' W D' G' P'.
Proof.
  intros Hm Hrg. assert (forall b v, D' !! b = Some v -> D !! b = Some v) as Hsub by (intros; by eapply lookup_weaken).
  constructor; [done|done|rewrite Ek; apply Hw| | | |apply Hw| | | | |done|done].
  - intros o w Ho. split; [|by eapply Hmr]; by eapply (wd_record _ _ _ _ _ Hw).
  - intros o w Ho. by apply frame_heap.
  - intros t w. apply frame_batch.
  - intros base v Hb. pose proof (wd_direct _ _ _ _ _ Hw base v (Hsub _ _ Hb)) as Hok.
    eapply direct_frame; [exact Hok| |intros x; by apply (Hmd base v)|done].
    intros d Hd Hdr. split; [apply Hch; [done|right; eauto]|]. intros Hdp%Hpool. eapply (dk_out _ _ _ _ _ Hok d); [done|apply Hd|done].
  - intros b1 v1 b2 v2 H1' H2'. eapply (wd_disjoint _ _ _ _ _ Hw); auto.
  - intros base v o w Hb. eapply (wd_outside _ _ _ _ _ Hw); auto.
  - intros o w d Ho Hd. destruct (frame_holds o w d Ho Hd) as ((_ & _ & _ & E) & _).
    eapply registers_frame; [exact E|apply Hlg|by eapply (wd_index _ _ _ _ _ Hw o w)].
Qed.

Lemma frame_in_use a n : in_use s' W D' a n <-> in_use s W D' a n.
Proof.
  unfold in_use. split; (intros [(o & w & Ho & Ha & Hq)|?]; [left|by right]); exists o, w;
    (split_and!; [done| |done]); by apply (frame_heap o w Ho).
Qed.

Lemma frame_bytes a n x : in_use s W D' a n -> a <= x < a + n -> h_bytes s' !! x = h_bytes s !! x.
Proof.
  assert (forall b v, D' !! b = Some v -> D !! b = Some v) as Hsub by (intros; by eapply lookup_weaken).
  intros [(o & w & Ho & Ha & _)|(base & v & Hb & -> & ->)] Hx.
  - destruct (hobject_in _ _ _ _ _ _ _ _ _ Hw Ho Ha) as (d & Hd & _ & ? & ? & ?).
    destruct (frame_holds o w d Ho Hd) as ((_ & _ & E & _) & _). apply E. lia.
  - pose proof (wd_direct _ _ _ _ _ Hw base v (Hsub _ _ Hb)) as Hok. pose proof (dk_place _ _ _ _ _ Hok) as Hpl.
    destruct (direct_at_chunk _ _ _ _ _ x Hok) as (d & Hc & Hdr & Hdx & _); [lia|].
    destruct (Hch d Hc) as [(_ & _ & E & _) _]; [right; eauto|]. by apply E.
Qed.

Lemma frame_entry a n : in_use s W D' a n -> rtree_view s' (block_of a) = rtree_view s (block_of a).
Proof.
  assert (forall b v, D' !! b = Some v -> D !! b = Some v) as Hsub by (intros; by eapply lookup_weaken).
  intros [(o & w & Ho & Ha & _)|(base & v & Hb & -> & ->)].
  - destruct (object_block _ _ _ _ _ _ _ _ (wd_core _ _ _ _ _ _ _ Hw Ho) Ha) as (d & Hd & _ & _ & _ & _ & ->).
    apply (frame_holds o w d Ho Hd).
  - pose proof (wd_direct _ _ _ _ _ Hw base v (Hsub _ _ Hb)) as Hok. pose proof (dk_place _ _ _ _ _ Hok) as Hpl.
    destruct (direct_at_chunk _ _ _ _ _ (base + dg_off v) Hok) as (d & Hc & Hdr & _ & ->); [lia|].
    apply (Hch d Hc). right. eauto.
Qed.

End frame.

(** The frame of a change that only adds memory. *)
Section grow.
Context (s s' : state) (W : gmap Z heap_ghost) (D : gmap Z direct_ghost) (G : list Z) (P : list (list Z)).
Hypothesis Hw : world s W D G P.
Hypothesis He : mem_ext s s'.
Hypothesis Ev : vmm_part s' = vmm_part s.
Hypothesis Hr : rtree_inv s'.
Hypothesis Hrv : forall d, chunk_ok s d -> rtree_view s' (block_of d) = rtree_view s (block_of d).
Hypothesis Ek : g_lz_global_secret s' = g_lz_global_secret s.
Hypothesis Ht : forall o w t, W !! o = Some w -> h_tlhs s !! o = Some t ->
  exists t', h_tlhs s' !! o = Some t' /\ working t' = working t /\ slot_ok s' t'.

Lemma grow_chunk d : chunk_ok s d -> chunk_same s s' d /\ chunk_ok s' d.
Proof.
  intros Hd. split; [|eapply chunk_ok_mono; [apply He|done]].
  eapply (frame_chunk_same nowhere nowhere nowhere); [by apply mem_ext_frame|done|auto..|]. auto.
Qed.

Lemma grow_vmm : vmm_inv s' G P.
Proof.
  eapply vmm_inv_frame; [apply Hw|done|apply He|]. intros c Hc. apply He. eapply chunk_ok_self.
  by apply (vi_chunks _ _ _ (wd_vmm _ _ _ _ _ Hw)).
Qed.

Lemma grow_frame :
  (matrix_ok s' -> registry s' W -> world s' W D G P) /\
  (forall a n, in_use s' W D a n <-> in_use s W D a n) /\
  (forall o w a n, W !! o = Some w -> hobject s' w a n <-> hobject s w a n).
Proof.
  assert (forall o w, W !! o = Some w -> mapped s' o = true) as Hmr.
  { intros o w Ho. apply He. by eapply wd_record. }
  assert (forall base v x, D !! base = Some v -> base <= x < base + dg_total v -> mapped s' x = true) as Hmd.
  { intros base v x Hb Hx. apply He. by apply (do_mapped _ _ _ _ (dk_object _ _ _ _ _ (wd_direct _ _ _ _ _ Hw base v Hb))). }
  pose proof grow_vmm as Hv. assert (forall d, chunk_ok s d -> in_world W D d -> chunk_same s s' d /\ chunk_ok s' d) as Hch.
  { intros d Hd _. by apply grow_chunk. }
  pose proof (ext_leaves _ _ He) as Hlg. split_and!.
  - by apply (world_frame s s' W D D G G P P).
  - intros a n. by apply (frame_in_use s s' W D D G G P P).
  - intros o w a n Ho. by eapply (frame_object s s' W D D G G P P).
Qed.

End grow.

(** Objects of the client are mapped. *)
Lemma in_use_mapped s W D G P a n x :
  world s W D G P -> in_use s W D a n -> a <= x < a + n -> mapped s x = true.
Proof.
  intros Hw [(o & w & Ho & Ha & _)|(base & v & Hb & -> & ->)] Hx.
  - destruct (hobject_in _ _ _ _ _ _ _ _ _ Hw Ho Ha) as (d & _ & (_ & _ & _ & Hm) & ? & ? & ?). apply Hm. lia.
  - pose proof (wd_direct _ _ _ _ _ Hw base v Hb) as Hok. pose proof (dk_place _ _ _ _ _ Hok).
    apply (do_mapped _ _ _ _ (dk_object _ _ _ _ _ Hok)). lia.
Qed.

(** ** A new heap *)

Definition no_objects : heap_ghost := mk_hg ∅ [] [] [].

Lemma fresh_heap_ok s G P o t :
  vmm_inv s G P -> rtree_inv s -> 0 <= g_lz_global_secret s < 2 ^ 64 -> h_tlhs s !! o = Some t ->
  bins t = replicate 88 (mk_bin NULL NULL NULL) -> active_spans t = NULL -> remote_free_head t = NULL ->
  slot_ok s t -> mail_heap s o ∅ [] G P [].
Proof.
  intros Hv Hr Hk Ht Eb Ea Em Hs. constructor; [constructor; [constructor|]| |].
  - constructor; [done|done|exists t; split_and!; [done|by rewrite Ea|done]|constructor|..];
      intros p Hp; by apply not_elem_of_nil in Hp.
  - done.
  - intros p g Hp. by rewrite lookup_empty in Hp.
  - intros p g Hp. by rewrite lookup_empty in Hp.
  - exists t. split_and!; [done|by rewrite Eb|]. intros j b Hj _. rewrite Eb.
    intros [-> _]%lookup_replicate_1. exists [], []. split; [by constructor; [..|constructor]|].
    constructor; [by left|intros p Hp; by apply not_elem_of_nil in Hp..|].
    intros p (g & Hp & _). by rewrite lookup_empty in Hp.
  - exists t. by rewrite Em.
  - constructor; [done|constructor|]. intros a Ha. by apply not_elem_of_nil in Ha.
Qed.

Lemma no_object s a n : ~ hobject s no_objects a n.
Proof.
  intros [(p & g & k & Hp & _)|(m & (p & sp & i & Hp & _) & _)]; cbn in Hp;
    [by rewrite lookup_empty in Hp|by apply not_elem_of_nil in Hp].
Qed.

Lemma no_chunk d : ~ holds no_objects d.
Proof. intros [Hd|[g Hd]]; cbn in Hd; [by apply not_elem_of_nil in Hd|by rewrite lookup_empty in Hd]. Qed.

Lemma world_add s W D G P o t :
  world s W D G P -> W !! o = None -> o <> NULL -> mapped s o = true -> h_tlhs s !! o = Some t ->
  bins t = replicate 88 (mk_bin NULL NULL NULL) -> active_spans t = NULL -> remote_free_head t = NULL ->
  outgoing_batch t = mk_batch NULL NULL NULL 0 -> slot_ok s t ->
  (forall base v, D !! base = Some v -> o < base \/ base + dg_total v <= o) ->
  world s (<[o := no_objects]> W) D G P.
Proof.
  intros Hw Hn Ho0 Hm Ht Eb Ea Er Ebt Hs Hout. set (W' := <[o := no_objects]> W).
  assert (forall u w, W' !! u = Some w -> u = o /\ w = no_objects \/ W !! u = Some w) as Hl.
  { intros u w. unfold W'. rewrite lookup_insert_Some. naive_solver. }
  assert (forall u w, W !! u = Some w -> W' !! u = Some w) as Hk.
  { intros u w Hu. unfold W'. rewrite lookup_insert_ne; [done|congruence]. }
  constructor; [apply Hw|apply Hw|apply Hw|..].
  - intros u w [[-> ->]|Hu]%Hl; [done|by eapply wd_record].
  - intros u w [[-> ->]|Hu]%Hl; [|by eapply wd_heap]. eapply fresh_heap_ok; try done; apply Hw.
  - intros u w [[-> ->]|Hu]%Hl.
    + exists NULL. split; [|done]. exists t. rewrite Ebt. split_and!; [done|done|cbn; lia|done|done].
    + destruct (wd_batch _ _ _ _ _ Hw u w Hu) as (v & Hb & Hrest). exists v. split; [done|].
      intros HB. destruct (Hrest HB) as (? & y & Hy & ?). split; [done|]. exists y. auto.
  - intros u w a [[-> ->]|Hu]%Hl Ha; [by apply not_elem_of_nil in Ha|].
    destruct (wd_apart _ _ _ _ _ Hw u w a Hu Ha) as [A1 A2]. split.
    + intros y v [[-> ->]|Hy]%Hl; [apply not_elem_of_nil|by apply (A1 y)].
    + intros y v [[-> ->]|Hy]%Hl Hay; [by apply not_elem_of_nil in Hay|by apply (A2 y v)].
  - apply Hw.
  - apply Hw.
  - intros base v u w Hb [[-> ->]|Hu]%Hl; [|by eapply wd_outside]. split; [by apply (Hout base)|].
    intros d Hd. by apply no_chunk in Hd.
  - intros u w d [[-> ->]|Hu]%Hl Hd; [|by eapply wd_index].
    by apply no_chunk in Hd.
  - apply Hw.
  - destruct (wd_registry _ _ _ _ _ Hw) as [R1 R2 R2' (Zs & R3 & R4 & R5)].
    assert (forall u, is_Some (W !! u) -> is_Some (W' !! u)) as Hsome by (intros u [w Hu]; exists w; auto).
    constructor; [done|intros me; destruct (R2 me); auto|done|]. exists Zs. split_and!; [done|done|].
    intros z Hz. destruct (R5 z Hz). auto.
Qed.

Lemma add_in_use s W D o a n : W !! o = None ->
  in_use s (<[o := no_objects]> W) D a n <-> in_use s W D a n.
Proof.
  intros Hn.
  assert (queued (<[o := no_objects]> W) a <-> queued W a) as Hq.
  { unfold queued. split.
    - intros (t & w & [[<- <-]|[? ?]]%lookup_insert_Some & Hy); [|by exists t, w].
      destruct Hy as [Hy|Hy]; by apply not_elem_of_nil in Hy.
    - intros (t & w & Ht & Hy). exists t, w. rewrite lookup_insert_ne by congruence. done. }
  unfold in_use. setoid_rewrite Hq. split; (intros [(t & w & Ht & Ha & Hx)|?]; [left|by right]).
  - apply lookup_insert_Some in Ht as [[<- <-]|[_ Ht]]; [by apply no_object in Ha|]. by exists t, w.
  - exists t, w. rewrite lookup_insert_ne by congruence. done.
Qed.

(** ** Attaching a thread *)

(** The run from [s0] to [s] ends with a request for the pages of a heap that
    the kernel refused. *)
Definition tlh_refused (s0 s : state) : Prop :=
  exists k l, st_clock s = S k /\ st_refused s = (k, sizeof_tlh) :: l ++ st_refused s0.

Lemma tlh_refused_after s0 s1 s : log_grows s0 s1 -> tlh_refused s1 s -> tlh_refused s0 s.
Proof. intros [l1 E1] (k & l & Ec & E). exists k, (l ++ l1). by rewrite E, E1, app_assoc. Qed.

Lemma tlh_refused_since s0 s : tlh_refused s0 s -> refused_since s0 s.
Proof. intros (k & l & _ & E). by exists (k, sizeof_tlh), l. Qed.

(** A call that makes no request may not trap. *)
Lemma trap_needs_refusal {A} (Q : A -> state -> Prop) s : ~ wpt (tlh_refused s) (stop Trap) Q s.
Proof. intros Ht%tlh_refused_since. by apply refused_since_irrefl in Ht. Qed.

Record attached (s : state) (W : gmap Z heap_ghost) (D : gmap Z direct_ghost) (G : list Z) (P : list (list Z))
    (me : Z) (s' : state) (W' : gmap Z heap_ghost) : Prop := {
  at_world : world s' W' D G P;
  at_tls : is_Some (W' !! tls_of me s');
  at_in_use : forall a n, in_use s' W' D a n <-> in_use s W D a n;
  at_ext : mem_ext s s';
  at_heaps : forall o w, W !! o = Some w ->
    W' !! o = Some w /\ forall a n, hobject s' w a n <-> hobject s w a n;
  at_index : rtree_part s' = rtree_part s
}.

Lemma wp_attach_statistics tlh t Q s :
  h_tlhs s !! tlh = Some t -> matrix_ok s ->
  (forall t', working t' = working t -> next_zombie t' = next_zombie t -> slot_ok s t' ->
     Q tt (set_h_tlhs (<[tlh := t']> (h_tlhs s)) s)) ->
  wp (attach_statistics tlh) Q s.
Proof.
  intros Ht Hm HQ. unfold attach_statistics. wp_step. eapply wp_update_tlh; [exact Ht|].
  wp_step. eapply wp_update_tlh; [cbn; apply lookup_insert_eq|].
  wp_step. eapply wp_tlh_at; [cbn; apply lookup_insert_eq|].
  cbn [thread_id set_local_bytes_free_batch set_local_bytes_alloc_batch].
  unfold LZ_MAX_TELEMETRY_SLOTS, LZ_THREAD_SLOT_BASE_IDX, lz_telemetry_get_slot. change (4096 - 1) with 4095.
  pose proof (Z.mod_pos_bound (thread_id t) 4095 ltac:(lia)) as Hi.
  set (i := thread_id t mod 4095) in *. clearbody i. wp_steps.
  cbn [g_telemetry_matrix set_h_tlhs]. unfold LZ_MAX_TELEMETRY_SLOTS. zfalse (4096 <=? 1 + i). rewrite orb_false_r.
  assert (forall v, v = NULL \/ is_Some (h_stats s !! v) ->
    wp (update_tlh tlh (set_stat_slot v)) Q (set_h_tlhs (<[tlh :=
      set_local_bytes_free_batch 0 (set_local_bytes_alloc_batch 0 t)]> (<[tlh :=
      set_local_bytes_alloc_batch 0 t]> (h_tlhs s))) s)) as Hlast.
  { intros v Hv. eapply wp_update_tlh; [cbn; apply lookup_insert_eq|]. cbn [h_tlhs set_h_tlhs].
    rewrite !insert_insert_eq. by apply HQ. }
  destruct (Z.eqb_spec (g_telemetry_matrix s) NULL) as [E|E]; wp_steps; apply Hlast; [by left|right].
  destruct Hm as [?|Hm]; [done|]. apply Hm. unfold LZ_MAX_TELEMETRY_SLOTS. lia.
Qed.

Lemma zombies_frame_in s s' Zs a :
  (forall z t, z ∈ Zs -> h_tlhs s !! z = Some t ->
     exists t', h_tlhs s' !! z = Some t' /\ next_zombie t' = next_zombie t) ->
  zombies s a Zs -> zombies s' a Zs.
Proof.
  revert a. induction Zs as [|z Zs IH]; intros a Ht; [done|]. cbn.
  intros (-> & Hz & t & Hzt & Hr). destruct (Ht z t) as (t' & Hz' & E); [by left|done|].
  split_and!; [done..|]. exists t'. rewrite E. split; [done|]. apply IH; [|done]. intros. apply Ht; [by right|done].
Qed.

(** Only heap records and the variables of the thread registry change. *)
Definition records_only (s s' : state) : Prop :=
  s' = set_h_tlhs (h_tlhs s') (set_h_stats (h_stats s') (set_tls_tlh_ptr (tls_tlh_ptr s')
    (set_g_thread_counter (g_thread_counter s') (set_g_zombie_tlhs (g_zombie_tlhs s')
      (set_g_zombie_lock (g_zombie_lock s') s))))).

Lemma records_only_ext s s' : records_only s s' ->
  mem_ext s s' /\ vmm_part s' = vmm_part s /\ rtree_part s' = rtree_part s /\
  g_lz_global_secret s' = g_lz_global_secret s /\ g_telemetry_matrix s' = g_telemetry_matrix s.
Proof.
  unfold records_only. intros Es. split_and!; [|by rewrite Es..].
  constructor; [intros a Ha; by rewrite Es..|]. apply only_grows_same; by rewrite Es.
Qed.

(** A registry step of the heap at [o]: its record [t'] and the registry. *)
Lemma attached_intro s W D G P me o t t' s' :
  world s W D G P -> records_only s s' -> h_stats s' = h_stats s ->
  is_Some (W !! o) -> h_tlhs s !! o = Some t -> h_tlhs s' = <[o := t']> (h_tlhs s) ->
  working t' = working t -> slot_ok s t' -> tls_of me s' = o -> registry s' W ->
  attached s W D G P me s' W.
Proof.
  intros Hw Es Est Ho Ht Eh Ew Hs Etls Hrg. destruct (records_only_ext s s' Es) as (He & Ev & Er & Ek & Em).
  assert (forall u w r, W !! u = Some w -> h_tlhs s !! u = Some r ->
    exists r', h_tlhs s' !! u = Some r' /\ working r' = working r /\ slot_ok s' r') as Hrec.
  { intros u w r Hu Hr. unfold slot_ok. rewrite Eh, Est. destruct (decide (u = o)) as [->|Hne].
    - exists t'. rewrite lookup_insert_eq. rewrite Ht in Hr. injection Hr as <-. done.
    - exists r. rewrite lookup_insert_ne by done. split_and!; [done..|].
      exact (wd_slot _ _ _ _ _ _ _ _ Hw Hu Hr). }
  destruct (grow_frame s s' W D G P) as (G1 & G2 & G3); try done.
  { eapply rtree_inv_ext; [apply Hw|done|apply He]. }
  { intros d _. by apply rtree_view_eq. }
  constructor; [|by rewrite Etls|done|done|eauto|done]. apply G1; [|done]. unfold matrix_ok. rewrite Em, Est. apply Hw.
Qed.

Lemma unlock_same s : g_zombie_lock s = false -> set_g_zombie_lock false (set_g_zombie_lock true s) = s.
Proof. intros E. state_eq. by rewrite E. Qed.

(** Taking the first heap of the registry. *)
Lemma wp_resurrect W D G P Q s :
  world s W D G P ->
  (g_zombie_tlhs s = NULL -> Q NULL s) ->
  (forall z t s', z <> NULL -> is_Some (W !! z) -> h_tlhs s !! z = Some t ->
     s' = set_h_tlhs (<[z := set_next_zombie NULL t]> (h_tlhs s)) (set_g_zombie_tlhs (next_zombie t) s) ->
     (forall s2, (forall u, u <> z -> h_tlhs s2 !! u = h_tlhs s !! u) ->
        exists Zs, zombies s2 (next_zombie t) Zs /\ NoDup Zs /\ z ∉ Zs /\
          forall u, u ∈ Zs -> is_Some (W !! u) /\ forall me, tls_of me s <> u) ->
     (forall me, tls_of me s <> z) ->
     Q z s') ->
  wp lz_resurrect_zombie Q s.
Proof.
  intros Hw Hno HQ. destruct (wd_registry _ _ _ _ _ Hw) as [Hl _ _ (Zs & Hz & Hnd & HW)].
  unfold lz_resurrect_zombie. wp_step. apply wp_zombie_lock; [done|]. wp_steps.
  cbn [g_zombie_tlhs set_g_zombie_lock]. destruct Zs as [|z Zs]; cbn in Hz.
  - rewrite Hz. change (NULL =? NULL) with true. cbn [negb]. unfold zombie_unlock. wp_steps.
    rewrite unlock_same by done. by apply Hno.
  - destruct Hz as (-> & H0' & t & Ht & Hr). zfalse (z =? NULL). cbn [negb]. apply NoDup_cons in Hnd as [HzZ Hnd].
    wp_step. eapply wp_tlh_at; [exact Ht|]. wp_steps. eapply wp_update_tlh; [exact Ht|].
    unfold zombie_unlock. wp_steps. apply (HQ z t); [done|apply HW; by left|done|by state_eq| |apply HW; by left].
    intros s2 HT. exists Zs. split_and!; [|done|done|intros u Hu; apply HW; by right].
    eapply zombies_frame_in; [|exact Hr]. intros u r Hu Hur. exists r. rewrite HT; [done|]. by intros ->.
Qed.

Lemma tls_of_set me me' v s s' : tls_tlh_ptr s' = <[me := v]> (tls_tlh_ptr s) ->
  tls_of me' s' = if decide (me = me') then v else tls_of me' s.
Proof. unfold tls_of. intros ->. rewrite lookup_insert. by case_decide. Qed.

(** Thread [me] becomes the user of heap [o], which nobody uses. *)
Lemma registry_take s s' W me o :
  registry s W -> tls_tlh_ptr s' = <[me := o]> (tls_tlh_ptr s) -> g_zombie_lock s' = false ->
  is_Some (W !! o) -> (forall me', tls_of me' s <> o) ->
  (exists Zs, zombies s' (g_zombie_tlhs s') Zs /\ NoDup Zs /\ o ∉ Zs /\
     forall z, z ∈ Zs -> is_Some (W !! z) /\ forall me', tls_of me' s <> z) ->
  registry s' W.
Proof.
  intros [_ R2 R3 _] Et Hl Ho Hfree (Zs & Hz & Hnd & HoZ & HZ). pose proof (fun me' => tls_of_set me me' o s s' Et) as E.
  constructor; [done|..].
  - intros me'. rewrite E. case_decide; [by right|apply R2].
  - intros m1 m2. rewrite !E. repeat case_decide; subst; intros Heq; [by right| | |by apply R3].
    + by destruct (Hfree m2).
    + by destruct (Hfree m1).
  - exists Zs. split_and!; [done|done|]. intros z Hzs. split; [by apply HZ|]. intros me'. rewrite E.
    case_decide; [by intros ->|by apply HZ].
Qed.

(** A thread starts with a new heap at [a]: fresh pages, the heap record, and
    finally the thread's pointer to it. *)
Definition new_heap_state (s : state) (a : Z) (t : lz_tlh_t) (n : Z) : state :=
  set_g_thread_counter n (set_h_tlhs (<[a := t]> (h_tlhs s)) (mmap_state s a sizeof_tlh)).

Section new_heap.
Context (s : state) (W : gmap Z heap_ghost) (D : gmap Z direct_ghost) (G : list Z) (P : list (list Z)).
Context (a : Z) (t : lz_tlh_t) (n : Z).
Hypothesis Hw : world s W D G P.
Hypothesis Ha : sys_mmap (st_clock s) (st_mapped s) sizeof_tlh = Some a.
Hypothesis Eb : bins t = replicate 88 (mk_bin NULL NULL NULL).
Hypothesis Ea : active_spans t = NULL.
Hypothesis Er : remote_free_head t = NULL.
Hypothesis Ebt : outgoing_batch t = mk_batch NULL NULL NULL 0.
Hypothesis Hs : slot_ok s t.

Let s2 := new_heap_state s a t n.
Let W' := <[a := no_objects]> W.

Lemma new_heap_unmapped : mapped s a = false /\ 0 < a.
Proof.
  destruct (mmap_fresh _ _ _ _ Ha) as (_ & Hpos & _ & _ & Hfresh). split; [|done].
  pose proof (page_round_le sizeof_tlh). apply Hfresh. unfold sizeof_tlh in *. lia.
Qed.

Lemma new_heap_none : W !! a = None.
Proof.
  destruct new_heap_unmapped as [Hun _]. destruct (W !! a) as [w|] eqn:E; [|done].
  destruct (wd_record _ _ _ _ _ Hw a w E) as [_ Hm]. congruence.
Qed.

Lemma new_heap_ext : mem_ext s s2.
Proof. destruct (mmap_state_ext s a sizeof_tlh Ha). by constructor. Qed.

Lemma new_heap_record u w r : W !! u = Some w -> h_tlhs s !! u = Some r ->
  exists r', h_tlhs s2 !! u = Some r' /\ working r' = working r /\ slot_ok s2 r'.
Proof.
  intros Hu Hr. pose proof new_heap_none. exists r. cbn. rewrite lookup_insert_ne by congruence.
  split_and!; [done..|]. exact (wd_slot _ _ _ _ _ _ _ _ Hw Hu Hr).
Qed.

Lemma new_heap_zombies (Q : Z -> Prop) Zs :
  zombies s (g_zombie_tlhs s) Zs -> (forall z, z ∈ Zs -> is_Some (W !! z) /\ Q z) ->
  zombies s2 (g_zombie_tlhs s) Zs.
Proof.
  intros Hz HW. pose proof new_heap_none. eapply zombies_frame_in; [|exact Hz]. intros z r Hzz Hr. exists r. cbn.
  rewrite lookup_insert_ne; [done|]. intros <-. destruct (HW a Hzz) as [[w ?] _]. congruence.
Qed.

Lemma new_heap_frame :
  (matrix_ok s2 -> registry s2 W -> world s2 W D G P) /\
  (forall b m, in_use s2 W D b m <-> in_use s W D b m) /\
  (forall o w b m, W !! o = Some w -> hobject s2 w b m <-> hobject s w b m).
Proof.
  apply (grow_frame s s2 W D G P); try done; [apply new_heap_ext| |apply new_heap_record].
  eapply rtree_inv_ext; [apply Hw|done|apply new_heap_ext].
Qed.

Lemma new_heap_registry : registry s2 W.
Proof.
  destruct (wd_registry _ _ _ _ _ Hw) as [R1 R2 R2' (Zs & R3 & R4 & R5)].
  constructor; [exact R1|exact R2|exact R2'|]. exists Zs.
  assert (g_zombie_tlhs s2 = g_zombie_tlhs s) as -> by reflexivity.
  split; [exact (new_heap_zombies (fun z => forall me, tls_of me s <> z) Zs R3 R5)|]. split; [exact R4|exact R5].
Qed.

Lemma new_heap_mapped : mapped s2 a = true.
Proof.
  unfold mapped. change (st_mapped s2) with ((a, a + page_round sizeof_tlh) :: st_mapped s).
  assert (0 < sizeof_tlh) by done. pose proof (page_round_le sizeof_tlh) as Hle. cbn [in_ranges existsb].
  apply orb_true_iff. left. apply andb_true_iff. rewrite Z.leb_le, Z.ltb_lt. lia.
Qed.

Lemma new_heap_outside base v : D !! base = Some v -> a < base \/ base + dg_total v <= a.
Proof.
  intros Hb. destruct new_heap_unmapped as [Hun _]. pose proof (wd_direct _ _ _ _ _ Hw base v Hb) as Hok.
  destruct (decide (base <= a < base + dg_total v)) as [Hin|]; [|lia].
  apply (do_mapped _ _ _ _ (dk_object _ _ _ _ _ Hok)) in Hin. congruence.
Qed.

Lemma new_heap_lookup : h_tlhs s2 !! a = Some t.
Proof. apply lookup_insert_eq. Qed.

Lemma world_new_heap : world s2 W' D G P.
Proof.
  destruct new_heap_unmapped as [_ Hpos].
  apply (world_add s2 W D G P a t); [|exact new_heap_none|lia|exact new_heap_mapped|exact new_heap_lookup|
    exact Eb|exact Ea|exact Er|exact Ebt|exact Hs|exact new_heap_outside].
  exact (proj1 new_heap_frame (wd_matrix _ _ _ _ _ Hw) new_heap_registry).
Qed.

Lemma attached_new me : attached s W D G P me (set_tls_tlh_ptr (<[me := a]> (tls_tlh_ptr s)) s2) W'.
Proof.
  pose proof world_new_heap as Hw2. pose proof new_heap_none as Hn. set (s3 := set_tls_tlh_ptr _ s2).
  assert (is_Some (W' !! a)) as HWa by (unfold W'; by rewrite lookup_insert_eq).
  assert (h_tlhs s2 !! a = Some t) as Hat by (cbn; by rewrite lookup_insert_eq).
  assert (attached s2 W' D G P me s3 W') as [A1 A2 A3 A4 A5 A6].
  { apply (attached_intro s2 W' D G P me a t t); try done.
    - cbn. by rewrite insert_insert_eq.
    - unfold tls_of. cbn. by rewrite lookup_insert_eq.
    - pose proof (wd_registry _ _ _ _ _ Hw) as [R1 R2 R2' (Zs & R3 & R4 & R5)].
      assert (forall me', tls_of me' s <> a) as Hfree.
      { intros me' E0. destruct new_heap_unmapped as [_ Hpos].
        destruct (R2 me') as [E|[w E]]; rewrite E0 in E; [lia|congruence]. }
      apply (registry_take s2 s3 W' me a); [apply Hw2|done|done|done|done|]. exists Zs.
      split_and!; [|done| |].
      + assert (g_zombie_tlhs s3 = g_zombie_tlhs s) as -> by reflexivity.
        eapply zombies_frame_in; [|eapply new_heap_zombies; [exact R3|exact R5]]. eauto.
      + intros Hza. destruct (R5 a Hza) as [[w ?] _]. congruence.
      + intros z Hz. destruct (R5 z Hz) as [[w Hzw] ?]. split; [|done]. unfold W'.
        rewrite lookup_insert_ne; [by exists w|]. intros <-. congruence. }
  constructor; [done|done| | | |].
  - intros b m. rewrite A3. unfold W'. rewrite add_in_use by done. apply new_heap_frame.
  - by transitivity s2; [apply new_heap_ext|].
  - intros o w Ho. assert (W' !! o = Some w) as HW.
    { unfold W'. rewrite lookup_insert_ne; [done|]. intros <-. congruence. }
    destruct (A5 o w HW) as [Ho' Hob]. split; [done|]. intros b m. rewrite Hob.
    by apply (proj2 (proj2 new_heap_frame) o).
  - rewrite A6. done.
Qed.

End new_heap.


(** Attaching returns with a heap of the process in the thread's pointer, or
    traps because the kernel refuses the pages of one. *)
Lemma wpt_ensure_tls me W D G P Q s :
  world s W D G P ->
  (forall s' W', attached s W D G P me s' W' -> Q tt s') ->
  wpt (tlh_refused s) (ensure_tls_init me) Q s.
Proof.
  intros Hw HQ. pose proof (wd_registry _ _ _ _ _ Hw) as Hrg. unfold ensure_tls_init.
  apply wpt_bind, wpt_wp. wp_step. destruct (Z.eqb_spec (tls_of me s) NULL) as [E|E]; cbn [negb].
  2: { apply wpt_wp. wp_step. apply (HQ s W). constructor; try done. by destruct (rg_tls _ _ Hrg me). }
  apply wpt_bind, wpt_wp. eapply wp_resurrect; [exact Hw|..].
  - intros _. apply wpt_bind, wpt_wp. unfold set_tls. wp_step. change (NULL =? NULL) with true. cbn [negb].
    apply wpt_bind, wpt_bind, wpt_wp. apply wp_mmap. cbn [st_clock st_mapped set_tls_tlh_ptr].
    destruct (sys_mmap _ _ sizeof_tlh) as [a|] eqn:Ha; [|apply wpt_trap; by exists (st_clock s), []].
    apply wpt_wp. wp_steps. unfold next_thread_id. wp_steps. unfold lz_tlh_init.
    eapply wp_update_tlh; [cbn; by rewrite lookup_insert_eq|]. wp_step.
    eapply wp_update_tlh; [cbn; by rewrite lookup_insert_eq|]. wp_step.
    eapply wp_update_tlh; [cbn; by rewrite lookup_insert_eq|].
    wp_steps. apply wpt_wp. eapply wp_attach_statistics; [cbn; by rewrite lookup_insert_eq|apply Hw|].
    intros t' Ew _ Hs. injection Ew as E1 E2 E3 E4.
    pose proof (attached_new s W D G P a t' (u32 (g_thread_counter s + 1)) Hw Ha E1 E2 E3 E4 Hs me) as Hat.
    set (s9 := set_h_tlhs _ _).
    assert (s9 = set_tls_tlh_ptr (<[me := a]> (tls_tlh_ptr s))
      (new_heap_state s a t' (u32 (g_thread_counter s + 1)))) as ->; [|exact (HQ _ _ Hat)].
    state_eq; cbn; by rewrite ?insert_insert_eq.
  - intros z t s1 Hz HWz Ht -> Hzs Hfree. apply wpt_bind, wpt_wp. unfold set_tls. wp_step. zfalse (z =? NULL). cbn [negb].
    apply wpt_bind, wpt_wp. wp_step. eapply wp_update_tlh; [cbn; by rewrite lookup_insert_eq|].
    unfold next_thread_id. wp_steps. eapply wp_update_tlh; [cbn; by rewrite lookup_insert_eq|].
    wp_steps. apply wpt_wp. eapply wp_attach_statistics; [cbn; by rewrite lookup_insert_eq|apply Hw|].
    intros t' Ew _ Hs. set (s' := set_h_tlhs _ _). apply (HQ s' W).
    apply (attached_intro s W D G P me z t t'); try done.
    + cbn. by rewrite !insert_insert_eq.
    + unfold tls_of. cbn. by rewrite lookup_insert_eq.
    + apply (registry_take s s' W me z); [done|done|apply Hrg|done|done|]. apply Hzs. intros u Hu. cbn. by rewrite !lookup_insert_ne by done.
Qed.

End life.
