(* ===== verification/WorldDirect.v ===== *)
(** * Large objects, in the whole process

    Mapping and unmapping a large object seen from the invariant of the
    process: every other object keeps its place and its bytes. *)

From S2P Require Import Prelude Common Sizes Machine Wp Dll Testbed Security Rtree Vmm VmmSpec.
From S2P Require Import Provision Telemetry Span SpanSpec Slab Tlh SlabSpec BinSpec HeapSpec.
From S2P Require Import TlhSpec RemoteSpec Lzmalloc LzmallocSpec WorldSpec WorldSend WorldLife.

Section direct_world.
Context `{EnvLaws}.

(** A 2 MiB block of a fresh range belongs to no chunk that was there. *)
Lemma fresh_block s base total d :
  base mod 2 ^ 21 = 0 -> 0 < base -> base + total <= 2 ^ 47 -> total mod 2 ^ 21 = 0 -> 0 < total ->
  chunk_ok s d -> block_in base total (block_of d) -> base <= d < base + total.
Proof.
  intros Ha Hp Hl Ht Ht0 (Hd & Hdp & Hdl & _) Hb. unfold block_in, block_of in Hb.
  rewrite !Z.mod_small in Hb by (split; [apply Z.div_pos; lia|apply Z.div_lt_upper_bound; lia]).
  clear - Ha Ht Hd Hb. dlia.
Qed.

Section alloc.
Context (s : state) (W : gmap Z heap_ghost) (D : gmap Z direct_ghost) (G : list Z) (P : list (list Z)).
Context (off req size r : Z) (s' : state) (base total : Z).
Hypothesis Hw : world s W D G P.
Hypothesis Hp : direct_alloc_post s off req size r s' base total.
Hypothesis Hoff : 128 <= off /\ 0 < size /\ off + size <= total /\ off mod 16 = 0.

Let v := mk_dg total size off.
Let D' := <[base := v]> D.

Lemma alloc_fresh x : base <= x < base + total -> mapped s x = false.
Proof. intros Hx. by apply (da_fresh _ _ _ _ _ _ _ _ Hp). Qed.

Lemma alloc_none : D !! base = None.
Proof.
  destruct (D !! base) as [u|] eqn:E; [|done]. pose proof (wd_direct _ _ _ _ _ Hw base u E) as Hok.
  destruct (do_aligned _ _ _ _ (dk_object _ _ _ _ _ Hok)) as (_ & _ & ?).
  destruct (do_aligned _ _ _ _ (da_object _ _ _ _ _ _ _ _ Hp)) as (_ & _ & ?).
  assert (mapped s base = true) as Hm by (apply (do_mapped _ _ _ _ (dk_object _ _ _ _ _ Hok)); lia).
  rewrite alloc_fresh in Hm; [done|lia].
Qed.

Lemma alloc_chunk_apart d : chunk_ok s d -> ~ (base <= d < base + total).
Proof. intros Hd Hr. apply chunk_ok_self in Hd. rewrite alloc_fresh in Hd; done. Qed.

Lemma alloc_frame : world s' W D G P /\ forall a n, in_use s' W D a n <-> in_use s W D a n.
Proof.
  pose proof (da_ext _ _ _ _ _ _ _ _ Hp) as He. destruct (thread_global _ _ (da_thread _ _ _ _ _ _ _ _ Hp)) as (Eg & Eh & Est).
  destruct (da_object _ _ _ _ _ _ _ _ Hp) as [(Ha & Ht & Hpos) [Hr1 Hr2] _ _ _ _].
  destruct (grow_frame s s' W D G P) as (G1 & G2 & _); try done.
  - apply Hp.
  - apply Hp.
  - intros d Hd. apply (da_view _ _ _ _ _ _ _ _ Hp). intros Hb. eapply alloc_chunk_apart; [exact Hd|].
    by apply (fresh_block s).
  - by injection Eg.
  - intros o w t Ho Hto. exists t. rewrite Eh. split_and!; [done..|]. unfold slot_ok. rewrite Est. exact (wd_slot _ _ _ _ _ _ _ _ Hw Ho Hto).
  - split; [|done]. apply G1.
    + unfold matrix_ok. assert (g_telemetry_matrix s' = g_telemetry_matrix s) as -> by (by injection Eg).
      rewrite Est. apply Hw.
    + eapply registry_frame; [apply Hw|done| |done]. intros z t Hz. exists t. by rewrite Eh.
Qed.

(** Objects that were there keep their index entry. *)
Lemma direct_alloc_entry a n : in_use s W D a n -> rtree_view s' (block_of a) = rtree_view s (block_of a).
Proof.
  intros Ha. destruct (in_use_chunk _ _ _ _ _ _ _ Hw Ha) as (d & Hd & ->).
  destruct (da_object _ _ _ _ _ _ _ _ Hp) as [(? & ? & ?) [? ?] _ _ _ _].
  apply (da_view _ _ _ _ _ _ _ _ Hp). intros Hb. eapply alloc_chunk_apart; [exact Hd|]. by apply (fresh_block s).
Qed.

Lemma world_direct_alloc : world s' W D' G P.
Proof.
  destruct alloc_frame as [Hw' _]. pose proof (da_object _ _ _ _ _ _ _ _ Hp) as Hob.
  destruct (Hob) as [(Ha & Ht & Hpos) [Hr1 Hr2] _ _ _ _].
  assert (forall b u, D' !! b = Some u -> b = base /\ u = v \/ D !! b = Some u) as Hl.
  { intros b u. unfold D'. rewrite lookup_insert_Some. naive_solver. }
  assert (forall b u, D !! b = Some u -> base + total <= b \/ b + dg_total u <= base) as Hap.
  { intros b u Hb. pose proof (wd_direct _ _ _ _ _ Hw b u Hb) as Hok.
    destruct (do_aligned _ _ _ _ (dk_object _ _ _ _ _ Hok)) as (Hab & Htb & Hpb).
    destruct (decide (base + total <= b \/ b + dg_total u <= base)) as [|Hn]; [done|exfalso].
    set (x := Z.max base b). assert (mapped s x = true) as Hm.
    { apply (do_mapped _ _ _ _ (dk_object _ _ _ _ _ Hok)). lia. }
    rewrite alloc_fresh in Hm; [done|lia]. }
  constructor; try apply Hw'.
  - intros b u [[-> ->]|Hb]%Hl; [|by apply (wd_direct _ _ _ _ _ Hw')]. constructor; [done|exact Hoff| |].
    2: { intros c Hc. destruct (da_index _ _ _ _ _ _ _ _ Hp c Hc) as [?|[? Hl']]; [by left|right].
         split; [done|by eapply leaf_refused_since_now]. }
    intros d Hd _ Hin. apply (vi_chunks _ _ _ (wd_vmm _ _ _ _ _ Hw)) in Hin. by eapply alloc_chunk_apart.
  - intros b u b' u' [[-> ->]|Hb]%Hl [[-> ->]|Hb']%Hl Hne; [done|cbn|cbn|by eapply (wd_disjoint _ _ _ _ _ Hw)].
    + destruct (Hap b' u' Hb'); auto.
    + destruct (Hap b u Hb); auto.
  - intros b u o w [[-> ->]|Hb]%Hl Ho; [cbn|by eapply (wd_outside _ _ _ _ _ Hw)]. split.
    + destruct (wd_record _ _ _ _ _ Hw o w Ho) as [_ Hm].
      destruct (decide (base <= o < base + total)) as [Hin|]; [|lia]. by rewrite alloc_fresh in Hm.
    + intros d Hd. destruct (owned_chunk_ok _ _ _ _ _ _ _ (wd_core _ _ _ _ _ _ _ Hw Ho) Hd) as [Hok _].
      pose proof (alloc_chunk_apart d Hok). lia.
Qed.

Lemma direct_alloc_in_use a n :
  in_use s' W D' a n <-> in_use s W D a n \/ a = base + off /\ n = size.
Proof.
  destruct alloc_frame as [_ Hu]. rewrite <- Hu. pose proof alloc_none as Hn. unfold in_use, D'. split.
  - intros [?|(b & u & [[<- <-]|[_ Hb]]%lookup_insert_Some & -> & ->)]; [tauto|by right|left; right; eauto].
  - intros [[?|(b & u & Hb & -> & ->)]|[-> ->]]; [by left| |].
    + right. exists b, u. rewrite lookup_insert_ne by congruence. done.
    + right. exists base, v. by rewrite lookup_insert_eq.
Qed.

End alloc.

Section free.
Context (s : state) (W : gmap Z heap_ghost) (D : gmap Z direct_ghost) (G : list Z) (P : list (list Z)).
Context (base : Z) (v : direct_ghost) (s' : state).
Hypothesis Hw : world s W D G P.
Hypothesis Hb : D !! base = Some v.
Hypothesis Hp : direct_free_post s base (dg_total v) s'.

Let D' := delete base D.
Let Hok : direct_ok s G P base v := wd_direct _ _ _ _ _ Hw base v Hb.

Lemma free_lookup b u : D' !! b = Some u -> D !! b = Some u /\ b <> base.
Proof. unfold D'. intros [? ?]%lookup_delete_Some. done. Qed.

(** A chunk outside the object survives. *)
Lemma free_chunk d : chunk_ok s d -> d < base \/ base + dg_total v <= d ->
  chunk_same s s' d /\ chunk_ok s' d.
Proof.
  intros (Hda & Hdp & Hdl & Hm) Hout. destruct (dk_object _ _ _ _ _ Hok) as [(Ha & Ht & Hpos) [Hr1 Hr2] _ _ _ _].
  assert (d + 2 ^ 21 <= base \/ base + dg_total v <= d) as Hap.
  { destruct Hout as [Hlt|]; [left|by right]. clear - Hda Ha Hlt. dlia. }
  assert (forall x, d <= x < d + 2 ^ 21 -> mapped s' x = true /\ chunk_of s' x = chunk_of s x /\
    body_of s' x = body_of s x /\ h_bytes s' !! x = h_bytes s !! x) as Hx.
  { intros x Hx. apply (df_kept _ _ _ _ Hp); [auto|lia]. }
  split; [split_and!|split_and!; [done|done|done|]].
  - apply Hx. lia.
  - apply Hx. lia.
  - intros x Hxr. by apply Hx.
  - apply (df_view _ _ _ _ Hp). intros Hbl. apply (fresh_block s base) in Hbl; [lia|done..].
  - intros x Hxr. by apply Hx.
Qed.

Lemma free_in_world d : chunk_ok s d -> in_world W D' d -> d < base \/ base + dg_total v <= d.
Proof.
  intros Hd [(o & w & Ho & Hh)|(b & u & [Hu Hne]%free_lookup & Hr)].
  - by apply (wd_outside _ _ _ _ _ Hw base v o w).
  - destruct (wd_disjoint _ _ _ _ _ Hw _ _ _ _ Hb Hu); [done|lia..].
Qed.

Lemma free_frame : world s' W D' G P /\
  (forall a n, in_use s' W D' a n <-> in_use s W D' a n) /\
  (forall a n x, in_use s W D' a n -> a <= x < a + n -> h_bytes s' !! x = h_bytes s !! x) /\
  (forall a n, in_use s W D' a n -> rtree_view s' (block_of a) = rtree_view s (block_of a)).
Proof.
  destruct (thread_global _ _ (df_thread _ _ _ _ Hp)) as (Eg & Eh & Est).
  assert (D' ⊆ D) as Hsub by apply delete_subseteq.
  assert (vmm_inv s' G P) as Hv.
  { eapply vmm_inv_keep; [apply Hw|apply Hp|]. intros c Hc. pose proof (vi_chunks _ _ _ (wd_vmm _ _ _ _ _ Hw) c Hc) as Hco.
    destruct (free_chunk c Hco) as [(? & _) ?]; [|done].
    destruct (decide (base <= c < base + dg_total v)) as [Hin|]; [|lia]. exfalso.
    eapply (dk_out _ _ _ _ _ Hok c Hin); [apply Hco|done]. }
  assert (forall d, chunk_ok s d -> in_world W D' d -> chunk_same s s' d /\ chunk_ok s' d) as Hch.
  { intros d Hd Hi. apply free_chunk; [done|]. by apply free_in_world. }
  assert (forall o w, W !! o = Some w -> mapped s' o = true) as Hmr.
  { intros o w Ho. apply (df_kept _ _ _ _ Hp); [by eapply wd_record|]. exact (proj1 (wd_outside _ _ _ _ _ Hw base v o w Hb Ho)). }
  assert (forall b u x, D' !! b = Some u -> b <= x < b + dg_total u -> mapped s' x = true) as Hmd.
  { intros b u x [Hu Hne]%free_lookup Hx. apply (df_kept _ _ _ _ Hp).
    - by apply (do_mapped _ _ _ _ (dk_object _ _ _ _ _ (wd_direct _ _ _ _ _ Hw b u Hu))).
    - destruct (wd_disjoint _ _ _ _ _ Hw _ _ _ _ Hb Hu); [done|lia..]. }
  assert (forall o w t, W !! o = Some w -> h_tlhs s !! o = Some t ->
    exists t', h_tlhs s' !! o = Some t' /\ working t' = working t /\ slot_ok s' t') as Hrec.
  { intros o w t Ho Hto. exists t. rewrite Eh. split_and!; [done..|]. unfold slot_ok. rewrite Est. exact (wd_slot _ _ _ _ _ _ _ _ Hw Ho Hto). }
  assert (g_lz_global_secret s' = g_lz_global_secret s) as Ek by (by injection Eg).
  pose proof (df_grows _ _ _ _ Hp) as Hlg. pose proof (df_rtree _ _ _ _ Hp) as Hr. split_and!.
  - apply (world_frame s s' W D D' G G P P); try done.
    + unfold matrix_ok. assert (g_telemetry_matrix s' = g_telemetry_matrix s) as -> by (by injection Eg).
      rewrite Est. apply Hw.
    + eapply registry_frame; [apply Hw|done| |done]. intros z t Hz. exists t. by rewrite Eh.
  - intros a n. by apply (frame_in_use s s' W D D' G G P P).
  - intros a n x. by apply (frame_bytes s s' W D D' G G P P).
  - intros a n. by apply (frame_entry s s' W D D' G G P P).
Qed.

(** The object is gone; all others are as before. *)
Lemma direct_free_in_use a n : in_use s W D' a n <-> in_use s W D a n /\ a <> base + dg_off v.
Proof.
  pose proof (dk_place _ _ _ _ _ Hok) as Hpl. unfold in_use. split.
  - intros [(o & w & Ho & Ha & Hq)|(b & u & [Hu Hne]%free_lookup & -> & ->)].
    + split; [left; eauto|]. intros ->. destruct (hobject_in _ _ _ _ _ _ _ _ _ Hw Ho Ha) as (_ & _ & _ & ? & _).
      destruct (hobject_direct _ _ _ _ _ _ _ _ _ _ _ Hw Ho Hb Ha); lia.
    + split; [right; eauto|]. pose proof (dk_place _ _ _ _ _ (wd_direct _ _ _ _ _ Hw b u Hu)).
      destruct (wd_disjoint _ _ _ _ _ Hw _ _ _ _ Hb Hu); [done|lia..].
  - intros [[?|(b & u & Hu & -> & ->)] Hne]; [by left|right]. exists b, u. split; [|done].
    unfold D'. rewrite lookup_delete_ne; [done|]. intros <-. rewrite Hb in Hu. by injection Hu as <-.
Qed.

End free.

End direct_world.
