(* ===== verification/ApiSpec.v ===== *)
(** * The allocation API against the objects of the client

    Every entry point seen from the client of the process: which objects it
    adds or removes, that all others keep their place and their bytes, and
    what the returned memory holds. *)

From S2P Require Import Prelude Common Sizes Machine Wp Dll Testbed Security Rtree Vmm VmmSpec.
From S2P Require Import Provision Telemetry Span SpanSpec Slab Tlh SlabSpec BinSpec HeapSpec.
From S2P Require Import TlhSpec RemoteSpec Lzmalloc LzmallocSpec WorldSpec WorldSend WorldLife WorldDirect.

Section effects.
Context `{EnvLaws}.

(** The index has no entry for the chunk of [a]: the entry points cannot find
    the object. *)
Definition unindexed (s : state) (a : Z) : Prop := rtree_view s (block_of a) = NULL.

#[export] Instance unindexed_dec s a : Decision (unindexed s a).
Proof. unfold unindexed. apply _. Defined.

(** What a call does to the objects of the client: the dead ones go, the new
    ones come, the others keep their bytes and their index entry. *)
Record effect (s : state) (W : gmap Z heap_ghost) (D : gmap Z direct_ghost)
    (dead : Z -> Prop) (new : Z -> Z -> Prop)
    (s' : state) (W' : gmap Z heap_ghost) (D' : gmap Z direct_ghost) (G' : list Z) (P' : list (list Z))
    : Prop := {
  ef_world : world s' W' D' G' P';
  ef_in_use : forall a n, in_use s' W' D' a n <-> in_use s W D a n /\ ~ dead a \/ new a n;
  ef_bytes : forall a n x, in_use s W D a n -> ~ dead a -> a <= x < a + n ->
    h_bytes s' !! x = h_bytes s !! x;
  ef_fresh : forall a n m, new a n -> in_use s W D a m -> ~ dead a -> False;
  ef_entry : forall a n, in_use s W D a n -> ~ dead a -> unindexed s' a <-> unindexed s a;
  ef_log : log_grows s s'
}.

Lemma effect_refl s W D G P : world s W D G P -> effect s W D nothing nothing_new s W D G P.
Proof. intros Hw. constructor; [done| |done|by intros a n m []|done|done]. intros a n. unfold nothing, nothing_new. tauto. Qed.

Lemma effect_weaken s W D dead new dead' new' s' W' D' G' P' :
  effect s W D dead new s' W' D' G' P' ->
  (forall a n, in_use s W D a n -> dead' a <-> dead a) -> (forall a n, new' a n <-> new a n) ->
  effect s W D dead' new' s' W' D' G' P'.
Proof.
  intros [Hw Hu Hb Hf He Hl] Hd Hn. constructor; [done| | | | |done].
  - intros a n. rewrite Hu, Hn. split; (intros [[Ha Hx]|?]; [left|by right]); (split; [done|]);
      by rewrite (Hd a n Ha) in *.
  - intros a n x Ha Hx. apply (Hb a n); [done|]. by rewrite <- (Hd a n Ha).
  - intros a n m Ha%Hn Hm. rewrite (Hd a m Hm). eauto.
  - intros a n Ha. rewrite (Hd a n Ha). eauto.
Qed.

(** Work that changes nothing for the client, before a call. *)
Lemma effect_after s W D s1 W1 D1 G1 P1 dead new s' W' D' G' P' :
  effect s W D nothing nothing_new s1 W1 D1 G1 P1 -> effect s1 W1 D1 dead new s' W' D' G' P' ->
  effect s W D dead new s' W' D' G' P'.
Proof.
  intros [Hw1 Hu1 Hb1 _ He1 Hl1] [Hw2 Hu2 Hb2 Hf2 He2 Hl2].
  assert (forall a n, in_use s1 W1 D1 a n <-> in_use s W D a n) as Hu.
  { intros a n. rewrite Hu1. unfold nothing, nothing_new. tauto. }
  constructor; [done| | | | |by etrans].
  - intros a n. by rewrite Hu2, Hu.
  - intros a n x Ha Hd Hx. rewrite (Hb2 a n x); [|by apply Hu|done|done]. apply (Hb1 a n x); auto.
  - intros a n m Ha Hm%Hu. eauto.
  - intros a n Ha Hd. rewrite (He2 a n) by (done || by apply Hu). by apply (He1 a n).
Qed.

(** Two calls in a row. *)
Lemma effect_trans s W D dead1 new1 s1 W1 D1 G1 P1 dead2 new2 s' W' D' G' P' :
  effect s W D dead1 new1 s1 W1 D1 G1 P1 -> effect s1 W1 D1 dead2 new2 s' W' D' G' P' ->
  effect s W D (fun a => dead1 a \/ dead2 a) (fun a n => new1 a n /\ ~ dead2 a \/ new2 a n) s' W' D' G' P'.
Proof.
  intros [Hw1 Hu1 Hb1 Hf1 He1 Hl1] [Hw2 Hu2 Hb2 Hf2 He2 Hl2]. constructor; [done| | | | |by etrans].
  - intros a n. rewrite Hu2, Hu1. tauto.
  - intros a n x Ha Hd Hx. rewrite (Hb2 a n x); [|apply Hu1; tauto|tauto|done]. apply (Hb1 a n x); tauto.
  - intros a n m [[Ha _]|Ha] Hm Hd; [apply (Hf1 a n m); tauto|]. apply (Hf2 a n m Ha); [apply Hu1|]; tauto.
  - intros a n Ha Hd. rewrite (He2 a n); [|apply Hu1; tauto|tauto]. apply (He1 a n); tauto.
Qed.

(** A live object is not waiting in any queue. *)
Lemma in_use_unqueued s W D G P a n : world s W D G P -> in_use s W D a n -> ~ queued W a.
Proof.
  intros Hw [(o & w & _ & _ & Hq)|(base & v & Hb & -> & ->)] Hx; [done|].
  destruct (queued_object s W D G P Hw _ Hx) as (o & w & m & Ho & Hm).
  pose proof (dk_place _ _ _ _ _ (wd_direct _ _ _ _ _ Hw base v Hb)).
  destruct (hobject_in _ _ _ _ _ _ _ _ _ Hw Ho Hm) as (_ & _ & _ & ? & _).
  destruct (hobject_direct _ _ _ _ _ _ _ _ _ _ _ Hw Ho Hb Hm); lia.
Qed.

(** A step of one heap. *)
Lemma effect_step s W D G P tlh w dead new s' Γ' L' G' P' R' :
  world s W D G P -> W !! tlh = Some w ->
  tlh_step s tlh (hg_slabs w) (hg_spans w) G P dead new s' Γ' L' G' P' R' ->
  (forall a t v, dead a -> W !! t = Some v -> a ∉ hg_batch v) ->
  (forall a, a ∈ R' -> a ∈ hg_mail w /\ ~ dead a) -> (forall a, a ∈ hg_mail w -> dead a \/ a ∈ R') ->
  (forall a, dead a -> exists n, hobject s w a n) ->
  effect s W D dead new s' (<[tlh := mk_hg Γ' L' R' (hg_batch w)]> W) D G' P'.
Proof.
  intros Hw Ht Hst Hd HR Hg Ho. constructor.
  - eapply world_step; [done..|]. intros a Ha. by apply HR.
  - intros a n. eapply (step_in_use s W D G P); [done..| | | |done]; intros; try by apply HR. auto.
  - intros a n x Ha. by eapply (step_bytes s W D G P).
  - eapply (step_fresh s W D G P); [done..|]. intros a Ha. by apply HR.
  - intros a n Ha Hda. unfold unindexed. by rewrite (step_entry s W D G P tlh w dead new s' Γ' L' G' P' R' Hw Ht Hst a n).
  - apply Hst.
Qed.

(** Objects that are queued for another heap. *)
Lemma effect_sent s W D G P (new : Z -> Prop) s' W' :
  world s W D G P -> (forall y, new y -> exists o w k, W !! o = Some w /\ hobject s w y k) ->
  sent s W D G P new s' W' -> effect s W D new nothing_new s' W' D G P.
Proof.
  intros Hw Hnew [Hw' Es Hh Hq Hb Hd]. constructor; [done| | |by intros a n m []| |].
  - intros a n. rewrite (in_use_queue s s' W W' D G P new a n) by done. unfold nothing_new. tauto.
  - intros a n y [(o & w & Ho & Ha & Hna)|(base & v & Hbv & -> & ->)] Hne Hy.
    + eapply (Hb a n); [done|done| |done]. rewrite Hq. tauto.
    + eapply (Hd base v); [done|]. pose proof (dk_place _ _ _ _ _ (wd_direct _ _ _ _ _ Hw base v Hbv)). lia.
  - intros a n _ _. unfold unindexed. by rewrite (rtree_view_eq s s') by by rewrite Es.
  - apply log_grows_same. by rewrite Es.
Qed.

Lemma effect_attached s W D G P me s' W' : world s W D G P ->
  attached s W D G P me s' W' -> effect s W D nothing nothing_new s' W' D G P.
Proof.
  intros Hw [Hw' _ Hu He _ Hi]. constructor; [done| | |by intros a n m []| |apply He].
  - intros a n. rewrite Hu. unfold nothing, nothing_new. tauto.
  - intros a n x Ha _ Hx. apply He. by eapply in_use_mapped.
  - intros a n _ _. unfold unindexed. by rewrite (rtree_view_eq s s').
Qed.

(** A write of the client into one of its objects. *)
Lemma effect_write s W D G P a n m :
  world s W D G P -> in_use s W D a n -> (forall x, ~ (a <= x < a + n) -> m !! x = h_bytes s !! x) ->
  world (set_h_bytes m s) W D G P /\
  (forall b k, in_use (set_h_bytes m s) W D b k <-> in_use s W D b k) /\
  (forall b k x, in_use s W D b k -> b <> a -> b <= x < b + k -> m !! x = h_bytes s !! x).
Proof.
  intros Hw Ha Hm. split_and!; [by eapply world_write|done|]. intros b k x Hb Hne Hx. apply Hm.
  destruct (in_use_disjoint _ _ _ _ _ _ _ _ _ Hw Ha Hb) as [[-> _]|?]; [done|lia].
Qed.

(** Objects of the client are aligned and not empty. *)
Lemma in_use_range s W D G P a n : world s W D G P -> in_use s W D a n ->
  0 < a < 2 ^ 47 /\ 0 < n /\ a mod 16 = 0.
Proof.
  intros Hw [(o & w & Ho & Ha & _)|(base & v & Hb & -> & ->)].
  - destruct (hobject_in _ _ _ _ _ _ _ _ _ Hw Ho Ha) as (d & _ & (_ & ? & ? & _) & ? & ? & ?).
    destruct (object_aligned _ _ _ _ _ _ _ _ (wd_core _ _ _ _ _ _ _ Hw Ho) Ha). lia.
  - pose proof (wd_direct _ _ _ _ _ Hw base v Hb) as Hok. pose proof (dk_place _ _ _ _ _ Hok) as (? & ? & ? & Hm).
    destruct (dk_object _ _ _ _ _ Hok) as [(Hal & ? & ?) [? ?] _ _ _ _]. split_and!; [lia..|].
    clear - Hal Hm. dlia.
Qed.

(** ** Allocation *)

(** At most one new object, of [n] bytes at [r]. *)
Definition fresh_at (r n : Z) (a m : Z) : Prop := r <> NULL /\ a = r /\ m = n.

Lemma effect_alloc s W D G P tlh w n r s' :
  world s W D G P -> W !! tlh = Some w ->
  alloc_result s tlh (hg_slabs w) (hg_spans w) G P (hg_mail w) n r s' ->
  (exists W' G' P', effect s W D nothing (fresh_at r n) s' W' D G' P') /\ (r = NULL -> refused_since s s').
Proof.
  intros Hw Ht (R0 & Γ' & L' & G' & P' & R' & HR & Hst & Hnull). split; [|done].
  assert (forall a, a ∈ R0 -> a ∈ hg_mail w) as H0'.
  { destruct HR as [[-> _]|[-> _]]; [intros a Ha; by apply not_elem_of_nil in Ha|done]. }
  exists (<[tlh := mk_hg Γ' L' R' (hg_batch w)]> W), G', P'.
  eapply effect_weaken; [eapply (effect_step s W D G P tlh w (fun a => a ∈ R0)); [done|done|exact Hst|..]| |done].
  - intros a t v Ha Hv Hav. by eapply (proj1 (wd_apart _ _ _ _ _ Hw t v a Hv Hav) tlh w), H0'.
  - intros a Ha. destruct HR as [[-> ->]|[-> ->]]; [|by apply not_elem_of_nil in Ha].
    split; [done|apply not_elem_of_nil].
  - intros a Ha. destruct HR as [[-> ->]|[-> ->]]; auto.
  - intros a Ha. by apply (pe_object _ _ _ _ (mh_pending _ _ _ _ _ _ _ (wd_heap _ _ _ _ _ Hw tlh w Ht)) a), H0'.
  - intros a m Ha. unfold nothing. split; [done|]. intros Hx.
    eapply (in_use_unqueued _ _ _ _ _ _ _ Hw Ha). exists tlh, w. auto.
Qed.

(** Work on the heap of the calling thread. *)
Lemma wpt_with_heap {A} me (body : Z -> M A) W D G P Q s :
  world s W D G P ->
  (forall s1 W1 tlh w, effect s W D nothing nothing_new s1 W1 D G P -> attached s W D G P me s1 W1 ->
     W1 !! tlh = Some w -> wpt (tlh_refused s) (body tlh) Q s1) ->
  wpt (tlh_refused s) (ensure_tls_init me;; tls ← fetch (tls_of me); body tls) Q s.
Proof.
  intros Hw HQ. apply wpt_bind. eapply wpt_ensure_tls; [exact Hw|]. intros s1 W1 Hat.
  apply wpt_bind, wpt_wp. wp_step. destruct (at_tls _ _ _ _ _ _ _ _ Hat) as [w Ht].
  eapply HQ; [by eapply effect_attached|exact Hat|exact Ht].
Qed.

(** Bookkeeping that leaves the memory of all objects alone. *)
Lemma effect_grow s s' W D G P :
  world s W D G P -> mem_ext s s' -> vmm_part s' = vmm_part s -> rtree_part s' = rtree_part s ->
  g_lz_global_secret s' = g_lz_global_secret s ->
  (forall o w t, W !! o = Some w -> h_tlhs s !! o = Some t ->
     exists t', h_tlhs s' !! o = Some t' /\ working t' = working t /\ slot_ok s' t') ->
  matrix_ok s' -> registry s' W -> effect s W D nothing nothing_new s' W D G P.
Proof.
  intros Hw He Ev Er Ek Ht Hm Hrg. destruct (grow_frame s s' W D G P) as (G1 & G2 & _); try done.
  - eapply rtree_inv_ext; [apply Hw|done|apply He].
  - intros d _. by apply rtree_view_eq.
  - constructor; [auto| | |by intros a n m []| |apply He].
    + intros a n. rewrite G2. unfold nothing, nothing_new. tauto.
    + intros a n x Ha _ Hx. apply He. by eapply in_use_mapped.
    + intros a n _ _. unfold unindexed. by rewrite (rtree_view_eq s s').
Qed.

(** A call of the kernel that fails. *)
Lemma effect_failed s W D G P len :
  world s W D G P -> effect s W D nothing nothing_new (mmap_failed s len) W D G P.
Proof.
  intros Hw. apply effect_grow; try done; [apply mmap_failed_ext| |apply Hw|eapply registry_frame; [apply Hw|done|eauto|done]].
  intros o w t Ho Ht. exists t. split_and!; [done..|]. exact (wd_slot _ _ _ _ _ _ _ _ Hw Ho Ht).
Qed.

(** The direct path. *)
Lemma wp_world_direct off size W D G P Q s :
  world s W D G P -> 128 <= off <= 2 ^ 21 -> off mod 16 = 0 -> 0 < size <= 2 ^ 46 ->
  (forall s', effect s W D nothing (fresh_at NULL size) s' W D G P -> refused_since s s' -> Q NULL s') ->
  (forall r s' D', effect s W D nothing (fresh_at r size) s' W D' G P -> 0 < r ->
     (exists base, base mod 2 ^ 21 = 0 /\ r = base + off) ->
     (forall x, r <= x < r + size -> byte_of s' x = 0) -> Q r s') ->
  wp (alloc_direct off size) Q s.
Proof.
  intros Hw Ho Ho16 Hs Hno HQ.
  apply (wp_alloc_direct _ _ (off + size)); [apply Hw|lia|by rewrite u64_small by lia|lia|].
  destruct (direct_answer s (off + size)).
  2: { apply Hno; [|apply mmap_failed_since]. eapply effect_weaken; [by eapply effect_failed|done|].
       intros a n. unfold fresh_at, nothing_new. tauto. }
  - set (total := LZ_ALIGN_UP _ _). clearbody total. intros r s' base Hp. pose proof (da_total _ _ _ _ _ _ _ _ Hp) as Ht.
    pose proof (da_object _ _ _ _ _ _ _ _ Hp) as Hob. destruct (do_aligned _ _ _ _ Hob) as (Hal & _ & _).
    destruct (do_range _ _ _ _ Hob) as [Hr1 Hr2]. pose proof (da_ptr _ _ _ _ _ _ _ _ Hp) as Er.
    assert (128 <= off /\ 0 < size /\ off + size <= total /\ off mod 16 = 0) as Hpl by (split_and!; lia).
    eapply (HQ r s' (<[base := mk_dg total size off]> D)); [|lia|by exists base|].
    + constructor; [by eapply world_direct_alloc| | | | |apply Hp].
      * intros a n. rewrite (direct_alloc_in_use s W D G P off (off + size) size r s' base total) by done.
        unfold nothing, fresh_at. rewrite Er. split; [intros [?|[-> ->]]; [tauto|right; split_and!; [lia|done..]]|tauto].
      * intros a n x Ha _ Hx. apply (da_ext _ _ _ _ _ _ _ _ Hp). by eapply in_use_mapped.
      * intros a n m (_ & -> & _) Ha _. destruct (in_use_range _ _ _ _ _ _ _ Hw Ha) as (_ & ? & _).
        assert (mapped s r = true) as Hm by (eapply in_use_mapped; [exact Hw|exact Ha|lia]).
        destruct (da_fresh _ _ _ _ _ _ _ _ Hp r) as [Hf _]; [lia|congruence].
      * intros a n Ha _. unfold unindexed. by rewrite (direct_alloc_entry s W D G P off (off + size) size r s' base total Hw Hp a n).
    + intros x Hx. apply (da_fresh _ _ _ _ _ _ _ _ Hp). lia.
Qed.

(** What malloc promises: one new object, large enough, or none when the
    kernel refused memory; a directly mapped one reads as zeroes. *)
Definition malloc_post s W D (size : Z) (r : Z) (s' : state) : Prop :=
  exists n W' D' G' P', size <= n /\ effect s W D nothing (fresh_at r n) s' W' D' G' P' /\
    (r = NULL -> refused_since s s') /\
    (1048576 < size -> r <> NULL -> forall x, r <= x < r + size -> byte_of s' x = 0).

Lemma wpt_malloc me size W D G P s :
  world s W D G P -> 0 <= size <= 2 ^ 46 ->
  wpt (tlh_refused s) (lz_malloc me size) (malloc_post s W D (Z.max 1 size)) s.
Proof.
  intros Hw Hs. unfold lz_malloc.
  replace (if size =? 0 then 1 else size) with (Z.max 1 size) by (destruct (Z.eqb_spec size 0); lia).
  assert (1 <= Z.max 1 size <= 2 ^ 46) as Hs' by lia. set (sz := Z.max 1 size) in *. clearbody sz. clear size Hs.
  assert (forall n r s1 W1 tlh w s', effect s W D nothing nothing_new s1 W1 D G P -> W1 !! tlh = Some w ->
    alloc_result s1 tlh (hg_slabs w) (hg_spans w) G P (hg_mail w) n r s' -> sz <= 1048576 -> sz <= n ->
    malloc_post s W D sz r s') as Hpost.
  { intros n r s1 W1 tlh w s' He Ht Hr Hsz Hn.
    destruct (effect_alloc _ _ _ _ _ _ _ _ _ _ (ef_world _ _ _ _ _ _ _ _ _ _ He) Ht Hr) as [(W' & G' & P' & He') Hnull].
    exists n, W', D, G', P'. split_and!; [done|by eapply effect_after| |lia].
    intros E. eapply refused_since_after; [apply He|auto]. }
  unfold LZ_MAX_SLAB_OBJ_SIZE. destruct (Z.leb_spec sz 32768); [|destruct (Z.leb_spec sz 1048576)].
  - eapply wpt_with_heap; [exact Hw|]. intros s1 W1 tlh w He _ Ht. apply wpt_wp.
    eapply wp_tlh_alloc; [by eapply wd_heap; [apply He|]|lia|]. intros n r s' Hn Hr. eapply Hpost; try done; lia.
  - eapply wpt_with_heap; [exact Hw|]. intros s1 W1 tlh w He _ Ht. apply wpt_wp.
    eapply wp_tlh_span_alloc; [by eapply wd_heap; [apply He|]|lia|]. intros r s' _ Hr.
    eapply Hpost; try done; unfold pages_for; dlia.
  - apply wpt_wp. eapply wp_world_direct; [exact Hw|lia|done|lia|..].
    + intros s' He Hnull. exists sz, W, D, G, P. split_and!; [lia|done|done|done].
    + intros r s' D' He Hr _ Hz. exists sz, W, D', G, P. split_and!; [lia|done|lia|auto].
Qed.

(** ** Finding an object *)

(** The index entry of an address: the header of its chunk, unless the page of
    the leaf was refused when the chunk was registered. *)
Lemma object_view s W D G P o w a n :
  world s W D G P -> W !! o = Some w -> hobject s w a n ->
  rtree_view s (block_of a) = a .& chunk_mask \/ unindexed s a /\ leaf_refused s.
Proof.
  intros Hw Ho Ha. unfold unindexed. destruct (hobject_in _ _ _ _ _ _ _ _ _ Hw Ho Ha) as (d & Hd & (Hal & Hp & Hl & _) & ? & ? & ?).
  rewrite <- (block_of_mask a) by lia. rewrite (chunk_mask_in d) by (done || lia).
  by eapply (wd_index _ _ _ _ _ Hw o w).
Qed.

Lemma block_in_range base total x :
  base mod 2 ^ 21 = 0 -> 0 < base -> base + total <= 2 ^ 47 -> total mod 2 ^ 21 = 0 ->
  base <= x < base + total -> block_in base total (block_of x).
Proof.
  intros Ha Hp Hl Ht Hx. unfold block_in, block_of.
  rewrite !Z.mod_small by (split; [apply Z.div_pos; lia|apply Z.div_lt_upper_bound; lia]).
  clear - Ha Ht Hx. dlia.
Qed.

Lemma direct_view s W D G P base v x :
  world s W D G P -> D !! base = Some v -> base <= x < base + dg_total v ->
  rtree_view s (block_of x) = base \/ unindexed s x /\ leaf_refused s.
Proof.
  intros Hw Hb Hx. pose proof (wd_direct _ _ _ _ _ Hw base v Hb) as Hok. apply (dk_index _ _ _ _ _ Hok).
  destruct (dk_object _ _ _ _ _ Hok) as [(? & ? & ?) [? ?] _ _ _ _]. by apply block_in_range.
Qed.

(** An object that cannot be found lies in a chunk whose registration was
    refused a leaf earlier in the run. *)
Lemma unindexed_refused s W D G P a n : world s W D G P -> in_use s W D a n -> unindexed s a -> leaf_refused s.
Proof.
  intros Hw [(o & w & Ho & Ha & _)|(base & v & Hb & -> & ->)] Hn.
  - destruct (object_view _ _ _ _ _ _ _ _ _ Hw Ho Ha) as [E|[_ ?]]; [|done].
    destruct (hobject_in _ _ _ _ _ _ _ _ _ Hw Ho Ha) as (d & _ & (Hal & Hp & Hl & _) & ? & ? & ?).
    rewrite (chunk_mask_in d) in E by (done || lia). unfold unindexed in Hn. lia.
  - pose proof (wd_direct _ _ _ _ _ Hw base v Hb) as Hok. pose proof (dk_place _ _ _ _ _ Hok) as Hpl.
    destruct (direct_view s W D G P base v (base + dg_off v)) as [E|[_ ?]]; [done|done|lia| |done].
    destruct (do_range _ _ _ _ (dk_object _ _ _ _ _ Hok)). unfold unindexed in Hn. lia.
Qed.

(** ** Release *)

(** A free by heap [t] of an object of heap [o]. *)
Lemma wp_world_free t u o w a n W D G P Q s :
  world s W D G P -> W !! t = Some u -> W !! o = Some w -> hobject s w a n -> ~ queued W a ->
  (forall s' W' G' P', effect s W D (fun y => y = a) nothing_new s' W' D G' P' -> Q tt s') ->
  wp (lz_tlh_free t a) Q s.
Proof.
  intros Hw Ht Ho Ha Hq HQ. destruct (decide (t = o)) as [->|Hne].
  - rewrite Ht in Ho. injection Ho as ->. pose proof (wd_heap _ _ _ _ _ Hw o w Ht) as Hmh.
    eapply wp_tlh_free_local; [apply Hmh|exact Ha|]. intros s' Γ' L' G' P' Hst. eapply HQ.
    eapply (effect_step s W D G P o w); [done|done|..].
    + eapply tlh_step_keep; [done..|]. intros x Hx ->. apply Hq. exists o, w. auto.
    + intros x t v -> Hv Hx. apply Hq. exists t, v. auto.
    + intros x Hx. split; [done|]. intros ->. apply Hq. exists o, w. auto.
    + auto.
    + intros x ->. eauto.
  - destruct (object_header _ _ _ _ _ _ _ _ (wd_core _ _ _ _ _ _ _ Hw Ho) Ha) as (_ & Hmd & Hr & Hmg & How & _).
    unfold lz_tlh_free. zfalse (a =? NULL). wp_step. apply wp_chunk_at; [done|].
    rewrite Hmg, Z.eqb_refl. cbn [negb]. unfold tlh_free_in. wp_step. apply wp_chunk_at; [done|].
    rewrite How. rewrite (proj2 (Z.eqb_neq o t)) by congruence.
    eapply wp_world_remote; [exact Hw|exact Ht|exact Ho|done|exact Ha|done|].
    intros s' W' Hs'. eapply HQ. eapply effect_sent; [done| |done]. intros y ->. eauto.
Qed.

(** What free promises: the object is gone, or nothing happens when the index
    has no entry for it. *)
Definition free_post s W D (a : Z) (s' : state) : Prop :=
  if decide (unindexed s a) then s' = s
  else exists W' D' G' P', effect s W D (fun y => y = a) nothing_new s' W' D' G' P'.

Lemma wpt_free me a n W D G P s :
  world s W D G P -> in_use s W D a n ->
  wpt (tlh_refused s) (lz_free me a) (fun _ s' => free_post s W D a s') s.
Proof.
  intros Hw Hu. destruct (in_use_range _ _ _ _ _ _ _ Hw Hu) as (Hr & _ & _).
  unfold lz_free. zfalse (a =? NULL). apply wpt_bind, wpt_wp, wp_find_chunk; [apply Hw|lia|].
  unfold free_post. case_decide as Hn; [unfold unindexed in Hn; by rewrite Hn|].
  destruct Hu as [(o & w & Ho & Ha & Hq)|(base & v & Hb & Ea & En)].
  - destruct (object_view _ _ _ _ _ _ _ _ _ Hw Ho Ha) as [->|[? _]]; [|done].
    destruct (object_header _ _ _ _ _ _ _ _ (wd_core _ _ _ _ _ _ _ Hw Ho) Ha) as (_ & Hmd & _ & Hmg & _ & Hty).
    destruct (hobject_in _ _ _ _ _ _ _ _ _ Hw Ho Ha) as (d & _ & (Hal & Hp & Hl & _) & ? & ? & ?).
    assert (a .& chunk_mask =? NULL = false) as ->.
    { apply Z.eqb_neq. rewrite (chunk_mask_in d) by (done || lia). lia. }
    apply wpt_bind, wpt_wp, wp_chunk_at; [done|]. rewrite Hmg, Z.eqb_refl. cbn [negb].
    assert (chunk_type (chunk_of s (a .& chunk_mask)) =? LZ_CHUNK_TYPE_DIRECT = false) as ->.
    { by destruct Hty as [[-> _]|[-> _]]. }
    eapply wpt_with_heap; [exact Hw|]. intros s1 W1 t u He Hat Ht. apply wpt_wp.
    destruct (at_heaps _ _ _ _ _ _ _ _ Hat o w Ho) as [Ho1 Hob1].
    eapply wp_world_free; [apply He|exact Ht|exact Ho1|by apply Hob1| |].
    + eapply in_use_unqueued; [apply He|]. apply (at_in_use _ _ _ _ _ _ _ _ Hat). left. eauto.
    + intros s' W' G' P' He'. exists W', D, G', P'. by eapply effect_after.
  - pose proof (wd_direct _ _ _ _ _ Hw base v Hb) as Hok. pose proof (dk_place _ _ _ _ _ Hok) as Hpl.
    destruct (direct_view s W D G P base v a) as [->|[? _]]; [done|done|lia| |done].
    pose proof (dk_object _ _ _ _ _ Hok) as Hob. destruct (do_range _ _ _ _ Hob) as [Hb0 _].
    destruct (do_header _ _ _ _ Hob) as (Hmg & Hty & _). zfalse (base =? NULL).
    apply wpt_bind, wpt_wp, wp_chunk_at; [apply (do_mapped _ _ _ _ Hob); lia|].
    rewrite Hmg, Hty, Z.eqb_refl. cbn [negb]. rewrite Z.eqb_refl. apply wpt_wp.
    eapply wp_free_direct; [apply Hw|exact Hob|]. intros s' Hf.
    destruct (free_frame s W D G P base v s' Hw Hb Hf) as (Hw' & Hu' & Hb' & Hv').
    exists W, (delete base D), G, P. constructor; [done| | |by intros ? ? ? []| |apply Hf].
    + intros x m. rewrite Hu', (direct_free_in_use s W D G P base v) by done. unfold nothing_new. rewrite Ea. tauto.
    + intros x m y Hx Hne Hy. apply (Hb' x m); [|done].
      apply (direct_free_in_use s W D G P base v); [done..|]. split; [done|]. by rewrite <- Ea.
    + intros x m Hx Hne. unfold unindexed. rewrite (Hv' x m); [done|].
      apply (direct_free_in_use s W D G P base v); [done..|]. split; [done|]. by rewrite <- Ea.
Qed.

(** ** Usable size *)

Lemma wp_usable_size a n W D G P Q s :
  world s W D G P -> in_use s W D a n ->
  Q (if decide (unindexed s a) then 0 else n) s -> wp (lz_malloc_usable_size a) Q s.
Proof.
  intros Hw Hu HQ. destruct (in_use_range _ _ _ _ _ _ _ Hw Hu) as (Hr & _ & _).
  unfold lz_malloc_usable_size, LZ_CACHE_LINE_SIZE. zfalse (a =? NULL). wp_step. apply wp_find_chunk; [apply Hw|lia|].
  case_decide as Hn; [unfold unindexed in Hn; by rewrite Hn|].
  destruct Hu as [(o & w & Ho & Ha & _)|(base & v & Hb & Ea & En)].
  - destruct (object_view _ _ _ _ _ _ _ _ _ Hw Ho Ha) as [Ev|[? _]]; [rewrite Ev|done].
    pose proof (wd_core _ _ _ _ _ _ _ Hw Ho) as Hc.
    destruct (object_header _ _ _ _ _ _ _ _ Hc Ha) as (_ & Hmd & _ & Hmg & _ & Hty).
    destruct (hobject_in _ _ _ _ _ _ _ _ _ Hw Ho Ha) as (d & _ & (Hal & Hp & Hl & Hm) & ? & ? & ?).
    rewrite (chunk_mask_in d) in * by (done || lia). zfalse (d =? NULL). wp_step. apply wp_chunk_at; [done|].
    rewrite Hmg, Z.eqb_refl. cbn [negb]. destruct Hty as [[-> (g & k & Hg & _)]|[-> (Hin & _ & sp & i & m & Hsp & Hrun & Eai)]].
    + change (LZ_CHUNK_TYPE_SLAB =? LZ_CHUNK_TYPE_DIRECT) with false. change (LZ_CHUNK_TYPE_SLAB =? LZ_CHUNK_TYPE_SLAB) with true.
      destruct (slab_object_in _ _ _ _ _ _ _ _ _ _ Hc Hg Ha) as (k' & _ & _ & ->); [lia|].
      destruct (sb_body _ _ _ _ (hc_slab _ _ _ _ _ _ Hc _ _ Hg)) as (sl & Hsl & Hrep).
      wp_step. eapply wp_slab_at; [apply Hm; lia|exact Hsl|]. wp_step. by rewrite (sr_size _ _ _ Hrep).
    + change (LZ_CHUNK_TYPE_SPAN =? LZ_CHUNK_TYPE_DIRECT) with false. change (LZ_CHUNK_TYPE_SPAN =? LZ_CHUNK_TYPE_SLAB) with false.
      change (LZ_CHUNK_TYPE_SPAN =? LZ_CHUNK_TYPE_SPAN) with true. cbv zeta.
      destruct (span_object_in _ _ _ _ _ _ _ _ _ _ Hc Hin Hsp Ha) as (i' & m' & (Hi0 & Hi' & _) & Ea' & ->); [lia|].
      destruct (start_page_in d a) as [-> _]; [lia|]. assert ((a - d) / 4096 = i') as -> by (rewrite Ea'; clear; dlia).
      unfold load_alloc_size. wp_step. wp_step. eapply wp_span_at; [apply Hm; lia|exact Hsp|]. rewrite Hi'.
      ztrue (0 <=? i'). wp_steps. exact HQ.
  - pose proof (wd_direct _ _ _ _ _ Hw base v Hb) as Hok. pose proof (dk_place _ _ _ _ _ Hok) as Hpl.
    destruct (direct_view s W D G P base v a) as [Ev|[? _]]; [done|done|lia| |done]. rewrite Ev.
    pose proof (dk_object _ _ _ _ _ Hok) as Hob. destruct (do_range _ _ _ _ Hob) as [Hb0 _].
    destruct (do_header _ _ _ _ Hob) as (Hmg & Hty & _). zfalse (base =? NULL).
    wp_step. apply wp_chunk_at; [apply (do_mapped _ _ _ _ Hob); lia|].
    rewrite Hmg, Hty, Z.eqb_refl. cbn [negb]. rewrite Z.eqb_refl. wp_step.
    eapply wp_direct_at; [apply (do_mapped _ _ _ _ Hob); lia|apply Hob|]. wp_step. by rewrite <- En.
Qed.

(** ** Bulk writes *)

Lemma copy_bytes_lookup m dst src n x :
  copy_bytes m dst src n !! x =
  if (dst <=? x) && (x <? dst + n) then m !! (x - (dst - src)) else m !! x.
Proof.
  unfold copy_bytes. rewrite lookup_union, clear_range_lookup.
  set (f := fun a => a + (dst - src)). assert (Inj eq eq f) by (intros y z; unfold f; lia).
  replace x with (f (x - (dst - src))) at 1 by (unfold f; lia). rewrite lookup_kmap, map_lookup_filter by done.
  destruct ((dst <=? x) && (x <? dst + n)) eqn:E.
  - destruct (m !! (x - (dst - src))) as [y|]; cbn; [|done]. rewrite option_guard_True by (cbn; lia). done.
  - destruct (m !! (x - (dst - src))) as [y|]; cbn; [rewrite option_guard_False by (cbn; lia)|]; by destruct (m !! x).
Qed.

(** The new object of a call is filled in: the client sees the same objects,
    and only the bytes of the new one differ. *)
Lemma effect_fill s W D r n s1 W1 D1 G1 P1 m :
  effect s W D nothing (fresh_at r n) s1 W1 D1 G1 P1 -> r <> NULL ->
  (forall x, ~ (r <= x < r + n) -> m !! x = h_bytes s1 !! x) ->
  effect s W D nothing (fresh_at r n) (set_h_bytes m s1) W1 D1 G1 P1.
Proof.
  intros [Hw Hu Hb Hf He Hl] Hr Hm. assert (in_use s1 W1 D1 r n) as Hrn by (apply Hu; right; done).
  constructor; [by eapply world_write|exact Hu| |exact Hf|exact He|exact Hl].
  intros a k x Ha Hd Hx. rewrite <- (Hb a k x Ha Hd Hx). apply Hm. intros Hrx.
  assert (in_use s1 W1 D1 a k) as Ha' by (apply Hu; left; done).
  destruct (in_use_disjoint _ _ _ _ _ _ _ _ _ Hw Hrn Ha') as [[-> _]|?]; [|lia].
  by eapply (Hf a n k).
Qed.

(** The gaps that remain are the bytes in no range. *)
Lemma uncovered_spec rs lo hi :
  (forall x, in_ranges (uncovered rs lo hi) x = (lo <=? x) && (x <? hi) && negb (in_ranges rs x)) /\
  forall r, r ∈ uncovered rs lo hi -> r.1 < r.2.
Proof.
  induction rs as [|[l h] rs [IH1 IH2]].
  - cbn [uncovered foldr]. destruct (Z.ltb_spec lo hi); (split; [intros x; cbn; lia|]); intros r Hr.
    + apply list_elem_of_singleton in Hr as ->. done.
    + by apply not_elem_of_nil in Hr.
  - change (uncovered ((l, h) :: rs) lo hi) with (uncovered rs lo hi ≫= cut_range l h). split.
    + intros x. rewrite in_ranges_cut, IH1. unfold in_ranges. cbn [existsb].
      destruct (existsb _ rs), ((lo <=? x) && (x <? hi)), ((l <=? x) && (x <? h)); done.
    + intros r (q & Hr & _)%list_elem_of_bind. unfold cut_range in Hr. apply list_elem_of_filter in Hr as [Hr _].
      destruct r. cbn in *. lia.
Qed.

Lemma wp_check_range a n Q s :
  (forall x, a <= x < a + n -> accessible s x = true) -> Q tt s -> wp (check_range a n) Q s.
Proof.
  intros Ha HQ. unfold wp, check_range.
  set (rs := (g_base_heap, g_base_heap + LZ_BASE_HEAP_SIZE) :: st_mapped s).
  destruct (uncovered_spec rs a (a + n)) as [Hin Hne].
  destruct (uncovered rs a (a + n)) as [|[l h] gaps]; [done|].
  specialize (Hne (l, h) ltac:(by left)). specialize (Hin l). cbn in Hne.
  assert (in_ranges ((l, h) :: gaps) l = true) as E by (cbn; lia). rewrite E in Hin. symmetry in Hin.
  apply andb_true_iff in Hin as [Hb Hn]. specialize (Ha l ltac:(lia)).
  change (in_ranges rs l) with ((g_base_heap <=? l) && (l <? g_base_heap + LZ_BASE_HEAP_SIZE) || mapped s l) in Hn.
  unfold accessible in Ha. by rewrite orb_comm, Ha in Hn.
Qed.

Lemma mapped_accessible s x : mapped s x = true -> accessible s x = true.
Proof. unfold accessible. by intros ->. Qed.

(** ** The other entry points *)

Definition calloc_post s W D (total r : Z) (s' : state) : Prop :=
  exists n W' D' G' P', total <= n /\ effect s W D nothing (fresh_at r n) s' W' D' G' P' /\
    (r = NULL -> refused_since s s') /\
    (r <> NULL -> forall x, r <= x < r + total -> byte_of s' x = 0).

Lemma wpt_calloc me num size W D G P s :
  world s W D G P -> 0 <= num < 2 ^ 64 -> 0 <= size < 2 ^ 64 -> num * size <= 2 ^ 46 ->
  wpt (tlh_refused s) (lz_calloc me num size) (calloc_post s W D (Z.max 1 (num * size))) s.
Proof.
  intros Hw Hn Hs Hp. unfold lz_calloc.
  assert (exists num' size', (if (num =? 0) || (size =? 0) then (1, 1) else (num, size)) = (num', size') /\
    1 <= num' /\ 1 <= size' /\ num' * size' = Z.max 1 (num * size)) as (num' & size' & -> & Hn' & Hs' & Et).
  { destruct (Z.eqb_spec num 0) as [->|]; [by exists 1, 1|].
    destruct (Z.eqb_spec size 0) as [->|]; [exists 1, 1; rewrite Z.mul_0_r; done|]. exists num, size. split_and!; [done|nia..]. }
  rewrite <- Et. assert (num' * size' <= 2 ^ 46) as Hb by lia.
  assert (SIZE_MAX / num' <? size' = false) as ->.
  { apply Z.ltb_ge. apply Z.div_le_lower_bound; unfold SIZE_MAX; lia. }
  rewrite (u64_small (num' * size')) by nia. set (total := num' * size') in *. assert (1 <= total) as Ht1 by (unfold total; nia).
  clearbody total. apply wpt_bind. eapply wpt_mono; [eapply wpt_malloc; [exact Hw|lia]|].
  intros r s1 (n & W1 & D1 & G1 & P1 & Hn1 & He & Hnull & Hz). apply wpt_wp.
  rewrite Z.max_r in Hn1, Hz by lia. destruct (Z.eqb_spec r NULL) as [->|Hr].
  { wp_step. exists n, W1, D1, G1, P1. done. }
  assert (in_use s1 W1 D1 r n) as Hrn by (apply (ef_in_use _ _ _ _ _ _ _ _ _ _ He); right; done).
  destruct (in_use_range _ _ _ _ _ _ _ (ef_world _ _ _ _ _ _ _ _ _ _ He) Hrn) as (_ & Hn0 & _).
  destruct (Z.leb_spec total 1048576).
  - wp_step. unfold memset_zero. wp_step. apply wp_check_range.
    { intros x Hx. apply mapped_accessible. eapply in_use_mapped; [apply He|exact Hrn|lia]. }
    wp_steps. exists n, W1, D1, G1, P1. split_and!; [done| |done|].
    + apply effect_fill; [done..|]. intros x Hx. rewrite clear_range_lookup.
      replace ((r <=? x) && (x <? r + total)) with false by lia. done.
    + intros _ x Hx. unfold byte_of. cbn. rewrite clear_range_lookup.
      replace ((r <=? x) && (x <? r + total)) with true by lia. done.
  - wp_steps. exists n, W1, D1, G1, P1. split_and!; [done..|]. intros _. by apply Hz.
Qed.

(** What realloc of an object of [n] bytes at [a] promises: NULL when the
    index has no entry for it; otherwise a smaller size keeps the object, and a
    larger one moves the contents to a new object and releases the old one,
    unless the kernel refuses memory, which leaves everything as it was. *)
Definition realloc_post s W D (a n new_size r : Z) (s' : state) : Prop :=
  if decide (unindexed s a) then r = NULL /\ s' = s
  else if new_size <=? n then r = a /\ s' = s
  else exists m W' D' G' P', new_size <= m /\
    (r = NULL /\ refused_since s s' /\ effect s W D nothing nothing_new s' W' D' G' P' \/
     r <> NULL /\ (a + n <= r \/ r + m <= a) /\
       (forall i, 0 <= i < n -> h_bytes s' !! (r + i) = h_bytes s !! (a + i)) /\
       effect s W D (fun y => y = a) (fresh_at r m) s' W' D' G' P').

(** The contents are copied to the new object before the old one goes. *)
Lemma wpt_move me a n r m W D s1 W1 D1 G1 P1 s new_size :
  effect s W D nothing (fresh_at r m) s1 W1 D1 G1 P1 -> in_use s W D a n -> r <> NULL ->
  n < new_size <= m -> ~ unindexed s a ->
  wpt (tlh_refused s) (memcpy r a n;; lz_free me a;; mret r) (realloc_post s W D a n new_size) s1.
Proof.
  intros He Hu Hr Hm Hix. pose proof (ef_world _ _ _ _ _ _ _ _ _ _ He) as Hw1.
  assert (in_use s1 W1 D1 r m) as Hrm by (apply (ef_in_use _ _ _ _ _ _ _ _ _ _ He); right; done).
  assert (in_use s1 W1 D1 a n) as Ha1 by (apply (ef_in_use _ _ _ _ _ _ _ _ _ _ He); left; done).
  destruct (in_use_range _ _ _ _ _ _ _ Hw1 Ha1) as (Har & Hn0 & _).
  assert (a <> r) as Hne by (intros ->; by eapply (ef_fresh _ _ _ _ _ _ _ _ _ _ He r m n)).
  destruct (in_use_disjoint _ _ _ _ _ _ _ _ _ Hw1 Ha1 Hrm) as [[? _]|Hap]; [done|].
  apply wpt_bind, wpt_wp. unfold memcpy. wp_step.
  apply wp_check_range; [intros x Hx; apply mapped_accessible; eapply in_use_mapped; [exact Hw1|exact Hrm|lia]|]. wp_step.
  apply wp_check_range; [intros x Hx; apply mapped_accessible; eapply in_use_mapped; [exact Hw1|exact Ha1|lia]|]. wp_step.
  set (m2 := copy_bytes (h_bytes s1) r a n). set (s2 := set_h_bytes m2 s1).
  assert (effect s W D nothing (fresh_at r m) s2 W1 D1 G1 P1) as He2.
  { apply effect_fill; [done..|]. intros x Hx. unfold m2. rewrite copy_bytes_lookup.
    replace ((r <=? x) && (x <? r + n)) with false by lia. done. }
  pose proof (ef_world _ _ _ _ _ _ _ _ _ _ He2) as Hw2.
  assert (forall i, 0 <= i < n -> h_bytes s2 !! (r + i) = h_bytes s !! (a + i)) as Hcopy.
  { intros i Hi. rewrite <- (ef_bytes _ _ _ _ _ _ _ _ _ _ He a n (a + i)) by (done || lia).
    cbn. unfold m2. rewrite copy_bytes_lookup. replace ((r <=? r + i) && (r + i <? r + n)) with true by lia.
    f_equal. lia. }
  apply wpt_bind. eapply wpt_mono.
  { eapply wpt_weaken; [eapply (wpt_free me a n); [exact Hw2|exact Ha1]|].
    intros s'. apply tlh_refused_after. apply He2. }
  intros [] s' Hf. apply wpt_wp. wp_step.
  assert (~ unindexed s2 a) as Hix2.
  { by rewrite (ef_entry _ _ _ _ _ _ _ _ _ _ He2 a n). }
  unfold free_post in Hf. rewrite decide_False in Hf by done. destruct Hf as (W' & D' & G' & P' & Hf).
  unfold realloc_post. rewrite decide_False by done. zfalse (new_size <=? n).
  exists m, W', D', G', P'. split; [lia|]. right. split_and!; [done|done| |].
  - intros i Hi. rewrite <- Hcopy by done. apply (ef_bytes _ _ _ _ _ _ _ _ _ _ Hf r m); [done|congruence|lia].
  - eapply effect_weaken; [by eapply effect_trans| |].
    + intros b k _. unfold nothing. tauto.
    + intros b k. unfold fresh_at, nothing_new. split; [|tauto]. intros (? & -> & ->). left. split; [done|congruence].
Qed.

Lemma wpt_realloc me a n new_size W D G P s :
  world s W D G P -> in_use s W D a n -> 0 < new_size <= 2 ^ 46 ->
  wpt (tlh_refused s) (lz_realloc me a new_size) (realloc_post s W D a n new_size) s.
Proof.
  intros Hw Hu Hs. destruct (in_use_range _ _ _ _ _ _ _ Hw Hu) as (Hr & Hn & _).
  unfold lz_realloc. zfalse (a =? NULL). zfalse (new_size =? 0).
  apply wpt_bind, wpt_wp. eapply wp_usable_size; [exact Hw|exact Hu|].
  case_decide as Hix.
  { change (0 =? 0) with true. cbv iota. apply wpt_wp. wp_step. unfold realloc_post. by rewrite decide_True. }
  zfalse (n =? 0). destruct (Z.leb_spec new_size n).
  { apply wpt_wp. wp_step. unfold realloc_post. rewrite decide_False by done. by ztrue (new_size <=? n). }
  apply wpt_bind. eapply wpt_mono; [eapply wpt_malloc; [exact Hw|lia]|].
  intros r s1 (m & W1 & D1 & G1 & P1 & Hm & He & Hnull & _). destruct (Z.eqb_spec r NULL) as [->|Hr0].
  - apply wpt_wp. wp_step. unfold realloc_post. rewrite decide_False by done. zfalse (new_size <=? n).
    exists m, W1, D1, G1, P1. split; [lia|]. left. split_and!; [done|auto|].
    eapply effect_weaken; [exact He|done|]. intros b k. unfold fresh_at, nothing_new. tauto.
  - eapply wpt_move; [exact He|done|done|lia|done].
Qed.

(** Blocks of a class whose size is a multiple of a small power of two. *)
Lemma object_pow2_aligned s W D G P o w a n k :
  world s W D G P -> W !! o = Some w -> hobject s w a n -> 0 <= k <= 6 -> n mod 2 ^ k = 0 -> a mod 2 ^ k = 0.
Proof.
  intros Hw Ho Ha Hk Hn. pose proof (wd_core _ _ _ _ _ _ _ Hw Ho) as Hc.
  destruct Ha as [(p & g & i & Hp & _ & -> & ->)|(m & (p & sp & i & Hp & Hb & Hr & ->) & ->)].
  - destruct (sb_chunk _ _ _ _ (hc_slab _ _ _ _ _ _ Hc p g Hp)) as (Hal & _). pose proof (pow2_pos k).
    unfold blk. apply mod_mul_add; [lia| |].
    + apply (mod_pow2_weaken _ k 6); [lia|]. clear - Hal. dlia.
    + rewrite <- Z.mul_mod_idemp_r, Hn, Z.mul_0_r by lia. done.
  - destruct (span_run_in _ _ _ _ _ _ _ _ _ (hc_span _ _ _ _ _ _ Hc) Hp Hb Hr) as (_ & _ & ? & _).
    apply (mod_pow2_weaken _ k 12); [lia|]. change (2 ^ 12) with 4096. done.
Qed.

Definition memalign_post s W D (k size r : Z) (s' : state) : Prop :=
  exists n W' D' G' P', size <= n /\ effect s W D nothing (fresh_at r n) s' W' D' G' P' /\
    (r = NULL -> refused_since s s') /\ (r <> NULL -> r mod 2 ^ k = 0).

Lemma power_of_two_alignment k : 0 <= k < 64 -> (2 ^ k =? 0) || negb (is_power_of_two (2 ^ k)) = false.
Proof.
  intros Hk. pose proof (pow2_pos k ltac:(lia)). zfalse (2 ^ k =? 0). cbn [orb].
  change (is_power_of_two (2 ^ k)) with (LZ_IS_POWER_OF_TWO (2 ^ k)).
  rewrite (proj2 (LZ_IS_POWER_OF_TWO_spec (2 ^ k) ltac:(split; [lia|apply Z.pow_lt_mono_r; lia]))); [done|].
  by exists k.
Qed.

(** The payload of an over-aligned direct mapping starts on a multiple of 16
    in the first 2 MiB. *)
Lemma payload_offset k : 0 <= k <= 21 ->
  LZ_ALIGN_UP 128 (2 ^ k) <= 2 ^ 21 /\ LZ_ALIGN_UP 128 (2 ^ k) mod 16 = 0 /\ 128 <= LZ_ALIGN_UP 128 (2 ^ k).
Proof.
  intros Hk. assert (0 < 2 ^ k <= 2 ^ 21) as Hk2.
  { split; [apply pow2_pos; lia|apply Z.pow_le_mono_r; lia]. }
  destruct (LZ_ALIGN_UP_spec 128 k) as [Ha Hb]; [lia..|]. split_and!; [|clear Hk2|lia].
  - apply LZ_ALIGN_UP_least; [lia..|]. apply (mod_pow2_weaken _ k 21); [lia|done].
  - destruct (decide (k <= 7)) as [Hk7|Hk7].
    + assert (LZ_ALIGN_UP 128 (2 ^ k) <= 128); [|by replace (LZ_ALIGN_UP 128 (2 ^ k)) with 128 by lia].
      assert (2 ^ k <= 2 ^ 7) by (apply Z.pow_le_mono_r; lia).
      apply LZ_ALIGN_UP_least; [lia..|]. apply (mod_pow2_weaken _ k 7); [lia|done].
    + change 16 with (2 ^ 4). apply (mod_pow2_weaken _ 4 k); [lia|done].
Qed.

(** A slab block for an alignment up to a cache line. *)
Lemma wpt_memalign_slab me k size W D G P s :
  world s W D G P -> 0 <= k <= 6 -> 0 < size <= LZ_MAX_SLAB_OBJ_SIZE ->
  wpt (tlh_refused s) (lz_malloc me (LZ_ALIGN_UP size (2 ^ k))) (memalign_post s W D k size) s.
Proof.
  unfold LZ_MAX_SLAB_OBJ_SIZE. intros Hw Hk Hs. assert (0 < 2 ^ k <= 2 ^ 6) as Hk2.
  { split; [apply pow2_pos; lia|apply Z.pow_le_mono_r; lia]. }
  destruct (LZ_ALIGN_UP_spec size k) as [Ha Hb]; [lia..|].
  assert (LZ_ALIGN_UP size (2 ^ k) <= 32768) as Hsz.
  { apply LZ_ALIGN_UP_least; [lia..|]. apply (mod_pow2_weaken _ k 15); [lia|done]. }
  set (sz := LZ_ALIGN_UP size (2 ^ k)) in *. clearbody sz.
  unfold lz_malloc, LZ_MAX_SLAB_OBJ_SIZE. zfalse (sz =? 0). ztrue (sz <=? 32768).
  eapply wpt_with_heap; [exact Hw|]. intros s1 W1 tlh w He _ Ht. apply wpt_wp.
  eapply wp_tlh_alloc_slab; [by eapply wd_heap; [apply He|]|unfold LZ_MAX_SLAB_OBJ_SIZE; lia|]. intros r s' Hr.
  set (n := lz_class_to_size (lz_size_to_class sz)) in *.
  assert (sz <= n) as Hn by (apply size_class_fits; unfold class_size_limit; lia).
  assert (n mod 2 ^ k = 0) as Hnk by (apply size_class_alignment; unfold class_size_limit; lia || done).
  destruct (effect_alloc _ _ _ _ _ _ _ _ _ _ (ef_world _ _ _ _ _ _ _ _ _ _ He) Ht Hr) as [(W' & G' & P' & He') Hnull].
  exists n, W', D, G', P'. split_and!; [lia|by eapply effect_after|intros E; eapply refused_since_after; [apply He|auto]|]. intros Hr0.
  assert (fresh_at r n r n) as Hf by done.
  assert (in_use s' W' D r n) as [(o & v & Ho & Hv & _)|(base & v & Hbv & Er & _)]
    by (apply (ef_in_use _ _ _ _ _ _ _ _ _ _ He'); by right).
  - eapply object_pow2_aligned; [apply He'|exact Ho|exact Hv|done|done].
  - exfalso. eapply (ef_fresh _ _ _ _ _ _ _ _ _ _ He' r n (dg_size v) Hf); [right; eauto|done].
Qed.

Lemma wpt_memalign me k size W D G P s :
  world s W D G P -> 0 <= k <= 21 -> 0 < size <= 2 ^ 46 ->
  wpt (tlh_refused s) (lz_memalign me (2 ^ k) size) (memalign_post s W D k size) s.
Proof.
  intros Hw Hk Hs. assert (0 < 2 ^ k <= 2 ^ 21) as Hk2.
  { split; [apply pow2_pos; lia|apply Z.pow_le_mono_r; lia]. }
  unfold lz_memalign. rewrite power_of_two_alignment by lia.
  destruct ((2 ^ k <=? 64) && (size <=? LZ_MAX_SLAB_OBJ_SIZE)) eqn:E1; [|destruct ((2 ^ k <=? LZ_PAGE_SIZE) && (size <=? 1048576)) eqn:E2].
  - apply wpt_memalign_slab with (G := G) (P := P); [done| |lia].
    assert (k <= 6) as Hk6; [|lia]. apply (Z.pow_le_mono_r_iff 2); [lia..|]. change (2 ^ 6) with 64. lia.
  - unfold LZ_PAGE_SIZE in E2. assert (k <= 12) as Hk12.
    { apply (Z.pow_le_mono_r_iff 2); [lia..|]. change (2 ^ 12) with 4096. lia. }
    eapply wpt_with_heap; [exact Hw|]. intros s1 W1 tlh w He _ Ht. apply wpt_wp.
    eapply wp_tlh_span_alloc; [by eapply wd_heap; [apply He|]|lia|]. intros r s' Hal Hr.
    destruct (effect_alloc _ _ _ _ _ _ _ _ _ _ (ef_world _ _ _ _ _ _ _ _ _ _ He) Ht Hr) as [(W' & G' & P' & He') Hnull].
    exists (pages_for size * 4096), W', D, G', P'. split_and!;
      [unfold pages_for; dlia|by eapply effect_after|intros E; eapply refused_since_after; [apply He|auto]|].
    intros Hr0. apply (mod_pow2_weaken _ k 12); [lia|]. change (2 ^ 12) with 4096. auto.
  - apply wpt_wp. destruct (LZ_ALIGN_UP_spec 128 k) as [Ha Hb]; [lia..|].
    destruct (payload_offset k Hk) as (Hle & H16 & _).
    set (off := LZ_ALIGN_UP 128 (2 ^ k)) in *. clearbody off.
    eapply wp_world_direct; [exact Hw|lia|done|lia|..].
    + intros s' He Hnull. exists size, W, D, G, P. split_and!; [lia|done|done|done].
    + intros r s' D' He Hr (base & Hbase & ->) _. exists size, W, D', G, P. split_and!; [lia|done|lia|]. intros _.
      apply mod_mul_add; [lia| |done]. apply (mod_pow2_weaken _ k 21); [lia|done].
Qed.

End effects.
