(* ===== verification/ApiLife.v ===== *)
(** * Start, thread exit and garbage collection

    What initialisation establishes, and that thread exit and garbage
    collection change nothing for the client. *)

From S2P Require Import Prelude Common Sizes Machine Wp Dll Testbed Security Rtree Vmm VmmSpec.
From S2P Require Import Provision Telemetry Span SpanSpec Slab Tlh SlabSpec BinSpec HeapSpec.
From S2P Require Import TlhSpec RemoteSpec Lzmalloc LzmallocSpec WorldSpec WorldSend WorldLife WorldDirect.
From S2P Require Import ApiSpec.

Section maintenance.
Context `{EnvLaws}.

(** ** Thread exit *)

(** The key destructor runs with the heap of the thread, whose storage then
    ceases to exist. *)
Definition thread_exit (me : Z) : M unit :=
  tls ← fetch (tls_of me); lz_tlh_destructor tls;; set_tls me NULL.

Lemma no_tls me s : tls_of me s = NULL ->
  forall me', tls_of me' (set_tls_tlh_ptr (<[me := NULL]> (tls_tlh_ptr s)) s) = tls_of me' s.
Proof. intros E me'. rewrite (tls_of_set me me' NULL s) by done. case_decide; [by subst|done]. Qed.

(** Putting heap [o] of thread [me] on the list of heaps without a thread. *)
Lemma registry_leave s s' W me t' :
  registry s W -> tls_of me s <> NULL -> tls_tlh_ptr s' = <[me := NULL]> (tls_tlh_ptr s) ->
  g_zombie_lock s' = false -> g_zombie_tlhs s' = tls_of me s ->
  (forall u, u <> tls_of me s -> h_tlhs s' !! u = h_tlhs s !! u) ->
  h_tlhs s' !! tls_of me s = Some t' -> next_zombie t' = g_zombie_tlhs s -> registry s' W.
Proof.
  intros [_ R2 R3 (Zs & R4 & R5 & R6)] Hn Et Hl Ez Hh Ht' En.
  pose proof (fun me' => tls_of_set me me' NULL s s' Et) as E. destruct (R2 me) as [|HW]; [done|].
  assert (tls_of me s ∉ Zs) as Hnz by (intros Hz; by apply (R6 _ Hz) with me).
  constructor; [done|..].
  - intros me'. rewrite E. case_decide; [by left|apply R2].
  - intros m1 m2. rewrite !E. repeat case_decide; subst; [by right|by left|auto|by apply R3].
  - exists (tls_of me s :: Zs). split_and!.
    + cbn. split_and!; [done..|]. exists t'. split; [done|]. rewrite En. eapply zombies_frame_in; [|exact R4].
      intros z t Hz Hzt. exists t. rewrite Hh; [done|]. by intros ->.
    + by constructor.
    + intros z [->|Hz]%elem_of_cons; [split; [done|]|].
      * intros me'. rewrite E. case_decide as Hd; [by apply not_eq_sym|]. intros Heq. destruct (R3 me' me Heq); congruence.
      * split; [by apply R6|]. intros me'. rewrite E. case_decide; [|by apply R6].
        intros <-. clear -R4 Hz. revert R4. generalize (g_zombie_tlhs s).
        induction Zs as [|y Zs IH]; intros a; [by apply not_elem_of_nil in Hz|]. cbn. intros (-> & Hy & t & _ & Hr).
        apply elem_of_cons in Hz as [Hz|Hz]; [by subst|]. by eapply IH.
Qed.

Lemma wp_thread_exit me W D G P Q s :
  world s W D G P ->
  (forall s' W', effect s W D nothing nothing_new s' W' D G P -> tls_of me s' = NULL -> Q tt s') ->
  wp (thread_exit me) Q s.
Proof.
  intros Hw HQ. unfold thread_exit. wp_step. wp_step. unfold lz_tlh_destructor.
  destruct (Z.eqb_spec (tls_of me s) NULL) as [E|E].
  { wp_step. wp_step. unfold set_tls. wp_step. apply (HQ _ W); [|by rewrite no_tls].
    apply effect_grow; try done.
    - intros o w t Ho Ht. exists t. split_and!; [done..|]. exact (wd_slot _ _ _ _ _ _ _ _ Hw Ho Ht).
    - apply Hw.
    - destruct (wd_registry _ _ _ _ _ Hw) as [R1 R2 R3 (Zs & R4 & R5 & R6)].
      constructor; [done|intros me'; rewrite no_tls by done; apply R2|intros m1 m2; rewrite !no_tls by done; apply R3|].
      exists Zs. split_and!; [eapply zombies_frame; [|exact R4]; eauto|done|].
      intros z Hz. split; [by apply R6|]. intros me'. rewrite no_tls by done. by apply R6. }
  destruct (rg_tls _ _ (wd_registry _ _ _ _ _ Hw) me) as [|[w Ht]]; [done|].
  wp_step. wp_step. eapply wp_world_flush; [exact Hw|exact Ht|]. intros s1 W1 w1 Hs1 Ht1 _.
  pose proof (st_world _ _ _ _ _ _ _ _ Hs1) as Hw1. pose proof (st_state _ _ _ _ _ _ _ _ Hs1) as Es1.
  assert (effect s W D nothing nothing_new s1 W1 D G P) as He1 by (by eapply effect_sent; [|intros y []|]).
  assert (forall me', tls_of me' s1 = tls_of me' s) as Etls by (intros me'; unfold tls_of; by rewrite Es1).
  destruct (mh_head _ _ _ _ _ _ _ (wd_heap _ _ _ _ _ Hw1 _ w1 Ht1)) as (r & Hr & _).
  wp_step. eapply wp_flush_statistics; [exact Hr|by eapply (wd_slot s1)|]. intros s2 t2 Ht2 (a & f & Et2 & _) Es2 Hmono _ _.
  wp_step. eapply wp_update_tlh; [exact Ht2|]. wp_step. apply wp_zombie_lock; [rewrite Es2; apply Hw1|].
  wp_steps. eapply wp_update_tlh; [cbn; apply lookup_insert_eq|]. unfold zombie_unlock, set_tls. wp_steps.
  match goal with |- Q tt ?x => set (s' := x) end. set (o := tls_of me s) in *.
  assert (records_only s1 s') as Hro by (unfold records_only, s'; rewrite Es2; done).
  destruct (records_only_ext s1 s' Hro) as (He & Ev & Er & Ek & Em).
  assert (h_tlhs s' = <[o := set_next_zombie (g_zombie_tlhs s1) (set_is_zombie 1 t2)]> (h_tlhs s1)) as Eh.
  { cbn. rewrite insert_insert_eq. rewrite Es2. cbn. by rewrite insert_insert_eq. }
  apply (HQ s' W1).
  - eapply effect_after; [exact He1|]. apply effect_grow; try done.
    + intros u x t Hu Hut. rewrite Eh. destruct (decide (u = o)) as [->|Hne].
      * rewrite lookup_insert_eq. eexists. split; [done|]. rewrite Hr in Hut. injection Hut as <-. rewrite Et2. split; [done|].
        destruct (wd_slot _ _ _ _ _ _ _ _ Hw1 Ht1 Hr) as [?|?]; [by left|right]. by apply Hmono.
      * exists t. rewrite lookup_insert_ne by done. split_and!; [done..|].
        destruct (wd_slot _ _ _ _ _ _ _ _ Hw1 Hu Hut) as [?|?]; [by left|right]. by apply Hmono.
    + destruct (wd_matrix _ _ _ _ _ Hw1) as [?|Hm]; [left; congruence|right]. rewrite Em. intros i Hi. apply Hmono. auto.
    + eapply (registry_leave s1 s' W1 me); [apply Hw1|by rewrite Etls| |done|by rewrite Etls|..].
      * cbn. by rewrite Es2.
      * intros u Hu. rewrite Eh, lookup_insert_ne; [done|]. by rewrite Etls in Hu.
      * rewrite Etls, Eh. apply lookup_insert_eq.
      * done.
  - rewrite (tls_of_set me me NULL s1); [by rewrite decide_True|]. cbn. by rewrite Es2.
Qed.

(** ** Garbage collection *)

(** What stays while heaps are reaped. *)
Definition same_registry (s s' : state) (W W' : gmap Z heap_ghost) : Prop :=
  global_part s' = global_part s /\
  (forall z t, h_tlhs s !! z = Some t ->
     exists t', h_tlhs s' !! z = Some t' /\ next_zombie t' = next_zombie t) /\
  forall o, is_Some (W !! o) -> is_Some (W' !! o).

Lemma same_registry_trans s1 s2 s3 W1 W2 W3 :
  same_registry s1 s2 W1 W2 -> same_registry s2 s3 W2 W3 -> same_registry s1 s3 W1 W3.
Proof.
  intros (E1 & T1 & O1) (E2 & T2 & O2). split_and!; [congruence| |auto].
  intros z t (t1 & (t2 & ? & ?)%T2 & ?)%T1. exists t2. split; [done|congruence].
Qed.

Lemma wp_world_reap tlh W D G P Q s :
  world s W D G P -> is_Some (W !! tlh) ->
  (forall s' W' G' P', effect s W D nothing nothing_new s' W' D G' P' -> same_registry s s' W W' -> Q tt s') ->
  wp (lz_tlh_reap tlh) Q s.
Proof.
  intros Hw [w Ht] HQ. eapply wp_tlh_reap; [by eapply wd_heap|]. intros s' Γ' L' G' P' Hst.
  set (R := hg_mail w) in *. eapply (HQ s' (<[tlh := mk_hg Γ' L' [] (hg_batch w)]> W) G' P').
  - eapply effect_weaken; [eapply (effect_step s W D G P tlh w (fun a => a ∈ R)); [done|done|exact Hst|..]| |done].
    + intros a t v Ha Hv Hav. by apply (proj1 (wd_apart _ _ _ _ _ Hw t v a Hv Hav) tlh w).
    + intros a Ha. by apply not_elem_of_nil in Ha.
    + auto.
    + intros a Ha. by apply (pe_object _ _ _ _ (mh_pending _ _ _ _ _ _ _ (wd_heap _ _ _ _ _ Hw tlh w Ht)) a).
    + intros a m Ha. unfold nothing. split; [done|]. intros Hx.
      eapply (in_use_unqueued _ _ _ _ _ _ _ Hw Ha). exists tlh, w. auto.
  - split_and!; [apply Hst| |].
    + intros z t Hz. destruct (decide (z = tlh)) as [->|Hne].
      * destruct (tp_record _ _ _ _ _ _ _ _ _ _ _ _ _ _ Hst t Hz) as (t' & ? & E). exists t'. split; [done|].
        by injection E.
      * exists t. by rewrite (proj2 (tp_global _ _ _ _ _ _ _ _ _ _ _ _ _ _ Hst) z Hne).
    + intros o Ho. rewrite lookup_insert. by case_decide.
Qed.

Lemma wp_reap_zombies Zs : forall fuel current W D G P Q s,
  world s W D G P -> zombies s current Zs -> (forall z, z ∈ Zs -> is_Some (W !! z)) -> (length Zs < fuel)%nat ->
  (forall s' W' G' P', effect s W D nothing nothing_new s' W' D G' P' -> same_registry s s' W W' -> Q tt s') ->
  wp (reap_zombies fuel current) Q s.
Proof.
  induction Zs as [|z Zs IH]; intros [|fuel] current W D G P Q s Hw Hz HW Hf HQ; cbn in Hf; try lia; cbn [reap_zombies].
  - cbn in Hz. subst current. change (NULL =? NULL) with true. cbv iota. wp_step.
    eapply HQ; [by eapply effect_refl|]. split_and!; eauto.
  - cbn in Hz. destruct Hz as (-> & Hn & t & Ht & Hz). zfalse (z =? NULL). wp_step.
    eapply wp_world_reap; [exact Hw|apply HW; by left|]. intros s1 W1 G1 P1 He1 Hs1. pose proof Hs1 as (_ & Hrec & Hdom).
    destruct (Hrec z t Ht) as (t1 & Ht1 & En). wp_step. eapply wp_tlh_at; [exact Ht1|]. rewrite En.
    eapply (IH fuel _ W1 D G1 P1); [apply He1|by eapply zombies_frame|intros y Hy; apply Hdom, HW; by right|lia|].
    intros s2 W2 G2 P2 He2 Hs2. eapply HQ; [by eapply effect_after|by eapply same_registry_trans].
Qed.

(** The purge moves chunks between pools that no object touches. *)
Lemma purge_chunk s W D G P s' G' d :
  world s W D G P -> moved_post s (G ++ concat P) s' G' (replicate 16 []) ->
  chunk_ok s d -> in_world W D d -> chunk_same s s' d /\ chunk_ok s' d.
Proof.
  intros Hw [_ Mr _ Mm Mf] Hd Hin. assert (d ∉ G ++ concat P) as Hn.
  { destruct Hin as [(o & w & Ho & Hh)|(base & v & Hb & Hr)].
    - by eapply (owned_chunk_ok _ _ _ _ _ _ _ (wd_core _ _ _ _ _ _ _ Hw Ho)).
    - apply (dk_out _ _ _ _ _ (wd_direct _ _ _ _ _ Hw base v Hb)); [done|apply Hd]. }
  split; [|eapply chunk_ok_mono; [|exact Hd]; intros x; by rewrite Mm].
  eapply frame_chunk_same; [exact Mf|done|done|done| |by apply rtree_view_eq].
  intros x Hx (c & Hc & Hcx). pose proof (vi_chunks _ _ _ (wd_vmm _ _ _ _ _ Hw) c Hc) as (Hal & _).
  destruct Hd as (Hald & _). destruct (decide (d = c)) as [->|Hne]; [done|].
  unfold LZ_PAGE_SIZE, LZ_HUGE_PAGE_SIZE in Hcx. destruct (aligned_apart d c); [done..|lia|lia].
Qed.

Lemma effect_purge s W D G P s' G' :
  world s W D G P -> moved_post s (G ++ concat P) s' G' (replicate 16 []) -> G' ≡ₚ G ++ concat P ->
  effect s W D nothing nothing_new s' W D G' (replicate 16 []).
Proof.
  intros Hw [Mi Mr Mt Mm Mf] Hperm. destruct (thread_global _ _ Mt) as (Eg & Eh & Est).
  assert (forall d, d ∈ G' ++ concat (replicate 16 []) -> d ∈ G ++ concat P) as Hpool.
  { intros d. rewrite <- Hperm. rewrite elem_of_app. intros [?|Hd]; [done|]. cbn in Hd. by apply not_elem_of_nil in Hd. }
  assert (forall o w, W !! o = Some w -> mapped s' o = true) as Hmr.
  { intros o w Ho. rewrite Mm. by eapply wd_record. }
  assert (forall base v x, D !! base = Some v -> base <= x < base + dg_total v -> mapped s' x = true) as Hmd.
  { intros base v x Hb Hx. rewrite Mm. by apply (do_mapped _ _ _ _ (dk_object _ _ _ _ _ (wd_direct _ _ _ _ _ Hw base v Hb))). }
  assert (forall o w t, W !! o = Some w -> h_tlhs s !! o = Some t ->
    exists t', h_tlhs s' !! o = Some t' /\ working t' = working t /\ slot_ok s' t') as Hrec.
  { intros o w t Ho Hto. exists t. rewrite Eh. split_and!; [done..|]. unfold slot_ok. rewrite Est.
    exact (wd_slot _ _ _ _ _ _ _ _ Hw Ho Hto). }
  assert (rtree_inv s') as Hr by (eapply rtree_inv_ext; [apply Hw|done|intros x; by rewrite Mm]).
  assert (g_lz_global_secret s' = g_lz_global_secret s /\ g_telemetry_matrix s' = g_telemetry_matrix s)
    as [Ek Em] by (by injection Eg).
  pose proof (frame_leaves _ _ _ _ _ Mf) as Hlg.
  assert (forall d, chunk_ok s d -> in_world W D d -> chunk_same s s' d /\ chunk_ok s' d) as Hch.
  { intros d. by apply (purge_chunk s W D G P s' G'). }
  constructor; [| | |by intros a n m []| |apply Hlg].
  - apply (world_frame s s' W D D G G' P (replicate 16 [])); try done.
    + unfold matrix_ok. rewrite Em, Est. apply Hw.
    + eapply registry_frame; [apply Hw|done| |done]. intros z t Hz. exists t. by rewrite Eh.
  - intros a n. rewrite (frame_in_use s s' W D D G G' P (replicate 16 [])) by done. unfold nothing, nothing_new. tauto.
  - intros a n x Ha _ Hx. by eapply (frame_bytes s s' W D D G G' P (replicate 16 [])); [..|exact Ha|exact Hx].
  - intros a n Ha _. unfold unindexed. by rewrite (frame_entry s s' W D D G G' P (replicate 16 [])) with (n := n).
Qed.

Lemma zombies_bound s Zs : NoDup Zs -> (forall z, z ∈ Zs -> is_Some (h_tlhs s !! z)) ->
  (length Zs < heap_bound s)%nat.
Proof.
  intros Hnd Hin. unfold heap_bound. rewrite <- size_dom, <- (size_list_to_set (C := gset Z) Zs) by done.
  apply Nat.lt_succ_r, subseteq_size. intros z. rewrite elem_of_list_to_set, elem_of_dom. apply Hin.
Qed.

Lemma wp_gc me W D G P Q s :
  world s W D G P ->
  (forall s' W' G' P', effect s W D nothing nothing_new s' W' D G' P' -> Q tt s') ->
  wp (lzmalloc_gc me) Q s.
Proof.
  intros Hw HQ. unfold lzmalloc_gc. wp_step. wp_step. wp_step.
  assert (forall s1 W1 G1 P1, effect s W D nothing nothing_new s1 W1 D G1 P1 ->
    wp (zombie_lock;; current ← fetch g_zombie_tlhs; zombie_unlock;;
        fuel ← fetch heap_bound; reap_zombies fuel current;; lz_vmm_purge_all_caches) Q s1) as Hrest.
  { intros s1 W1 G1 P1 He1. pose proof (ef_world _ _ _ _ _ _ _ _ _ _ He1) as Hw1.
    destruct (wd_registry _ _ _ _ _ Hw1) as [R1 _ _ (Zs & R4 & R5 & R6)].
    wp_step. apply wp_zombie_lock; [done|]. unfold zombie_unlock. wp_steps. rewrite unlock_same by done.
    cbn [g_zombie_tlhs set_g_zombie_lock].
    eapply wp_reap_zombies; [exact Hw1|exact R4|intros z Hz; by apply R6| |].
    - eapply zombies_bound; [done|]. intros z Hz. destruct (R6 z Hz) as [[w Hzw] _].
      destruct (mh_head _ _ _ _ _ _ _ (wd_heap _ _ _ _ _ Hw1 z w Hzw)) as (t & ? & _). by exists t.
    - intros s2 W2 G2 P2 He2 _. pose proof (ef_world _ _ _ _ _ _ _ _ _ _ He2) as Hw2.
      eapply wp_mono; [apply wp_purge_all; apply Hw2|]. intros [] s3 (G3 & Hm & Hperm).
      eapply HQ. eapply effect_after; [exact He1|]. eapply effect_after; [exact He2|]. by eapply effect_purge. }
  destruct (Z.eqb_spec (tls_of me s) NULL) as [E|E]; cbn [negb].
  - wp_step. eapply Hrest. by eapply effect_refl.
  - destruct (rg_tls _ _ (wd_registry _ _ _ _ _ Hw) me) as [|Ht]; [done|].
    eapply wp_world_reap; [exact Hw|exact Ht|]. intros s1 W1 G1 P1 He1 _. by eapply Hrest.
Qed.

(** ** Initialisation *)

(** The zero-initialised statics of a process that starts. *)
Record at_start (s : state) : Prop := {
  as_pools : g_numa_pools s = replicate 16 (mk_pool 0 0);
  as_locks : g_pool_locks s = replicate 16 false;
  as_global : g_global_free_chunks s = NULL;
  as_secret : g_lz_global_secret s = 0;
  as_matrix : g_telemetry_matrix s = NULL;
  as_tls : tls_tlh_ptr s = ∅;
  as_zombies : g_zombie_tlhs s = NULL;
  as_lock : g_zombie_lock s = false
}.

Lemma world_empty s :
  vmm_inv s [] (replicate 16 []) -> g_rtree_root s = ∅ -> 0 <= g_lz_global_secret s < 2 ^ 64 -> matrix_ok s ->
  tls_tlh_ptr s = ∅ -> g_zombie_tlhs s = NULL -> g_zombie_lock s = false ->
  world s ∅ ∅ [] (replicate 16 []).
Proof.
  intros Hv Er Hk Hm Et Ez El.
  constructor; [done|by apply rtree_inv_empty|done|intros *; rewrite ?lookup_empty; by intros ?..|done|].
  assert (forall me, tls_of me s = NULL) as Etls by (intros me; unfold tls_of; by rewrite Et, lookup_empty).
  constructor; [done|intros me; by left|intros me me'; by left|]. exists []. split_and!; [done|constructor|].
  intros z Hz. by apply not_elem_of_nil in Hz.
Qed.

Lemma in_use_empty s a n : ~ in_use s ∅ ∅ a n.
Proof. intros [(o & w & Ho & _)|(b & v & Hb & _)]; by rewrite lookup_empty in *. Qed.

(** The statistics matrix: absent, or all of its slots exist. *)
Lemma wp_telemetry_init Q s :
  g_telemetry_matrix s = NULL ->
  (forall s', vmm_part s' = vmm_part s -> rtree_part s' = rtree_part s ->
     g_lz_global_secret s' = g_lz_global_secret s -> tls_tlh_ptr s' = tls_tlh_ptr s ->
     g_zombie_tlhs s' = g_zombie_tlhs s -> g_zombie_lock s' = g_zombie_lock s -> matrix_ok s' ->
     log_grows s s' -> Q tt s') ->
  wp lz_telemetry_init Q s.
Proof.
  intros Em HQ. unfold lz_telemetry_init. wp_steps. rewrite Em. change (NULL =? NULL) with true. cbn [negb].
  destruct (negb _); [wp_step; apply HQ; try done; by left|].
  assert (exists ds, lz_itoa_fast sys_getpid = Some ds) as [ds ->].
  { unfold lz_itoa_fast. pose proof getpid_int as Hp. destruct (Z.eqb_spec sys_getpid 0); [eauto|].
    destruct (itoa_digits_spec 32 sys_getpid) as (ds & -> & _); [lia|]. by eexists. }
  wp_steps. destruct (_ =? -1); [wp_step; apply HQ; try done; by left|].
  wp_steps. destruct (_ =? -1); [wp_step; apply HQ; try done; by left|].
  wp_step. apply wp_mmap. cbn [st_clock st_mapped set_st_clock set_g_shm_name].
  destruct (sys_mmap _ _ _) as [p|]; wp_steps; [|apply HQ; try done; [by left|by eexists [_]]].
  unfold clear_matrix. match goal with |- wp _ _ ?x => set (s1 := x) end.
  apply (wp_for_loop (fun k s' => s' = set_h_stats (h_stats s') s1 /\
    forall i, 0 <= i < k -> is_Some (h_stats s' !! (p + i * sizeof_stat_slot)))).
  - split; [done|]. intros i Hi. lia.
  - intros j s' Hj [Es Hs']. wp_step. split; [by rewrite Es|]. intros i Hi. cbn.
    rewrite lookup_insert. case_decide as E; [done|]. apply Hs'.
    assert (i <> j) by (intros ->; by apply E). lia.
  - intros s' [Es Hs']. apply HQ; [by rewrite Es..| |apply log_grows_same; by rewrite Es]. right. intros i Hi.
    assert (g_telemetry_matrix s' = p) as -> by (by rewrite Es). apply Hs'.
    unfold LZ_MAX_TELEMETRY_SLOTS in *. lia.
Qed.

Lemma wp_vmm_init Q s :
  g_numa_pools s = replicate 16 (mk_pool 0 0) -> g_pool_locks s = replicate 16 false ->
  Q tt (set_g_global_pool_lock false (set_g_numa_node_count 1 s)) -> wp lz_vmm_init Q s.
Proof.
  intros Ep El HQ. unfold lz_vmm_init, lz_topology_init. wp_step. wp_step. wp_step.
  set (s1 := set_g_numa_node_count 1 s).
  apply (wp_for_loop (fun _ s' => s' = s1)); [done| |intros s' ->].
  { intros j s' Hj ->. wp_step. state_eq. cbn. rewrite Ep. apply list_insert_id.
    apply lookup_replicate. split; [done|lia]. }
  wp_step. apply (wp_for_loop (fun _ s' => s' = s1)); [done| |intros s' ->; by wp_step].
  intros j s' Hj ->. wp_step. state_eq. cbn. rewrite El. apply list_insert_id.
  apply lookup_replicate. split; [done|lia].
Qed.

Lemma wp_system_init Q s :
  at_start s -> (forall s', world s' ∅ ∅ [] (replicate 16 []) -> log_grows s s' -> Q tt s') -> wp lz_system_init Q s.
Proof.
  intros [A1 A2 A3 A4 A5 A6 A7 A8] HQ. unfold lz_system_init. wp_step.
  eapply wp_mono; [apply wp_security_init; rewrite A4; lia|]. intros [] s1 (_ & Hk & Es1 & _). unfold only_secret in Es1.
  assert (forall s2, vmm_part s2 = vmm_part (set_g_global_pool_lock false (set_g_numa_node_count 1 s)) ->
    g_rtree_root s2 = ∅ -> g_lz_global_secret s2 = g_lz_global_secret s1 -> tls_tlh_ptr s2 = ∅ ->
    g_zombie_tlhs s2 = NULL -> g_zombie_lock s2 = false -> matrix_ok s2 -> log_grows s s2 -> Q tt s2) as Hend.
  { intros s2 Ev Er Ek Et Ez El Hm Hl. apply HQ; [|done]. apply world_empty; try done; [|by rewrite Ek].
    unfold vmm_part in Ev. cbn in Ev. injection Ev as E1 E2 E3 E4 E5. apply vmm_inv_boot; congruence. }
  wp_step. apply wp_vmm_init; [by rewrite Es1..|]. wp_step. unfold lz_rtree_init. wp_step.
  match goal with |- wp _ _ ?x => set (s2 := x) end.
  assert (wp (mret tt) Q s2) as Hplain.
  { wp_step. apply Hend; try (unfold s2; rewrite Es1; done). left. unfold s2. by rewrite Es1. }
  destruct environ as [envs|]; [|done]. destruct (scan_telemetry envs); [|done].
  apply wp_telemetry_init; [unfold s2; by rewrite Es1|]. intros s3 Ev Er Ek Et Ez El Hm Hl.
  injection Er as _ Er. apply Hend; [rewrite Ev|done|done|rewrite Et|rewrite Ez|rewrite El|done|etrans; [|exact Hl]; apply log_grows_same];
    unfold s2; by rewrite Es1.
Qed.

End maintenance.
