(* ===== verification/ClientSpec.v ===== *)
(** * The abstract allocator and its implementation

    The allocator as its client sees it: a set of disjoint objects with their
    contents, and for every call the objects and contents it may leave behind.
    The implementation refines it call by call, hence for every client program
    that respects the interface, from the start of the process on. *)

From S2P Require Import Prelude Common Sizes Machine Wp Dll Testbed Security Rtree Vmm VmmSpec.
From S2P Require Import Provision Telemetry Span SpanSpec Slab Tlh SlabSpec BinSpec HeapSpec.
From S2P Require Import TlhSpec RemoteSpec Lzmalloc LzmallocSpec WorldSpec WorldSend WorldLife WorldDirect.
From S2P Require Import ApiSpec ApiLife.

(** ** The abstract allocator *)

(** The live objects with their sizes; those among them that the index of the
    process cannot find; the requests the kernel has refused so far (tick and
    length, the last first); the contents of memory. *)
Record view := mk_view {
  cv_objs : gmap Z Z;
  cv_lost : gset Z;
  cv_log : list (nat * Z);
  cv_byte : Z -> Z;
}.

Inductive call :=
  | Malloc (size : Z)
  | Calloc (num size : Z)
  | Realloc (ptr size : Z)
  | Memalign (k size : Z)  (* alignment 2^k *)
  | Free (ptr : Z)
  | UsableSize (ptr : Z)
  | Read (ptr i : Z)
  | Write (ptr i v : Z)
  | ThreadExit
  | Gc.

(** A pointer that may be passed to free: NULL or a live object. *)
Definition freeable (V : view) (ptr : Z) : Prop := ptr = NULL \/ is_Some (cv_objs V !! ptr).
Definition inside (V : view) (ptr i : Z) : Prop :=
  exists n, cv_objs V !! ptr = Some n /\ 0 <= i < n.

(** What the client must respect. *)
Definition allowed (V : view) (c : call) : Prop :=
  match c with
  | Malloc size => 0 <= size <= 2 ^ 46
  | Calloc num size => 0 <= num < 2 ^ 64 /\ 0 <= size < 2 ^ 64 /\ num * size <= 2 ^ 46
  | Realloc ptr size => 0 <= size <= 2 ^ 46 /\ freeable V ptr
  | Memalign k size => 0 <= k <= 21 /\ 0 < size <= 2 ^ 46
  | Free ptr => freeable V ptr
  | UsableSize ptr => is_Some (cv_objs V !! ptr)
  | Read ptr i => inside V ptr i
  | Write ptr i v => inside V ptr i /\ 0 <= v < 256
  | ThreadExit | Gc => True
  end.

(** Objects of both views have the same contents. *)
Definition keeps (V V' : view) : Prop :=
  forall a n x, cv_objs V !! a = Some n -> cv_objs V' !! a = Some n -> a <= x < a + n ->
    cv_byte V' x = cv_byte V x.

(** Objects are lost only when the kernel has refused a leaf of the index. *)
Definition lost_ok (V : view) : Prop := forall a, a ∈ cv_lost V ->
  is_Some (cv_objs V !! a) /\ exists k, (k, sizeof_leaf) ∈ cv_log V.

(** What every call respects: an object stays lost or found for all its life,
    and refusals stay on record. *)
Record extends (V V' : view) : Prop := {
  ex_lost : forall a, is_Some (cv_objs V !! a) -> is_Some (cv_objs V' !! a) -> a ∈ cv_lost V' <-> a ∈ cv_lost V;
  ex_log : cv_log V `suffix_of` cv_log V';
  ex_ok : lost_ok V'
}.

(** The kernel refused a request between the two views. *)
Definition refused (V V' : view) : Prop := exists e l, cv_log V' = e :: l ++ cv_log V.

(** Room for an object of at least [size] bytes at [r], aligned and disjoint
    from all others. *)
Definition places (objs : gmap Z Z) (size r n : Z) : Prop :=
  r <> NULL /\ r mod 16 = 0 /\ objs !! r = None /\ size <= n /\
  forall a m, objs !! a = Some m -> a + m <= r \/ r + n <= a.

(** NULL when the kernel refused memory for this call, or one new object. *)
Definition grants (V : view) (size r : Z) (V' : view) : Prop :=
  r = NULL /\ cv_objs V' = cv_objs V /\ refused V V' \/
  exists n, places (cv_objs V) size r n /\ cv_objs V' = <[r := n]> (cv_objs V).

(** The object is gone; a lost one cannot be found and stays. *)
Definition releases (V : view) (ptr : Z) (V' : view) : Prop :=
  cv_objs V' = if decide (ptr ∈ cv_lost V) then cv_objs V else delete ptr (cv_objs V).

(** A lost object cannot be resized; a smaller size keeps the object; a larger
    one moves the contents to a new object and releases the old one, or leaves
    everything as it was because the kernel refused memory for this call. *)
Definition reallocs (V : view) (ptr n size r : Z) (V' : view) : Prop :=
  if decide (ptr ∈ cv_lost V) then r = NULL /\ cv_objs V' = cv_objs V
  else if size <=? n then r = ptr /\ cv_objs V' = cv_objs V
  else
    r = NULL /\ cv_objs V' = cv_objs V /\ refused V V' \/
    exists m, places (cv_objs V) size r m /\ cv_objs V' = delete ptr (<[r := m]> (cv_objs V)) /\
      forall i, 0 <= i < n -> cv_byte V' (r + i) = cv_byte V (ptr + i).

(** The answer [r] to a call and the view it leaves. *)
Definition answers (V : view) (c : call) (r : Z) (V' : view) : Prop :=
  extends V V' /\
  match c with
  | Malloc size => grants V (Z.max 1 size) r V' /\ keeps V V'
  | Calloc num size =>
      let total := Z.max 1 (num * size) in
      grants V total r V' /\ keeps V V' /\
      (r <> NULL -> forall i, 0 <= i < total -> cv_byte V' (r + i) = 0)
  | Realloc ptr size =>
      keeps V V' /\
      if ptr =? NULL then grants V (Z.max 1 size) r V'
      else if size =? 0 then r = NULL /\ releases V ptr V'
      else exists n, cv_objs V !! ptr = Some n /\ reallocs V ptr n size r V'
  | Memalign k size =>
      grants V size r V' /\ keeps V V' /\ (r <> NULL -> r mod 2 ^ k = 0)
  | Free ptr =>
      keeps V V' /\ if ptr =? NULL then cv_objs V' = cv_objs V else releases V ptr V'
  | UsableSize ptr =>
      keeps V V' /\ cv_objs V' = cv_objs V /\
      if decide (ptr ∈ cv_lost V) then r = 0 else cv_objs V !! ptr = Some r
  | Read ptr i => keeps V V' /\ cv_objs V' = cv_objs V /\ r = cv_byte V (ptr + i)
  | Write ptr i v =>
      cv_objs V' = cv_objs V /\ cv_byte V' (ptr + i) = v /\
      forall a n x, cv_objs V !! a = Some n -> a <= x < a + n -> x <> ptr + i -> cv_byte V' x = cv_byte V x
  | ThreadExit | Gc => keeps V V' /\ cv_objs V' = cv_objs V
  end.

(** What realloc returns is live. *)
Lemma realloc_live V ptr n size r V' :
  cv_objs V !! ptr = Some n -> reallocs V ptr n size r V' -> r <> NULL -> is_Some (cv_objs V' !! r).
Proof.
  intros Hn. unfold reallocs. case_decide; [by intros [-> _]|]. destruct (size <=? n); [intros [-> ->]; by exists n|].
  intros [[-> _]|(m & (_ & _ & Hf & _) & -> & _)]; [done|]. intros _. exists m.
  rewrite lookup_delete_ne by congruence. apply lookup_insert_eq.
Qed.

(** The same view with other objects, or other contents. *)
Definition with_objs (objs : gmap Z Z) (V : view) : view := mk_view objs (cv_lost V) (cv_log V) (cv_byte V).
Definition with_bytes (f : Z -> Z) (V : view) : view := mk_view (cv_objs V) (cv_lost V) (cv_log V) f.

Lemma extends_refl V : lost_ok V -> extends V V.
Proof. by constructor. Qed.

Section spec.
Context `{Env}.

(** ** The implementation *)

Definition perform (me : Z) (c : call) : M Z :=
  match c with
  | Malloc size => lz_malloc me size
  | Calloc num size => lz_calloc me num size
  | Realloc ptr size => lz_realloc me ptr size
  | Memalign k size => lz_memalign me (2 ^ k) size
  | Free ptr => lz_free me ptr;; mret 0
  | UsableSize ptr => lz_malloc_usable_size ptr
  | Read ptr i => check_mapped (ptr + i);; fetch (fun s => byte_of s (ptr + i))
  | Write ptr i v =>
      check_mapped (ptr + i);; modify (fun s => set_h_bytes (<[ptr + i := v]> (h_bytes s)) s);; mret 0
  | ThreadExit => thread_exit me;; mret 0
  | Gc => lzmalloc_gc me;; mret 0
  end.

(** The view of a state with these heaps and direct mappings. *)
Record shown (s : state) (W : gmap Z heap_ghost) (D : gmap Z direct_ghost) (V : view) : Prop := {
  sh_objs : forall a n, in_use s W D a n <-> cv_objs V !! a = Some n;
  sh_lost : forall a, a ∈ cv_lost V <-> is_Some (cv_objs V !! a) /\ unindexed s a;
  sh_log : cv_log V = st_refused s;
  sh_bytes : forall a n x, cv_objs V !! a = Some n -> a <= x < a + n -> byte_of s x = cv_byte V x
}.

(** The state of the process shows the view to its client. *)
Definition shows (s : state) (V : view) : Prop := exists W D G P, world s W D G P /\ shown s W D V.

(** The view of these objects that a state shows. *)
Definition view_of (s : state) (objs : gmap Z Z) : view :=
  mk_view objs (filter (unindexed s) (dom objs)) (st_refused s) (byte_of s).

Lemma shown_of s W D objs : (forall a n, in_use s W D a n <-> objs !! a = Some n) -> shown s W D (view_of s objs).
Proof.
  intros Hu. constructor; [done| |done|done]. intros a. cbn. rewrite elem_of_filter, elem_of_dom. tauto.
Qed.

Lemma lost_unindexed s W D V a n : shown s W D V -> cv_objs V !! a = Some n -> a ∈ cv_lost V <-> unindexed s a.
Proof. intros Hs Ha. rewrite (sh_lost _ _ _ _ Hs). split; [by intros [_ ?]|]. split; [by exists n|done]. Qed.

End spec.

Section refinement.
Context `{EnvLaws}.

Lemma shown_ok s W D G P V : world s W D G P -> shown s W D V -> lost_ok V.
Proof.
  intros Hw [Hu Hl Hg _] a [[n Hn] Hx]%Hl. split; [by exists n|]. rewrite Hg.
  eapply unindexed_refused; [exact Hw|by apply Hu|done].
Qed.

Lemma shows_ok s V : shows s V -> lost_ok V.
Proof. intros (W & D & G & P & Hw & Hs). by eapply shown_ok. Qed.

(** A refusal in the run is one in the views. *)
Lemma shown_refused s W D V s' objs : shown s W D V -> refused_since s s' -> refused V (view_of s' objs).
Proof. intros [_ _ El _] (e & l & E). exists e, l. by rewrite El. Qed.

(** The view after a call. *)
Lemma effect_shows s V W D dead new s' W' D' G' P' objs' :
  shown s W D V -> effect s W D dead new s' W' D' G' P' -> (forall a n, new a n -> ~ dead a) ->
  (forall a n, objs' !! a = Some n <-> cv_objs V !! a = Some n /\ ~ dead a \/ new a n) ->
  let V' := view_of s' objs' in shows s' V' /\ keeps V V' /\ extends V V'.
Proof.
  intros Hs [Hw Hu' Hb' Hf He Hlg] Hnd Ho V'. destruct (Hs) as [Hu Hl Elg Hb].
  assert (shown s' W' D' V') as Hs'.
  { apply shown_of. intros a n. by rewrite Hu', Hu, Ho. }
  assert (forall a n, objs' !! a = Some n -> ~ dead a) as Hlive.
  { intros a n [[_ ?]|Hn]%Ho; [done|by eapply Hnd]. }
  split_and!; [by exists W', D', G', P'| |].
  - intros a n x Ha Ha' Hx. cbn in *. rewrite <- (Hb a n x Ha Hx). unfold byte_of. f_equal.
    apply (Hb' a n x); [by apply Hu|by eapply Hlive|done].
  - constructor; [|by rewrite Elg|by eapply shown_ok]. intros a [n Ha] [m Ha'].
    rewrite (lost_unindexed s' W' D' V' a m Hs' Ha'), (lost_unindexed s W D V a n Hs Ha).
    apply (He a n); [by apply Hu|by eapply Hlive].
Qed.

(** Calls that leave the objects alone. *)
Lemma effect_shows_same s V W D s' W' D' G' P' :
  shown s W D V -> effect s W D nothing nothing_new s' W' D' G' P' ->
  let V' := view_of s' (cv_objs V) in shows s' V' /\ keeps V V' /\ extends V V'.
Proof.
  intros Hs He. eapply effect_shows; [done|exact He|by intros a n []|].
  intros a n. unfold nothing, nothing_new. tauto.
Qed.

(** Calls that leave the whole state alone. *)
Lemma state_shows_same s V W D G P : world s W D G P -> shown s W D V -> shows s V /\ keeps V V /\ extends V V.
Proof. intros Hw Hs. split_and!; [by exists W, D, G, P|done|]. apply extends_refl. by eapply shown_ok. Qed.

#[local] Instance nothing_dec a : Decision (nothing a).
Proof. unfold nothing. apply _. Defined.

(** A new object finds its place. *)
Lemma effect_places s V W D dead `{!forall a, Decision (dead a)} r n size s' W' D' G' P' :
  shown s W D V -> effect s W D dead (fresh_at r n) s' W' D' G' P' -> r <> NULL -> size <= n -> ~ dead r ->
  (forall a m, cv_objs V !! a = Some m -> dead a -> a + m <= r \/ r + n <= a) ->
  places (cv_objs V) size r n.
Proof.
  intros [Hu _ _ _] He Hr Hn Hdr Hd. pose proof (ef_world _ _ _ _ _ _ _ _ _ _ He) as Hw'.
  assert (in_use s' W' D' r n) as Hrn by (apply (ef_in_use _ _ _ _ _ _ _ _ _ _ He); by right).
  assert (cv_objs V !! r = None) as Hnone.
  { destruct (cv_objs V !! r) as [m|] eqn:E; [|done]. apply Hu in E.
    exfalso. by eapply (ef_fresh _ _ _ _ _ _ _ _ _ _ He r n m). }
  split_and!; [done|by eapply (in_use_range _ _ _ _ _ _ _ Hw' Hrn)|done|done|]. intros a m Ha.
  destruct (decide (dead a)) as [?|Hda]; [by apply Hd|].
  assert (in_use s' W' D' a m) as Ha' by (apply (ef_in_use _ _ _ _ _ _ _ _ _ _ He); left; split; [by apply Hu|done]).
  destruct (in_use_disjoint _ _ _ _ _ _ _ _ _ Hw' Ha' Hrn) as [[-> _]|?]; [congruence|done].
Qed.

Lemma effect_grants s V W D r n size s' W' D' G' P' :
  shown s W D V -> effect s W D nothing (fresh_at r n) s' W' D' G' P' -> size <= n ->
  (r = NULL -> refused_since s s') ->
  exists V', shows s' V' /\ keeps V V' /\ extends V V' /\ grants V size r V' /\ cv_byte V' = byte_of s'.
Proof.
  intros Hs He Hn Hnull. destruct (decide (r = NULL)) as [->|Hr].
  - exists (view_of s' (cv_objs V)).
    destruct (effect_shows s V W D nothing (fresh_at NULL n) s' W' D' G' P' (cv_objs V)) as (? & ? & ?); [done|done|done| |].
    + intros a m. unfold nothing, fresh_at. tauto.
    + split_and!; [done..| |done]. left. split_and!; [done..|]. by eapply shown_refused; [|apply Hnull].
  - assert (places (cv_objs V) size r n) as Hp by (by eapply (effect_places s V W D nothing)).
    exists (view_of s' (<[r := n]> (cv_objs V))).
    destruct (effect_shows s V W D nothing (fresh_at r n) s' W' D' G' P' (<[r := n]> (cv_objs V))) as (? & ? & ?); [done|done|done| |].
    + destruct Hp as (_ & _ & Hnone & _).
      intros a m. rewrite lookup_insert_Some. unfold nothing, fresh_at. split; [|intros [[Ha _]|(_ & -> & ->)]; [right|by left]].
      * intros [[<- <-]|[? ?]]; [by right|left; auto].
      * split; [|done]. intros <-. congruence.
    + split_and!; [done..| |done]. right. by exists n.
Qed.

Lemma lookup_delete_iff (m : gmap Z Z) i a n : delete i m !! a = Some n <-> m !! a = Some n /\ a <> i.
Proof. rewrite lookup_delete_Some. naive_solver. Qed.

Lemma free_shows s V W D G P a n s' :
  world s W D G P -> shown s W D V -> cv_objs V !! a = Some n -> free_post s W D a s' ->
  exists V', shows s' V' /\ keeps V V' /\ extends V V' /\ releases V a V'.
Proof.
  intros Hw Hs Ha. unfold free_post, releases. rewrite <- (decide_ext _ _ _ _ (lost_unindexed s W D V a n Hs Ha)).
  case_decide.
  - intros ->. destruct (state_shows_same s V W D G P Hw Hs) as (? & ? & ?). by exists V.
  - intros (W' & D' & G' & P' & He). exists (view_of s' (delete a (cv_objs V))).
    destruct (effect_shows s V W D (fun y => y = a) nothing_new s' W' D' G' P' (delete a (cv_objs V))) as (? & ? & ?);
      [done|done|by intros ? ? []| |done].
    intros b k. rewrite lookup_delete_iff. unfold nothing_new. tauto.
Qed.

(** A move to a new object: the objects with the new one and without the old. *)
Lemma move_shows s V W D a n r m size s' W' D' G' P' :
  shown s W D V -> effect s W D (fun y => y = a) (fresh_at r m) s' W' D' G' P' -> cv_objs V !! a = Some n ->
  r <> NULL -> size <= m -> r <> a -> (a + n <= r \/ r + m <= a) ->
  let V' := view_of s' (delete a (<[r := m]> (cv_objs V))) in
  shows s' V' /\ keeps V V' /\ extends V V' /\ places (cv_objs V) size r m.
Proof.
  intros Hs He Ha Hr Hm Hra Hap V'.
  assert (places (cv_objs V) size r m) as Hp.
  { eapply (effect_places s V W D (fun y => y = a)); [done|exact He|done..|]. intros b k Hb ->. rewrite Ha in Hb. by injection Hb as <-. }
  destruct (effect_shows s V W D (fun y => y = a) (fresh_at r m) s' W' D' G' P'
    (delete a (<[r := m]> (cv_objs V)))) as (? & ? & ?); [done|done|by intros b k (_ & -> & _)| |done].
  destruct Hp as (_ & _ & Hnone & _). intros b k. rewrite lookup_delete_iff, lookup_insert_Some. unfold fresh_at. naive_solver.
Qed.

Lemma realloc_shows s V W D G P a n size r s' :
  world s W D G P -> shown s W D V -> cv_objs V !! a = Some n -> realloc_post s W D a n size r s' ->
  exists V', shows s' V' /\ keeps V V' /\ extends V V' /\ reallocs V a n size r V'.
Proof.
  intros Hw Hs Ha. unfold realloc_post, reallocs. rewrite <- (decide_ext _ _ _ _ (lost_unindexed s W D V a n Hs Ha)).
  destruct (state_shows_same s V W D G P Hw Hs) as (? & ? & ?).
  case_decide; [intros [-> ->]; by exists V|]. destruct (Z.leb_spec size n); [intros [-> ->]; by exists V|].
  intros (m & W' & D' & G' & P' & Hm & [(-> & Hlog & He)|(Hr & Hap & Hcp & He)]).
  - destruct (effect_shows_same s V W D s' W' D' G' P') as (? & ? & ?); [done..|].
    eexists. split_and!; [done..|]. left. split_and!; [done..|by eapply shown_refused].
  - destruct (in_use_range _ _ _ _ _ _ _ Hw (proj2 (sh_objs _ _ _ _ Hs a n) Ha)) as (_ & Hn & _).
    destruct (move_shows s V W D a n r m size s' W' D' G' P') as (? & ? & ? & ?); try done; [lia|].
    eexists. split_and!; [done..|]. right. exists m. split_and!; [done..|]. intros i Hi. cbn. unfold byte_of.
    rewrite Hcp by done. apply (sh_bytes _ _ _ _ Hs a n); [done|lia].
Qed.

(** ** Every call *)

Section calls.
Context (me : Z) (V : view) (s : state) (W : gmap Z heap_ghost) (D : gmap Z direct_ghost).
Context (G : list Z) (P : list (list Z)).
Hypothesis Hw : world s W D G P.
Hypothesis Hv : shown s W D V.

Definition answered (c : call) (r : Z) (s' : state) : Prop := exists V', shows s' V' /\ answers V c r V'.

Lemma perform_malloc size : 0 <= size <= 2 ^ 46 ->
  wpt (tlh_refused s) (lz_malloc me size) (fun r s' =>
    exists V', shows s' V' /\ keeps V V' /\ extends V V' /\ grants V (Z.max 1 size) r V') s.
Proof.
  intros Hs. eapply wpt_mono; [by eapply wpt_malloc|]. intros r s' (n & W' & D' & G' & P' & Hn & He & Hr & _).
  destruct (effect_grants s V W D r n (Z.max 1 size) s' W' D' G' P') as (V' & ? & ? & ? & ? & _); [done..|]. eauto 6.
Qed.

Lemma perform_free ptr : is_Some (cv_objs V !! ptr) ->
  wpt (tlh_refused s) (lz_free me ptr) (fun _ s' =>
    exists V', shows s' V' /\ keeps V V' /\ extends V V' /\ releases V ptr V') s.
Proof.
  intros [n Hn]. eapply wpt_mono; [eapply (wpt_free me ptr n); [exact Hw|by apply Hv]|].
  intros [] s' Hf. by eapply free_shows.
Qed.

Lemma object_nonnull ptr n : cv_objs V !! ptr = Some n -> ptr <> NULL.
Proof. intros Hn. apply Hv in Hn. destruct (in_use_range _ _ _ _ _ _ _ Hw Hn) as (? & _ & _). lia. Qed.

Lemma perform_realloc ptr size : allowed V (Realloc ptr size) ->
  wpt (tlh_refused s) (perform me (Realloc ptr size)) (answered (Realloc ptr size)) s.
Proof.
  intros [Hs Hp]. cbn [perform]. unfold answered, answers. destruct Hp as [->|[n Hn]].
  - change (lz_realloc me NULL size) with (lz_malloc me size).
    eapply wpt_mono; [by apply perform_malloc|]. intros r s' (V' & ? & ? & ? & ?). exists V'. done.
  - pose proof (object_nonnull ptr n Hn) as H0'. zfalse (ptr =? NULL). destruct (Z.eqb_spec size 0) as [->|Hsz].
    + unfold lz_realloc. zfalse (ptr =? NULL). change (0 =? 0) with true. cbv iota. apply wpt_bind.
      eapply wpt_mono; [by apply perform_free|]. intros [] s' (V' & ? & ? & ? & ?). apply wpt_wp. wp_step. by exists V'.
    + eapply wpt_mono; [eapply (wpt_realloc me ptr n); [exact Hw|by apply Hv|lia]|]. intros r s' Hr.
      destruct (realloc_shows s V W D G P ptr n size r s') as (V' & ? & ? & ? & ?); [done..|]. exists V'. eauto 6.
Qed.

Lemma perform_access ptr i n : cv_objs V !! ptr = Some n -> 0 <= i < n -> mapped s (ptr + i) = true.
Proof. intros Hn Hi. eapply in_use_mapped; [exact Hw|by apply Hv|lia]. Qed.

Lemma perform_usable ptr : is_Some (cv_objs V !! ptr) ->
  wpt (tlh_refused s) (perform me (UsableSize ptr)) (answered (UsableSize ptr)) s.
Proof.
  intros [n Hn]. apply wpt_wp. eapply wp_usable_size; [exact Hw|by apply Hv|].
  destruct (state_shows_same s V W D G P Hw Hv) as (? & ? & ?). exists V. split; [done|]. split; [done|].
  split_and!; [done..|]. rewrite (decide_ext _ _ _ _ (lost_unindexed s W D V ptr n Hv Hn)). by case_decide.
Qed.

Lemma perform_write ptr i v : allowed V (Write ptr i v) ->
  wpt (tlh_refused s) (perform me (Write ptr i v)) (answered (Write ptr i v)) s.
Proof.
  intros [(n & Hn & Hi) _]. cbn [perform]. apply wpt_wp. wp_step. wp_step; [by eapply perform_access|]. wp_steps.
  set (m := <[ptr + i := v]> (h_bytes s)).
  exists (with_bytes (byte_of (set_h_bytes m s)) V). split.
  - exists W, D, G, P. split.
    + eapply world_write; [exact Hw|by apply Hv|]. intros x Hx. unfold m. rewrite lookup_insert_ne; [done|lia].
    + destruct Hv. by constructor.
  - cbn. pose proof (shown_ok s W D G P V Hw Hv). split; [by constructor|]. split_and!; [done| |].
    + unfold byte_of, m. cbn. by rewrite lookup_insert_eq.
    + intros a k x Ha Hx Hne. rewrite <- (sh_bytes _ _ _ _ Hv a k x Ha Hx). unfold byte_of, m. cbn. by rewrite lookup_insert_ne.
Qed.

End calls.

Lemma wpt_perform me c V s :
  shows s V -> allowed V c ->
  wpt (tlh_refused s) (perform me c) (fun r s' => exists V', shows s' V' /\ answers V c r V') s.
Proof.
  intros (W & D & G & P & Hw & Hv) Hc. destruct (state_shows_same s V W D G P Hw Hv) as (Hs & Hk & Hx).
  destruct c; cbn [perform answers allowed] in *.
  - eapply wpt_mono; [by eapply perform_malloc|]. intros r s' (V' & ? & ? & ? & ?). exists V'. done.
  - destruct Hc as (H1' & H2' & H3'). eapply wpt_mono; [by eapply wpt_calloc|].
    intros r s' (n & W' & D' & G' & P' & Hn & He & Hnull & Hz).
    destruct (effect_grants s V W D r n (Z.max 1 (num * size)) s' W' D' G' P') as (V' & ? & ? & ? & ? & Eb); [done..|].
    exists V'. split; [done|]. split; [done|]. split_and!; [done..|]. intros Hr i Hi. rewrite Eb. apply Hz; [done|lia].
  - eapply (perform_realloc me V s W D G P); done.
  - destruct Hc as [H1' H2']. eapply wpt_mono; [by eapply wpt_memalign|].
    intros r s' (n & W' & D' & G' & P' & Hn & He & Hnull & Hal).
    destruct (effect_grants s V W D r n size s' W' D' G' P') as (V' & ? & ? & ? & ? & _); [done..|]. exists V'. done.
  - apply wpt_bind. destruct Hc as [->|[n Hn]].
    + apply wpt_wp. unfold lz_free. change (NULL =? NULL) with true. cbv iota. wp_step. apply wpt_wp. wp_step. by exists V.
    + pose proof (object_nonnull V s W D G P Hw Hv ptr n Hn). eapply wpt_mono; [by eapply perform_free|].
      intros [] s' (V' & ? & ? & ? & ?). apply wpt_wp. wp_step. exists V'. split; [done|]. split; [done|]. by zfalse (ptr =? NULL).
  - by apply (perform_usable me V s W D G P).
  - destruct Hc as (n & Hn & Hi). apply wpt_wp. wp_step. wp_step; [by eapply (perform_access V s W D G P)|].
    wp_step. exists V. split; [done|]. split; [done|]. split_and!; [done..|]. apply (sh_bytes _ _ _ _ Hv ptr n); [done|lia].
  - eapply (perform_write me V s W D G P); done.
  - apply wpt_bind, wpt_wp. eapply wp_thread_exit; [exact Hw|]. intros s' W' He _. apply wpt_wp. wp_step.
    destruct (effect_shows_same s V W D s' W' D G P) as (? & ? & ?); [done..|]. by eexists.
  - apply wpt_bind, wpt_wp. eapply wp_gc; [exact Hw|]. intros s' W' G' P' He. apply wpt_wp. wp_step.
    destruct (effect_shows_same s V W D s' W' D G' P') as (? & ? & ?); [done..|]. by eexists.
Qed.

(** ** Client programs *)

(** A program that decides each call from the answers so far. *)
Inductive prog :=
  | Finish
  | Step (me : Z) (c : call) (k : Z -> prog).

Fixpoint run (p : prog) : M unit :=
  match p with
  | Finish => mret tt
  | Step me c k => r ← perform me c; run (k r)
  end.

(** The program respects the interface, whatever the allocator answers. *)
Fixpoint behaves (p : prog) (V : view) : Prop :=
  match p with
  | Finish => True
  | Step me c k => allowed V c /\ forall r V', answers V c r V' -> behaves (k r) V'
  end.

(** The abstract allocator may leave view [V'] after the program. *)
Fixpoint ends (p : prog) (V V' : view) : Prop :=
  match p with
  | Finish => V' = V
  | Step me c k => exists r V1, answers V c r V1 /\ ends (k r) V1 V'
  end.

(** The view of a process without objects. *)
Definition start_view (log : list (nat * Z)) : view := mk_view ∅ ∅ log (fun _ => 0).

Lemma shows_empty s f : world s ∅ ∅ [] (replicate 16 []) -> shows s (mk_view ∅ ∅ (st_refused s) f).
Proof.
  intros Hw. exists ∅, ∅, [], (replicate 16 []). split; [done|]. constructor; cbn; [| |done|].
  - intros a n. rewrite lookup_empty. split; [|done]. intros Hu. by apply in_use_empty in Hu.
  - intros a. rewrite lookup_empty, elem_of_empty. split; [done|]. by intros [[? ?] _].
  - intros a n x Ha. by rewrite lookup_empty in Ha.
Qed.

Lemma shows_log s V : shows s V -> cv_log V = st_refused s.
Proof. intros (W & D & G & P & _ & Hv). apply Hv. Qed.

Lemma wpt_run p : forall V s, shows s V -> behaves p V ->
  wpt (tlh_refused s) (run p) (fun _ s' => exists V', shows s' V' /\ ends p V V') s.
Proof.
  induction p as [|me c k IH]; intros V s Hs Hp; cbn [run behaves ends] in *.
  - apply wpt_wp. wp_step. eauto.
  - destruct Hp as [Hc Hk]. apply wpt_bind. eapply wpt_mono; [by apply (wpt_perform me c V)|].
    intros r s1 (V1 & Hs1 & Ha). eapply wpt_mono.
    + eapply wpt_weaken; [apply IH; [exact Hs1|by apply Hk]|]. intros s'. apply tlh_refused_after.
      pose proof (ex_log _ _ (proj1 Ha)) as Hl. by rewrite (shows_log s V), (shows_log s1 V1) in Hl.
    + intros [] s' (V' & ? & ?). eauto 6.
Qed.

End refinement.

(** ** Theorems *)

Section theorems.
Context `{EnvLaws}.

(** C3. Whole-program refinement: from the start of a process, for every client
    program (any number of threads taking turns, each call decided from the
    answers so far) that frees, resizes and accesses only live objects, the
    initialisation and all calls run to completion without a fault, an abort,
    a lock that stays taken or a loop bound exceeded, and end in a state that
    shows objects, contents and refusals the abstract allocator permits; the
    only other outcome is a trap, at a request of this run for the pages of a
    heap that the kernel has just refused. *)
Theorem client_refines s p :
  at_start s -> (forall log, behaves p (start_view log)) ->
  wpt (tlh_refused s) (lz_system_init;; run p)
    (fun _ s' => exists log V', st_refused s `suffix_of` log /\ shows s' V' /\ ends p (start_view log) V') s.
Proof.
  intros Hs Hp. apply wpt_bind, wpt_wp, wp_system_init; [done|]. intros s1 Hw Hl.
  eapply wpt_mono; [eapply wpt_weaken; [apply wpt_run; [by apply shows_empty|apply Hp]|]|].
  - intros s'. by apply tlh_refused_after.
  - intros [] s' (V' & ? & ?). eauto.
Qed.

(** C6. Refinement of each call: in any state that shows a view, a call the
    client may make returns an answer and leaves a state that shows a view the
    abstract allocator permits for that answer: new objects are large enough,
    aligned and disjoint from all others, NULL is returned only when the kernel
    refused a request of this very call, released objects are gone whichever
    thread and heap they came from (an object is lost to the entry points only
    if the index has no entry for it, which takes a refused leaf), and all
    others keep their contents; a trap takes a refused request of this call. *)
Theorem call_refines me c V s :
  shows s V -> allowed V c ->
  wpt (tlh_refused s) (perform me c) (fun r s' => exists V', shows s' V' /\ answers V c r V') s.
Proof. apply wpt_perform. Qed.

(** What a client holds is memory-safe: every live object starts at a
    multiple of 16 in user space, has at least one byte, all of it mapped, and
    two live objects are the same or disjoint, across all heaps and large
    objects of the process. *)
Theorem objects_disjoint_everywhere V s a n b m :
  shows s V -> cv_objs V !! a = Some n -> cv_objs V !! b = Some m ->
  a mod 16 = 0 /\ 0 < a < 2 ^ 47 /\ 0 < n /\ (forall x, a <= x < a + n -> mapped s x = true) /\
  (a = b /\ n = m \/ a + n <= b \/ b + m <= a).
Proof.
  intros (W & D & G & P & Hw & [Hu _ _ _]) Ha%Hu Hb%Hu.
  destruct (in_use_range _ _ _ _ _ _ _ Hw Ha) as (? & ? & ?). split_and!; [done|lia|lia|done| |].
  - intros x Hx. eapply in_use_mapped; [exact Hw|exact Ha|done].
  - by eapply in_use_disjoint.
Qed.

End theorems.

(** ** Witnesses *)

(** Two threads: heap 8192 of thread 1 owns the slab of [four_state], whose
    chunk is registered in the index; thread 2 holds block 2 in its batch. *)
Definition live_state : state :=
  set_st_mapped [(8192, 16384); (0x7f0000000000, 0x7f0000020000); (0x7f0000200000, 0x7f0000400000)]
    (set_h_leaves {[ 0x7f0000000000 := {[ 1 := 0x7f0000200000 ]} ]}
      (set_g_rtree_root {[ 4064 := 0x7f0000000000 ]}
        (set_tls_tlh_ptr (<[ 1 := 8192 ]> {[ 2 := 12288 ]}) four_state))).
Definition live_world : gmap Z heap_ghost :=
  <[ 8192 := mk_hg four_ghost [] [slab_base + 16] [] ]> {[ 12288 := mk_hg ∅ [] [] [slab_base + 32] ]}.
Definition live_view : view := view_of live_state {[ slab_base + 48 := 16 ]}.

Lemma live_lookup o w : live_world !! o = Some w ->
  o = 8192 /\ w = mk_hg four_ghost [] [slab_base + 16] [] \/ o = 12288 /\ w = mk_hg ∅ [] [] [slab_base + 32].
Proof.
  unfold live_world. rewrite lookup_insert_Some, lookup_singleton_Some. naive_solver.
Qed.

Lemma live_rtree : rtree_inv live_state.
Proof.
  assert (forall i a, g_rtree_root live_state !! i = Some a -> i = 4064 /\ a = 0x7f0000000000) as Hr.
  { intros i a. change (g_rtree_root live_state) with ({[ 4064 := 0x7f0000000000 ]} : gmap Z Z).
    by intros [<- <-]%lookup_singleton_Some. }
  constructor.
  - intros i a [-> ->]%Hr _. split; [done|]. intros x Hx. unfold mapped. unfold sizeof_leaf, LZ_RTREE_L2_ENTRIES in Hx.
    change (8 * (1 <<. LZ_RTREE_L2_BITS)) with 131072 in Hx. cbn. lia.
  - intros i j a [-> _]%Hr [-> _]%Hr _. done.
Qed.

Lemma live_owner : mail_heap live_state 8192 four_ghost [] [] (replicate 16 []) [slab_base + 16] /\
  forall a n, object live_state four_ghost [] a n <-> object four_state four_ghost [] a n.
Proof.
  apply (mail_heap_frame four_state live_state 8192 four_owner four_ghost [] [] (replicate 16 [])); try done.
  - apply four_mail_ok.
  - by apply vmm_inv_boot.
  - apply live_rtree.
  - intros d [Hd|[g [Hd _]%four_lookup]]; [by apply not_elem_of_nil in Hd|]. assert (d = 0x7f0000200000) as -> by lia.
    split; [|apply not_elem_of_nil]. split_and!; try done. split_and!; [done..|]. intros x Hx. unfold mapped. cbn. lia.
  - intros t Ht. injection Ht as <-. done.
  - by left.
Qed.

Lemma live_sender : mail_heap live_state 12288 ∅ [] [] (replicate 16 []) [].
Proof.
  apply (fresh_heap_ok live_state [] (replicate 16 []) 12288 four_sender); try done.
  - by apply vmm_inv_boot.
  - apply live_rtree.
  - by left.
Qed.

Lemma live_batch : batch_for live_state 12288 8192 [slab_base + 32] /\ pending live_state four_ghost [] [slab_base + 32].
Proof.
  destruct four_sending as [Hm Hb Hp _]. split; [exact Hb|].
  eapply pending_frame; [apply Hm|exact Hp|done|apply live_owner].
Qed.

Lemma live_world_ok : world live_state live_world ∅ [] (replicate 16 []).
Proof.
  constructor; [by apply vmm_inv_boot|apply live_rtree|cbn; lia|..]; [..|by left|].
  - by intros o w [[-> ->]|[-> ->]]%live_lookup.
  - intros o w [[-> ->]|[-> ->]]%live_lookup; [apply live_owner|apply live_sender].
  - intros o w [[-> ->]|[-> ->]]%live_lookup; cbn [hg_batch].
    + exists NULL. split; [|done]. exists four_owner. split_and!; [done|done|cbn; lia|done|done].
    + exists 8192. split; [apply live_batch|]. intros _. split; [done|]. eexists. split; [done|]. apply live_batch.
  - intros o w a [[-> ->]|[-> ->]]%live_lookup; cbn [hg_batch]; [intros Ha; by apply not_elem_of_nil in Ha|].
    intros ->%list_elem_of_singleton. split.
    + intros u v [[-> ->]|[-> ->]]%live_lookup; cbn [hg_mail]; [|apply not_elem_of_nil].
      intros E%list_elem_of_singleton. unfold slab_base in E. lia.
    + intros u v [[-> ->]|[-> ->]]%live_lookup; cbn [hg_batch]; [|done]. intros Ha. by apply not_elem_of_nil in Ha.
  - intros base v Hb. by rewrite lookup_empty in Hb.
  - intros b v b' v' Hb. by rewrite lookup_empty in Hb.
  - intros base v o w Hb. by rewrite lookup_empty in Hb.
  - intros o w d [[-> ->]|[-> ->]]%live_lookup [Hd|[g Hd]]; cbn in Hd;
      [by apply not_elem_of_nil in Hd| |by apply not_elem_of_nil in Hd|by rewrite lookup_empty in Hd].
    apply four_lookup in Hd as [Hd _]. assert (d = 0x7f0000200000) as -> by lia. left. by vm_compute.
  - assert (forall me, me = 1 /\ tls_of me live_state = 8192 \/ me = 2 /\ tls_of me live_state = 12288 \/
      tls_of me live_state = NULL) as Htls.
    { intros me. unfold tls_of. change (tls_tlh_ptr live_state) with (<[ 1 := 8192 ]> {[ 2 := 12288 ]} : gmap Z Z).
      rewrite lookup_insert. case_decide; [subst; by left|]. rewrite lookup_singleton. case_decide; [subst; auto|auto]. }
    constructor; [done| | |exists []; split_and!; [done|constructor|intros z Hz; by apply not_elem_of_nil in Hz]].
    + intros me. destruct (Htls me) as [[_ ->]|[[_ ->]| ->]]; [by right|by right|by left].
    + intros me me'. destruct (Htls me) as [[-> ->]|[[-> ->]| ->]], (Htls me') as [[-> ->]|[[-> ->]| ->]]; auto; lia.
Qed.

(** Block 3 is what the client holds. *)
Lemma live_shows : shows live_state live_view.
Proof.
  exists live_world, ∅, [], (replicate 16 []). split; [apply live_world_ok|]. apply shown_of. intros a n.
  rewrite lookup_singleton_Some. split.
  - intros [(o & w & [[-> ->]|[-> ->]]%live_lookup & Ha & Hq)|(b & v & Hb & _)]; [| |by rewrite lookup_empty in Hb].
    + destruct Ha as [(p & g & k & [-> ->]%four_lookup & [Hk Hkf] & -> & ->)|(m & (p & sp & i & Hp & _) & _)];
        [|by apply not_elem_of_nil in Hp].
      cbn in Hk, Hkf. rewrite list_elem_of_singleton in Hkf. change (sg_size four_blocks) with 16.
      assert (blk 0x7f0000200040 four_blocks k = slab_base + k * 16) as E by done. rewrite E in *.
      assert (k = 1 \/ k = 2 \/ k = 3) as [->|[->| ->]] by lia; [exfalso; apply Hq|exfalso; apply Hq|done].
      * exists 8192. eexists. split; [done|]. left. by apply list_elem_of_singleton.
      * exists 12288. eexists. split; [done|]. right. by apply list_elem_of_singleton.
    + by apply no_object in Ha.
  - intros [<- <-]. left. exists 8192. eexists. split; [done|]. split; [apply live_owner, (four_object 3); lia|].
    intros (o & w & [[-> ->]|[-> ->]]%live_lookup & [Ha|Ha]); cbn in Ha;
      first [by apply not_elem_of_nil in Ha|apply list_elem_of_singleton in Ha; unfold slab_base in Ha; lia].
Qed.

(** Thread 1 allocates, writes, reads back and grows; thread 2 frees. *)
Definition demo : prog :=
  Step 1 (Malloc 100) (fun p => if p =? NULL then Finish else
    Step 1 (Write p 5 42) (fun _ => Step 1 (Read p 5) (fun v => Step 1 (Realloc p 200) (fun q =>
      if q =? NULL then Finish else Step 2 (Free q) (fun _ => Finish))))).

Lemma demo_behaves log : behaves demo (start_view log).
Proof.
  cbn [demo behaves allowed]. split; [lia|]. intros p V1 [_ [Hg _]]. destruct (Z.eqb_spec p NULL) as [|Hp]; [done|].
  destruct Hg as [[? _]|(n & (_ & _ & _ & Hn & _) & E1)]; [done|]. cbn [behaves allowed].
  assert (cv_objs V1 !! p = Some n) as L1 by (rewrite E1; apply lookup_insert_eq).
  split; [split; [exists n; split; [done|lia]|lia]|]. intros r2 V2 (_ & E2 & _).
  split; [exists n; rewrite E2; split; [done|lia]|]. intros r3 V3 (_ & _ & E3 & _).
  split; [split; [lia|right; by rewrite E3, E2, L1]|]. intros q V4 [_ [_ Hr]].
  destruct (Z.eqb_spec q NULL) as [|Hq]; [done|]. cbn [behaves allowed]. split; [|done]. right.
  rewrite (proj2 (Z.eqb_neq p NULL) Hp) in Hr. change (200 =? 0) with false in Hr. cbv iota in Hr.
  destruct Hr as (k & Hk & Hr). by eapply realloc_live.
Qed.

Lemma client_refines_witness :
  wpt (tlh_refused boot_state) (lz_system_init;; run demo)
    (fun _ s' => exists log V', st_refused boot_state `suffix_of` log /\ shows s' V' /\ ends demo (start_view log) V')
    boot_state.
Proof. apply client_refines; [by constructor|apply demo_behaves]. Defined.

(** Thread 2 frees the object of thread 1. *)
Lemma call_refines_witness :
  wpt (tlh_refused live_state) (perform 2 (Free (slab_base + 48)))
    (fun r s' => exists V', shows s' V' /\ answers live_view (Free (slab_base + 48)) r V') live_state.
Proof.
  apply call_refines; [apply live_shows|]. right. exists 16. apply lookup_singleton_eq.
Defined.

Lemma objects_disjoint_everywhere_witness :
  let a := slab_base + 48 in
  a mod 16 = 0 /\ 0 < a < 2 ^ 47 /\ 0 < 16 /\ (forall x, a <= x < a + 16 -> mapped live_state x = true) /\
  (a = a /\ 16 = 16 \/ a + 16 <= a \/ a + 16 <= a).
Proof. apply (objects_disjoint_everywhere live_view); [apply live_shows|apply lookup_singleton_eq..]. Defined.
