(* ===== verification/TypeSpec.v ===== *)
(** * Machine ranges

    Integers of the model are unbounded; the bookkeeping of chunks, slabs, spans
    and heaps stays inside the C types of its fields in every state that a
    client program can reach, so no count of blocks, pages, chunks or queued
    objects wraps, no table is indexed outside its bounds, and every list of a
    heap starts at a node of its kind.  The statistics (byte batches, published
    counters) and thread numbers are not part of it: the batches are the subject
    of Telemetry.v, and thread numbers wrap by design. *)

From S2P Require Import Prelude Common Sizes Machine Wp Dll Testbed Security Rtree Vmm VmmSpec.
From S2P Require Import Provision Telemetry Span SpanSpec Slab Tlh SlabSpec BinSpec HeapSpec.
From S2P Require Import TlhSpec RemoteSpec Lzmalloc LzmallocSpec WorldSpec WorldSend WorldLife WorldDirect.
From S2P Require Import ApiSpec ApiLife ClientSpec.

(** Addresses of user space, or NULL. *)
Definition address (x : Z) : Prop := 0 <= x < 2 ^ 47.

(** `lz_slab_t`: 32-bit counts that bound each other, a class of the table. *)
Record slab_typed (sl : lz_slab_t) : Prop := {
  sy_memory : address (memory_base sl) /\ memory_end sl <= 2 ^ 47 /\ memory_base sl < memory_end sl;
  sy_bump : bump_ptr sl = NULL \/ memory_base sl <= bump_ptr sl <= memory_end sl;
  sy_free : free_list_head sl = NULL \/ memory_base sl <= free_list_head sl < memory_end sl;
  sy_class : 0 <= size_class sl < LZ_MAX_SIZE_CLASSES;
  sy_block : 16 <= block_size sl <= LZ_MAX_SLAB_OBJ_SIZE;
  sy_count : 0 <= used_objects sl <= max_objects sl /\ max_objects sl < 2 ^ 32
}.

(** `lz_span_t`: eight 64-bit words, 512 16-bit lengths. *)
Record span_typed (sp : lz_span_t) : Prop := {
  py_bitmap : length (free_bitmap sp) = 8%nat /\ Forall (fun w => 0 <= w < 2 ^ 64) (free_bitmap sp);
  py_table : length (alloc_size_pages sp) = 512%nat /\ Forall (fun n => 0 <= n < 2 ^ 16) (alloc_size_pages sp);
  py_used : 0 <= used_pages sp <= 512
}.

Section types.
Context `{EnvLaws}.

(** `lz_tlh_t`: the bins with the heads of their lists, the span list, the
    mailbox, the batch and the slot, for a heap with these slabs and spans. *)
Record tlh_typed (s : state) (W : gmap Z heap_ghost) (w : heap_ghost) (t : lz_tlh_t) : Prop := {
  ty_bins : length (bins t) = 88%nat;
  ty_heads : forall b p, b ∈ bins t -> p ∈ [current_slab b; partial_list b; full_list b] ->
    p = NULL \/ is_Some (hg_slabs w !! p);
  ty_spans : active_spans t = NULL \/ active_spans t ∈ hg_spans w;
  ty_mail : address (remote_free_head t);
  ty_batch : 0 <= batch_count (outgoing_batch t) <= 64 /\ address (batch_head (outgoing_batch t));
  ty_send : batch_count (outgoing_batch t) <> 0 ->
    address (batch_tail (outgoing_batch t)) /\ is_Some (W !! target_tlh (outgoing_batch t));
  ty_slot : stat_slot t = NULL \/ is_Some (h_stats s !! stat_slot t)
}.

Record typed (s : state) (W : gmap Z heap_ghost) : Prop := {
  tt_pools : length (g_numa_pools s) = 16%nat /\ Forall (fun p => 0 <= available_count p <= 32) (g_numa_pools s);
  tt_secret : 0 <= g_lz_global_secret s < 2 ^ 64;
  tt_tls : forall me, tls_of me s = NULL \/ is_Some (W !! tls_of me s);
  tt_zombies : exists Zs, zombies s (g_zombie_tlhs s) Zs /\ forall z, z ∈ Zs -> is_Some (W !! z);
  tt_heap : forall o w, W !! o = Some w -> exists t, h_tlhs s !! o = Some t /\ tlh_typed s W w t;
  tt_slab : forall o w p, W !! o = Some w -> is_Some (hg_slabs w !! p) ->
    exists sl, body_of s p = BSlab sl /\ slab_typed sl;
  tt_span : forall o w p, W !! o = Some w -> p ∈ hg_spans w -> exists sp, body_of s p = BSpan sp /\ span_typed sp
}.

Lemma slab_ok_typed s o p g : slab_ok s o p g -> exists sl, body_of s p = BSlab sl /\ slab_typed sl.
Proof.
  intros [(sl & Hsl & Hrep) _ Hg (_ & Hp & Hlim & _) _]. exists sl. split; [done|].
  destruct Hrep as [E1 E2 E3 E4 E5 E6 E7 E8]. pose proof (sg_size_bounds g Hg). destruct (sg_max_bounds g Hg) as [Hm [Hm' _]].
  destruct (Hg) as [Hcl Hn Hnd Hf].
  assert (sg_n g * sg_size g <= sg_max g * sg_size g) by nia.
  constructor; unfold address, LZ_MAX_SIZE_CLASSES, LZ_MAX_SLAB_OBJ_SIZE.
  - lia.
  - destruct E3 as [E3|[E3 _]]; [right|by left]. unfold blk in E3. nia.
  - rewrite E4. destruct (sg_free g) as [|k F] eqn:EF; [by left|right]. cbn.
    destruct (Hf k) as [? ?]; [by left|]. destruct (blk_in p g k Hg); [lia|]. lia.
  - lia.
  - lia.
  - rewrite E7, E8. pose proof (free_length g (sg_free g) Hnd Hf ltac:(lia)). lia.
Qed.

Lemma span_ok_typed s o p sp : span_ok s o p sp -> span_typed sp.
Proof.
  intros [_ [Hbm Ht _ _ _ Hu] _ _]. constructor; [exact Hbm|exact Ht|]. rewrite Hu.
  pose proof (used_below_run (page_free (free_bitmap sp)) 0 0 512 ltac:(lia) ltac:(lia) ltac:(intros; lia)) as Hr.
  pose proof (used_below_nonneg (page_free (free_bitmap sp)) 512).
  unfold overlap in Hr. change (Z.of_nat 512) with 512 in Hr. lia.
Qed.

(** Objects are at addresses; so is the head of a list of them. *)
Lemma object_address s o Γ L G P a n : heap_core s o Γ L G P -> object s Γ L a n -> address a.
Proof.
  intros Hc Hn. unfold address. destruct (object_in _ _ _ _ _ _ _ _ Hc Hn) as (d & _ & (_ & ? & ? & _) & ? & ? & ?). lia.
Qed.

Lemma head_address s o Γ L G P l : heap_core s o Γ L G P ->
  (forall a, a ∈ l -> exists n, object s Γ L a n) -> address (hd NULL l).
Proof.
  intros Hc Hl. destruct l as [|a l]; cbn; [unfold address; lia|]. destruct (Hl a) as [n Hn]; [by left|].
  by eapply object_address.
Qed.

(** A list starts with NULL or one of its nodes. *)
Lemma dll_starts lk prev a l : dll lk prev a l -> a = NULL \/ a ∈ l.
Proof. destruct l as [|p l]; [by left|]. intros [-> _]. right. by left. Qed.

Lemma bin_typed s Γ i b p :
  bin_ok s Γ i b -> p ∈ [current_slab b; partial_list b; full_list b] -> p = NULL \/ is_Some (Γ !! p).
Proof.
  intros (Pl & Fl & [Hp Hf _] & [Hc HP HF _]).
  rewrite !elem_of_cons. intros [->|[->|[->|Hn]]]; [| | |by apply not_elem_of_nil in Hn].
  - destruct Hc as [?|[(g & Hg & _) _]]; [by left|right; by exists g].
  - destruct (dll_starts _ _ _ _ Hp) as [?|Hin]; [by left|right]. destruct (HP _ Hin) as (g & Hg & _). by exists g.
  - destruct (dll_starts _ _ _ _ Hf) as [?|Hin]; [by left|right]. destruct (HF _ Hin) as (g & Hg & _). by exists g.
Qed.

Lemma heap_typed s W D G P o w : world s W D G P -> W !! o = Some w ->
  exists t, h_tlhs s !! o = Some t /\ tlh_typed s W w t.
Proof.
  intros Hw Ho. destruct (wd_heap _ _ _ _ _ Hw o w Ho) as [[Hc (t & Ht & Hlen & Hbins)] (t' & Ht' & Ehd) Hpe].
  rewrite Ht in Ht'. injection Ht' as <-. exists t. split; [done|].
  destruct (wd_batch _ _ _ _ _ Hw o w Ho) as (o' & (t' & Ht' & Hcnt & Hle & Hhd & Htl) & Hpb).
  rewrite Ht in Ht'. injection Ht' as <-.
  destruct (sh_tlh _ _ _ _ _ (hc_span _ _ _ _ _ _ Hc)) as (t' & Ht' & Hsp & Hslot).
  rewrite Ht in Ht'. injection Ht' as <-.
  assert (hg_batch w <> [] -> (exists v, W !! o' = Some v /\ forall a, a ∈ hg_batch w -> address a)) as Hsend.
  { intros HB. destruct (Hpb HB) as (_ & v & Hv & Hpv). exists v. split; [done|]. intros a Ha.
    destruct (pe_object _ _ _ _ Hpv a Ha) as [_ [n Hn]]. eapply object_address; [|exact Hn]. by eapply (wd_core _ _ _ _ _ o' v Hw). }
  constructor; [done| |by eapply dll_starts| | | |done].
  - intros b p [j Hj]%list_elem_of_lookup Hp. eapply (bin_typed s _ (Z.of_nat j) b); [|done].
    apply Hbins; [lia|lia|]. by rewrite Nat2Z.id.
  - rewrite Ehd. eapply head_address; [exact Hc|]. intros a Ha. by apply Hpe.
  - rewrite Hcnt, Hhd. split; [lia|]. destruct (hg_batch w) as [|a B] eqn:EB; [unfold address; cbn; lia|].
    destruct Hsend as (v & _ & Ha); [done|]. apply Ha. by left.
  - rewrite Hcnt. intros Hn. assert (hg_batch w <> []) as HB by (by intros E; rewrite E in Hn).
    destruct (Hsend HB) as (v & Hv & Ha), (Htl HB) as [-> Hlast]. split; [|by exists v]. apply Ha.
    apply last_Some in Hlast as [l ->]. apply elem_of_app. right. by left.
Qed.

Lemma world_typed s W D G P : world s W D G P -> typed s W.
Proof.
  intros Hw. constructor.
  - destruct (wd_vmm _ _ _ _ _ Hw) as [[Hl Hl'] _ _ Hp _ _]. split; [done|]. apply Forall_lookup. intros n pool Hn.
    destruct (lookup_lt_is_Some_2 P n) as [l Hl0]; [apply lookup_lt_Some in Hn; lia|].
    destruct (Hp n l Hl0) as (pool' & Hn' & _ & Ec & ? & _). rewrite Hn in Hn'. injection Hn' as <-. rewrite Ec. lia.
  - apply Hw.
  - apply (wd_registry _ _ _ _ _ Hw).
  - destruct (rg_zombies _ _ (wd_registry _ _ _ _ _ Hw)) as (Zs & Hz & _ & Hin). exists Zs. split; [done|].
    intros z ?. by apply Hin.
  - intros o w Ho. by eapply heap_typed.
  - intros o w p Ho [g Hg]. eapply slab_ok_typed. by eapply (hc_slab _ _ _ _ _ _ (wd_core _ _ _ _ _ _ _ Hw Ho)).
  - intros o w p Ho Hp. destruct (sh_span _ _ _ _ _ (hc_span _ _ _ _ _ _ (wd_core _ _ _ _ _ _ _ Hw Ho)) p Hp) as [sp Hsp].
    exists sp. split; [apply Hsp|by eapply span_ok_typed].
Qed.

(** ** Theorem *)

(** C20. Type soundness: after any client program, from the start of the process,
    the counts of slabs, spans, batches and node caches are within the bounds
    of what they count (hence below the width of their fields), bitmaps and
    length tables have their declared sizes and widths, every list of every
    bin starts with NULL or a slab of the heap, the span list with NULL or one
    of its spans, the mailbox and the batch with user-space addresses, a batch
    that is not empty has an existing heap as its target, a statistics slot
    exists, and the pointers of the threads and of the zombie list are NULL or
    heaps of the process. *)
Theorem program_types s p :
  at_start s -> (forall log, behaves p (start_view log)) ->
  wpt (tlh_refused s) (lz_system_init;; run p)
    (fun _ s' => exists W D G P, world s' W D G P /\ typed s' W) s.
Proof.
  intros Hs Hp. apply wpt_bind, wpt_wp, wp_system_init; [done|]. intros s1 Hw Hl.
  eapply wpt_mono; [eapply wpt_weaken; [apply wpt_run; [by apply shows_empty|apply Hp]|]|].
  - intros s'. by apply tlh_refused_after.
  - intros [] s' (V' & (W & D & G & P & Hw' & _) & _). exists W, D, G, P. split; [done|]. by eapply world_typed.
Qed.

End types.

Lemma program_types_witness :
  wpt (tlh_refused boot_state) (lz_system_init;; run demo)
    (fun _ s' => exists W D G P, world s' W D G P /\ typed s' W) boot_state.
Proof. apply program_types; [by constructor|apply demo_behaves]. Defined.
