(* ===== verification/Frame.v ===== *)
(** * Frames

    A frame is a reflexive and transitive relation on states that every
    primitive of the machine respects as far as the operations on chunks, the
    index, slabs, spans and heaps use it.  Then all these operations respect it:
    the lemmas go through the text of each definition once, for every frame. *)

From S2P Require Import Prelude Common Sizes Machine Wp Testbed Security Rtree Vmm Telemetry Span.
From S2P Require Import Slab Tlh Lzmalloc.

(** A change of tables, chunk headers or bodies, pools, index and statistics
    only. *)
Record tables_only (s s' : state) : Prop := {
  to_mapped : st_mapped s' = st_mapped s;
  to_bytes : h_bytes s' = h_bytes s;
  to_tlhs : h_tlhs s' = h_tlhs s;
  to_tls : tls_tlh_ptr s' = tls_tlh_ptr s;
  to_counter : g_thread_counter s' = g_thread_counter s;
  to_zombies : g_zombie_tlhs s' = g_zombie_tlhs s;
  to_zombie_lock : g_zombie_lock s' = g_zombie_lock s;
  to_offset : g_base_offset s' = g_base_offset s;
  to_ready : g_lz_ready s' = g_lz_ready s;
  to_sizes : h_base_sizes s' = h_base_sizes s
}.

Definition respects {A} (R : state -> state -> Prop) (m : M A) : Prop := forall s r s', m s = Done r s' -> R s s'.

Class Frame `{Env} (R : state -> state -> Prop) : Prop := {
  fr_refl :: Reflexive R;
  fr_trans :: Transitive R;
  fr_tables : forall s s', tables_only s s' -> R s s';
  fr_heap : forall s t h h', h_tlhs s !! t = Some h -> next_zombie h' = next_zombie h -> is_zombie h' = is_zombie h ->
    R s (set_h_tlhs (<[t := h']> (h_tlhs s)) s);
  fr_mmap : forall len, respects R (mmap len);
  fr_munmap : forall a len, respects R (munmap a len);
  fr_dontneed : forall a len, respects R (madvise_dontneed a len);
  fr_store64 : forall a v, respects R (store64 a v)
}.

Lemma bind_done {A B} (m : M A) (f : A -> M B) s b s' :
  (x ← m; f x) s = Done b s' -> exists a s1, m s = Done a s1 /\ f a s1 = Done b s'.
Proof. unfold mbind, M_bind. destruct (m s) as [a s1|] eqn:E; [eauto|done]. Qed.

(** ** Control structures *)

Section control.
Context (R : state -> state -> Prop) `{Hrefl : !Reflexive R, Htrans : !Transitive R}.

Lemma respects_ret {A} (a : A) : respects R (mret a).
Proof. by intros s r s' [= <- <-]. Qed.
Lemma respects_stop {A} r : respects R (stop (A := A) r).
Proof. done. Qed.
Lemma respects_fetch {A} (f : state -> A) : respects R (fetch f).
Proof. by intros s r s' [= <- <-]. Qed.
Lemma respects_bind {A B} (m : M A) (f : A -> M B) : respects R m -> (forall a, respects R (f a)) -> respects R (m ≫= f).
Proof. intros Hm Hf s r s' (a & s1 & E & E')%bind_done. etrans; [by eapply Hm|by eapply Hf]. Qed.
Lemma respects_modify f : (forall s, R s (f s)) -> respects R (modify f).
Proof. by intros Hf s r s' [= <- <-]. Qed.
Lemma respects_for_loop n i body : (forall j, respects R (body j)) -> respects R (for_loop n i body).
Proof.
  intros Hb. revert i. induction n as [|n IH]; intros i; [apply respects_ret|]. cbn [for_loop].
  apply respects_bind; auto.
Qed.

End control.

Create HintDb respects discriminated.

(** Goes through a definition; the operations it calls are in the database. *)
Ltac respects_step :=
  match goal with
  | |- respects _ (mbind _ _) => apply respects_bind; [apply _| |intros ?]
  | |- respects _ (for_loop _ _ _) => apply respects_for_loop; [apply _..|]; intros ?
  | |- respects _ (modify _) => apply respects_modify; intros ?; apply fr_tables; by constructor
  | |- respects _ (mret _) => apply respects_ret; apply _
  | |- respects _ (fetch _) => apply respects_fetch; apply _
  | |- respects _ (stop _) => apply respects_stop
  | |- respects _ (let _ := _ in _) => cbv zeta
  | |- respects _ (match ?x with _ => _ end) => destruct x
  | |- respects _ _ => solve [eauto with respects]
  end.
Ltac respects_solve := cbv beta; repeat respects_step.

(** ** Operations *)

Section operations.
Context `{Env} (R : state -> state -> Prop) `{!Frame R}.

Lemma respects_tick : respects R tick.
Proof. intros s r s' [= <- <-]. apply fr_tables. by constructor. Qed.
Hint Resolve respects_tick : respects.
Lemma respects_check_mapped a : respects R (check_mapped a).
Proof. intros s r s'. unfold check_mapped. destruct (mapped s a); [|done]. by intros [= <- <-]. Qed.
Hint Resolve respects_check_mapped : respects.
Lemma respects_fatal msg : respects R (LZ_FATAL msg).
Proof. unfold LZ_FATAL. respects_solve. Qed.
Lemma respects_madvise_hugepage a len : respects R (madvise_hugepage a len).
Proof. unfold madvise_hugepage. respects_solve. Qed.
Hint Resolve respects_fatal fr_mmap fr_munmap fr_dontneed fr_store64 respects_madvise_hugepage : respects.

Lemma respects_load64 a : respects R (load64 a).
Proof. unfold load64. respects_solve. Qed.
Lemma respects_chunk_at a : respects R (chunk_at a).
Proof. unfold chunk_at. respects_solve. Qed.
Lemma respects_update_chunk a f : respects R (update_chunk a f).
Proof. unfold update_chunk. respects_solve. Qed.
Lemma respects_store_body p b : respects R (store_body p b).
Proof. unfold store_body. respects_solve. Qed.
Lemma respects_slab_at p : respects R (slab_at p).
Proof. unfold slab_at. respects_solve. Qed.
Lemma respects_span_at p : respects R (span_at p).
Proof. unfold span_at. respects_solve. Qed.
Lemma respects_tlh_at t : respects R (tlh_at t).
Proof. unfold tlh_at. respects_solve. Qed.
Lemma respects_direct_at p : respects R (direct_at p).
Proof. unfold direct_at. respects_solve. Qed.
Hint Resolve respects_load64 respects_chunk_at respects_update_chunk respects_store_body : respects.
Hint Resolve respects_slab_at respects_span_at respects_tlh_at respects_direct_at : respects.
Lemma respects_update_slab p f : respects R (update_slab p f).
Proof. unfold update_slab. respects_solve. Qed.
Lemma respects_update_span p f : respects R (update_span p f).
Proof. unfold update_span. respects_solve. Qed.
(** An update of a heap that does not concern the registry. *)
Lemma respects_update_tlh t f :
  (forall h, next_zombie (f h) = next_zombie h /\ is_zombie (f h) = is_zombie h) -> respects R (update_tlh t f).
Proof.
  intros Hf s r s' Hm. unfold update_tlh, tlh_at in Hm. apply bind_done in Hm as (h & s1 & E & Hm).
  assert (s1 = s /\ h_tlhs s !! t = Some h) as [-> Hh].
  { revert E. unfold mbind, M_bind, fetch, stop, mret, M_ret. destruct (h_tlhs s !! t) as [h'|]; [|done]. by intros [= <- <-]. }
  injection Hm as _ <-. destruct (Hf h). by apply (fr_heap s t h).
Qed.
Hint Resolve respects_update_slab respects_update_span : respects.
Hint Extern 1 (respects _ (update_tlh _ _)) => apply respects_update_tlh; intros []; split; reflexivity : respects.

(** ** Security and index *)

Lemma respects_security_init : respects R lz_security_init.
Proof. unfold lz_security_init, lz_security_urandom, lz_security_fallback. respects_solve. Qed.
Lemma respects_rtree_set a m : respects R (lz_rtree_set a m).
Proof. unfold lz_rtree_set, leaf_store, leaf_at, alloc_internal_node, root_cas, root_load. respects_solve. Qed.
Lemma respects_rtree_get a : respects R (lz_rtree_get a).
Proof. unfold lz_rtree_get, leaf_load, leaf_at, root_load. respects_solve. Qed.
Hint Resolve respects_security_init respects_rtree_set respects_rtree_get : respects.
Lemma respects_rtree_clear a : respects R (lz_rtree_clear a).
Proof. unfold lz_rtree_clear. respects_solve. Qed.
Hint Resolve respects_rtree_clear : respects.

(** ** Chunks *)

Lemma respects_current_node : respects R lz_get_current_node.
Proof. unfold lz_get_current_node. respects_solve. Qed.
Lemma respects_vmm_init : respects R lz_vmm_init.
Proof. unfold lz_vmm_init, lz_topology_init. respects_solve. Qed.
Lemma respects_pool_at i : respects R (pool_at i).
Proof. unfold pool_at. respects_solve. Qed.
Hint Resolve respects_current_node respects_vmm_init respects_pool_at : respects.
Lemma respects_update_pool i f : respects R (update_pool i f).
Proof. unfold update_pool. respects_solve. Qed.
Lemma respects_pool_lock n : respects R (pool_lock n).
Proof. unfold pool_lock. respects_solve. Qed.
Lemma respects_pool_unlock n : respects R (pool_unlock n).
Proof. unfold pool_unlock. respects_solve. Qed.
Lemma respects_global_lock : respects R global_pool_lock.
Proof. unfold global_pool_lock. respects_solve. Qed.
Lemma respects_global_unlock : respects R global_pool_unlock.
Proof. unfold global_pool_unlock. respects_solve. Qed.
Lemma respects_map_huge n : respects R (map_huge_aligned n).
Proof. unfold map_huge_aligned. respects_solve. Qed.
Lemma respects_push_global c : respects R (push_global c).
Proof. unfold push_global. respects_solve. Qed.
Hint Resolve respects_update_pool respects_pool_lock respects_pool_unlock respects_global_lock : respects.
Hint Resolve respects_global_unlock respects_map_huge respects_push_global : respects.
Lemma respects_alloc_chunk : respects R lz_vmm_alloc_chunk.
Proof. unfold lz_vmm_alloc_chunk, pop_pool, pop_global, sys_alloc_extent. respects_solve. Qed.
Lemma respects_retire c : respects R (retire_to_global c).
Proof. unfold retire_to_global. respects_solve. Qed.
Hint Resolve respects_alloc_chunk respects_retire : respects.
Lemma respects_free_chunk c : respects R (lz_vmm_free_chunk c).
Proof. unfold lz_vmm_free_chunk. respects_solve. Qed.
Lemma respects_purge_loop n c : respects R (purge_loop n c).
Proof. revert c. induction n; intros c; cbn [purge_loop]; respects_solve. Qed.
Hint Resolve respects_free_chunk respects_purge_loop : respects.
Lemma respects_purge : respects R lz_vmm_purge_all_caches.
Proof. unfold lz_vmm_purge_all_caches. respects_solve. Qed.
Hint Resolve respects_purge : respects.

(** ** Statistics *)

Lemma respects_telemetry_init : respects R lz_telemetry_init.
Proof. unfold lz_telemetry_init, clear_matrix. respects_solve. Qed.
Lemma respects_telemetry_slot i : respects R (lz_telemetry_get_slot i).
Proof. unfold lz_telemetry_get_slot. respects_solve. Qed.
Lemma respects_stat_add p v : respects R (stat_add p v).
Proof. unfold stat_add, stat_at. respects_solve. Qed.
Hint Resolve respects_telemetry_init respects_telemetry_slot respects_stat_add : respects.
Lemma respects_count_free t n : respects R (count_free t n).
Proof. unfold count_free. respects_solve. Qed.
Lemma respects_count_alloc t n : respects R (count_alloc t n).
Proof. unfold count_alloc. respects_solve. Qed.
Hint Resolve respects_count_free respects_count_alloc : respects.

(** ** Spans and slabs *)

Lemma respects_find_pages p n : respects R (find_contiguous_pages p n).
Proof. unfold find_contiguous_pages. respects_solve. Qed.
Hint Resolve respects_find_pages : respects.
Lemma respects_search_active n c r : respects R (search_active n c r).
Proof. revert c. induction n; intros c; cbn [search_active]; respects_solve. Qed.
Lemma respects_load_alloc_size p i : respects R (load_alloc_size p i).
Proof. unfold load_alloc_size. respects_solve. Qed.
Hint Resolve respects_search_active respects_load_alloc_size : respects.
Lemma respects_span_alloc t n : respects R (lz_span_alloc t n).
Proof. unfold lz_span_alloc, finalize_span_alloc, store_alloc_size, provision_span. respects_solve. Qed.
Lemma respects_span_free t c p : respects R (lz_span_free_local t c p).
Proof. unfold lz_span_free_local, give_pages, destroy_span, store_alloc_size. respects_solve. Qed.
Hint Resolve respects_span_alloc respects_span_free : respects.
Lemma respects_span_free_remote t c p : respects R (lz_span_free_remote t c p).
Proof. unfold lz_span_free_remote. respects_solve. Qed.
Lemma respects_slab_create t c : respects R (lz_slab_create t c).
Proof. unfold lz_slab_create. respects_solve. Qed.
Lemma respects_slab_destroy p : respects R (lz_slab_destroy p).
Proof. unfold lz_slab_destroy. respects_solve. Qed.
Hint Resolve respects_span_free_remote respects_slab_create respects_slab_destroy : respects.

(** ** Thread-local heaps *)

Lemma respects_bin_at t i : respects R (bin_at t i).
Proof. unfold bin_at. respects_solve. Qed.
Hint Resolve respects_bin_at : respects.
Lemma respects_update_bin t i f : respects R (update_bin t i f).
Proof. unfold update_bin. respects_solve. Qed.
Hint Resolve respects_update_bin : respects.
Lemma respects_unlink_slab p f : (forall v, respects R (f v)) -> respects R (unlink_slab p f).
Proof. intros Hf. unfold unlink_slab. respects_solve. Qed.
Hint Extern 1 (respects R (unlink_slab _ _)) => apply respects_unlink_slab; intros ?; respects_solve : respects.
Lemma respects_rescue t p : respects R (lz_tlh_rescue_from_full t p).
Proof. unfold lz_tlh_rescue_from_full. respects_solve. Qed.
Lemma respects_promote t i : respects R (promote_partial t i).
Proof. unfold promote_partial. respects_solve. Qed.
Hint Resolve respects_rescue respects_promote : respects.
Lemma respects_recycle t p : respects R (lz_tlh_recycle_empty_slab t p).
Proof. unfold lz_tlh_recycle_empty_slab. respects_solve. Qed.
Lemma respects_pop_free_list p : respects R (pop_free_list p).
Proof. unfold pop_free_list. respects_solve. Qed.
Hint Resolve respects_recycle respects_pop_free_list : respects.
Lemma respects_free_to_slab t p n : respects R (free_to_slab t p n).
Proof. unfold free_to_slab. respects_solve. Qed.
Lemma respects_flush t : respects R (lz_tlh_flush_outgoing_batch t).
Proof. unfold lz_tlh_flush_outgoing_batch. respects_solve. Qed.
Hint Resolve respects_free_to_slab respects_flush : respects.
Lemma respects_reap_loop n t h : respects R (reap_loop n t h).
Proof. revert h. induction n; intros h; cbn [reap_loop]; respects_solve. Qed.
Hint Resolve respects_reap_loop : respects.
Lemma respects_reap t : respects R (lz_tlh_reap t).
Proof. unfold lz_tlh_reap. respects_solve. Qed.
Hint Resolve respects_reap : respects.
Lemma respects_alloc_slow t c : respects R (lz_tlh_alloc_slow t c).
Proof. unfold lz_tlh_alloc_slow, retire_current. respects_solve. Qed.
Lemma respects_alloc_fast t c : respects R (tlh_alloc_fast t c).
Proof. unfold tlh_alloc_fast, pop_sized, bump_alloc, has_free_node. respects_solve. Qed.
Hint Resolve respects_alloc_slow respects_alloc_fast : respects.
Lemma respects_tlh_alloc t n : respects R (lz_tlh_alloc t n).
Proof. unfold lz_tlh_alloc, has_free_node, pop_sized, bump_alloc. respects_solve. Qed.
Lemma respects_tlh_free t p : respects R (lz_tlh_free t p).
Proof. unfold lz_tlh_free, tlh_free_in, batch_remote. respects_solve. Qed.
Hint Resolve respects_tlh_alloc respects_tlh_free : respects.

(** ** The API *)

Lemma respects_alloc_direct o n : respects R (alloc_direct o n).
Proof. unfold alloc_direct, lz_sys_alloc_huge_aligned, format_direct, format_direct_header. respects_solve. Qed.

End operations.

#[export] Hint Resolve respects_tick respects_check_mapped respects_fatal respects_madvise_hugepage respects_load64 respects_chunk_at : respects.
#[export] Hint Resolve respects_update_chunk respects_store_body respects_slab_at respects_span_at respects_tlh_at respects_direct_at : respects.
#[export] Hint Resolve respects_update_slab respects_update_span respects_security_init respects_rtree_set respects_rtree_get respects_rtree_clear : respects.
#[export] Hint Resolve respects_current_node respects_vmm_init respects_pool_at respects_update_pool respects_pool_lock respects_pool_unlock : respects.
#[export] Hint Resolve respects_global_lock respects_global_unlock respects_map_huge respects_push_global respects_alloc_chunk respects_retire : respects.
#[export] Hint Resolve respects_free_chunk respects_purge_loop respects_purge respects_telemetry_init respects_telemetry_slot respects_stat_add : respects.
#[export] Hint Resolve respects_count_free respects_count_alloc respects_find_pages respects_search_active respects_load_alloc_size respects_span_alloc : respects.
#[export] Hint Resolve respects_span_free respects_span_free_remote respects_slab_create respects_slab_destroy respects_bin_at respects_update_bin : respects.
#[export] Hint Resolve respects_rescue respects_promote respects_recycle respects_pop_free_list respects_free_to_slab respects_flush : respects.
#[export] Hint Resolve respects_reap_loop respects_reap respects_alloc_slow respects_alloc_fast respects_tlh_alloc respects_tlh_free : respects.
#[export] Hint Resolve respects_alloc_direct : respects.
#[export] Hint Resolve fr_mmap fr_munmap fr_dontneed fr_store64 : respects.
#[export] Hint Extern 1 (respects _ (unlink_slab _ _)) => apply respects_unlink_slab; first [apply _|intros ?; respects_solve] : respects.
#[export] Hint Extern 1 (respects _ (update_tlh _ _)) => apply respects_update_tlh; first [apply _|intros []; split; reflexivity] : respects.
#[export] Hint Extern 0 (Frame _) => apply _ : respects.
