(* ===== verification/BaseFrame.v ===== *)
(** * The static array and the rest of the allocator

    The allocator behind the hooks never touches the static array of
    posix_hooks.c: it writes only to memory it got from mmap, which the kernel
    places elsewhere.  The property holds of every primitive and is closed
    under the control structures of the code, so it is proved operation by
    operation from the text of the definitions. *)

From S2P Require Import Prelude Common Sizes Machine Wp Testbed Security Rtree Vmm Telemetry Span.
From S2P Require Import Slab Tlh Lzmalloc PosixHooks HooksSpec ApiLife Frame.

(** What the hooks rely on: the static array is where the linker put it, mmap
    respects clear of it like of all memory in use, and the page size is that of
    the target (or the query fails). *)
Class BaseLaws `{Env} : Prop := {
  base_placed : base_heap_ok;
  mmap_avoids_base : forall k rs len a, sys_mmap k rs len = Some a ->
    a + page_round len <= g_base_heap \/ g_base_heap + LZ_BASE_HEAP_SIZE <= a;
  page_size_known : sys_pagesize <= 0 \/ sys_pagesize = 4096
}.

Section frame.
Context `{Env}.

Definition base_range (x : Z) : Prop := g_base_heap <= x < g_base_heap + LZ_BASE_HEAP_SIZE.

(** No mapping covers the array. *)
Definition base_apart (s : state) : Prop := forall x, base_range x -> mapped s x = false.

(** A step that leaves the array, its bookkeeping and the ready flag alone. *)
Record base_kept (s s' : state) : Prop := {
  bk_offset : g_base_offset s' = g_base_offset s;
  bk_sizes : h_base_sizes s' = h_base_sizes s;
  bk_ready : g_lz_ready s' = g_lz_ready s;
  bk_apart : base_apart s -> base_apart s';
  bk_bytes : base_apart s -> forall x, base_range x -> h_bytes s' !! x = h_bytes s !! x
}.

#[export] Instance base_kept_refl : Reflexive base_kept.
Proof. by constructor. Qed.
#[export] Instance base_kept_trans : Transitive base_kept.
Proof.
  intros s1 s2 s3 [A1 A2 A3 A4 A5] [B1 B2 B3 B4 B5]. constructor; [congruence..|auto|].
  intros Hs x Hx. rewrite B5, A5; auto.
Qed.

End frame.

Notation quiet := (respects base_kept).

Ltac quiet_solve := cbv beta; repeat first [respects_step|apply respects_modify; intros ?; by constructor].

Section operations.
Context `{BaseLaws}.

(** ** Memory *)

(** A fresh mapping lies elsewhere. *)
Lemma quiet_mmap len : quiet (mmap len).
Proof.
  intros s r s'. unfold mmap, tick, fetch, modify, mbind, M_bind, mret, M_ret. cbn.
  destruct (sys_mmap _ _ len) as [a|] eqn:E; intros [= <- <-]; [|by constructor].
  apply mmap_avoids_base in E.
  assert (forall x, base_range x -> (a <=? x) && (x <? a + page_round len) = false) as Hx.
  { intros x. unfold base_range. lia. }
  constructor; [done..| |].
  - intros Hs x Hb. specialize (Hs x Hb). specialize (Hx x Hb). unfold mapped, in_ranges in *. cbn [st_mapped zero_range
      set_st_mapped set_h_bytes set_h_chunks set_h_bodies set_st_clock existsb]. by rewrite Hx.
  - intros _ x Hb. cbn. rewrite clear_range_lookup. by rewrite Hx.
Qed.

Lemma quiet_munmap a len : quiet (munmap a len).
Proof.
  unfold munmap. apply respects_bind; [apply _|intros s r s' [= <- <-]; by constructor|]. intros _. apply respects_modify. intros s. constructor; try done.
  intros Hs x Hx. unfold mapped. cbn [st_mapped set_st_mapped]. rewrite in_ranges_cut. unfold base_apart, mapped in Hs. by rewrite Hs.
Qed.

Lemma quiet_madvise_dontneed a len : quiet (madvise_dontneed a len).
Proof.
  unfold madvise_dontneed. apply respects_bind; [apply _|intros s r s' [= <- <-]; by constructor|]. intros _. apply respects_modify. intros s.
  constructor; try done. intros Hs x Hx. cbn. rewrite map_lookup_filter. destruct (h_bytes s !! x) as [v|]; [|done].
  cbn. rewrite option_guard_True; [done|]. cbn. by rewrite (Hs x Hx), andb_false_r.
Qed.

Lemma quiet_store64 a v : quiet (store64 a v).
Proof.
  intros s r s'. unfold store64, check_mapped, modify, mbind, M_bind. destruct (mapped s a) eqn:E1; [|done].
  destruct (mapped s (a + 7)) eqn:E2; [|done]. set (w := set_le_bytes (h_bytes s) a v 8). intros [= <- <-].
  constructor; try done.
  intros Hs x Hx. cbn [h_bytes set_h_bytes]. unfold w. apply set_le_bytes_ne. change (Z.of_nat 8) with 8.
  assert (~ base_range a) as Ha by (intros Hb; specialize (Hs a Hb); congruence).
  assert (~ base_range (a + 7)) as Ha' by (intros Hb; specialize (Hs (a + 7) Hb); congruence).
  unfold base_range, LZ_BASE_HEAP_SIZE in *. lia.
Qed.

#[export] Instance base_frame : Frame base_kept.
Proof.
  constructor; try apply _.
  - intros s s' []. constructor; [done..| |].
    + intros Hs x Hx. specialize (Hs x Hx). unfold mapped in *. congruence.
    + intros _ x _. congruence.
  - by constructor.
  - apply quiet_mmap.
  - apply quiet_munmap.
  - apply quiet_madvise_dontneed.
  - apply quiet_store64.
Qed.

(** Every update of a heap leaves the array alone. *)
Lemma quiet_update_tlh t f : quiet (update_tlh t f).
Proof.
  unfold update_tlh. apply respects_bind; [apply _|apply respects_tlh_at; apply _|]. intros h. apply respects_modify. by constructor.
Qed.
Hint Resolve quiet_update_tlh : respects.

Lemma quiet_tlh_init t i : quiet (lz_tlh_init t i).
Proof. unfold lz_tlh_init. quiet_solve. Qed.
Hint Resolve quiet_tlh_init : respects.

(** ** The API *)

Lemma quiet_zombie_lock : quiet zombie_lock.
Proof. unfold zombie_lock. quiet_solve. Qed.
Lemma quiet_zombie_unlock : quiet zombie_unlock.
Proof. unfold zombie_unlock. quiet_solve. Qed.
Lemma quiet_set_tls m v : quiet (set_tls m v).
Proof. unfold set_tls. quiet_solve. Qed.
Hint Resolve quiet_zombie_lock quiet_zombie_unlock quiet_set_tls : respects.
Lemma quiet_ensure m : quiet (ensure_tls_init m).
Proof. unfold ensure_tls_init, lz_resurrect_zombie, next_thread_id, attach_statistics. quiet_solve. Qed.
Lemma quiet_find_chunk p : quiet (find_chunk p).
Proof. unfold find_chunk. quiet_solve. Qed.
Lemma quiet_reap_zombies n c : quiet (reap_zombies n c).
Proof. revert c. induction n; intros c; cbn [reap_zombies]; quiet_solve. Qed.
Hint Resolve quiet_ensure quiet_find_chunk quiet_reap_zombies : respects.

Lemma quiet_lz_malloc m n : quiet (lz_malloc m n).
Proof. unfold lz_malloc. quiet_solve. Qed.
Lemma quiet_lz_free m p : quiet (lz_free m p).
Proof. unfold lz_free, free_direct. quiet_solve. Qed.
Lemma quiet_lz_memalign m a n : quiet (lz_memalign m a n).
Proof. unfold lz_memalign. pose proof (quiet_lz_malloc m). quiet_solve. Qed.
Lemma quiet_usable_size p : quiet (lz_malloc_usable_size p).
Proof. unfold lz_malloc_usable_size. quiet_solve. Qed.
Lemma quiet_gc m : quiet (lzmalloc_gc m).
Proof. unfold lzmalloc_gc. quiet_solve. Qed.
Lemma quiet_thread_exit m : quiet (thread_exit m).
Proof. unfold thread_exit, lz_tlh_destructor, flush_statistics. quiet_solve. Qed.
Lemma quiet_system_init : quiet lz_system_init.
Proof. unfold lz_system_init, lz_rtree_init. quiet_solve. Qed.

End operations.
#[export] Hint Resolve quiet_lz_malloc quiet_lz_free quiet_lz_memalign quiet_usable_size : respects.
#[export] Hint Resolve quiet_gc quiet_thread_exit quiet_system_init : respects.
