(* ===== verification/HooksView.v ===== *)
(** * The C symbols as calls of the abstract allocator

    Clients call malloc, free and the others through the symbols that
    posix_hooks.c defines, from before the constructor of the library has run:
    early objects come from the static array, later ones from the heaps, and
    both kinds are passed to the same functions.  This file says which call of
    the abstract allocator each symbol stands for, what a state shows to the
    client, and how the abstract allocator behaves with the blocks of the array
    around its objects. *)

From S2P Require Import Prelude Common Sizes Machine Wp Dll Testbed Security Rtree Vmm VmmSpec.
From S2P Require Import Provision Telemetry Span SpanSpec Slab Tlh SlabSpec BinSpec HeapSpec.
From S2P Require Import TlhSpec RemoteSpec Lzmalloc PosixHooks HooksSpec LzmallocSpec WorldSpec WorldSend.
From S2P Require Import WorldLife WorldDirect ApiSpec ApiLife ClientSpec BaseFrame.

(** ** The calls *)

Inductive hook_call :=
  | Api (c : call)          (* the symbol of that name, an access, thread exit, collection *)
  | AlignedAlloc (k size : Z)
  | PosixMemalign (memptr k size : Z)
  | Valloc (size : Z)
  | Pvalloc (size : Z)
  | ReallocArray (ptr nmemb size : Z)
  | Constructor.

(** The call of the abstract allocator that a symbol stands for. *)
Definition hook_as (c : hook_call) : option call :=
  match c with
  | Api c => Some c
  | AlignedAlloc k size | PosixMemalign _ k size => Some (Memalign k size)
  | Valloc size | Pvalloc size => Some (Memalign 12 size)
  | ReallocArray ptr nmemb size => Some (Realloc ptr (nmemb * size))
  | Constructor => None
  end.

(** What the client sees: objects and contents, whether the constructor has
    run, and how much of the static array it may still ask for. *)
Record hook_view := mk_hv {
  hv_view : view;
  hv_ready : bool;
  hv_room : Z;
}.

(** A bound on the bytes of the array that one early request takes. *)
Definition base_cost (k size : Z) : Z := 2 ^ Z.max k 4 + size + 64.
Definition call_cost (c : call) : Z :=
  match c with
  | Malloc size | Realloc _ size => base_cost 4 size
  | Calloc num size => base_cost 4 (num * size)
  | Memalign k size => base_cost k size
  | _ => 0
  end.
Definition early (c : call) : Prop := match c with ThreadExit | Gc => False | _ => True end.

Definition hook_allowed (HV : hook_view) (c : hook_call) : Prop :=
  match hook_as c with
  | Some c' =>
      allowed (hv_view HV) c' /\ (hv_ready HV = false -> early c' /\ call_cost c' <= hv_room HV) /\
      match c with
      | PosixMemalign memptr _ _ => memptr <> NULL
      | ReallocArray _ nmemb size => 0 <= nmemb < 2 ^ 64 /\ 0 <= size < 2 ^ 64
      | _ => True
      end
  | None => hv_ready HV = false
  end.

(** Early requests never fail. *)
Definition granted (c : call) (r : Z) : Prop :=
  match c with Malloc _ | Calloc _ _ | Memalign _ _ => r <> NULL | _ => True end.

Section spec.
Context `{Env}.

(** Requests that the heaps refuse for their arguments: a size that is no
    multiple of the alignment, an alignment below that of a pointer. *)
Definition hook_rejects (HV : hook_view) (c : hook_call) : bool :=
  hv_ready HV &&
  match c with
  | AlignedAlloc k size => negb (size mod 2 ^ k =? 0)
  | PosixMemalign _ k _ => negb (2 ^ k mod 8 =? 0)
  | _ => false
  end.

(** Objects and contents stay as they are. *)
Definition unchanged (V V' : view) : Prop := extends V V' /\ keeps V V' /\ cv_objs V' = cv_objs V.

Definition hook_answers (HV : hook_view) (c : hook_call) (r : Z) (HV' : hook_view) : Prop :=
  match hook_as c with
  | Some c' =>
      (if hook_rejects HV c then r = NULL /\ unchanged (hv_view HV) (hv_view HV')
       else answers (hv_view HV) c' r (hv_view HV')) /\
      hv_ready HV' = hv_ready HV /\
      if hv_ready HV then hv_room HV' = hv_room HV
      else hv_room HV' = hv_room HV - call_cost c' /\ granted c' r
  | None =>
      unchanged (hv_view HV) (hv_view HV') /\
      hv_ready HV' = true /\ hv_room HV' = hv_room HV
  end.

(** ** The implementation *)

Definition perform_hook (me : Z) (c : hook_call) : M Z :=
  match c with
  | Api (Malloc size) => malloc me size
  | Api (Calloc num size) => calloc me num size
  | Api (Realloc ptr size) => realloc me ptr size
  | Api (Memalign k size) => memalign me (2 ^ k) size
  | Api (Free ptr) => free me ptr;; mret 0
  | Api (UsableSize ptr) => malloc_usable_size ptr
  | Api (Read ptr i) => check_accessible (ptr + i);; fetch (fun s => byte_of s (ptr + i))
  | Api (Write ptr i v) =>
      check_accessible (ptr + i);;
      modify (fun s => set_h_bytes (<[ptr + i := v]> (h_bytes s)) s);; mret 0
  | Api ThreadExit => thread_exit me;; mret 0
  | Api Gc => lzmalloc_gc me;; mret 0
  | AlignedAlloc k size => aligned_alloc me (2 ^ k) size
  | PosixMemalign memptr k size => r ← posix_memalign me memptr (2 ^ k) size; mret (default NULL r.2)
  | Valloc size => valloc me size
  | Pvalloc size => pvalloc me size
  | ReallocArray ptr nmemb size => reallocarray me ptr nmemb size
  | Constructor => lz_bootstrap_system;; mret 0
  end.

(** The blocks of the array in use. *)
Record base_blocks (s : state) (B : gmap Z Z) : Prop := {
  bb_offset : 0 <= g_base_offset s <= LZ_BASE_HEAP_SIZE;
  bb_block : forall a n, B !! a = Some n -> 0 < n /\ a mod 16 = 0 /\ g_base_heap + 16 <= a /\
    a + n <= g_base_heap + g_base_offset s /\ h_base_sizes s !! (a - 16) = Some n;
  bb_disjoint : forall a n b m, B !! a = Some n -> B !! b = Some m ->
    a = b \/ a + n <= b - 16 \/ b + m <= a - 16;
  bb_apart : base_apart s;
  bb_rest : forall x, g_base_heap + g_base_offset s <= x < g_base_heap + LZ_BASE_HEAP_SIZE ->
    h_bytes s !! x = None
}.

(** The heaps before and after the constructor. *)
Definition backend (s : state) (ready : bool) (V : view) : Prop :=
  if ready then g_lz_ready s = 1 /\ shows s V
  else g_lz_ready s = 0 /\ at_start s /\ cv_objs V = ∅ /\ cv_lost V = ∅ /\ cv_log V = st_refused s.

Definition hook_shows (s : state) (HV : hook_view) : Prop := exists O B,
  cv_objs (hv_view HV) = O ∪ B /\ base_blocks s B /\ hv_room HV <= LZ_BASE_HEAP_SIZE - g_base_offset s /\
  backend s (hv_ready HV) (with_objs O (hv_view HV)) /\
  forall a n x, B !! a = Some n -> a <= x < a + n -> byte_of s x = cv_byte (hv_view HV) x.

(** ** The abstract allocator with more objects around *)

(** Answers depend on the contents of the objects only. *)
Lemma answers_bytes V c r V' f :
  allowed V c -> answers V c r V' ->
  (forall a n x, cv_objs V' !! a = Some n -> a <= x < a + n -> f x = cv_byte V' x) ->
  answers V c r (with_bytes f V').
Proof.
  intros Hc [Hex Ha] Hf. assert (keeps V V' -> keeps V (with_bytes f V')) as Hk.
  { intros Hk a n x H1 H2 Hx. cbn in *. rewrite (Hf a n x H2 Hx). by apply (Hk a n). }
  split; [by destruct Hex|]. destruct c; cbn [allowed] in *; try tauto.
  - destruct Ha as (Hg & Hkk & Hz). split_and!; [done|auto|]. intros Hr i Hi. rewrite <- (Hz Hr i Hi).
    destruct Hg as [[? _]|(n & (_ & _ & _ & Hn & _) & E)]; [done|]. apply (Hf r n); [|lia]. rewrite E. apply lookup_insert_eq.
  - destruct Ha as [Hkk Hr]. split; [auto|]. destruct (ptr =? NULL); [done|]. destruct (size =? 0); [done|].
    destruct Hr as (n & Hn & Hr). exists n. split; [done|]. unfold reallocs in *. case_decide; [done|].
    destruct (Z.leb_spec size n); [done|]. destruct Hr as [?|(m & Hp & E & Hcp)]; [by left|right].
    exists m. split_and!; [done..|]. intros i Hi. rewrite <- (Hcp i Hi). destruct (Hp) as (_ & _ & Hnew & Hm & _).
    apply (Hf r m); [|lia]. rewrite E, lookup_delete_ne by congruence. apply lookup_insert_eq.
  - destruct Hc as [(n & Hn & Hi) _]. destruct Ha as (E & Hv & Ho). split_and!; [done| |].
    + rewrite <- Hv. apply (Hf ptr n); [by rewrite E|lia].
    + intros a m x Hm Hx Hne. rewrite <- (Ho a m x Hm Hx Hne). apply (Hf a m); [by rewrite E|done].
Qed.

(** Objects outside and inside of the array. *)
Definition outside (O : gmap Z Z) : Prop := forall a n, O !! a = Some n ->
  0 < n /\ (a + n <= g_base_heap \/ g_base_heap + LZ_BASE_HEAP_SIZE <= a).
Definition within (B : gmap Z Z) : Prop := forall a n, B !! a = Some n ->
  0 < n /\ g_base_heap <= a /\ a + n <= g_base_heap + LZ_BASE_HEAP_SIZE.

Lemma outside_within O B a : outside O -> within B -> is_Some (O !! a) -> B !! a = None.
Proof.
  intros HO HB [n Hn]. destruct (B !! a) as [m|] eqn:E; [|done].
  destruct (HO a n Hn), (HB a m E). unfold LZ_BASE_HEAP_SIZE in *. lia.
Qed.

(** A view with the blocks of the array next to its objects. *)
Definition around (B : gmap Z Z) (V : view) : view := with_objs (cv_objs V ∪ B) V.

Section around.
Context (V V' : view) (B : gmap Z Z).
Hypothesis HO : outside (cv_objs V).
Hypothesis HO' : outside (cv_objs V').
Hypothesis HB : within B.
Hypothesis Hf : forall a n x, B !! a = Some n -> a <= x < a + n -> cv_byte V' x = cv_byte V x.

Lemma around_object a n : cv_objs (around B V) !! a = Some n ->
  cv_objs V !! a = Some n \/ B !! a = Some n /\ cv_objs V !! a = None.
Proof. cbn. intros [?|[? ?]]%lookup_union_Some_raw; auto. Qed.

Lemma around_heap a : is_Some (cv_objs V !! a) -> cv_objs (around B V) !! a = cv_objs V !! a.
Proof. intros Ho. apply lookup_union_l. exact (outside_within _ B a HO HB Ho). Qed.

Lemma keeps_around : keeps V V' -> keeps (around B V) (around B V').
Proof.
  intros Hk a n x H1 H2 Hx. destruct (around_object a n H1) as [Ho|[Hb _]]; [|by apply (Hf a n)].
  cbn in H2. rewrite lookup_union_l in H2 by (eapply outside_within; [exact HO|done|by exists n]). by apply (Hk a n).
Qed.

Lemma extends_around : lost_ok V -> extends V V' -> extends (around B V) (around B V').
Proof.
  intros HL [Hl Hg Hw]. constructor; [|exact Hg|].
  - intros a [n Ha] [m Ha']. cbn. assert (B !! a = None \/ cv_objs V !! a = None /\ cv_objs V' !! a = None) as [Hn|[N N']].
    { destruct (B !! a) as [k|] eqn:E; [right|by left].
      split; [destruct (cv_objs V !! a) as [q|] eqn:E'; [|done]; rewrite (outside_within _ B a HO HB) in E; [done|by exists q]|].
      destruct (cv_objs V' !! a) as [q|] eqn:E'; [|done]. rewrite (outside_within _ B a HO' HB) in E; [done|by exists q]. }
    + cbn in Ha, Ha'. rewrite lookup_union_l in Ha, Ha' by done. apply Hl; by eexists.
    + split; [intros [[? E] _]%Hw|intros [[? E] _]%HL]; congruence.
  - intros a Ha. destruct (Hw a Ha) as [[n Hn] Hk]. split; [|exact Hk]. exists n. cbn. rewrite lookup_union_l; [done|].
    eapply outside_within; [exact HO'|done|by exists n].
Qed.

Lemma places_around size r n : places (cv_objs V) size r n -> 0 < n ->
  (r + n <= g_base_heap \/ g_base_heap + LZ_BASE_HEAP_SIZE <= r) -> places (cv_objs (around B V)) size r n.
Proof.
  intros (Hr & Hal & Hn & Hs & Hd) Hn0 Hout. split_and!; [done|done| |done|].
  - cbn. apply lookup_union_None. split; [done|]. destruct (B !! r) as [k|] eqn:E; [|done]. destruct (HB r k E). lia.
  - intros a m [Ha|[Ha _]]%around_object; [auto|]. destruct (HB a m Ha). lia.
Qed.

Lemma grants_around size r : grants V size r V' -> grants (around B V) size r (around B V').
Proof.
  intros [(-> & E & ?)|(n & Hp & E)].
  - left. split_and!; [done| |done]. cbn. by rewrite E.
  - right. assert (cv_objs V' !! r = Some n) as Hrn by (rewrite E; apply lookup_insert_eq).
    destruct (HO' r n Hrn) as [? ?]. exists n. split; [by apply places_around|]. cbn. by rewrite E, insert_union_l.
Qed.

Lemma releases_around ptr : is_Some (cv_objs V !! ptr) -> releases V ptr V' -> releases (around B V) ptr (around B V').
Proof.
  intros Hp E. unfold releases in *. cbn. rewrite E. case_decide; [done|]. rewrite delete_union, (delete_id B); [done|].
  exact (outside_within _ B ptr HO HB Hp).
Qed.

Lemma reallocs_around ptr n size r :
  cv_objs V !! ptr = Some n -> reallocs V ptr n size r V' -> reallocs (around B V) ptr n size r (around B V').
Proof.
  intros Hn. unfold reallocs. cbn [around with_objs cv_lost]. case_decide; [intros [-> E]; split; [done|]; cbn; by rewrite E|].
  destruct (size <=? n); [intros [-> E]; split; [done|]; cbn; by rewrite E|].
  intros [(-> & E & ?)|(m & Hp & E & Hcp)]; [left; split_and!; [done| |done]; cbn; by rewrite E|right].
  destruct (Hp) as (_ & _ & Hnew & _).
  assert (cv_objs V' !! r = Some m) as Hrm by (rewrite E, lookup_delete_ne by congruence; apply lookup_insert_eq).
  destruct (HO' r m Hrm) as [? ?]. exists m. split_and!; [by apply places_around| |done].
  cbn. rewrite E, insert_union_l, delete_union, (delete_id B); [done|].
  apply (outside_within _ B ptr HO HB). by exists n.
Qed.

Lemma answers_around c r : lost_ok V -> allowed V c -> answers V c r V' -> answers (around B V) c r (around B V').
Proof.
  intros HL Hc [Hex Ha]. split; [by apply extends_around|]. pose proof keeps_around as Hk. pose proof grants_around as Hg.
  assert (cv_objs V' = cv_objs V -> cv_objs (around B V') = cv_objs (around B V)) as Hsame by (intros E; cbn; by rewrite E).
  destruct c; cbn [allowed] in *.
  - destruct Ha. auto.
  - destruct Ha as (? & ? & ?). auto.
  - destruct Ha as [Hkk Hr]. split; [auto|]. destruct Hc as [Hs Hp].
    destruct (Z.eqb_spec ptr NULL) as [->|Hne]; [auto|]. destruct Hp as [->|Hp]; [done|]. destruct (size =? 0).
    { destruct Hr as [-> Hr]. split; [done|]. by apply releases_around. }
    destruct Hr as (n & Hn & Hr). exists n. rewrite around_heap by done. split; [done|]. by apply reallocs_around.
  - destruct Ha as (? & ? & ?). auto.
  - destruct Ha as [Hkk Hr]. split; [auto|].
    destruct (Z.eqb_spec ptr NULL) as [->|Hne]; [auto|]. destruct Hc as [->|Hc]; [done|]. by apply releases_around.
  - destruct Ha as (? & ? & Hu). split_and!; [auto..|]. rewrite around_heap by done. exact Hu.
  - destruct Ha as (? & ? & ?). auto.
  - destruct Ha as (? & Hv & Ho). split_and!; [auto|done|]. intros a n x Hx Hin Hne.
    destruct (around_object a n Hx) as [?|[? _]]; [by apply (Ho a n)|by apply (Hf a n)].
  - destruct Ha. auto.
  - destruct Ha. auto.
Qed.

End around.

End spec.
