(* ===== verification/HooksClient.v ===== *)
(** * The C symbols refine the abstract allocator

    Every symbol of posix_hooks.c, before and after the constructor, for
    objects of the array and of the heaps alike; hence client programs from the
    first request of the process on. *)

From S2P Require Import Prelude Common Sizes Machine Wp Dll Testbed Security Rtree Vmm VmmSpec.
From S2P Require Import Provision Telemetry Span SpanSpec Slab Tlh SlabSpec BinSpec HeapSpec.
From S2P Require Import TlhSpec RemoteSpec Lzmalloc PosixHooks HooksSpec LzmallocSpec WorldSpec WorldSend.
From S2P Require Import WorldLife WorldDirect ApiSpec ApiLife ClientSpec Frame BaseFrame HooksView.

Section refinement.
Context `{EnvLaws} `{!BaseLaws}.

(** ** Heaps and array side by side *)

Lemma shows_object s V a n : shows s V -> cv_objs V !! a = Some n ->
  0 < n /\ forall x, a <= x < a + n -> mapped s x = true.
Proof.
  intros (W & D & G & P & Hw & [Hu _ _ _]) Ha%Hu. destruct (in_use_range _ _ _ _ _ _ _ Hw Ha) as (_ & ? & _).
  split; [done|]. intros x Hx. by eapply in_use_mapped.
Qed.

Lemma backend_outside s ready V : backend s ready V -> base_apart s -> outside (cv_objs V).
Proof.
  intros Hb Hs a n Ha. destruct ready; [|destruct Hb as (_ & _ & E & _); by rewrite E, lookup_empty in Ha].
  destruct Hb as [_ Hv]. destruct (shows_object s V a n Hv Ha) as [Hn Hm]. split; [done|].
  destruct (decide (a + n <= g_base_heap \/ g_base_heap + LZ_BASE_HEAP_SIZE <= a)) as [|Hc]; [done|exfalso].
  set (x := Z.max a g_base_heap). assert (base_range x) as Hx by (unfold base_range, x, LZ_BASE_HEAP_SIZE in *; lia).
  specialize (Hs x Hx). rewrite Hm in Hs; [done|unfold x; lia].
Qed.

Lemma backend_ok s ready V : backend s ready V -> lost_ok V.
Proof.
  destruct ready; [intros [_ Hs]; by eapply shows_ok|]. intros (_ & _ & _ & E & _) a. rewrite E. by intros ?%elem_of_empty.
Qed.

Lemma backend_log s ready V : backend s ready V -> cv_log V = st_refused s.
Proof. destruct ready; [intros [_ Hs]; by apply shows_log|]. by intros (_ & _ & _ & _ & E). Qed.

Lemma hook_log s HV : hook_shows s HV -> cv_log (hv_view HV) = st_refused s.
Proof. intros (O & B & _ & _ & _ & Hbk & _). exact (backend_log _ _ _ Hbk). Qed.

(** Lost objects of a view are no blocks of the array. *)
Lemma hook_lost s HV : hook_shows s HV ->
  lost_ok (hv_view HV) /\ forall a, is_base_ptr a = true -> a ∉ cv_lost (hv_view HV).
Proof.
  intros (O & B & E & Hbb & _ & Hbk & _). pose proof (backend_ok _ _ _ Hbk) as Hok.
  pose proof (backend_outside _ _ _ Hbk (bb_apart s B Hbb)) as HO. split.
  - intros a Ha. destruct (Hok a Ha) as [[n Hn] Hk]. split; [|exact Hk]. exists n. rewrite E. by apply lookup_union_Some_l.
  - intros a Hp Ha. destruct (Hok a Ha) as [[n Hn] _]. destruct (HO a n Hn) as [? ?]. unfold is_base_ptr in Hp. lia.
Qed.

Lemma blocks_within s B : base_blocks s B -> within B.
Proof.
  intros [Ho Hb _ _ _] a n Ha. destruct (Hb a n Ha) as (? & _ & ? & ? & _). lia.
Qed.

Lemma blocks_kept s s' B : base_blocks s B -> base_kept s s' -> base_blocks s' B.
Proof.
  intros [Ho Hb Hd Hp Hz] [E1 E2 _ Ha Hx]. constructor; [by rewrite E1|by rewrite E1, E2|done|auto|].
  rewrite E1. intros x Hr. rewrite Hx; [by apply Hz|done|]. unfold base_range. lia.
Qed.

Lemma object_accessible s HV a n x :
  hook_shows s HV -> cv_objs (hv_view HV) !! a = Some n -> a <= x < a + n -> accessible s x = true.
Proof.
  intros (O & B & E & Hbb & _ & Hbk & _) Ha Hx. rewrite E in Ha. apply lookup_union_Some_raw in Ha as [Ha|[_ Ha]].
  - apply mapped_accessible. destruct (hv_ready HV); [|destruct Hbk as (_ & _ & E0 & _); cbn in E0; by rewrite E0, lookup_empty in Ha].
    destruct Hbk as [_ Hs]. by apply (shows_object s _ a n Hs).
  - destruct (blocks_within s B Hbb a n Ha) as (_ & ? & ?). unfold accessible. apply orb_true_iff. right. lia.
Qed.

Lemma object_nonnull_hook s HV a n : hook_shows s HV -> cv_objs (hv_view HV) !! a = Some n -> a <> NULL /\ 0 < n.
Proof.
  intros (O & B & E & Hbb & _ & Hbk & _) Ha. rewrite E in Ha. apply lookup_union_Some_raw in Ha as [Ha|[_ Ha]].
  - destruct (hv_ready HV); [|destruct Hbk as (_ & _ & E0 & _); cbn in E0; by rewrite E0, lookup_empty in Ha].
    destruct Hbk as [_ (W & D & G & P & Hw & [Hu _ _ _])]. apply Hu in Ha.
    destruct (in_use_range _ _ _ _ _ _ _ Hw Ha) as (? & ? & _). lia.
  - destruct (bb_block s B Hbb a n Ha) as (? & _ & ? & _). destruct base_placed as (_ & ? & _). lia.
Qed.

Lemma less_room s V ready room room' :
  hook_shows s (mk_hv V ready room) -> room' <= room -> hook_shows s (mk_hv V ready room').
Proof. intros (O & B & ? & ? & Hr & ? & ?) Hle. exists O, B. cbn in *. split_and!; [done|done|lia|done|done]. Qed.

(** Array blocks are told from other objects by their address. *)
Lemma base_ptr_object s HV O B a n :
  cv_objs (hv_view HV) = O ∪ B -> base_blocks s B -> outside O ->
  cv_objs (hv_view HV) !! a = Some n ->
  is_base_ptr a = true /\ B !! a = Some n \/ is_base_ptr a = false /\ O !! a = Some n /\ B !! a = None.
Proof.
  intros E Hbb HO Ha. rewrite E in Ha. unfold is_base_ptr. apply lookup_union_Some_raw in Ha as [Ha|[_ Ha]].
  - right. destruct (HO a n Ha) as [? ?]. split_and!; [lia|done|].
    eapply outside_within; [exact HO|by eapply blocks_within|by exists n].
  - left. destruct (blocks_within s B Hbb a n Ha) as (? & ? & ?). split; [lia|done].
Qed.

(** ** Writes into an object *)

Lemma shows_off_map s V h :
  shows s V -> (forall x, mapped s x = true -> h !! x = h_bytes s !! x) -> shows (set_h_bytes h s) V.
Proof.
  intros (W & D & G & P & Hw & [Hu Hl Hg Hb]) Hh. set (s' := set_h_bytes h s).
  assert (mem_ext s s') as Hext.
  { constructor; [done..|exact Hh|by apply only_grows_same]. }
  assert (effect s W D nothing nothing_new s' W D G P) as [Hw' Hu' Hb' _ _ _].
  { apply effect_grow; try done; [|apply Hw|eapply registry_frame; [apply Hw|done|eauto|done]].
    intros o w t Ho Ht. exists t. split_and!; [done..|]. exact (wd_slot _ _ _ _ _ _ _ _ Hw Ho Ht). }
  exists W, D, G, P. split; [done|]. constructor; [|exact Hl|exact Hg|].
  - intros a n. rewrite Hu'. unfold nothing, nothing_new. rewrite <- Hu. tauto.
  - intros a n x Ha Hx. rewrite <- (Hb a n x Ha Hx). unfold byte_of. f_equal. by apply (Hb' a n); [apply Hu| |].
Qed.

Lemma shows_in_object s V h a n :
  shows s V -> cv_objs V !! a = Some n ->
  (forall x, ~ (a <= x < a + n) -> h !! x = h_bytes s !! x) ->
  shows (set_h_bytes h s) (with_bytes (byte_of (set_h_bytes h s)) V).
Proof.
  intros (W & D & G & P & Hw & [Hu Hl Hg Hb]) Ha Hh. exists W, D, G, P. split; [|by constructor].
  eapply world_write; [exact Hw|by apply Hu|done].
Qed.

Lemma hook_write s HV h a n :
  hook_shows s HV -> cv_objs (hv_view HV) !! a = Some n ->
  (forall x, ~ (a <= x < a + n) -> h !! x = h_bytes s !! x) ->
  let s' := set_h_bytes h s in
  hook_shows s' (mk_hv (with_bytes (byte_of s') (hv_view HV)) (hv_ready HV) (hv_room HV)).
Proof.
  intros (O & B & E & Hbb & Hrm & Hbk & Hb) Ha Hh s'. pose proof (bb_apart s B Hbb) as Hap.
  pose proof (backend_outside _ _ _ Hbk Hap) as HO. cbn [cv_objs] in HO.
  destruct (base_ptr_object s HV O B a n E Hbb HO Ha) as [[_ HaB]|(_ & HaO & _)].
  - exists O, B. cbn [hv_view cv_objs cv_byte hv_ready hv_room]. split_and!; [done| |done| |done].
    + destruct Hbb as [A1 A2 A3 A4 A5]. constructor; try done. intros x Hx. cbn. rewrite Hh; [by apply A5|].
      destruct (A2 a n HaB) as (_ & _ & _ & ? & _). cbn in Hx. lia.
    + destruct (hv_ready HV); [|by destruct Hbk as (? & [] & ? & ? & ?)]. destruct Hbk as [Hr Hs]. split; [done|].
      assert (forall x, mapped s x = true -> h !! x = h_bytes s !! x) as Hoff.
      { intros x Hx. apply Hh. intros Hin. destruct (blocks_within s B Hbb a n HaB) as (_ & ? & ?).
        rewrite Hap in Hx; [done|]. unfold base_range. lia. }
      assert (shows s' (with_objs O (hv_view HV))) as (W & D & G & P & Hw & [Hu Hl Hg _]) by (by apply shows_off_map).
      exists W, D, G, P. split; [done|]. by constructor.
  - destruct (hv_ready HV) eqn:Er; [|destruct Hbk as (_ & _ & E0 & _); cbn in E0; by rewrite E0, lookup_empty in HaO].
    exists O, B. cbn [hv_view cv_objs cv_byte hv_ready hv_room]. split_and!; [done| |done| |done].
    + destruct Hbb as [A1 A2 A3 A4 A5]. constructor; try done. intros x Hx. cbn. rewrite Hh; [by apply A5|].
      destruct (HO a n HaO) as [_ ?]. cbn in Hx. lia.
    + destruct Hbk as [Hr Hs]. split; [done|]. by eapply (shows_in_object s (with_objs O (hv_view HV))).
Qed.

(** A block of the array that is freed stays unused for ever. *)
Lemma hook_drop s HV a n :
  hook_shows s HV -> cv_objs (hv_view HV) !! a = Some n -> is_base_ptr a = true ->
  hook_shows s (mk_hv (with_objs (delete a (cv_objs (hv_view HV))) (hv_view HV)) (hv_ready HV) (hv_room HV)).
Proof.
  intros (O & B & E & Hbb & Hrm & Hbk & Hb) Ha Hp.
  pose proof (backend_outside _ _ _ Hbk (bb_apart s B Hbb)) as HO. cbn [cv_objs] in HO.
  destruct (base_ptr_object s HV O B a n E Hbb HO Ha) as [[_ HaB]|(? & _)]; [|congruence].
  exists O, (delete a B). cbn [hv_view cv_objs cv_byte hv_ready hv_room]. split_and!; [|..|done|done|].
  - rewrite E, delete_union, (delete_id O); [done|]. destruct (O !! a) as [m|] eqn:Eo; [|done].
    rewrite (outside_within O B a) in HaB; [done|done|by eapply blocks_within|by exists m].
  - destruct Hbb as [A1 A2 A3 A4 A5]. constructor; try done.
    + intros b m [_ Hm]%lookup_delete_Some. by apply A2.
    + intros b m b' m' [_ Hm]%lookup_delete_Some [_ Hm']%lookup_delete_Some. by apply A3.
  - intros b m x [_ Hm]%lookup_delete_Some. by apply Hb.
Qed.

(** ** Calls that reach the heaps *)

(** The array is untouched by the run of [m] from [s]. *)
Definition kept_by {A} (m : M A) (s : state) : Prop := forall r s', m s = Done r s' -> base_kept s s'.

Lemma wpt_kept {A} T (m : M A) Q s :
  wpt T m Q s -> kept_by m s -> wpt T m (fun r s' => Q r s' /\ base_kept s s') s.
Proof. unfold wpt, kept_by. destruct (m s) as [r s'|[]]; eauto. Qed.

Lemma kept_bind {A B} (m : M A) (f : A -> M B) s :
  kept_by m s -> (forall a s', m s = Done a s' -> kept_by (f a) s') -> kept_by (m ≫= f) s.
Proof.
  intros Hm Hf r s'. unfold mbind, M_bind. destruct (m s) as [a s1|] eqn:E; [|done]. intros E'.
  etrans; [by apply (Hm a)|by eapply Hf].
Qed.

Lemma wpt_done {A} T (m : M A) (Q : A -> state -> Prop) s r s' : wpt T m Q s -> m s = Done r s' -> Q r s'.
Proof. unfold wpt. intros Hq E. by rewrite E in Hq. Qed.

(** Bulk writes into a range that is mapped. *)
Lemma kept_off_base s h r n :
  (forall x, r <= x < r + n -> mapped s x = true) ->
  (forall x, ~ (r <= x < r + n) -> h !! x = h_bytes s !! x) -> base_kept s (set_h_bytes h s).
Proof.
  intros Hm Hh. constructor; try done. intros Hs x Hx. apply Hh. intros Hin. specialize (Hs x Hx). by rewrite Hm in Hs.
Qed.

Lemma kept_memset s r n :
  (forall x, r <= x < r + n -> mapped s x = true) -> kept_by (memset_zero r n) s.
Proof.
  intros Hm [] s'. unfold memset_zero, check_range, modify, mbind, M_bind. destruct (uncovered _ _ _); [|done].
  intros [= <-]. apply (kept_off_base s _ r n); [done|]. intros x Hx. rewrite clear_range_lookup.
  by replace ((r <=? x) && (x <? r + n)) with false by lia.
Qed.

Lemma kept_memcpy s r a n :
  (forall x, r <= x < r + n -> mapped s x = true) -> kept_by (memcpy r a n) s.
Proof.
  intros Hm [] s'. unfold memcpy, check_range, modify, mbind, M_bind. destruct (uncovered _ _ _); [|done].
  destruct (uncovered _ _ _); [|done]. intros [= <-]. apply (kept_off_base s _ r n); [done|].
  intros x Hx. rewrite copy_bytes_lookup. by replace ((r <=? x) && (x <? r + n)) with false by lia.
Qed.

Lemma fresh_mapped me size s V r s' :
  shows s V -> 0 <= size <= 2 ^ 46 -> lz_malloc me size s = Done r s' -> r <> NULL ->
  forall x, r <= x < r + size -> mapped s' x = true.
Proof.
  intros (W & D & G & P & Hw & _) Hs E Hr x Hx.
  destruct (wpt_done _ _ _ _ _ _ (wpt_malloc me size W D G P s Hw Hs) E) as (n & W' & D' & G' & P' & Hn & He & _).
  eapply (in_use_mapped _ _ _ _ _ r n); [apply He| |lia]. apply (ef_in_use _ _ _ _ _ _ _ _ _ _ He). by right.
Qed.

Lemma kept_calloc me num size s V :
  shows s V -> 0 <= num < 2 ^ 64 -> 0 <= size < 2 ^ 64 -> num * size <= 2 ^ 46 -> kept_by (lz_calloc me num size) s.
Proof.
  intros Hs Hn Hz Hp. unfold lz_calloc.
  assert (exists num' size', (if (num =? 0) || (size =? 0) then (1, 1) else (num, size)) = (num', size') /\
    0 <= num' * size' <= 2 ^ 46) as (num' & size' & -> & Hb).
  { destruct ((num =? 0) || (size =? 0)); [by exists 1, 1|]. exists num, size. split; [done|nia]. }
  destruct (SIZE_MAX / num' <? size'); [intros r s'; by apply respects_ret|].
  rewrite (u64_small (num' * size')) by lia. apply kept_bind; [intros r s'; apply quiet_lz_malloc|].
  intros r s1 E. destruct (Z.eqb_spec r NULL) as [|Hr]; [intros r' s'; by apply respects_ret|].
  apply kept_bind; [|intros a s' _ r' s2; by apply respects_ret].
  destruct (_ <=? 1048576); [|intros r' s'; by apply respects_ret]. apply kept_memset.
  by eapply fresh_mapped.
Qed.

Lemma kept_realloc me ptr size s V :
  shows s V -> 0 <= size <= 2 ^ 46 -> freeable V ptr -> kept_by (lz_realloc me ptr size) s.
Proof.
  intros Hs Hz Hp. unfold lz_realloc. destruct (Z.eqb_spec ptr NULL) as [|Hnp]; [intros r s'; apply quiet_lz_malloc|].
  destruct (size =? 0).
  { apply kept_bind; [intros r s'; apply quiet_lz_free|intros a s1 _ r s'; by apply respects_ret]. }
  unfold kept_by. intros r s'. unfold mbind at 1, M_bind at 1.
  destruct (lz_malloc_usable_size ptr s) as [n s0|] eqn:E0; [|done].
  assert (s0 = s) as ->.
  { destruct Hp as [?|[k Hk]]; [done|]. destruct Hs as (W & D & G & P & Hw & [Hu _ _ _]). apply Hu in Hk.
    assert (wp (lz_malloc_usable_size ptr) (fun _ s' => s' = s) s) as Hwp by (by eapply wp_usable_size).
    unfold wp in Hwp. by rewrite E0 in Hwp. }
  revert r s'.
  change (kept_by (if n =? 0 then mret NULL else if size <=? n then mret ptr else
    new_ptr ← lz_malloc me size;
    if new_ptr =? NULL then mret NULL else memcpy new_ptr ptr n;; lz_free me ptr;; mret new_ptr) s).
  destruct (n =? 0); [intros r s'; by apply respects_ret|]. destruct (Z.leb_spec size n); [intros r s'; by apply respects_ret|].
  apply kept_bind; [intros r s'; apply quiet_lz_malloc|]. intros r s1 E1.
  destruct (Z.eqb_spec r NULL) as [|Hr]; [intros r' s'; by apply respects_ret|].
  apply kept_bind; [|intros a s2 _; apply kept_bind; [intros r' s'; apply quiet_lz_free|intros b s3 _ r' s'; by apply respects_ret]].
  apply kept_memcpy. intros x Hx. eapply fresh_mapped; [exact Hs|exact Hz|done|done|lia].
Qed.

(** Calls that name no block of the array. *)
Definition heap_args (c : call) : Prop :=
  match c with
  | Realloc ptr _ | Free ptr | UsableSize ptr => is_base_ptr ptr = false
  | Read _ _ | Write _ _ _ => False
  | _ => True
  end.

Lemma kept_perform me c s V : shows s V -> allowed V c -> heap_args c -> kept_by (perform me c) s.
Proof.
  intros Hs Hc Ha. destruct c; cbn [perform allowed] in *; try done;
    try (intros r s'; solve [apply quiet_lz_malloc|apply quiet_lz_memalign|apply quiet_usable_size]).
  - destruct Hc as (? & ? & ?). by eapply kept_calloc.
  - destruct Hc. by eapply kept_realloc.
  - intros r s'. apply respects_bind; [apply _|apply quiet_lz_free|intros ?; by apply respects_ret].
  - intros r s'. apply respects_bind; [apply _|apply quiet_thread_exit|intros ?; by apply respects_ret].
  - intros r s'. apply respects_bind; [apply _|apply quiet_gc|intros ?; by apply respects_ret].
Qed.

Lemma allowed_heap V B c : within B -> heap_args c -> allowed (around B V) c -> allowed V c.
Proof.
  intros HB Ha. assert (forall p, is_base_ptr p = false ->
    is_Some (cv_objs (around B V) !! p) -> is_Some (cv_objs V !! p)) as Hp.
  { intros p Hp [n [Hn|[_ Hn]]%lookup_union_Some_raw]; [by exists n|]. destruct (HB p n Hn) as (? & ? & ?).
    unfold is_base_ptr in Hp. lia. }
  destruct c; cbn in *; try done; unfold freeable; cbn; naive_solver.
Qed.

(** The answer of the heaps, with the blocks of the array around it. *)
Lemma heap_call me c s HV :
  hook_shows s HV -> hv_ready HV = true -> allowed (hv_view HV) c -> heap_args c ->
  wpt (tlh_refused s) (perform me c) (fun r s' =>
    exists V', hook_shows s' (mk_hv V' true (hv_room HV)) /\ answers (hv_view HV) c r V') s.
Proof.
  intros (O & B & E & Hbb & Hrm & Hbk & Hb) Er Hc Hargs. pose proof (bb_apart s B Hbb) as Hap.
  pose proof (backend_outside _ _ _ Hbk Hap) as HO. cbn [cv_objs] in HO. pose proof (blocks_within s B Hbb) as HB.
  destruct HV as [[objs lost log f] ready room]. unfold with_objs in *. cbn [hv_view hv_ready hv_room cv_objs cv_byte cv_lost cv_log] in *.
  subst objs ready. set (V0 := mk_view O lost log f) in *. change (mk_view (O ∪ B) lost log f) with (around B V0) in *.
  destruct Hbk as [Hr Hs]. apply allowed_heap in Hc; [|done..].
  eapply wpt_mono; [apply wpt_kept; [by apply (wpt_perform me c V0)|by eapply kept_perform]|].
  intros r s' [(Vz & Hs' & Hans) Hk]. pose proof (blocks_kept s s' B Hbb Hk) as Hbb'.
  set (V1 := with_bytes (byte_of s') Vz). assert (backend s' true V1) as Hbk'.
  { split; [by rewrite (bk_ready _ _ Hk)|]. destruct Hs' as (W & D & G & P & Hw & []). exists W, D, G, P. by split; [|constructor]. }
  exists (around B V1). split.
  - exists (cv_objs V1), B. cbn [hv_view hv_ready hv_room cv_objs cv_byte]. split_and!; try done.
    by rewrite (bk_offset _ _ Hk).
  - apply answers_around; [done|exact (backend_outside _ _ _ Hbk' (bb_apart _ _ Hbb'))|done| |by eapply shows_ok|done|].
    + intros a n x Ha Hx. cbn [V0 V1 cv_byte with_bytes]. rewrite <- (Hb a n x Ha Hx). unfold byte_of. f_equal. apply (bk_bytes _ _ Hk Hap).
      destruct (HB a n Ha) as (_ & ? & ?). unfold base_range. lia.
    + apply answers_bytes; [done|done|]. destruct Hs' as (W & D & G & P & _ & [_ _ _ Hby]). exact Hby.
Qed.

(** ** Calls that reach the array *)

(** Giving up a block of the array. *)
Lemma drop_released s HV ptr n :
  hook_shows s HV -> cv_objs (hv_view HV) !! ptr = Some n -> is_base_ptr ptr = true ->
  let V' := with_objs (delete ptr (cv_objs (hv_view HV))) (hv_view HV) in
  hook_shows s (mk_hv V' (hv_ready HV) (hv_room HV)) /\
  extends (hv_view HV) V' /\ keeps (hv_view HV) V' /\ releases (hv_view HV) ptr V'.
Proof.
  intros Hs Hn Hb V'. destruct (hook_lost s HV Hs) as [Hok Hnl]. specialize (Hnl ptr Hb).
  split_and!; [by eapply hook_drop| |by intros a k x Ha _ _|unfold releases; by rewrite decide_False].
  constructor; [done|done|]. intros a Ha. destruct (Hok a Ha) as [? ?]. split; [|done]. cbn.
  rewrite lookup_delete_ne; [done|]. by intros ->.
Qed.

(** One early request: a new block of zeroed bytes. *)
Lemma boot_alloc k size s V room :
  hook_shows s (mk_hv V false room) -> 0 <= k <= 40 -> 0 <= size < 2 ^ 62 -> base_cost k size <= room ->
  wp (lz_base_malloc_aligned (2 ^ k) size) (fun r s' => exists V',
    hook_shows s' (mk_hv V' false (room - base_cost k size)) /\ keeps V V' /\ extends V V' /\
    grants V (Z.max 1 size) r V' /\ r <> NULL /\ r mod 2 ^ k = 0 /\
    forall x, r <= x < r + Z.max 1 size -> cv_byte V' x = 0) s.
Proof.
  intros Hsh Hk Hs Hc. pose proof (proj1 (hook_lost _ _ Hsh)) as Hok.
  destruct Hsh as (O & B & E & Hbb & Hrm & (Hrd & Hst & EO & EL & EG) & Hb). cbn [hv_view hv_ready hv_room cv_objs cv_byte with_objs cv_lost cv_log] in *. subst O.
  destruct (Hbb) as [A1 A2 A3 A4 A5].
  pose proof (base_malloc_run k size s base_placed A1 Hk Hs) as Hrun. unfold wp.
  destruct (lz_base_malloc_aligned (2 ^ k) size s) as [r s'|[]]; try done; [|unfold base_cost in Hc; lia].
  destruct Hrun as ((S1 & S2 & S3 & S4 & S5) & Hof & Hup & Hfr & Es). cbn [req_k req_size] in *.
  set (n := eff_size size) in *.
  assert (Z.max 1 size <= n /\ 0 < n) as [Hn Hn0].
  { unfold n, eff_size. destruct (Z.eqb_spec size 0); lia. }
  assert (forall a m, B !! a = Some m -> a + m <= r - 16) as Hbelow by (intros a m (_ & _ & _ & ? & _)%A2; lia).
  assert (B !! r = None) as Hnew.
  { destruct (B !! r) as [m|] eqn:Em; [|done]. specialize (Hbelow r m Em). destruct (A2 r m Em). lia. }
  assert (h_bytes s' = h_bytes s) as Eb by (by rewrite Es). rewrite map_empty_union in E.
  assert (base_blocks s' (<[r := n]> B)) as Hbb'.
  { constructor.
    - lia.
    - intros a m [[<- <-]|[Hne Ha]]%lookup_insert_Some; [split_and!; [done|done|lia|lia|done]|].
      destruct (A2 a m Ha) as (? & ? & ? & ? & Hz). split_and!; [done..|lia|]. rewrite Hfr; [done|lia].
    - intros a m b q [[<- <-]|[_ Ha]]%lookup_insert_Some [[<- <-]|[_ Hbq]]%lookup_insert_Some; [by left| | |by eauto].
      + specialize (Hbelow b q Hbq). lia.
      + specialize (Hbelow a m Ha). lia.
    - intros x Hx. specialize (A4 x Hx). rewrite Es. exact A4.
    - intros x Hx. rewrite Eb. apply A5. lia. }
  destruct base_placed as (_ & Hgb & _).
  exists (mk_view (<[r := n]> (cv_objs V)) ∅ (cv_log V) (byte_of s')). split_and!; [| | | |lia|done|].
  - exists ∅, (<[r := n]> B). cbn [hv_view hv_ready hv_room cv_objs cv_byte]. rewrite map_empty_union.
    split_and!; [by rewrite E|done|unfold base_cost; lia| |done].
    split_and!; [by rewrite Es| |done|done|]; [rewrite Es; by destruct Hst|]. rewrite Es. exact EG.
  - intros a m x Ha Ha' Hx. cbn. rewrite E in Ha. rewrite <- (Hb a m x Ha Hx). unfold byte_of. by rewrite Eb.
  - constructor; [|done|by intros a ?%elem_of_empty]. intros a _ _. cbn in *. by rewrite EL.
  - right. exists n. cbn. rewrite E. split; [|done]. split_and!; [lia|done|done|done|].
    intros a m Ha. specialize (Hbelow a m Ha). lia.
  - intros x Hx. cbn. unfold byte_of. rewrite Eb, A5; [done|]. lia.
Qed.

(** ** Routing *)

Lemma wpt_ready {A} T (m1 m2 : M A) Q s :
  g_lz_ready s = 1 -> wpt T m1 Q s -> wpt T (r ← ready; if r : bool then m1 else m2) Q s.
Proof. intros E. unfold ready, fetch, wpt, mbind, M_bind, mret, M_ret. by rewrite E. Qed.

Lemma wpt_boot {A} T (m1 m2 : M A) Q s :
  g_lz_ready s = 0 -> wpt T m2 Q s -> wpt T (r ← ready; if r : bool then m1 else m2) Q s.
Proof. intros E. unfold ready, fetch, wpt, mbind, M_bind, mret, M_ret. by rewrite E. Qed.

Lemma hook_flag s HV : hook_shows s HV -> g_lz_ready s = if hv_ready HV then 1 else 0.
Proof. intros (O & B & _ & _ & _ & Hbk & _). by destruct (hv_ready HV); destruct Hbk. Qed.

(** The room a call leaves. *)
Definition room_after (HV : hook_view) (c : call) : Z :=
  if hv_ready HV then hv_room HV else hv_room HV - call_cost c.

Definition routed_post (HV : hook_view) (c : call) (r : Z) (s' : state) : Prop :=
  exists V', hook_shows s' (mk_hv V' (hv_ready HV) (room_after HV c)) /\ answers (hv_view HV) c r V' /\
    (hv_ready HV = false -> granted c r).

Lemma wpt_malloc_routed me size s HV :
  hook_shows s HV -> 0 <= size <= 2 ^ 46 -> (hv_ready HV = false -> base_cost 4 size <= hv_room HV) ->
  wpt (tlh_refused s) (lz_malloc_routed me size) (routed_post HV (Malloc size)) s.
Proof.
  intros Hs Hsz Hc. pose proof (hook_flag s HV Hs) as Hf. unfold lz_malloc_routed, routed_post, room_after.
  destruct (hv_ready HV) eqn:Er.
  - apply wpt_ready; [done|]. eapply wpt_mono; [by apply (heap_call me (Malloc size) s HV)|].
    intros r s' (V' & ? & ?). by exists V'.
  - apply wpt_boot; [done|]. apply wpt_wp. destruct HV as [V rd room]. cbn in *. subst rd.
    eapply wp_mono; [apply (boot_alloc 4 size s V room); [done|lia|lia|auto]|].
    intros r s' (V' & ? & ? & ? & ? & ? & _). exists V'. done.
Qed.

Lemma wpt_same {A} T (m m' : M A) Q s : m s = m' s -> wpt T m' Q s -> wpt T m Q s.
Proof. unfold wpt. by intros ->. Qed.

Lemma hook_byte s HV a n x :
  hook_shows s HV -> cv_objs (hv_view HV) !! a = Some n -> a <= x < a + n -> byte_of s x = cv_byte (hv_view HV) x.
Proof.
  intros (O & B & E & Hbb & _ & Hbk & Hb) Ha Hx. rewrite E in Ha. apply lookup_union_Some_raw in Ha as [Ha|[_ Ha]]; [|eauto].
  destruct (hv_ready HV); [|destruct Hbk as (_ & _ & E0 & _); cbn in E0; by rewrite E0, lookup_empty in Ha].
  destruct Hbk as [_ (W & D & G & P & _ & [_ _ _ Hby])]. by apply (Hby a n x).
Qed.

(** Before the constructor every object is a block of the array. *)
Lemma early_object s HV a n :
  hook_shows s HV -> cv_objs (hv_view HV) !! a = Some n -> is_base_ptr a = false -> hv_ready HV = true.
Proof.
  intros (O & B & E & Hbb & _ & Hbk & _) Ha Hp. pose proof (backend_outside _ _ _ Hbk (bb_apart s B Hbb)) as HO.
  destruct (base_ptr_object s HV O B a n E Hbb HO Ha) as [[? _]|(_ & HaO & _)]; [congruence|].
  destruct (hv_ready HV); [done|]. destruct Hbk as (_ & _ & E0 & _). cbn in E0. by rewrite E0, lookup_empty in HaO.
Qed.

Lemma base_object_size s HV a n :
  hook_shows s HV -> cv_objs (hv_view HV) !! a = Some n -> is_base_ptr a = true ->
  default 0 (h_base_sizes s !! (a - sizeof_base_header)) = n.
Proof.
  intros (O & B & E & Hbb & _ & Hbk & _) Ha Hp. pose proof (backend_outside _ _ _ Hbk (bb_apart s B Hbb)) as HO.
  destruct (base_ptr_object s HV O B a n E Hbb HO Ha) as [[_ HaB]|(? & _)]; [|congruence].
  destruct (bb_block s B Hbb a n HaB) as (_ & _ & _ & _ & Hz). unfold sizeof_base_header. by rewrite Hz.
Qed.

(** Filling the object that a call has just granted. *)
Lemma hook_fill s V V1 ready room size r h :
  hook_shows s (mk_hv V1 ready room) -> keeps V V1 -> grants V size r V1 -> r <> NULL ->
  (forall x, ~ (r <= x < r + size) -> h !! x = h_bytes s !! x) ->
  let s' := set_h_bytes h s in let V2 := with_bytes (byte_of s') V1 in
  hook_shows s' (mk_hv V2 ready room) /\ keeps V V2.
Proof.
  intros Hs Hk Hg Hr Hh s' V2. destruct Hg as [[? _]|(m & (_ & _ & Hnew & Hm & Hd) & E)]; [done|].
  assert (cv_objs V1 !! r = Some m) as Hrm by (rewrite E; apply lookup_insert_eq). split.
  - apply (hook_write s (mk_hv V1 ready room) h r m); [done|done|]. intros x Hx. apply Hh. lia.
  - intros a n x Ha Ha' Hx. cbn in *. rewrite <- (Hk a n x Ha Ha' Hx).
    pose proof (hook_byte s _ a n x Hs Ha' Hx) as Eb. cbn in Eb. rewrite <- Eb.
    unfold byte_of, s'. cbn. rewrite Hh; [done|]. specialize (Hd a n Ha). lia.
Qed.

Lemma is_base_null : is_base_ptr NULL = false.
Proof. unfold is_base_ptr. destruct base_placed as (_ & ? & _). lia. Qed.

Lemma cost_nonneg HV c : allowed (hv_view HV) c -> 0 <= call_cost c.
Proof.
  destruct c; cbn [allowed call_cost]; unfold base_cost; intros Ha; nia.
Qed.

Lemma room_less HV c : allowed (hv_view HV) c -> room_after HV c <= hv_room HV.
Proof. intros Hc%cost_nonneg. unfold room_after. destruct (hv_ready HV); lia. Qed.

(** A call that leaves memory alone. *)
Lemma routed_still s HV c r V' :
  hook_shows s (mk_hv V' (hv_ready HV) (hv_room HV)) -> allowed (hv_view HV) c -> answers (hv_view HV) c r V' ->
  granted c r -> routed_post HV c r s.
Proof. intros Hs Hc Ha Hg. exists V'. split_and!; [|done|done]. eapply less_room; [exact Hs|by apply room_less]. Qed.

(** ** The symbols *)

Lemma wpt_hook_calloc me num size s HV :
  hook_shows s HV -> allowed (hv_view HV) (Calloc num size) ->
  (hv_ready HV = false -> call_cost (Calloc num size) <= hv_room HV) ->
  wpt (tlh_refused s) (calloc me num size) (routed_post HV (Calloc num size)) s.
Proof.
  intros Hs Hal Hc. pose proof (hook_flag s HV Hs) as Hf. destruct (Hal) as (Hn & Hz & Hp). unfold calloc.
  assert (2 ^ 64 <=? num * size = false) as -> by lia.
  destruct (hv_ready HV) eqn:Er; [apply wpt_ready; [done|]|apply wpt_boot; [done|]].
  - eapply wpt_mono; [by apply (heap_call me (Calloc num size) s HV)|]. intros r s' (V' & ? & ?).
    exists V'. unfold room_after. by rewrite Er.
  - destruct HV as [V rd room]. cbn [hv_view hv_ready hv_room call_cost] in *. subst rd. specialize (Hc eq_refl).
    apply wpt_wp. wp_step.
    eapply wp_mono; [apply (boot_alloc 4 (num * size) s V room); [done|lia|nia|done]|].
    intros r s1 (V1 & Hs1 & Hk & Hex & Hg & Hr & _ & Hzero). zfalse (r =? NULL). cbn [negb]. wp_step.
    destruct (Hg) as [[? _]|(m & (_ & _ & _ & Hm & _) & E)]; [done|].
    assert (cv_objs V1 !! r = Some m) as Hrm by (rewrite E; apply lookup_insert_eq).
    unfold memset_zero. wp_step. apply wp_check_range.
    { intros x Hx. eapply (object_accessible s1 _ r m); [exact Hs1|exact Hrm|lia]. }
    wp_step. wp_step. set (h := clear_range r (r + num * size) (h_bytes s1)).
    assert (forall x, h !! x = if (r <=? x) && (x <? r + num * size) then None else h_bytes s1 !! x) as Eh.
    { intros x. apply clear_range_lookup. }
    destruct (hook_fill s1 V V1 false (room - base_cost 4 (num * size)) (Z.max 1 (num * size)) r h) as [Hs2 Hk2]; try done.
    { intros x Hx. rewrite Eh. by replace ((r <=? x) && (x <? r + num * size)) with false by lia. }
    eexists. split; [exact Hs2|]. split; [|done]. split; [by destruct Hex|]. split_and!; [done|done|]. intros _ i Hi. unfold byte_of. cbn.
    rewrite Eh. destruct ((r <=? r + i) && (r + i <? r + num * size)); [done|].
    change (byte_of s1 (r + i) = 0). rewrite (hook_byte s1 _ r m (r + i) Hs1 Hrm) by lia. cbn. apply Hzero. lia.
Qed.

(** Growing a block of the array: a new object, the contents, and the block is
    given up. *)
Lemma wpt_grow_block me ptr n size s HV :
  hook_shows s HV -> cv_objs (hv_view HV) !! ptr = Some n -> is_base_ptr ptr = true -> 0 < n < size -> size <= 2 ^ 46 ->
  (hv_ready HV = false -> base_cost 4 size <= hv_room HV) ->
  wpt (tlh_refused s) (new_ptr ← lz_malloc_routed me size;
      (if negb (new_ptr =? NULL) then memcpy new_ptr ptr n else mret tt);; mret new_ptr)
    (routed_post HV (Realloc ptr size)) s.
Proof.
  intros Hs Hn Hp Hlt Hsz Hc. destruct (object_nonnull_hook s HV ptr n Hs Hn) as [Hp0 _].
  apply wpt_bind. eapply wpt_mono; [apply (wpt_malloc_routed me size s HV); [done|lia|done]|].
  intros r s1 (V1 & Hs1 & [Hex [Hg Hk]] & _). apply wpt_wp. rewrite Z.max_r in Hg by lia.
  destruct (hook_lost s HV Hs) as [HL Hnl]. specialize (Hnl ptr Hp).
  assert (forall V2 s2, hook_shows s2 (mk_hv V2 (hv_ready HV) (room_after HV (Malloc size))) ->
    keeps (hv_view HV) V2 -> extends (hv_view HV) V2 -> reallocs (hv_view HV) ptr n size r V2 ->
    routed_post HV (Realloc ptr size) r s2) as Hpost.
  { intros V2 s2 Hs2 Hk2 Hex2 Hra. exists V2. split_and!; [exact Hs2| |done]. split; [done|]. split; [done|]. zfalse (ptr =? NULL).
    zfalse (size =? 0). exists n. done. }
  destruct (Z.eqb_spec r NULL) as [->|Hr]; cbn [negb].
  { wp_steps. eapply (Hpost V1); [done..|]. unfold reallocs. rewrite decide_False by done. zfalse (size <=? n). left.
    by destruct Hg as [[_ ?]|(? & [? _] & _)]. }
  destruct (Hg) as [[? _]|(m & Hpl & E)]; [done|]. destruct (Hpl) as (_ & _ & Hnew & Hm & Hd).
  assert (cv_objs V1 !! r = Some m) as Hrm by (rewrite E; apply lookup_insert_eq).
  assert (r <> ptr) as Hne by congruence.
  assert (cv_objs V1 !! ptr = Some n) as Hpn by (rewrite E; by rewrite lookup_insert_ne).
  wp_step. unfold memcpy. wp_step. apply wp_check_range.
  { intros x Hx. eapply (object_accessible s1 _ r m); [exact Hs1|exact Hrm|lia]. }
  wp_step. apply wp_check_range.
  { intros x Hx. eapply (object_accessible s1 _ ptr n); [exact Hs1|exact Hpn|lia]. }
  wp_step. wp_step. set (h := copy_bytes (h_bytes s1) r ptr n).
  assert (forall x, h !! x = if (r <=? x) && (x <? r + n) then h_bytes s1 !! (x - (r - ptr)) else h_bytes s1 !! x) as Eh.
  { intros x. apply copy_bytes_lookup. }
  destruct (hook_fill s1 (hv_view HV) V1 (hv_ready HV) (room_after HV (Malloc size)) size r h) as [Hs2 Hk2]; try done.
  { intros x Hx. rewrite Eh. by replace ((r <=? x) && (x <? r + n)) with false by lia. }
  set (s2 := set_h_bytes h s1) in *. set (V2 := with_bytes (byte_of s2) V1) in *.
  pose proof (hook_drop s2 _ ptr n Hs2 Hpn Hp) as Hs3. cbn [hv_view hv_ready hv_room] in Hs3.
  eapply Hpost; [exact Hs3| | |].
  - intros a k x Ha Ha' Hx. cbn [cv_objs with_objs] in Ha'. apply lookup_delete_Some in Ha' as [_ Ha']. by apply (Hk2 a k).
  - destruct Hex as [X1 X2 X3]. constructor; [|exact X2|].
    + intros a Ha [k Ha']. cbn in Ha'. apply lookup_delete_Some in Ha' as [_ Ha']. apply X1; [done|by exists k].
    + intros a Ha. destruct (X3 a Ha) as [Hs4 ?]. split; [|done]. cbn. rewrite lookup_delete_ne; [done|].
      intros <-. apply Hnl. apply X1; [by exists n|by exists n|done].
  - unfold reallocs. rewrite decide_False by done. zfalse (size <=? n). right. exists m. split_and!; [done| |].
    + cbn. by rewrite E.
    + intros i Hi. cbn. rewrite <- (Hk ptr n (ptr + i) Hn Hpn) by lia. pose proof (hook_byte s1 _ ptr n (ptr + i) Hs1 Hpn ltac:(lia)) as Eb.
      cbn in Eb. rewrite <- Eb.
      unfold byte_of, s2. cbn. rewrite Eh. replace ((r <=? r + i) && (r + i <? r + n)) with true by lia.
      by replace (r + i - (r - ptr)) with (ptr + i) by lia.
Qed.

Lemma heap_routed me c s HV (m : M Z) :
  hook_shows s HV -> hv_ready HV = true -> allowed (hv_view HV) c -> heap_args c -> m s = perform me c s ->
  wpt (tlh_refused s) m (routed_post HV c) s.
Proof.
  intros Hs Er Hc Ha E. eapply wpt_same; [exact E|]. eapply wpt_mono; [by apply (heap_call me c s HV)|].
  intros r s' (V' & ? & ?). exists V'. unfold room_after. by rewrite Er.
Qed.

Lemma free_heap_same me ptr s : ptr <> NULL -> is_base_ptr ptr = false -> g_lz_ready s = 1 ->
  lz_free_routed me ptr s = lz_free me ptr s.
Proof.
  intros Hn Hp Hr. unfold lz_free_routed. zfalse (ptr =? NULL). rewrite Hp.
  unfold ready, fetch, mbind, M_bind, mret, M_ret. by rewrite Hr.
Qed.

Lemma wpt_hook_realloc me ptr size s HV :
  hook_shows s HV -> allowed (hv_view HV) (Realloc ptr size) ->
  (hv_ready HV = false -> call_cost (Realloc ptr size) <= hv_room HV) ->
  wpt (tlh_refused s) (realloc me ptr size) (routed_post HV (Realloc ptr size)) s.
Proof.
  intros Hs Hal Hc. pose proof (hook_flag s HV Hs) as Hf. destruct (Hal) as [Hsz Hp]. unfold realloc.
  destruct (Z.eqb_spec ptr NULL) as [->|Hne].
  { eapply wpt_mono; [by apply (wpt_malloc_routed me size s HV)|]. intros r s' (V' & ? & (? & ? & ?) & _). exists V'. done. }
  destruct Hp as [?|[n Hn]]; [done|]. destruct (object_nonnull_hook s HV ptr n Hs Hn) as [_ Hn0].
  destruct (hook_lost s HV Hs) as [Hok Hnl].
  destruct (is_base_ptr ptr) eqn:Hb.
  - destruct (Z.eqb_spec size 0) as [->|Hz].
    { apply wpt_wp. unfold lz_free_routed. zfalse (ptr =? NULL). rewrite Hb. wp_steps.
      destruct (drop_released s HV ptr n Hs Hn Hb) as (? & ? & ? & ?).
      eapply routed_still; [done|done| |done]. split; [done|]. by zfalse (ptr =? NULL). }
    apply wpt_bind, wpt_wp. unfold base_size. wp_step. rewrite (base_object_size s HV ptr n Hs Hn Hb).
    destruct (Z.leb_spec size n).
    + apply wpt_wp. wp_step. eapply (routed_still s HV _ _ (hv_view HV)); [by destruct HV|done| |done].
      split; [by apply extends_refl|]. split; [done|]. zfalse (ptr =? NULL). zfalse (size =? 0). exists n. split; [done|].
      unfold reallocs. rewrite decide_False by auto. by ztrue (size <=? n).
    + apply wpt_grow_block; [done..|lia|lia|done].
  - pose proof (early_object s HV ptr n Hs Hn Hb) as Er. rewrite Er in Hf.
    apply (heap_routed me (Realloc ptr size)); [done..|]. cbn [perform]. unfold lz_realloc. zfalse (ptr =? NULL).
    destruct (size =? 0).
    + unfold mbind, M_bind. by rewrite free_heap_same.
    + unfold fetch, mbind, M_bind. by rewrite Hf.
Qed.

Lemma wpt_hook_free me ptr s HV :
  hook_shows s HV -> allowed (hv_view HV) (Free ptr) ->
  wpt (tlh_refused s) (free me ptr;; mret 0) (routed_post HV (Free ptr)) s.
Proof.
  intros Hs Hal. pose proof (hook_flag s HV Hs) as Hf. unfold free. destruct (decide (ptr = NULL)) as [->|Hne].
  { apply wpt_wp. unfold lz_free_routed. change (NULL =? NULL) with true. cbv iota. wp_steps.
    eapply (routed_still s HV _ _ (hv_view HV)); [by destruct HV|done| |done].
    split; [|done]. apply extends_refl. by eapply hook_lost. }
  destruct (Hal) as [?|[n Hn]]; [done|]. destruct (is_base_ptr ptr) eqn:Hb.
  - apply wpt_wp. unfold lz_free_routed. zfalse (ptr =? NULL). rewrite Hb. wp_steps.
    destruct (drop_released s HV ptr n Hs Hn Hb) as (? & ? & ? & ?).
    eapply routed_still; [done|done| |done]. split; [done|]. by zfalse (ptr =? NULL).
  - pose proof (early_object s HV ptr n Hs Hn Hb) as Er. rewrite Er in Hf.
    apply (heap_routed me (Free ptr)); [done..|]. cbn [perform]. unfold mbind, M_bind. by rewrite free_heap_same.
Qed.

Lemma wpt_hook_usable ptr s HV :
  hook_shows s HV -> allowed (hv_view HV) (UsableSize ptr) ->
  wpt (tlh_refused s) (malloc_usable_size ptr) (routed_post HV (UsableSize ptr)) s.
Proof.
  intros Hs Hal. pose proof (hook_flag s HV Hs) as Hf. destruct (Hal) as [n Hn].
  destruct (object_nonnull_hook s HV ptr n Hs Hn) as [Hne _]. unfold malloc_usable_size. zfalse (ptr =? NULL).
  destruct (is_base_ptr ptr) eqn:Hb.
  - apply wpt_wp. unfold base_size. wp_step. rewrite (base_object_size s HV ptr n Hs Hn Hb).
    destruct (hook_lost s HV Hs) as [Hok Hnl].
    eapply (routed_still s HV _ _ (hv_view HV)); [by destruct HV|done| |done].
    split; [by apply extends_refl|]. split_and!; [done|done|]. by rewrite decide_False by auto.
  - pose proof (early_object s HV ptr n Hs Hn Hb) as Er. rewrite Er in Hf. apply wpt_ready; [done|].
    apply (heap_routed 0 (UsableSize ptr)); done.
Qed.

(** Aligned requests: through the heaps once they are there. *)
Lemma wpt_hook_aligned k size s HV (m : M Z) :
  hook_shows s HV -> allowed (hv_view HV) (Memalign k size) ->
  (hv_ready HV = false -> call_cost (Memalign k size) <= hv_room HV) ->
  (hv_ready HV = true -> wpt (tlh_refused s) m (routed_post HV (Memalign k size)) s) ->
  wpt (tlh_refused s) (r ← ready; if r : bool then m else lz_base_malloc_aligned (2 ^ k) size)
    (routed_post HV (Memalign k size)) s.
Proof.
  intros Hs Hal Hc Hm. pose proof (hook_flag s HV Hs) as Hf. destruct (Hal) as [Hk Hz].
  destruct (hv_ready HV) eqn:Er; [apply wpt_ready; auto|apply wpt_boot; [done|]].
  destruct HV as [V rd room]. cbn [hv_view hv_ready hv_room call_cost] in *. subst rd. specialize (Hc eq_refl).
  apply wpt_wp. eapply wp_mono; [apply (boot_alloc k size s V room); [done|lia|lia|done]|].
  intros r s1 (V1 & Hs1 & Hk1 & Hex & Hg & Hr & Hal1 & _). exists V1. rewrite Z.max_r in Hg by lia. split_and!; done.
Qed.

Lemma wpt_lz_memalign me k size s HV :
  hook_shows s HV -> allowed (hv_view HV) (Memalign k size) -> hv_ready HV = true ->
  wpt (tlh_refused s) (lz_memalign me (2 ^ k) size) (routed_post HV (Memalign k size)) s.
Proof. intros Hs Hal Er. by apply (heap_routed me (Memalign k size)). Qed.

(** Refused arguments. *)
Definition rejected (HV : hook_view) (r : Z) (s' : state) : Prop :=
  r = NULL /\ hook_shows s' HV.

Lemma wpt_aligned_alloc me k size s HV :
  hook_shows s HV -> allowed (hv_view HV) (Memalign k size) -> hv_ready HV = true ->
  wpt (tlh_refused s) (lz_aligned_alloc me (2 ^ k) size)
    (if size mod 2 ^ k =? 0 then routed_post HV (Memalign k size) else rejected HV) s.
Proof.
  intros Hs Hal Er. unfold lz_aligned_alloc. destruct (Hal) as [Hk _]. rewrite power_of_two_alignment by lia.
  destruct (size mod 2 ^ k =? 0); cbn [negb]; [by apply wpt_lz_memalign|]. apply wpt_wp. by wp_step.
Qed.

Lemma wpt_posix_memalign me memptr k size s HV :
  hook_shows s HV -> allowed (hv_view HV) (Memalign k size) -> hv_ready HV = true -> memptr <> NULL ->
  wpt (tlh_refused s) (r ← lz_posix_memalign me memptr (2 ^ k) size; mret (default NULL r.2))
    (if 2 ^ k mod 8 =? 0 then routed_post HV (Memalign k size) else rejected HV) s.
Proof.
  intros Hs Hal Er Hm. unfold lz_posix_memalign. zfalse (memptr =? NULL). apply wpt_bind.
  destruct (Hal) as [Hk _]. pose proof (power_of_two_alignment k ltac:(lia)) as Hp2.
  apply orb_false_iff in Hp2 as [_ Hp2]. rewrite Hp2, orb_false_r. destruct (2 ^ k mod 8 =? 0); cbn [negb].
  - apply wpt_bind. eapply wpt_mono; [by apply wpt_lz_memalign|]. intros r s' Hr. apply wpt_wp.
    destruct (Z.eqb_spec r NULL) as [->|_]; wp_step; apply wpt_wp; by wp_step.
  - apply wpt_wp. wp_step. apply wpt_wp. by wp_step.
Qed.

Lemma page_size_is : page_size_or_default = 2 ^ 12.
Proof. unfold page_size_or_default. destruct page_size_known as [?| ->]; [|done]. by replace (sys_pagesize <=? 0) with true by lia. Qed.

(** Accesses. *)
Lemma wpt_hook_read ptr i s HV :
  hook_shows s HV -> allowed (hv_view HV) (Read ptr i) ->
  wpt (tlh_refused s) (check_accessible (ptr + i);; fetch (fun s => byte_of s (ptr + i))) (routed_post HV (Read ptr i)) s.
Proof.
  intros Hs Hal. destruct (Hal) as (n & Hn & Hi). apply wpt_wp. wp_step. unfold wp at 1, check_accessible.
  rewrite (object_accessible s HV ptr n) by (done || lia). wp_step.
  eapply (routed_still s HV _ _ (hv_view HV)); [by destruct HV|done| |done].
  split; [apply extends_refl; by eapply hook_lost|]. split_and!; [done..|]. apply (hook_byte s HV ptr n); [done..|lia].
Qed.

Lemma wpt_hook_write ptr i v s HV :
  hook_shows s HV -> allowed (hv_view HV) (Write ptr i v) ->
  wpt (tlh_refused s) (check_accessible (ptr + i);;
    modify (fun s => set_h_bytes (<[ptr + i := v]> (h_bytes s)) s);; mret 0) (routed_post HV (Write ptr i v)) s.
Proof.
  intros Hs Hal. destruct (Hal) as [(n & Hn & Hi) _]. apply wpt_wp. wp_step. unfold wp at 1, check_accessible.
  rewrite (object_accessible s HV ptr n) by (done || lia). wp_steps. set (h := <[ptr + i := v]> (h_bytes s)).
  assert (forall x, ~ (ptr <= x < ptr + n) -> h !! x = h_bytes s !! x) as Hh.
  { intros x Hx. unfold h. rewrite lookup_insert_ne; [done|lia]. }
  eapply routed_still; [exact (hook_write s HV h ptr n Hs Hn Hh)|done| |done]. pose proof (proj1 (hook_lost s HV Hs)).
  split; [by constructor|]. split_and!; [done| |].
  - unfold byte_of, h. cbn. by rewrite lookup_insert_eq.
  - intros a k x Ha Hx Hne. rewrite <- (hook_byte s HV a k x Hs Ha Hx). unfold byte_of, h. cbn. by rewrite lookup_insert_ne.
Qed.

(** ** The constructor *)

Lemma world_flag s W D G P v : world s W D G P -> world (set_g_lz_ready v s) W D G P.
Proof.
  intros Hw. assert (mem_ext s (set_g_lz_ready v s)) as Hext by (constructor; [done..|by apply only_grows_same]).
  assert (effect s W D nothing nothing_new (set_g_lz_ready v s) W D G P) as [? _ _ _ _ _]; [|done].
  apply effect_grow; try done; [|apply Hw|].
  - intros o w t Ho Ht. exists t. split_and!; [done..|]. exact (wd_slot _ _ _ _ _ _ _ _ Hw Ho Ht).
  - destruct (wd_registry _ _ _ _ _ Hw) as [R1 R2 R3 (Zs & R4 & R5 & R6)]. constructor; try done.
    exists Zs. split_and!; [eapply zombies_frame; [|exact R4]; eauto|done|done].
Qed.

Lemma wpt_constructor s V room :
  hook_shows s (mk_hv V false room) ->
  wpt (tlh_refused s) (lz_bootstrap_system;; mret 0) (fun _ s' => exists V',
    hook_shows s' (mk_hv V' true room) /\ unchanged V V') s.
Proof.
  intros (O & B & E & Hbb & Hrm & (Hf & Hst & EO & EL & EG) & Hb).
  cbn [hv_view hv_room cv_objs cv_byte cv_lost cv_log with_objs] in *. subst O.
  rewrite map_empty_union in E. pose proof (bb_apart s B Hbb) as Hap.
  apply wpt_bind. unfold lz_bootstrap_system. apply wpt_bind.
  eapply wpt_mono; [apply (wpt_kept _ _ (fun _ s' => world s' ∅ ∅ [] (replicate 16 []) /\ log_grows s s'));
    [by apply wpt_wp, wp_system_init|intros r s'; apply quiet_system_init]|].
  cbv beta. intros [] s1 [[Hw Hlg] Hk]. apply wpt_wp. wp_step. apply wpt_wp. wp_step. set (s2 := set_g_lz_ready 1 s1).
  assert (base_blocks s2 B) as Hbb2 by (destruct (blocks_kept s s1 B Hbb Hk); by constructor).
  exists (mk_view (cv_objs V) ∅ (st_refused s2) (byte_of s2)). split; [|split_and!; [| |done]].
  - exists ∅, B. cbn [hv_view hv_ready hv_room cv_objs cv_byte]. rewrite map_empty_union. split_and!; try done.
    + change (g_base_offset s2) with (g_base_offset s1). by rewrite (bk_offset _ _ Hk).
    + split; [done|]. apply (shows_empty s2 (byte_of s2)), world_flag, Hw.
  - constructor; [|by rewrite EG|by intros a ?%elem_of_empty]. intros a _ _. cbn. by rewrite EL.
  - intros a n x Ha _ Hx. cbn. rewrite E in Ha. rewrite <- (Hb a n x Ha Hx). change (byte_of s1 x = byte_of s x).
    unfold byte_of. f_equal. apply (bk_bytes _ _ Hk Hap).
    destruct (blocks_within s B Hbb a n Ha) as (_ & ? & ?). unfold base_range. lia.
Qed.

(** ** Every symbol *)

Definition hooked (HV : hook_view) (c : hook_call) (r : Z) (s' : state) : Prop :=
  exists HV', hook_shows s' HV' /\ hook_answers HV c r HV'.

Lemma hooked_of HV c c' r s' :
  hook_as c = Some c' -> hook_rejects HV c = false -> routed_post HV c' r s' -> hooked HV c r s'.
Proof.
  intros E Ej (V' & Hs & Ha & Hg). exists (mk_hv V' (hv_ready HV) (room_after HV c')). split; [done|].
  unfold hook_answers. rewrite E, Ej. cbn. split_and!; [done|done|]. unfold room_after. destruct (hv_ready HV); auto.
Qed.

Lemma hooked_rejected HV c c' r s' :
  hook_as c = Some c' -> hook_rejects HV c = true -> rejected HV r s' -> hooked HV c r s'.
Proof.
  intros E Ej [-> Hs]. exists HV. split; [done|]. unfold hook_answers. rewrite E, Ej.
  assert (hv_ready HV = true) as -> by (by apply andb_true_iff in Ej as [? _]).
  split; [split; [done|split_and!; [|done|done]]|done]. apply extends_refl. by eapply hook_lost.
Qed.

(** The symbols that have the name of an abstract call. *)
Lemma wpt_api me c s HV :
  hook_shows s HV -> allowed (hv_view HV) c -> (hv_ready HV = false -> early c /\ call_cost c <= hv_room HV) ->
  wpt (tlh_refused s) (perform_hook me (Api c)) (routed_post HV c) s.
Proof.
  intros Hs Hal Hc. pose proof (hook_flag s HV Hs) as Hf.
  assert (hv_ready HV = false -> call_cost c <= hv_room HV) as Hcost by (intros E; by apply Hc).
  destruct c; cbn [perform_hook].
  - by apply wpt_malloc_routed.
  - by apply wpt_hook_calloc.
  - by apply wpt_hook_realloc.
  - apply wpt_hook_aligned; [done..|]. by apply wpt_lz_memalign.
  - by apply wpt_hook_free.
  - by apply wpt_hook_usable.
  - by apply wpt_hook_read.
  - by apply wpt_hook_write.
  - destruct (hv_ready HV) eqn:Er; [|by destruct (Hc eq_refl)]. by apply (heap_routed me ThreadExit).
  - destruct (hv_ready HV) eqn:Er; [|by destruct (Hc eq_refl)]. by apply (heap_routed me Gc).
Qed.

(** The calls whose arguments are never refused. *)
Lemma wpt_accepted me c c' s HV :
  hook_shows s HV -> hook_as c = Some c' -> hook_rejects HV c = false -> hook_allowed HV c ->
  wpt (tlh_refused s) (perform_hook me c) (routed_post HV c') s.
Proof.
  intros Hs Ec Ej Hc. unfold hook_allowed in Hc. rewrite Ec in Hc. destruct Hc as (Hal & Hroom & Harg).
  assert (hv_ready HV = false -> call_cost c' <= hv_room HV) as Hcost by (intros E; by apply Hroom).
  pose proof (hook_flag s HV Hs) as Hf.
  destruct c; cbn in Ec; simplify_eq; cbn [perform_hook].
  - by apply wpt_api.
  - apply wpt_hook_aligned; [done..|]. intros Er. pose proof (wpt_aligned_alloc me k size s HV Hs Hal Er) as Hw.
    unfold hook_rejects in Ej. rewrite Er in Ej. apply negb_false_iff in Ej. by rewrite Ej in Hw.
  - unfold posix_memalign. destruct (hv_ready HV) eqn:Er.
    + pose proof (wpt_posix_memalign me memptr k size s HV Hs Hal Er Harg) as Hw.
      unfold hook_rejects in Ej. rewrite Er in Ej. apply negb_false_iff in Ej. rewrite Ej in Hw.
      eapply wpt_same; [|exact Hw]. unfold ready, fetch, mbind, M_bind, mret, M_ret. by rewrite Hf.
    + eapply wpt_same; [|eapply (wpt_hook_aligned k size s HV (mret NULL)); [done|done|intros _; by apply Hcost|by rewrite Er]].
      unfold ready, fetch, mbind, M_bind, mret, M_ret. rewrite Hf. zfalse (memptr =? NULL). cbn.
      by destruct (lz_base_malloc_aligned _ _ s).
  - unfold valloc, lz_valloc. rewrite page_size_is. apply wpt_hook_aligned; [done..|]. by apply wpt_lz_memalign.
  - unfold pvalloc, valloc, lz_valloc. rewrite page_size_is. apply wpt_hook_aligned; [done..|]. by apply wpt_lz_memalign.
  - unfold reallocarray. destruct (Hal) as [[_ ?] _]. replace (2 ^ 64 <=? nmemb * size) with false by lia.
    by apply wpt_hook_realloc.
Qed.

(** The calls whose arguments are. *)
Lemma wpt_rejected me c c' s HV :
  hook_shows s HV -> hook_as c = Some c' -> hook_rejects HV c = true -> hook_allowed HV c ->
  wpt (tlh_refused s) (perform_hook me c) (rejected HV) s.
Proof.
  intros Hs Ec Ej Hc. unfold hook_allowed in Hc. rewrite Ec in Hc. destruct Hc as (Hal & _ & Harg).
  pose proof (hook_flag s HV Hs) as Hf. unfold hook_rejects in Ej. apply andb_true_iff in Ej as [Er Ej]. rewrite Er in Hf.
  destruct c; try done; cbn in Ec; simplify_eq; cbn [perform_hook]; apply negb_true_iff in Ej.
  - apply wpt_ready; [done|]. pose proof (wpt_aligned_alloc me k size s HV Hs Hal Er) as Hw. by rewrite Ej in Hw.
  - unfold posix_memalign. pose proof (wpt_posix_memalign me memptr k size s HV Hs Hal Er Harg) as Hw. rewrite Ej in Hw.
    eapply wpt_same; [|exact Hw]. unfold ready, fetch, mbind, M_bind, mret, M_ret. by rewrite Hf.
Qed.

Lemma wpt_hook me c s HV :
  hook_shows s HV -> hook_allowed HV c -> wpt (tlh_refused s) (perform_hook me c) (hooked HV c) s.
Proof.
  intros Hs Hc. destruct (hook_as c) as [c'|] eqn:Ec.
  - destruct (hook_rejects HV c) eqn:Ej.
    + eapply wpt_mono; [by eapply wpt_rejected|]. intros r s'. by apply (hooked_rejected HV c c').
    + eapply wpt_mono; [by eapply wpt_accepted|]. intros r s'. by apply (hooked_of HV c c').
  - unfold hook_allowed in Hc. rewrite Ec in Hc.
    destruct c; try done. destruct HV as [V rd room]. cbn in Hc. subst rd. cbn [perform_hook].
    eapply wpt_mono; [by apply wpt_constructor|]. intros r s' (V' & ? & ?). exists (mk_hv V' true room). done.
Qed.

(** ** Client programs *)

Inductive hook_prog :=
  | HFinish
  | HStep (me : Z) (c : hook_call) (k : Z -> hook_prog).

Fixpoint run_hooks (p : hook_prog) : M unit :=
  match p with
  | HFinish => mret tt
  | HStep me c k => r ← perform_hook me c; run_hooks (k r)
  end.

Fixpoint hook_behaves (p : hook_prog) (HV : hook_view) : Prop :=
  match p with
  | HFinish => True
  | HStep me c k => hook_allowed HV c /\ forall r HV', hook_answers HV c r HV' -> hook_behaves (k r) HV'
  end.

Fixpoint hook_ends (p : hook_prog) (HV HV' : hook_view) : Prop :=
  match p with
  | HFinish => HV' = HV
  | HStep me c k => exists r HV1, hook_answers HV c r HV1 /\ hook_ends (k r) HV1 HV'
  end.

Lemma hook_answers_log HV c r HV' :
  hook_answers HV c r HV' -> cv_log (hv_view HV) `suffix_of` cv_log (hv_view HV').
Proof.
  unfold hook_answers. destruct (hook_as c); [|by intros [[[_ ? _] _] _]].
  destruct (hook_rejects HV c); [by intros [[_ [[_ ? _] _]] _]|by intros [[[_ ? _] _] _]].
Qed.

Lemma wpt_run_hooks p : forall HV s, hook_shows s HV -> hook_behaves p HV ->
  wpt (tlh_refused s) (run_hooks p) (fun _ s' => exists HV', hook_shows s' HV' /\ hook_ends p HV HV') s.
Proof.
  induction p as [|me c k IH]; intros HV s Hs Hp; cbn [run_hooks hook_behaves hook_ends] in *.
  - apply wpt_wp. wp_step. eauto.
  - destruct Hp as [Hc Hk]. apply wpt_bind. eapply wpt_mono; [by apply (wpt_hook me c s HV)|].
    intros r s1 (HV1 & Hs1 & Ha). eapply wpt_mono.
    + eapply wpt_weaken; [apply IH; [exact Hs1|by apply Hk]|]. intros s'. apply tlh_refused_after.
      pose proof (hook_answers_log _ _ _ _ Ha) as Hl. by rewrite (hook_log s HV), (hook_log s1 HV1) in Hl.
    + intros [] s' (HV' & ? & ?). eauto 6.
Qed.

(** The process before its first request. *)
Record before_main (s : state) : Prop := {
  bm_start : at_start s;
  bm_ready : g_lz_ready s = 0;
  bm_offset : g_base_offset s = 0;
  bm_apart : base_apart s;
  bm_zero : forall x, base_range x -> h_bytes s !! x = None
}.

Definition first_view (s : state) : hook_view := mk_hv (start_view (st_refused s)) false LZ_BASE_HEAP_SIZE.

Lemma before_main_shows s : before_main s -> hook_shows s (first_view s).
Proof.
  intros [Hst Hr Ho Ha Hz]. exists ∅, ∅. cbn. rewrite Ho. split_and!; try done.
  constructor; rewrite ?Ho; try done; unfold LZ_BASE_HEAP_SIZE; try lia; try (intros *; by rewrite lookup_empty).
  intros x Hx. apply Hz. unfold base_range, LZ_BASE_HEAP_SIZE. lia.
Qed.

(** ** The objects of a client *)



End refinement.

(** ** Theorems *)

Section theorems.
Context `{EnvLaws} `{!BaseLaws}.

(** C1. The C symbols, over the whole life of a process: from its first request
    on, a client program that calls the symbols of posix_hooks.c before and
    after the constructor, passes early and late objects to any of them, uses
    only live objects and asks for no more early memory than the static array
    has, runs to completion, and the state it leaves shows objects, contents
    and refusals that the abstract allocator permits; the only other outcome is
    a trap, at a request of this run for the pages of a heap that the kernel
    has just refused. *)
Theorem hooks_refine s p :
  before_main s -> hook_behaves p (first_view s) ->
  wpt (tlh_refused s) (run_hooks p) (fun _ s' => exists HV', hook_shows s' HV' /\ hook_ends p (first_view s) HV') s.
Proof. intros Hs Hp. apply wpt_run_hooks; [by apply before_main_shows|done]. Qed.

(** C2. Each symbol by itself: in any state that shows a view, a call the client
    may make answers and changes objects and contents as the abstract allocator
    permits, whether the object is a block of the array or of a heap; early
    requests succeed, and use at most their share of the array; later ones
    return NULL only when the kernel refused a request of this call, or for
    arguments the symbol rejects; a trap takes a refused request of this call. *)
Theorem hook_call_refines me c s HV :
  hook_shows s HV -> hook_allowed HV c ->
  wpt (tlh_refused s) (perform_hook me c) (fun r s' => exists HV', hook_shows s' HV' /\ hook_answers HV c r HV') s.
Proof. apply wpt_hook. Qed.


End theorems.

(** ** Witnesses *)

#[export] Instance test_base_laws : BaseLaws.
Proof.
  constructor; [apply test_base_heap_ok| |by right]. intros k rs len a. cbn. unfold test_mmap.
  destruct (_ && _); [|done]. intros [= <-]. right. pose proof (top_of_floor rs). pose proof (page_round_le (top_of rs)).
  unfold LZ_BASE_HEAP_SIZE. lia.
Qed.

Lemma boot_before_main : before_main boot_state.
Proof. by constructor; [constructor|..]. Qed.

(** An object allocated before the constructor and written to; afterwards one
    thread grows it, which moves it to a heap, and another frees it. *)
Definition hook_demo : hook_prog :=
  HStep 1 (Api (Malloc 100)) (fun p => HStep 1 (Api (Write p 5 42)) (fun _ => HStep 1 Constructor (fun _ =>
    HStep 1 (Api (Realloc p 200)) (fun q => if q =? NULL then HFinish else HStep 2 (Api (Free q)) (fun _ => HFinish))))).

Lemma hook_demo_behaves : hook_behaves hook_demo (first_view boot_state).
Proof.
  cbn [hook_demo hook_behaves]. split; [split; [cbn; lia|split; [intros _; split; [done|by vm_compute]|done]]|].
  intros p V1 ((_ & Hg & _) & Er1 & Hroom & Hp). cbn in Er1, Hroom, Hp.
  destruct Hg as [[? _]|(n & (_ & _ & _ & Hn & _) & E1)]; [done|].
  assert (cv_objs (hv_view V1) !! p = Some n) as L1 by (rewrite E1; apply lookup_insert_eq).
  split; [split; [split; [exists n; split; [done|lia]|lia]|split; [|done]]|].
  { intros _. split; [done|]. rewrite Hroom. by vm_compute. }
  intros r2 V2 (Ha2 & Er2 & _). unfold hook_rejects in Ha2. rewrite andb_false_r in Ha2. destruct Ha2 as (_ & E2 & _).
  split; [unfold hook_allowed; cbn; congruence|]. intros r3 V3 ((_ & _ & E3) & Er3 & _).
  split; [split; [split; [lia|right; by rewrite E3, E2, L1]|split; [congruence|done]]|]. intros q V4 (Ha4 & Er4 & _).
  destruct (Z.eqb_spec q NULL) as [|Hq]; [done|]. cbn [hook_behaves]. split; [|done].
  split; [right|split; [congruence|done]]. unfold hook_rejects in Ha4. rewrite andb_false_r in Ha4. destruct Ha4 as (_ & _ & Hr).
  rewrite (proj2 (Z.eqb_neq p NULL) Hp) in Hr. change (200 =? 0) with false in Hr. cbv iota in Hr.
  destruct Hr as (k & Hk & Hr). by eapply realloc_live.
Qed.

Lemma hooks_refine_witness :
  wpt (tlh_refused boot_state) (run_hooks hook_demo)
    (fun _ s' => exists HV', hook_shows s' HV' /\ hook_ends hook_demo (first_view boot_state) HV') boot_state.
Proof. apply hooks_refine; [apply boot_before_main|apply hook_demo_behaves]. Defined.

Lemma hook_call_refines_witness :
  wpt (tlh_refused boot_state) (perform_hook 1 (Api (Calloc 10 10))) (fun r s' =>
    exists HV', hook_shows s' HV' /\ hook_answers (first_view boot_state) (Api (Calloc 10 10)) r HV') boot_state.
Proof.
  apply hook_call_refines; [apply before_main_shows, boot_before_main|].
  split; [cbn; lia|split; [|done]]. intros _. split; [done|by vm_compute].
Defined.



