(* ===== verification/Interleave.v ===== *)
(** * Interleavings

    Threads that run at the same time.  The code of a thread is a machine over
    program points: one action is one access to shared memory (an atomic load,
    store, exchange or compare-and-swap, or a system call) together with the
    thread-private computation around it.  A pool of threads advances one
    action of one thread at a time, in any order; the flag of an action says
    whether a weak compare-and-swap fails spuriously. *)

From S2P Require Import Prelude Machine Wp.

(** Runs the monad in the goal. *)
Ltac run_m := unfold mbind, M_bind, fetch, modify, mret, M_ret; cbv beta iota.

Section pool.
Context {pc : Type} (act : bool -> pc -> option (M pc)).

Definition config : Type := state * list pc.

Inductive pool_step : config -> config -> Prop :=
  | pool_act s ps i p weak m p' s' :
      ps !! i = Some p -> act weak p = Some m -> m s = Done p' s' ->
      pool_step (s, ps) (s', <[i := p']> ps).

(** Steps in which no compare-and-swap fails spuriously. *)
Inductive firm_step : config -> config -> Prop :=
  | firm_act s ps i p m p' s' :
      ps !! i = Some p -> act false p = Some m -> m s = Done p' s' ->
      firm_step (s, ps) (s', <[i := p']> ps).

Definition reaches : config -> config -> Prop := rtc pool_step.

(** A thread that runs without interference. *)
Fixpoint alone (fuel : nat) (p : pc) : M pc :=
  match act false p with
  | None => mret p
  | Some m =>
      match fuel with
      | O => stop NoFuel
      | S fuel => p' ← m; alone fuel p'
      end
  end.

Lemma alone_S fuel p m s : act false p = Some m -> alone (S fuel) p s = (p' ← m; alone fuel p') s.
Proof. intros Ha. cbn [alone]. by rewrite Ha. Qed.

Lemma alone_end fuel p s : act false p = None -> alone fuel p s = Done p s.
Proof. intros Ha. destruct fuel; cbn [alone]; by rewrite Ha. Qed.

Lemma nsteps_firm n c c' : nsteps firm_step n c c' -> reaches c c'.
Proof.
  intros Hn. induction Hn as [|n c c1 c' Hs _ IH]; [apply rtc_refl|].
  eapply rtc_l; [|exact IH]. destruct Hs. by eapply pool_act.
Qed.

Lemma reaches_inv (I : config -> Prop) c c' :
  (forall c1 c2, I c1 -> pool_step c1 c2 -> I c2) -> reaches c c' -> I c -> I c'.
Proof. intros Hs Hr. induction Hr; eauto. Qed.

Lemma reaches_length s ps s' ps' : reaches (s, ps) (s', ps') -> length ps' = length ps.
Proof.
  intros Hr. change (length (s', ps').2 = length (s, ps).2).
  eapply (reaches_inv (fun c => length c.2 = length (s, ps).2)); [|exact Hr|done].
  intros c1 c2 Hl Hs. destruct Hs. cbn in *. by rewrite length_insert.
Qed.

(** ** Invariants by threads

    A shared invariant [G], what every thread relies on [L], and what any two
    threads rely on [X]: preserved when each action keeps its own and is
    harmless to the others. *)
Section rely.
Context (G : config -> Prop) (L : state -> pc -> Prop) (X : pc -> pc -> Prop).

Record pool_inv (c : config) : Prop := {
  pi_shared : G c;
  pi_local : forall i p, c.2 !! i = Some p -> L c.1 p;
  pi_pair : forall i j p q, i <> j -> c.2 !! i = Some p -> c.2 !! j = Some q -> X p q
}.

Lemma pool_inv_step :
  (forall p q, X p q -> X q p) ->
  (forall s ps i p weak m p' s', G (s, ps) -> ps !! i = Some p -> L s p ->
     act weak p = Some m -> m s = Done p' s' ->
     G (s', <[i := p']> ps) /\ L s' p' /\ forall q, L s q -> X p q -> L s' q /\ X p' q) ->
  forall c1 c2, pool_inv c1 -> pool_step c1 c2 -> pool_inv c2.
Proof.
  intros Hsym Hact c1 c2 [HG HL HX] Hs. destruct Hs as [s ps i p weak m p' s' Hi Ha Hm]. cbn in *.
  destruct (Hact s ps i p weak m p' s') as (HG' & HL' & Hq); [eauto..|].
  assert (forall j q, i <> j -> ps !! j = Some q -> L s' q /\ X p' q) as Hoth.
  { intros j q Hij Hj. apply Hq; [by eapply HL|by eapply (HX i j)]. }
  constructor; [done|..].
  - intros j q Hj. cbn in Hj. apply list_lookup_insert_Some in Hj as [(-> & <- & _)|[Hne Hj]]; [done|].
    by eapply Hoth.
  - intros j k q r Hjk Hj Hk. cbn in Hj, Hk.
    apply list_lookup_insert_Some in Hj as [(<- & <- & _)|[Hne Hj]];
      apply list_lookup_insert_Some in Hk as [(<- & <- & _)|[Hne' Hk]]; [done| | |by eapply (HX j k)].
    + by eapply Hoth.
    + by eapply Hsym, Hoth.
Qed.

End rely.

(** What no action changes about a thread. *)
Lemma reaches_fmap {B} (f : pc -> B) s ps s' ps' :
  (forall s p weak m p' s', act weak p = Some m -> m s = Done p' s' -> f p' = f p) ->
  reaches (s, ps) (s', ps') -> f <$> ps' = f <$> ps.
Proof.
  intros Hf Hr. change (f <$> (s', ps').2 = f <$> (s, ps).2).
  eapply (reaches_inv (fun c => f <$> c.2 = f <$> (s, ps).2)); [|exact Hr|done].
  intros c1 c2 Hl Hs. destruct Hs as [s1 ps1 i p weak m p' s2 Hi Ha Hm]. cbn in *.
  rewrite list_fmap_insert, (Hf _ _ _ _ _ _ Ha Hm), list_insert_id; [done|]. by rewrite list_lookup_fmap, Hi.
Qed.

(** ** Bounded executions *)

(** A quantity that every firm step lowers bounds the length of executions. *)
Lemma firm_bounded (I : config -> Prop) (f : config -> nat) n c c' :
  (forall c1 c2, I c1 -> firm_step c1 c2 -> I c2 /\ (f c2 < f c1)%nat) ->
  I c -> nsteps firm_step n c c' -> (n + f c' <= f c)%nat.
Proof.
  intros Hs Hi Hn. revert Hi. induction Hn as [|n c c1 c' H1 _ IH]; intros Hi; [lia|].
  destruct (Hs _ _ Hi H1). specialize (IH ltac:(done)). lia.
Qed.

End pool.
Arguments config : clear implicits.

(** The total of a weight over the threads. *)
Fixpoint total {A} (f : A -> nat) (l : list A) : nat :=
  match l with [] => O | x :: l => (f x + total f l)%nat end.

Lemma total_insert {A} (f : A -> nat) l i x y :
  l !! i = Some x -> (total f (<[i := y]> l) + f x = total f l + f y)%nat.
Proof.
  revert i. induction l as [|z l IH]; intros [|i] Hi; cbn [lookup list_lookup] in Hi; simplify_eq.
  - cbn. lia.
  - specialize (IH i Hi). change (<[S i := y]> (z :: l)) with (z :: <[i := y]> l). cbn [total]. lia.
Qed.

Lemma total_le {A} (f g : A -> nat) l b :
  (forall x, x ∈ l -> f x <= g x + b)%nat -> (total f l <= total g l + length l * b)%nat.
Proof.
  induction l as [|x l IH]; intros Hl; cbn; [lia|].
  assert (f x <= g x + b)%nat by (apply Hl; set_solver).
  assert (total f l <= total g l + length l * b)%nat by (apply IH; set_solver). lia.
Qed.

Lemma total_const {A} (f : A -> nat) l b : (forall x, x ∈ l -> f x = b) -> total f l = (length l * b)%nat.
Proof.
  induction l as [|x l IH]; intros Hl; cbn; [done|].
  rewrite (Hl x) by set_solver. rewrite IH by set_solver. lia.
Qed.

(** One step of thread [i] in a concrete pool. *)
Ltac fire i := eapply (firm_act _ _ _ i); [reflexivity|reflexivity|vm_compute; reflexivity].
