(* ===== verification/BaseRace.v ===== *)
(** * Threads that race for the bootstrap array

    [lz_base_malloc_aligned] of posix_hooks.c run by any number of threads at
    once, one access to [g_base_offset] at a time: the blocks are disjoint in
    every interleaving, and the compare-and-swap loop ends. *)

From S2P Require Import Prelude Common Machine Wp Testbed Lzmalloc PosixHooks HooksSpec Interleave.

(** Where a thread is in [lz_base_malloc_aligned]. *)
Inductive base_pc :=
  | BEntry (alignment size : Z)
  | BTry (alignment size current_offset : Z)
  | BCheck (alignment size aligned_offset new_offset : Z)
  | BDone (alignment size r : Z).

Section base_race.
Context `{Env}.

Definition base_act (weak : bool) (p : base_pc) : option (M base_pc) :=
  match p with
  | BEntry alignment size => Some (
      let alignment := if alignment <? LZ_ABI_ALIGNMENT then LZ_ABI_ALIGNMENT else alignment in
      let size := if size =? 0 then LZ_ABI_ALIGNMENT else size in
      current_offset ← fetch g_base_offset;
      mret (BTry alignment size current_offset))
  | BTry alignment size current_offset => Some (
      let '(aligned_offset, new_offset) := base_place current_offset alignment size in
      seen ← fetch g_base_offset;
      if negb weak && (seen =? current_offset)
      then modify (set_g_base_offset new_offset);; mret (BCheck alignment size aligned_offset new_offset)
      else mret (BTry alignment size seen))
  | BCheck alignment size aligned_offset new_offset => Some (
      if LZ_BASE_HEAP_SIZE <? new_offset then stop Trap
      else
        let header := u64 (g_base_heap + aligned_offset) in
        modify (fun s => set_h_base_sizes (<[header := size]> (h_base_sizes s)) s);;
        mret (BDone alignment size (header + sizeof_base_header)))
  | BDone _ _ _ => None
  end.

(** Without interference a thread runs [lz_base_malloc_aligned]. *)
Lemma base_alone alignment size s :
  alone base_act 3 (BEntry alignment size) s =
  (r ← lz_base_malloc_aligned alignment size;
   mret (BDone (if alignment <? LZ_ABI_ALIGNMENT then LZ_ABI_ALIGNMENT else alignment) (eff_size size) r)) s.
Proof.
  cbn [alone base_act]. unfold lz_base_malloc_aligned, eff_size. run_m.
  change (if size =? 0 then LZ_ABI_ALIGNMENT else size) with (if size =? 0 then 16 else size).
  cbn [alone base_act]. destruct (base_place _ _ _) as [off new]. cbn [negb andb]. run_m. rewrite Z.eqb_refl.
  cbn [alone base_act]. destruct (LZ_BASE_HEAP_SIZE <? new); [done|]. by run_m.
Qed.

(** ** Invariant *)

(** The part of the array that a thread has taken: header and payload. *)
Definition base_range (p : base_pc) : option (Z * Z) :=
  match p with
  | BCheck _ _ off new => Some (off, new)
  | BDone _ size r => Some (r - 16 - g_base_heap, r + size - g_base_heap)
  | _ => None
  end.

Definition apart (p q : base_pc) : Prop :=
  match base_range p, base_range q with
  | Some (a, b), Some (c, d) => b <= c \/ d <= a
  | _, _ => True
  end.

Definition small_request (q : base_request) : Prop := 0 <= req_k q <= 40 /\ 0 <= req_size q < 2 ^ 40.

Definition base_local (s : state) (p : base_pc) : Prop :=
  match p with
  | BEntry al size => (exists k, 0 <= k <= 40 /\ al = 2 ^ k) /\ 0 <= size < 2 ^ 40
  | BTry al size cur => (exists k, 4 <= k <= 40 /\ al = 2 ^ k) /\ 1 <= size < 2 ^ 40 /\ 0 <= cur <= g_base_offset s
  | BCheck al size off new =>
      (exists k, 4 <= k <= 40 /\ al = 2 ^ k) /\ (g_base_heap + off + 16) mod al = 0 /\ 1 <= size /\
      0 <= off /\ off + 16 + size <= new <= g_base_offset s
  | BDone al size r =>
      (exists k, 4 <= k <= 40 /\ al = 2 ^ k) /\ r mod al = 0 /\ 1 <= size /\ g_base_heap + 16 <= r /\
      r + size <= g_base_heap + g_base_offset s /\ r + size <= g_base_heap + LZ_BASE_HEAP_SIZE /\
      h_base_sizes s !! (r - 16) = Some size
  end.

Definition taken (p : base_pc) : nat := match base_range p with Some _ => 1 | None => 0 end.

(** Every thread takes at most 2^42 bytes. *)
Definition base_shared (c : config base_pc) : Prop :=
  0 <= g_base_offset c.1 <= 2 ^ 22 + 2 ^ 42 * Z.of_nat (total taken c.2) /\ Z.of_nat (length c.2) <= 2 ^ 19.

Definition base_inv : config base_pc -> Prop := pool_inv base_shared base_local apart.

Lemma apart_sym p q : apart p q -> apart q p.
Proof. unfold apart. destruct (base_range p) as [[]|], (base_range q) as [[]|]; lia. Qed.

Lemma taken_bound ps : (total taken ps <= length ps)%nat.
Proof.
  assert (total taken ps <= total (fun _ => O) ps + length ps * 1)%nat as Ht.
  { apply total_le. intros p _. unfold taken. destruct (base_range p); lia. }
  rewrite (total_const (fun _ => O) ps 0%nat) in Ht by done. lia.
Qed.

Lemma base_shared_offset s ps : base_shared (s, ps) -> 0 <= g_base_offset s < 2 ^ 62.
Proof. intros [? ?]. pose proof (taken_bound ps). cbn in *. lia. Qed.

(** The offset only grows, and a thread that has nothing yet may take what is
    above it. *)
Lemma base_local_grow s s' q :
  base_local s q -> g_base_offset s <= g_base_offset s' -> h_base_sizes s' = h_base_sizes s -> base_local s' q.
Proof.
  intros Hq Ho Eh. destruct q; cbn [base_local] in *; [done|intuition lia..|].
  destruct Hq as (? & ? & ? & ? & ? & ? & ?). rewrite Eh. split_and!; (done || lia).
Qed.

Lemma base_range_below s q a b : base_local s q -> base_range q = Some (a, b) -> b <= g_base_offset s.
Proof. destruct q; cbn; [done|done|..]; intros ? [= <- <-]; intuition lia. Qed.

Lemma base_act_inv s ps i p weak m p' s' :
  base_heap_ok -> base_shared (s, ps) -> ps !! i = Some p -> base_local s p ->
  base_act weak p = Some m -> m s = Done p' s' ->
  base_shared (s', <[i := p']> ps) /\ base_local s' p' /\
  forall q, base_local s q -> apart p q -> base_local s' q /\ apart p' q.
Proof.
  intros Hb Hsh Hi Hp Ha Hm. pose proof (base_shared_offset _ _ Hsh) as Ho. destruct Hsh as [Hs1 Hs2]. cbn in Hs1, Hs2.
  pose proof (total_insert taken ps i p p' Hi) as Ht.
  assert (length (<[i := p']> ps) = length ps) as El by apply length_insert.
  destruct p as [al size|al size cur|al size off new|]; cbn [base_act] in Ha; [..|done]; apply (inj Some) in Ha as <-.
  - injection Hm as <- <-. cbn in Ht. split_and!.
    + split; cbn; rewrite ?El; lia.
    + destruct Hp as [(k & Hk & ->) Hsz]. cbn. split_and!; [|destruct (Z.eqb_spec size 0); unfold LZ_ABI_ALIGNMENT; lia..|lia|lia].
      destruct (Z.ltb_spec (2 ^ k) LZ_ABI_ALIGNMENT) as [|Hge]; [by exists 4|]. exists k. split; [|done].
      assert (4 <= k) by (apply (Z.pow_le_mono_r_iff 2); unfold LZ_ABI_ALIGNMENT in Hge; lia). lia.
    + intros q Hq _. split; [done|]. done.
  - destruct Hp as ((k & Hk & ->) & Hsz & Hcur).
    pose proof (base_place_spec cur k size Hb ltac:(lia) Hk ltac:(lia)) as Hpl.
    assert (2 ^ k <= 2 ^ 40) as Hk2 by (apply Z.pow_le_mono_r; lia).
    destruct (base_place cur (2 ^ k) size) as [off new]. destruct Hpl as (H1 & H2 & H3 & H4 & H5 & H6).
    unfold mbind, M_bind, fetch in Hm. destruct (negb weak && (g_base_offset s =? cur)) eqn:Ec.
    + apply andb_prop in Ec as [_ Ec%Z.eqb_eq]. injection Hm as <- <-. cbn in Ht. split_and!.
      * split; cbn; rewrite ?El; lia.
      * cbn. split_and!; [by exists k|done|lia..].
      * intros q Hq _. split; [eapply base_local_grow; [exact Hq|cbn; lia|done]|].
        unfold apart. cbn. destruct (base_range q) as [[a b]|] eqn:Eq; [|done].
        pose proof (base_range_below _ _ _ _ Hq Eq). lia.
    + injection Hm as <- <-. cbn in Ht. split_and!.
      * split; cbn; rewrite ?El; lia.
      * cbn. split_and!; [by exists k|lia..].
      * done.
  - destruct Hp as ((k & Hk & ->) & Hal & Hsz & Hof & Hnew).
    destruct (Z.ltb_spec LZ_BASE_HEAP_SIZE new) as [|Hle]; [done|].
    destruct Hb as (Hb1 & Hb2 & Hb3). unfold LZ_BASE_HEAP_SIZE in *.
    rewrite u64_small in Hm by lia. injection Hm as <- <-. unfold sizeof_base_header in *. cbn in Ht. split_and!.
    + split; cbn; rewrite ?El; lia.
    + cbn. unfold LZ_BASE_HEAP_SIZE. replace (g_base_heap + off + 16 - 16) with (g_base_heap + off) by lia.
      rewrite lookup_insert_eq. split_and!; [by exists k|done|lia..|done].
    + intros q Hq Hap. split.
      * destruct q as [| | |al' size' r]; [done..|]. unfold apart in Hap. cbn in Hq, Hap |- *.
        destruct Hq as (? & ? & ? & ? & ? & ? & ?). split_and!; [done..|]. rewrite lookup_insert_ne by lia. done.
      * unfold apart in *. cbn in *. destruct (base_range q) as [[a b]|]; [lia|done].
Qed.

Lemma base_reaches s ps s' ps' :
  base_heap_ok -> base_inv (s, ps) -> reaches base_act (s, ps) (s', ps') -> base_inv (s', ps').
Proof.
  intros Hb Hi Hr. eapply reaches_inv; [|exact Hr|exact Hi]. apply pool_inv_step; [apply apart_sym|].
  intros. by eapply base_act_inv.
Qed.

(** The alignment and size a thread works for. *)
Definition base_args (p : base_pc) : Z * Z :=
  match p with
  | BEntry al size => (Z.max al 16, eff_size size)
  | BTry al size _ | BCheck al size _ _ | BDone al size _ => (al, size)
  end.

Lemma base_args_keep s p weak m p' s' :
  base_act weak p = Some m -> m s = Done p' s' -> base_args p' = base_args p.
Proof.
  intros Ha Hm. destruct p as [al size|al size cur|al size off new|]; cbn [base_act] in Ha; [..|done]; apply (inj Some) in Ha as <-.
  - injection Hm as <- <-. cbn. f_equal. unfold LZ_ABI_ALIGNMENT. destruct (Z.ltb_spec al 16); lia.
  - unfold mbind, M_bind, fetch in Hm. destruct (base_place cur al size) as [off new].
    destruct (negb weak && _); by injection Hm as <- <-.
  - destruct (LZ_BASE_HEAP_SIZE <? new); [done|]. by injection Hm as <- <-.
Qed.

(** ** The loop ends *)

(** Remaining work of a thread in a pool of [n]: a success of one thread costs
    every other at most one failed attempt. *)
Definition base_work (n : nat) (offset : Z) (p : base_pc) : nat :=
  match p with
  | BEntry _ _ => n + 3
  | BTry _ _ cur => n + 2 + (if (cur =? offset)%Z then 0 else 1)
  | BCheck _ _ _ _ => 1
  | BDone _ _ _ => 0
  end%nat.

Definition pool_work (c : config base_pc) : nat := total (base_work (length c.2) (g_base_offset c.1)) c.2.

Lemma base_work_offset n o o' p : (base_work n o' p <= base_work n o p + 1)%nat.
Proof. destruct p as [| ? ? cur | |]; cbn; [lia| |lia..]. destruct (cur =? o'), (cur =? o); lia. Qed.

Lemma firm_lowers c1 c2 : firm_step base_act c1 c2 -> (pool_work c2 < pool_work c1)%nat.
Proof.
  intros Hs. destruct Hs as [s ps i p m p' s' Hi Ha Hm]. unfold pool_work. cbn [fst snd]. rewrite length_insert.
  pose proof (total_insert (base_work (length ps) (g_base_offset s)) ps i p p' Hi) as Ht.
  destruct p as [al size|al size cur|al size off new|]; cbn [base_act] in Ha; [..|done]; apply (inj Some) in Ha as <-.
  - injection Hm as <- <-. cbn in Ht. rewrite Z.eqb_refl in Ht. lia.
  - unfold mbind, M_bind, fetch in Hm. destruct (base_place cur al size) as [off new].
    cbn [negb andb] in Hm. destruct (Z.eqb_spec (g_base_offset s) cur) as [Ec|Ec]; injection Hm as <- <-; cbn [base_work] in Ht.
    + set (ps' := <[i := _]> ps) in *.
      pose proof (total_le (base_work (length ps) (g_base_offset (set_g_base_offset new s)))
        (base_work (length ps) (g_base_offset s)) ps' 1 ltac:(intros; apply base_work_offset)) as Hle.
      assert (length ps' = length ps) as El by apply length_insert. rewrite El in Hle. lia.
    + rewrite (proj2 (Z.eqb_neq cur _)), Z.eqb_refl in Ht by congruence. lia.
  - destruct (LZ_BASE_HEAP_SIZE <? new); [done|]. injection Hm as <- <-. cbn in Ht |- *. lia.
Qed.

Definition base_finished (p : base_pc) : Prop := exists al size r, p = BDone al size r.
Definition base_exhausted (p : base_pc) : Prop :=
  exists al size off new, p = BCheck al size off new /\ LZ_BASE_HEAP_SIZE < new.

Lemma base_at_end p :
  (base_finished p \/ base_exhausted p) \/ ~ base_finished p /\ ~ base_exhausted p.
Proof.
  destruct p as [al size|al size cur|al size off new|al size r]; [right|right| |left; left; by do 3 eexists].
  - split; [by intros (? & ? & ? & ?)|by intros (? & ? & ? & ? & ? & ?)].
  - split; [by intros (? & ? & ? & ?)|by intros (? & ? & ? & ? & ? & ?)].
  - destruct (Z.ltb_spec LZ_BASE_HEAP_SIZE new); [left; right; by do 4 eexists|right].
    split; [by intros (? & ? & ? & ?)|]. intros (? & ? & ? & ? & [= -> -> -> ->] & ?). lia.
Qed.

(** A thread that has not finished can always act, or traps. *)
Lemma base_progress s p : ~ base_finished p -> ~ base_exhausted p ->
  exists m p' s', base_act false p = Some m /\ m s = Done p' s'.
Proof.
  intros Hf He. destruct p as [al size|al size cur|al size off new|al size r]; cbn [base_act].
  - by do 3 eexists.
  - destruct (base_place cur al size) as [off new]. destruct (g_base_offset s =? cur) eqn:Ec;
      (do 3 eexists; split; [done|]; run_m; rewrite Ec; done).
  - do 3 eexists. split; [done|]. destruct (Z.ltb_spec LZ_BASE_HEAP_SIZE new); [|done].
    exfalso. apply He. by exists al, size, off, new.
  - exfalso. apply Hf. by exists al, size, r.
Qed.

(** ** Theorems *)

Definition base_entry (q : base_request) : base_pc := BEntry (2 ^ req_k q) (req_size q).

Lemma base_inv_start s qs :
  0 <= g_base_offset s <= LZ_BASE_HEAP_SIZE -> Forall small_request qs -> Z.of_nat (length qs) <= 2 ^ 19 ->
  base_inv (s, base_entry <$> qs).
Proof.
  intros Ho Hq Hn. unfold LZ_BASE_HEAP_SIZE in Ho. constructor.
  - split; cbn; rewrite ?length_fmap; lia.
  - intros i p Hp. cbn in Hp. apply list_lookup_fmap_Some in Hp as (q & -> & Hi).
    destruct (proj1 (Forall_lookup _ _) Hq i q Hi) as [? ?]. split; [by exists (req_k q)|done].
  - intros i j p q _ Hi _. cbn in Hi. apply list_lookup_fmap_Some in Hi as (q' & -> & _). done.
Qed.

(** C24. Concurrent bootstrap requests: any number of threads (up to 2^19, each
    asking for at most 2^40 bytes and alignment) may race for the array, one
    access to the offset at a time and with spurious failures of the weak
    compare-and-swap; in every interleaving the threads that have returned
    hold aligned blocks inside the array, large enough, with their sizes
    recorded, and apart from the header and payload of every other thread. *)
Theorem base_race_disjoint s qs s' ps :
  base_heap_ok -> 0 <= g_base_offset s <= LZ_BASE_HEAP_SIZE -> Forall small_request qs ->
  Z.of_nat (length qs) <= 2 ^ 19 -> reaches base_act (s, base_entry <$> qs) (s', ps) ->
  (forall i q al n r, qs !! i = Some q -> ps !! i = Some (BDone al n r) ->
     n = eff_size (req_size q) /\ r mod 2 ^ req_k q = 0 /\ r mod 16 = 0 /\
     g_base_heap + 16 <= r /\ r + n <= g_base_heap + LZ_BASE_HEAP_SIZE /\
     h_base_sizes s' !! (r - 16) = Some n) /\
  (forall i j al n r al' n' r', i <> j -> ps !! i = Some (BDone al n r) -> ps !! j = Some (BDone al' n' r') ->
     r + n <= r' - 16 \/ r' + n' <= r - 16).
Proof.
  intros Hb Ho Hq Hn Hr. pose proof (base_inv_start s qs Ho Hq Hn) as Hi.
  pose proof (base_reaches _ _ _ _ Hb Hi Hr) as [_ HL HX]. cbn in HL, HX. split.
  - intros i q al n r Hiq Hip. destruct (HL _ _ Hip) as ((k & Hk & ->) & Hal & ? & ? & ? & ? & ?).
    assert ((2 ^ k, n) = (Z.max (2 ^ req_k q) 16, eff_size (req_size q))) as [= Ek ->].
    { pose proof (reaches_fmap base_act base_args _ _ _ _ base_args_keep Hr) as Ef.
      apply (f_equal (.!! i)) in Ef. rewrite !list_lookup_fmap, Hiq, Hip in Ef. cbn [fmap option_fmap option_map base_args base_entry] in Ef. congruence. }
    destruct (proj1 (Forall_lookup _ _) Hq i q Hiq) as [Hqk _].
    assert (req_k q <= k) by (apply (Z.pow_le_mono_r_iff 2); lia).
    split_and!; [done|apply (mod_pow2_weaken _ _ k); [lia|done]|apply (mod_pow2_weaken _ 4 k); [lia|done]|done..].
  - intros i j al n r al' n' r' Hij Hi' Hj'. specialize (HX i j _ _ Hij Hi' Hj'). unfold apart in HX. cbn in HX. lia.
Qed.

(** C25. The compare-and-swap loop is lock-free: however the scheduler
    interleaves [n] threads, they take at most [n * (n + 3)] steps in which
    no attempt fails spuriously, and when no thread can move any more, each
    has returned or is at the trap for exhaustion. *)
Theorem base_race_terminates s qs k s' ps :
  nsteps (firm_step base_act) k (s, base_entry <$> qs) (s', ps) ->
  (k <= length qs * (length qs + 3))%nat /\
  ((forall c, ~ firm_step base_act (s', ps) c) ->
   forall i p, ps !! i = Some p -> base_finished p \/ base_exhausted p).
Proof.
  intros Hn. split.
  - pose proof (firm_bounded base_act (fun _ => True) pool_work k _ _
      ltac:(intros c1 c2 _ Hs; split; [done|by apply firm_lowers]) I Hn) as Hb.
    unfold pool_work in Hb at 2. cbn [fst snd] in Hb. rewrite length_fmap in Hb.
    rewrite (total_const _ (base_entry <$> qs) (length qs + 3)%nat), length_fmap in Hb; [lia|].
    intros p Hp. by apply list_elem_of_fmap in Hp as (q & -> & _).
  - intros Hstuck i p Hi.
    destruct (base_at_end p) as [Hd|(Hf & He)]; [done|].
    destruct (base_progress s' p Hf He) as (m & p' & s2 & Ha & Hm).
    exfalso. by eapply Hstuck, firm_act.
Qed.

End base_race.

(** ** Witnesses *)

(** Two requests run in turn, the second interrupted by the first: it fails
    once and tries again. *)
Definition race_requests : list base_request := [mk_req 6 100; mk_req 0 0].

Lemma race_run : exists s' al n r al' n' r',
  nsteps (firm_step base_act) 7 (boot_state, base_entry <$> race_requests) (s', [BDone al n r; BDone al' n' r']).
Proof.
  do 7 eexists.
  eapply nsteps_l; [fire 0%nat|].
  eapply nsteps_l; [fire 1%nat|].
  eapply nsteps_l; [fire 0%nat|].
  eapply nsteps_l; [fire 1%nat|].
  eapply nsteps_l; [fire 1%nat|].
  eapply nsteps_l; [fire 0%nat|].
  eapply nsteps_l; [fire 1%nat|]. apply nsteps_O.
Qed.

Lemma base_race_disjoint_witness : exists s' ps,
  reaches base_act (boot_state, base_entry <$> race_requests) (s', ps) /\
  (forall i q al n r, race_requests !! i = Some q -> ps !! i = Some (BDone al n r) ->
     n = eff_size (req_size q) /\ r mod 2 ^ req_k q = 0 /\ r mod 16 = 0 /\
     g_base_heap + 16 <= r /\ r + n <= g_base_heap + LZ_BASE_HEAP_SIZE /\
     h_base_sizes s' !! (r - 16) = Some n) /\
  (forall i j al n r al' n' r', i <> j -> ps !! i = Some (BDone al n r) -> ps !! j = Some (BDone al' n' r') ->
     r + n <= r' - 16 \/ r' + n' <= r - 16).
Proof.
  destruct race_run as (s' & al & n & r & al' & n' & r' & Hr). eexists s', _.
  apply nsteps_firm in Hr. split; [exact Hr|].
  apply (base_race_disjoint boot_state race_requests); [apply test_base_heap_ok|done| |done|exact Hr].
  repeat constructor; cbn; lia.
Defined.

Lemma base_race_terminates_witness : exists s' ps,
  (7 <= 2 * (2 + 3))%nat /\
  ((forall c, ~ firm_step base_act (s', ps) c) -> forall i p, ps !! i = Some p -> base_finished p \/ base_exhausted p).
Proof.
  destruct race_run as (s' & al & n & r & al' & n' & r' & Hr). eexists s', _.
  apply (base_race_terminates boot_state race_requests 7). exact Hr.
Defined.
