(* ===== verification/RtreeRace.v ===== *)
(** * Threads that race on the index

    [lz_rtree_set] and [lz_rtree_get] of rtree.[ch] run by any number of
    threads at once, one access to the shared tree at a time: every
    interleaving is a history of the flat map, one event per call, and the
    leaf of a thread that loses the race to publish one is unmapped. *)

From S2P Require Import Prelude Common Machine Wp Testbed Rtree Interleave.

(** Where a thread is in [lz_rtree_set] or [lz_rtree_get]. *)
Inductive index_pc :=
  | SLoad (chunk_addr metadata : Z)
  | SMap (chunk_addr metadata : Z)
  | SCas (chunk_addr metadata new_leaf : Z)
  | SUnmap (chunk_addr metadata new_leaf expected : Z)
  | SStore (chunk_addr metadata leaf : Z)
  | SDone (chunk_addr metadata : Z) (stored : bool)
  | GLoad (ptr : Z)
  | GEntry (ptr leaf : Z)
  | GDone (ptr r : Z).

Section index_race.
Context `{Env}.

(** The two loads of [lz_rtree_get]. *)
Definition get_root (ptr : Z) : M index_pc :=
  leaf ← root_load (l1_idx ptr);
  if leaf =? NULL then mret (GDone ptr NULL) else mret (GEntry ptr leaf).
Definition get_entry (ptr leaf : Z) : M index_pc :=
  r ← leaf_load leaf (l2_idx ptr); mret (GDone ptr r).

(** The accesses of [lz_rtree_set], and of a lookup. *)
Definition index_act (weak : bool) (p : index_pc) : option (M index_pc) :=
  match p with
  | SLoad a v => Some (
      leaf ← root_load (l1_idx a);
      if (leaf =? NULL) && (v =? NULL) then mret (SDone a v true)
      else if leaf =? NULL then mret (SMap a v) else mret (SStore a v leaf))
  | SMap a v => Some (
      new_leaf ← alloc_internal_node sizeof_leaf;
      if new_leaf =? NULL then mret (SDone a v false) else mret (SCas a v new_leaf))
  | SCas a v new_leaf => Some (
      '(won, seen) ← root_cas (l1_idx a) NULL new_leaf;
      if won : bool then mret (SStore a v new_leaf) else mret (SUnmap a v new_leaf seen))
  | SUnmap a v new_leaf expected => Some (
      munmap new_leaf sizeof_leaf;;
      modify (fun s => set_h_leaves (delete new_leaf (h_leaves s)) s);;
      mret (SStore a v expected))
  | SStore a v leaf => Some (leaf_store leaf (l2_idx a) v;; mret (SDone a v true))
  | GLoad ptr => Some (get_root ptr)
  | GEntry ptr leaf => Some (get_entry ptr leaf)
  | SDone _ _ _ | GDone _ _ => None
  end.

(** Without interference a thread runs [lz_rtree_set] or [lz_rtree_get]. *)
Lemma index_alone_set a v s :
  (_ ← alone index_act 5 (SLoad a v); mret tt) s = lz_rtree_set a v s.
Proof.
  unfold lz_rtree_set. cbn [alone index_act]. unfold root_load. run_m.
  destruct (default NULL (g_rtree_root s !! l1_idx a) =? NULL) eqn:El; cbn [andb].
  - destruct (v =? NULL); [done|]. cbn [alone index_act]. run_m.
    destruct (alloc_internal_node sizeof_leaf s) as [n s1|r]; [|done].
    destruct (n =? NULL); [done|]. cbn [alone index_act]. run_m.
    destruct (root_cas (l1_idx a) NULL n s1) as [[[] seen] s2|r]; [..|done]; cbn [alone index_act]; run_m.
    + by destruct (leaf_store n (l2_idx a) v s2) as [[] s3|r].
    + destruct (munmap n sizeof_leaf s2) as [[] s3|r]; [|done]. cbn [alone index_act]. run_m.
      by destruct (leaf_store seen (l2_idx a) v _) as [[] s4|r].
  - cbn [alone index_act]. run_m. by destruct (leaf_store _ (l2_idx a) v s) as [[] s3|r].
Qed.

Lemma index_alone_get a s :
  alone index_act 2 (GLoad a) s = (r ← lz_rtree_get a; mret (GDone a r)) s.
Proof.
  unfold lz_rtree_get. cbn [alone index_act]. unfold get_root, root_load. run_m.
  destruct (default NULL (g_rtree_root s !! l1_idx a) =? NULL); [done|]. cbn [alone index_act]. unfold get_entry. run_m.
  by destruct (leaf_load _ (l2_idx a) s).
Qed.

End index_race.

(** ** The abstract history *)

Inductive index_event :=
  | ESet (addr v : Z)
  | ERefused (addr v : Z)
  | EGet (ptr r : Z).

(** What a finished call has done. *)
Definition event_of (p : index_pc) : option index_event :=
  match p with
  | SDone a v true => Some (ESet a v)
  | SDone a v false => Some (ERefused a v)
  | GDone ptr r => Some (EGet ptr r)
  | _ => None
  end.

(** The event is what the call stands for; only registrations are refused. *)
Definition does (e : index_event) (o : index_op) : Prop :=
  match e, o with
  | ESet a v, ISet b w => a = b /\ v = w
  | ESet a v, IClear b => a = b /\ v = NULL
  | ERefused a v, ISet b w => a = b /\ v = w /\ v <> NULL
  | EGet a _, IGet b => a = b
  | _, _ => False
  end.

(** One event on the flat map, with the calls [d] that the kernel refused for
    it: a registration or removal takes effect and a lookup answers the map
    without any, and a registration is dropped with exactly one, for the pages
    of a leaf. *)
Definition flat_event (e : index_event) (f : Z -> Z) (d : list (nat * Z)) (g : Z -> Z) : Prop :=
  match e with
  | ESet a v => d = [] /\ forall b, g b = flat_set f a v b
  | ERefused a v => (exists k, d = [(k, sizeof_leaf)]) /\ forall b, g b = f b
  | EGet a r => (d = [] /\ r = f (block_of a)) /\ forall b, g b = f b
  end.

(** The events in order, from the map [f] to the map [g]; [l] are the refused
    calls of all events, the last first. *)
Inductive flat_history : list index_event -> (Z -> Z) -> list (nat * Z) -> (Z -> Z) -> Prop :=
  | history_nil f g : (forall b, g b = f b) -> flat_history [] f [] g
  | history_snoc h e f l g d k :
      flat_history h f l g -> flat_event e g d k -> flat_history (h ++ [e]) f (d ++ l) k.

Lemma flat_event_ext e f d g g' : flat_event e f d g -> (forall b, g' b = g b) -> flat_event e f d g'.
Proof.
  intros He Hg. destruct e; cbn in *; (split; [apply He|intros b; rewrite Hg; apply He]).
Qed.

Lemma flat_history_ext h f l g g' : flat_history h f l g -> (forall b, g' b = g b) -> flat_history h f l g'.
Proof.
  intros Hh Hg. destruct Hh as [f g Hf|h e f l g d k Hh He].
  - constructor. intros b. by rewrite Hg.
  - econstructor; [exact Hh|]. by eapply flat_event_ext.
Qed.

(** ** Invariant *)

Section index_inv.
Context `{EnvLaws}.
Context (s0 : state).  (* when the threads start *)

Definition published (s : state) (i leaf : Z) : Prop := g_rtree_root s !! i = Some leaf /\ leaf <> NULL.
Definition in_leaf (a x : Z) : Prop := a <= x < a + sizeof_leaf.

(** A leaf that is mapped and not published: only its thread knows it. *)
Record private_ok (s : state) (a : Z) : Prop := {
  po_pos : 0 < a;
  po_leaf : h_leaves s !! a = Some ∅;
  po_mapped : forall x, in_leaf a x -> mapped s x = true /\ mapped s0 x = false;
  po_apart : forall j b x, published s j b -> in_leaf b x -> ~ in_leaf a x
}.

Definition private_of (p : index_pc) : option Z :=
  match p with SCas _ _ a | SUnmap _ _ a _ => Some a | _ => None end.

Definition known_leaf (p : index_pc) : option (Z * Z) :=
  match p with
  | SUnmap a _ _ leaf | SStore a _ leaf | GEntry a leaf => Some (a, leaf)
  | _ => None
  end.

Definition addr_of (p : index_pc) : Z :=
  match p with
  | SLoad a _ | SMap a _ | SCas a _ _ | SUnmap a _ _ _ | SStore a _ _ | SDone a _ _
  | GLoad a | GEntry a _ | GDone a _ => a
  end.

Record index_local (s : state) (p : index_pc) : Prop := {
  il_addr : 0 <= addr_of p < 2 ^ 64;
  il_private : forall a, private_of p = Some a -> private_ok s a;
  il_known : forall a leaf, known_leaf p = Some (a, leaf) -> published s (block_of a / 2 ^ 14) leaf;
  il_value : match p with SMap _ v | SDone _ v false => v <> NULL | _ => True end
}.

Definition index_apart (p q : index_pc) : Prop :=
  forall a b x, private_of p = Some a -> private_of q = Some b -> in_leaf a x -> ~ in_leaf b x.

Lemma index_apart_sym p q : index_apart p q -> index_apart q p.
Proof. intros Hx a b x Ha Hb Hxa Hxb. by eapply Hx. Qed.

(** What one action does. *)
Record moved (s : state) (p p' : index_pc) (s' : state) : Prop := {
  mv_inv : rtree_inv s';
  mv_local : index_local s' p';
  mv_published : forall j b, published s j b -> published s' j b;
  mv_private : forall q a, index_apart p q -> private_of q = Some a -> private_ok s a -> private_ok s' a;
  mv_apart : forall q, index_apart p q -> index_local s q -> index_apart p' q;
  mv_event : match event_of p' with
    | Some e => exists d, st_refused s' = d ++ st_refused s /\ flat_event e (rtree_view s) d (rtree_view s')
    | None => st_refused s' = st_refused s /\ forall b, rtree_view s' b = rtree_view s b
    end;
  mv_new : forall x, mapped s' x = true -> mapped s x = true \/ exists a, private_of p' = Some a /\ in_leaf a x;
  mv_kept : forall x, mapped s x = true -> mapped s' x = true \/ exists a, private_of p = Some a /\ in_leaf a x;
  mv_held : forall a x, private_of p = Some a -> in_leaf a x ->
    (exists j, published s' j a) \/ private_of p' = Some a \/ mapped s' x = false
}.

Lemma published_block s i leaf : rtree_inv s -> published s i leaf ->
  exists m, h_leaves s !! leaf = Some m /\ forall x, in_leaf leaf x -> mapped s x = true.
Proof. intros Hi [Hr Hn]. destruct (root_leaf s Hi i leaf Hr Hn) as [[m ?] ?]. eauto. Qed.

Lemma in_leaf_start a : in_leaf a a.
Proof. split; [lia|]. assert (0 < sizeof_leaf) by done. lia. Qed.

Lemma private_not_published s a j : private_ok s a -> ~ published s j a.
Proof. intros [_ _ _ Hap] Hp. apply (Hap j a a Hp); apply in_leaf_start. Qed.

(** Actions that leave the tree and the address space alone. *)
Lemma moved_same s p p' s' :
  rtree_inv s -> rtree_part s' = rtree_part s -> (forall x, mapped s' x = mapped s x) ->
  private_of p' = private_of p -> index_local s p' ->
  (match event_of p' with
   | Some e => exists d, st_refused s' = d ++ st_refused s /\ flat_event e (rtree_view s) d (rtree_view s)
   | None => st_refused s' = st_refused s
   end) -> moved s p p' s'.
Proof.
  intros Hi Et Em Ep [Ha Hpr Hk Hva] He.
  assert (h_leaves s' = h_leaves s /\ g_rtree_root s' = g_rtree_root s) as [El Er] by (by injection Et).
  assert (forall j b, published s' j b <-> published s j b) as Hpub by (intros j b; unfold published; by rewrite Er).
  assert (forall a, private_ok s a -> private_ok s' a) as Hpo.
  { intros a [H1 H2 H3 H4]. constructor; [done|by rewrite El|intros x Hx; rewrite Em; auto|].
    intros j b x Hb%Hpub. exact (H4 j b x Hb). }
  constructor.
  - eapply rtree_inv_ext; [exact Hi|exact Et|]. intros x. by rewrite Em.
  - constructor; [done|intros a Hp; auto| |done]. intros a leaf Hl. by apply Hpub, Hk.
  - intros j b. by rewrite Hpub.
  - auto.
  - intros q Hap _ a b x Hp. rewrite Ep in Hp. by apply Hap.
  - assert (forall b, rtree_view s' b = rtree_view s b) by (intros b; by apply rtree_view_eq).
    destruct (event_of p'); [|done]. destruct He as (d & El' & He). exists d. split; [done|]. by eapply flat_event_ext.
  - intros x. rewrite Em. auto.
  - intros x. rewrite Em. auto.
  - intros a x Hp _. right. left. congruence.
Qed.

(** Other private leaves survive when the tree keeps them. *)
Lemma private_frame s s' a :
  private_ok s a -> h_leaves s' !! a = h_leaves s !! a ->
  (forall x, in_leaf a x -> mapped s' x = true) ->
  (forall j b, published s' j b -> published s j b \/ forall x, in_leaf b x -> ~ in_leaf a x) -> private_ok s' a.
Proof.
  intros [H1 H2 H3 H4] El Hm Hp. constructor; [done|by rewrite El|..].
  - intros x Hx. split; [by apply Hm|by apply H3].
  - intros j b x Hb. destruct (Hp j b Hb) as [Hb'|Hb']; [exact (H4 j b x Hb')|auto].
Qed.

Lemma leaf_pages : page_round sizeof_leaf = sizeof_leaf.
Proof. done. Qed.

Lemma move_map s a v :
  rtree_inv s -> (forall x, mapped s0 x = true -> mapped s x = true) -> index_local s (SMap a v) ->
  wp (new_leaf ← alloc_internal_node sizeof_leaf;
      if new_leaf =? NULL then mret (SDone a v false) else mret (SCas a v new_leaf))
    (moved s (SMap a v)) s.
Proof.
  intros Hi H0' [Ha _ _ Hva]. unfold alloc_internal_node. wp_step. wp_step. apply wp_mmap.
  destruct (sys_mmap _ _ _) as [n|] eqn:Em; wp_steps; cbn [Z.eqb].
  2: { apply moved_same; [done..|by constructor|]. exists [(st_clock s, sizeof_leaf)].
       split; [done|]. split; [by eexists|done]. }
  destruct (mmap_fresh _ _ _ _ Em) as (_ & Hpos & _ & _ & Hfresh). rewrite leaf_pages in Hfresh.
  pose proof (mmap_state_ext _ _ _ Em) as Hext. zfalse (n =? NULL). wp_step.
  set (s' := set_h_leaves _ _).
  assert (forall x, mapped s' x = (n <=? x) && (x <? n + sizeof_leaf) || mapped s x) as Hmap by done.
  assert (forall x, mapped s x = true -> mapped s' x = true) as Hmono by (intros x Hx; rewrite Hmap, Hx; apply orb_true_r).
  assert (forall x, in_leaf n x -> mapped s' x = true) as Hnew by (intros x Hx; rewrite Hmap; unfold in_leaf in Hx; lia).
  assert (forall b x, (forall y, in_leaf b y -> mapped s y = true) -> in_leaf b x -> ~ in_leaf n x) as Hfr.
  { intros b x Hb Hx Hnx. specialize (Hb x Hx). unfold mapped in Hb. by rewrite Hfresh in Hb. }
  assert (forall b, (forall y, in_leaf b y -> mapped s y = true) -> h_leaves s' !! b = h_leaves s !! b) as Hlv.
  { intros b Hb. cbn. rewrite lookup_insert_ne; [done|]. intros <-. by apply (Hfr n n Hb); apply in_leaf_start. }
  constructor.
  - constructor; [|apply Hi]. intros i b Hb Hn. destruct (root_leaf s Hi i b Hb Hn) as [? Hm].
    split; [by rewrite (Hlv b Hm)|auto].
  - constructor; [done| |done|done]. intros b [= <-]. constructor; [done|apply lookup_insert_eq| |].
    + intros x Hx. split; [auto|]. apply not_true_iff_false. intros Hm%H0'. unfold mapped in Hm. by rewrite Hfresh in Hm.
    + intros j b x Hb. destruct (published_block s j b Hi Hb) as (m & _ & Hm). by apply Hfr.
  - done.
  - intros q b _ _ Hpo. eapply private_frame; [exact Hpo|apply Hlv|..].
    + intros y Hy. by apply Hpo.
    + intros x Hx. apply Hmono. by apply Hpo.
    + auto.
  - intros q _ [_ Hq _ _] b c x [= <-] Hc Hb Hcx. eapply (Hfr c x); [|done|done]. intros y Hy. by apply (Hq c Hc).
  - split; [done|]. intros b. unfold rtree_view. cbn [g_rtree_root s' set_h_leaves].
    change (g_rtree_root (mmap_state s n sizeof_leaf)) with (g_rtree_root s).
    destruct (g_rtree_root s !! _) as [c|] eqn:Ec; cbn [from_option id]; [|done]. destruct (Z.eqb_spec c NULL); [done|].
    destruct (root_leaf s Hi _ c Ec) as [_ Hm]; [done|]. by rewrite (Hlv c Hm).
  - intros x. rewrite Hmap. intros [Hx|Hx]%orb_prop; [right; exists n; unfold in_leaf; split; [done|lia]|by left].
  - auto.
  - done.
Qed.

Lemma move_cas s a v n :
  rtree_inv s -> index_local s (SCas a v n) ->
  wp ('(won, seen) ← root_cas (l1_idx a) NULL n;
      if won : bool then mret (SStore a v n) else mret (SUnmap a v n seen))
    (moved s (SCas a v n)) s.
Proof.
  intros Hi [Ha Hpr _ _]. cbn in Ha. specialize (Hpr n eq_refl). destruct (Hpr) as [Hpos Hlf Hm Hap].
  unfold root_cas, root_load. wp_steps. rewrite l1_idx_block by done.
  destruct (Z.eqb_spec (default NULL (g_rtree_root s !! (block_of a / 2 ^ 14))) NULL) as [En|En]; wp_steps.
  2: { apply moved_same; [done..| |done]. constructor; [done|by intros b [= <-]| |done].
       intros b leaf [= <- <-]. split; [|done]. by destruct (g_rtree_root s !! _). }
  set (i := block_of a / 2 ^ 14) in *. set (s' := set_g_rtree_root _ s).
  destruct (publish_leaf_view s n i) as [Hi' Hv]; [done|lia| |done|by apply Hm|].
  { intros j Hj. apply (private_not_published s n j Hpr). split; [done|lia]. }
  assert (set_g_rtree_root (<[i := n]> (g_rtree_root s)) (set_h_leaves (<[n := ∅]> (h_leaves s)) s) = s') as Es.
  { rewrite (insert_id (h_leaves s)) by done. unfold s'. by destruct s. }
  rewrite Es in Hi', Hv.
  assert (published s' i n) as Hpn by (split; [apply lookup_insert_eq|lia]).
  assert (forall j b, published s' j b -> published s j b \/ b = n) as Hback.
  { intros j b [Hj Hb]. cbn in Hj. apply lookup_insert_Some in Hj as [[_ <-]|[_ Hj]]; [by right|by left]. }
  constructor.
  - done.
  - constructor; [done|done| |done]. intros b leaf [= <- <-]. exact Hpn.
  - intros j b [Hj Hb]. split; [|done]. cbn. rewrite lookup_insert_ne; [done|]. intros <-. by rewrite Hj in En.
  - intros q b Hx Hq Hb. apply (private_frame s); [done|done|intros x Hx'; by apply Hb|].
    intros j c [Hc| ->]%Hback; [by left|]. right. intros x Hn Hbx. by apply (Hx n b x).
  - intros q _ _ b c x [=].
  - by split.
  - auto.
  - auto.
  - intros b x [= <-] _. left. by exists i.
Qed.

Lemma move_unmap s a v n leaf :
  rtree_inv s -> index_local s (SUnmap a v n leaf) ->
  wp (munmap n sizeof_leaf;;
      modify (fun s => set_h_leaves (delete n (h_leaves s)) s);;
      mret (SStore a v leaf))
    (moved s (SUnmap a v n leaf)) s.
Proof.
  intros Hi [Ha Hpr Hk _]. cbn in Ha. specialize (Hpr n eq_refl). specialize (Hk a leaf eq_refl).
  wp_step. apply wp_munmap. wp_steps. rewrite leaf_pages. set (s' := set_h_leaves _ _).
  assert (forall x, mapped s' x = mapped s x && negb ((n <=? x) && (x <? n + sizeof_leaf))) as Hmap.
  { intros x. unfold mapped. cbn. apply in_ranges_cut. }
  assert (forall x, mapped s x = true -> ~ in_leaf n x -> mapped s' x = true) as Hkeep.
  { intros x Hx Hn. rewrite Hmap, Hx. unfold in_leaf in Hn. lia. }
  assert (forall b, (forall x, in_leaf b x -> ~ in_leaf n x) -> h_leaves s' !! b = h_leaves s !! b) as Hlv.
  { intros b Hb. cbn. rewrite lookup_delete_ne; [done|]. intros <-. by apply (Hb n); apply in_leaf_start. }
  assert (forall j b x, published s j b -> in_leaf b x -> ~ in_leaf n x) as Hap by apply Hpr.
  constructor.
  - constructor; [|apply Hi]. intros i b Hb Hn. destruct (root_leaf s Hi i b Hb Hn) as [? Hm].
    assert (published s i b) as Hp by done. split; [rewrite Hlv; [done|intros x; by apply (Hap i)]|].
    intros x Hx. apply Hkeep; [by apply Hm|by apply (Hap i b)].
  - constructor; [done|done| |done]. intros b l [= <- <-]. exact Hk.
  - done.
  - intros q b Hx Hq Hb. apply (private_frame s); [done| | |auto].
    + apply Hlv. intros x Hbx Hnx. by apply (Hx n b x).
    + intros x Hbx. apply Hkeep; [by apply Hb|]. intros Hnx. by apply (Hx n b x).
  - intros q _ _ b c x [=].
  - split; [done|]. intros b. unfold rtree_view. change (g_rtree_root s') with (g_rtree_root s).
    destruct (g_rtree_root s !! _) as [c|] eqn:Ec; cbn [from_option id]; [|done]. destruct (Z.eqb_spec c NULL); [done|].
    rewrite Hlv; [done|]. intros x. by apply (Hap (b / 2 ^ 14)).
  - intros x. rewrite Hmap. intros [Hx _]%andb_prop. by left.
  - intros x Hx. rewrite Hmap, Hx. cbn [andb]. destruct ((n <=? x) && (x <? n + sizeof_leaf)) eqn:E; [right|by left].
    exists n. unfold in_leaf. split; [done|lia].
  - intros b x [= <-] Hx. right. right. rewrite Hmap. unfold in_leaf in Hx. apply andb_false_iff. right. lia.
Qed.

Lemma move_store s a v leaf :
  rtree_inv s -> index_local s (SStore a v leaf) ->
  wp (leaf_store leaf (l2_idx a) v;; mret (SDone a v true)) (moved s (SStore a v leaf)) s.
Proof.
  intros Hi [Ha _ Hk _]. cbn in Ha. specialize (Hk a leaf eq_refl). destruct (published_block s _ _ Hi Hk) as (m & Hm & _).
  wp_step. eapply wp_leaf_store; [done|]. wp_step. rewrite l2_idx_block by done. destruct Hk as [Hr Hn].
  destruct (leaf_write_view s leaf m (block_of a) v) as [Hi' Hv]; [done..|]. set (s' := set_h_leaves _ s) in *.
  constructor; try done.
  - intros q b _ _ Hb. apply (private_frame s); [done| |intros x Hx; by apply Hb|auto].
    cbn. rewrite lookup_insert_ne; [done|]. intros ->. by apply (private_not_published s b (block_of a / 2 ^ 14) Hb).
  - exists []. done.
  - auto.
  - auto.
Qed.

Lemma move_load s a v :
  rtree_inv s -> index_local s (SLoad a v) ->
  wp (leaf ← root_load (l1_idx a);
      if (leaf =? NULL) && (v =? NULL) then mret (SDone a v true)
      else if leaf =? NULL then mret (SMap a v) else mret (SStore a v leaf))
    (moved s (SLoad a v)) s.
Proof.
  intros Hi [Ha _ _ _]. cbn in Ha. unfold root_load. wp_steps. rewrite l1_idx_block by done.
  destruct (Z.eqb_spec (default NULL (g_rtree_root s !! (block_of a / 2 ^ 14))) NULL) as [En|En]; cbn [andb].
  - destruct (Z.eqb_spec v NULL) as [->|Hv]; wp_steps; (apply moved_same; [done..|by constructor|]); [|done].
    exists []. split; [done|]. split; [done|]. intros b. unfold flat_set. destruct (Z.eqb_spec b (block_of a)) as [->|]; [|done]. unfold rtree_view. by rewrite En.
  - wp_steps. apply moved_same; [done..| |done]. constructor; [done|done| |done]. intros b leaf [= <- <-].
    split; [|done]. by destruct (g_rtree_root s !! _).
Qed.

Lemma move_get s p weak m :
  rtree_inv s -> index_local s p -> (exists a, p = GLoad a) \/ (exists a leaf, p = GEntry a leaf) ->
  index_act weak p = Some m -> wp m (moved s p) s.
Proof.
  intros Hi [Ha _ Hk _] Hp Hm. destruct Hp as [[a ->]|(a & leaf & ->)]; cbn [index_act addr_of] in *; apply (inj Some) in Hm as <-.
  - unfold get_root, root_load. wp_steps. rewrite l1_idx_block by done.
    destruct (Z.eqb_spec (default NULL (g_rtree_root s !! (block_of a / 2 ^ 14))) NULL) as [En|En]; wp_steps;
      (apply moved_same; [done..| |]).
    + by constructor.
    + exists []. split; [done|]. split; [|done]. split; [done|]. unfold rtree_view. by rewrite En.
    + constructor; [done|done| |done]. intros b leaf [= <- <-]. split; [|done]. by destruct (g_rtree_root s !! _).
    + done.
  - specialize (Hk a leaf eq_refl). destruct (published_block s _ _ Hi Hk) as (m & Hm & _).
    unfold get_entry, leaf_load. wp_steps. eapply wp_leaf_at; [done|]. wp_steps. apply moved_same; [done..|by constructor|].
    exists []. split; [done|]. split; [|done]. split; [done|]. destruct Hk as [Hr Hn]. unfold rtree_view. rewrite Hr, l2_idx_block by done. cbn [from_option id].
    zfalse (leaf =? NULL). by rewrite Hm.
Qed.

(** Every action. *)
Lemma move_act s p weak m :
  rtree_inv s -> (forall x, mapped s0 x = true -> mapped s x = true) -> index_local s p ->
  index_act weak p = Some m -> wp m (moved s p) s.
Proof.
  intros Hi H0' Hp Hm.
  destruct p as [a v|a v|a v n|a v n leaf|a v leaf|a v b|a|a leaf|a r]; try done; try (apply (inj Some) in Hm as <-).
  - by apply move_load.
  - by apply move_map.
  - by apply move_cas.
  - by apply move_unmap.
  - by apply move_store.
  - eapply (move_get s _ weak); [done|done|left; by eexists|done].
  - eapply (move_get s _ weak); [done|done|right; by do 2 eexists|done].
Qed.

Definition index_shared (c : config index_pc) : Prop :=
  rtree_inv c.1 /\ forall x, mapped s0 x = true -> mapped c.1 x = true.

(** The finished calls, in the order in which they took effect. *)
Definition linearized (c : config index_pc) (h : list (nat * index_event)) : Prop :=
  (exists l, st_refused c.1 = l ++ st_refused s0 /\ flat_history h.*2 (rtree_view s0) l (rtree_view c.1)) /\
  NoDup h.*1 /\ forall i e, (i, e) ∈ h <-> exists p, c.2 !! i = Some p /\ event_of p = Some e.

(** Mapped memory is old, of a published leaf, or of a leaf some thread holds. *)
Definition accounted (c : config index_pc) : Prop := forall x, mapped c.1 x = true ->
  mapped s0 x = true \/ (exists j a, published c.1 j a /\ in_leaf a x) \/
  exists i p a, c.2 !! i = Some p /\ private_of p = Some a /\ in_leaf a x.

Record race_inv (c : config index_pc) : Prop := {
  ri_pool : pool_inv index_shared index_local index_apart c;
  ri_accounted : accounted c;
  ri_history : exists h, linearized c h
}.

Lemma act_unfinished weak p m : index_act weak p = Some m -> event_of p = None.
Proof. destruct p as [| | | | |? ? []| | |]; done. Qed.

Lemma linearized_step s ps i p p' s' h :
  linearized (s, ps) h -> ps !! i = Some p -> event_of p = None -> moved s p p' s' ->
  exists h', linearized (s', <[i := p']> ps) h'.
Proof.
  intros ((l & El & Hf) & Hnd & Hh) Hi He Hmv. cbn [fst snd] in *. pose proof (mv_event _ _ _ _ Hmv) as Hev.
  assert (forall e, (i, e) ∉ h) as Hni.
  { intros e (q & Hq & Eq)%Hh. rewrite Hi in Hq. injection Hq as <-. congruence. }
  assert (i < length ps)%nat as Hlt by (by eapply lookup_lt_Some).
  assert (forall j e, (exists q, <[i := p']> ps !! j = Some q /\ event_of q = Some e) <->
    (j, e) ∈ h \/ j = i /\ event_of p' = Some e) as Hnew.
  { intros j e. rewrite Hh. split.
    - intros (q & Hq & Eq). apply list_lookup_insert_Some in Hq as [(-> & -> & _)|[_ Hq]]; eauto.
    - intros [(q & Hq & Eq)|[-> Eq]].
      + exists q. rewrite list_lookup_insert_ne; [done|]. intros <-. rewrite Hi in Hq. injection Hq as <-. congruence.
      + exists p'. rewrite list_lookup_insert_eq by done. done. }
  destruct (event_of p') as [e'|] eqn:Ee.
  - exists (h ++ [(i, e')]). split_and!; cbn [fst snd].
    + destruct Hev as (d & El' & Hev). exists (d ++ l). rewrite El', El, app_assoc. split; [done|].
      rewrite fmap_app. by eapply history_snoc.
    + rewrite fmap_app. apply NoDup_app. split_and!; [done| |apply NoDup_singleton].
      intros j Hj ->%list_elem_of_singleton. apply list_elem_of_fmap in Hj as ([k e] & E & Hk).
      cbn in E. subst k. by apply Hni in Hk.
    + intros j e. rewrite Hnew, elem_of_app, list_elem_of_singleton. naive_solver.
  - destruct Hev as [El' Hev]. exists h. split_and!; cbn [fst snd]; [|done|].
    { exists l. rewrite El'. split; [done|]. by eapply flat_history_ext. }
    intros j e. rewrite Hnew. naive_solver.
Qed.

Lemma accounted_step s ps i p p' s' :
  accounted (s, ps) -> ps !! i = Some p -> moved s p p' s' -> accounted (s', <[i := p']> ps).
Proof.
  intros Hac Hi Hmv x Hx. cbn [fst snd] in *. assert (i < length ps)%nat as Hlt by (by eapply lookup_lt_Some).
  assert (forall a, private_of p' = Some a -> in_leaf a x ->
    exists j q b, <[i := p']> ps !! j = Some q /\ private_of q = Some b /\ in_leaf b x) as Hown.
  { intros a Ha Hax. exists i, p', a. by rewrite list_lookup_insert_eq. }
  destruct (mv_new _ _ _ _ Hmv x Hx) as [Hold|(a & Ha & Hax)]; [|eauto].
  destruct (Hac x Hold) as [?|[(j & a & Ha & Hax)|(j & q & a & Hj & Hq & Hax)]]; [by left| |].
  - right. left. exists j, a. split; [by apply (mv_published _ _ _ _ Hmv)|done].
  - cbn in Hj. destruct (decide (j = i)) as [->|Hne].
    + rewrite Hi in Hj. injection Hj as <-.
      destruct (mv_held _ _ _ _ Hmv a x Hq Hax) as [[k Hk]|[?|?]]; [eauto 6|eauto|congruence].
    + right. right. exists j, q, a. by rewrite list_lookup_insert_ne.
Qed.

Lemma race_inv_step c1 c2 : race_inv c1 -> pool_step index_act c1 c2 -> race_inv c2.
Proof.
  intros [Hpool Hac [h Hh]] Hs.
  assert (pool_inv index_shared index_local index_apart c2) as Hpool2.
  { eapply pool_inv_step; [apply index_apart_sym| |exact Hpool|exact Hs].
    intros s ps i p weak m p' s' [Hi H0'] _ Hp Ha Hm. pose proof (move_act s p weak m Hi H0' Hp Ha) as Hmv.
    unfold wp in Hmv. rewrite Hm in Hmv. split_and!.
    - split; cbn; [apply Hmv|]. intros x Hx. destruct (mv_kept _ _ _ _ Hmv x) as [?|(a & Ea & Hax)]; [auto|done|].
      exfalso. destruct (po_mapped _ _ (il_private _ _ Hp a Ea) x Hax). congruence.
    - apply Hmv.
    - intros q Hq Hx. split; [|by apply (mv_apart _ _ _ _ Hmv)]. destruct (Hq) as [Hqa Hqp Hqk Hqv]. constructor; [done|..|done].
      + intros a Ea. apply (mv_private _ _ _ _ Hmv q); auto.
      + intros a leaf Ek. apply (mv_published _ _ _ _ Hmv). auto. }
  destruct Hpool as [[Hi H0'] HL _]. destruct Hs as [s ps i p weak m p' s' Hip Ha Hm].
  pose proof (move_act s p weak m Hi H0' (HL _ _ Hip) Ha) as Hmv. unfold wp in Hmv. rewrite Hm in Hmv.
  constructor; [done|by eapply accounted_step|].
  eapply linearized_step; [exact Hh|done|by eapply act_unfinished|done].
Qed.

End index_inv.

(** ** Theorems *)

(** A call of the index: what the thread starts with. *)
Definition index_start (o : index_op) : index_pc :=
  match o with
  | ISet a v => SLoad a v
  | IClear a => SLoad a NULL
  | IGet a => GLoad a
  end.

(** Actions a call still needs. *)
Definition index_work (p : index_pc) : nat :=
  match p with
  | SLoad _ _ => 5 | SMap _ _ => 4 | SCas _ _ _ => 3 | SUnmap _ _ _ _ => 2 | SStore _ _ _ => 1
  | GLoad _ => 2 | GEntry _ _ => 1 | SDone _ _ _ | GDone _ _ => 0
  end.

Section theorems.
Context `{EnvLaws}.

Lemma race_inv_start s os :
  rtree_inv s -> Forall (fun o => 0 <= op_addr o < 2 ^ 64) os -> race_inv s (s, index_start <$> os).
Proof.
  intros Hi Ho.
  assert (forall i p, (index_start <$> os) !! i = Some p -> exists o, p = index_start o /\ 0 <= op_addr o < 2 ^ 64) as Hst.
  { intros i p (o & -> & Hio)%list_lookup_fmap_Some. exists o. split; [done|]. by eapply (proj1 (Forall_lookup _ _) Ho). }
  constructor.
  - constructor.
    + by split.
    + intros i p (o & -> & Ha)%Hst. by destruct o; constructor.
    + intros i j p q _ (o & -> & _)%Hst _ a b x Ea. by destruct o.
  - intros x Hx. by left.
  - exists []. split_and!; [exists []; split; [done|by constructor]|constructor|]. intros i e. rewrite elem_of_nil. split; [done|].
    intros (p & (o & -> & _)%Hst & Ee). by destruct o.
Qed.

Lemma index_step_work s p weak m p' s' :
  index_act weak p = Some m -> m s = Done p' s' -> (index_work p' < index_work p)%nat.
Proof.
  intros Ha Hm. destruct p as [a v|a v|a v n|a v n leaf|a v leaf|a v b|a|a leaf|a r]; try done;
    apply (inj Some) in Ha as <-; revert Hm; unfold get_root, get_entry; run_m; intros Hm;
    repeat case_match; simplify_eq; cbn; lia.
Qed.

Lemma index_steps_bound s os k c :
  nsteps (firm_step index_act) k (s, index_start <$> os) c -> (k <= 5 * length os)%nat.
Proof.
  intros Hn. assert (total index_work (index_start <$> os) <= length os * 5)%nat as Ht.
  { pose proof (total_le index_work (fun _ => O) (index_start <$> os) 5 ltac:(intros p _; destruct p; cbn; lia)) as Hle.
    rewrite (total_const (fun _ => O) (index_start <$> os) 0%nat), length_fmap in Hle by done. lia. }
  pose proof (firm_bounded index_act (fun _ => True) (fun c => total index_work c.2) k
    (s, index_start <$> os) c) as Hb. cbn [snd] in Hb. enough (k + total index_work c.2 <= total index_work (index_start <$> os))%nat by lia.
  apply Hb; [|done|done]. intros c1 c2 _ Hs. split; [done|]. destruct Hs as [s1 ps1 i p m p' s2 Hip Ha Hm].
  pose proof (total_insert index_work ps1 i p p' Hip). pose proof (index_step_work _ _ _ _ _ _ Ha Hm). cbn [snd]. lia.
Qed.

(** Which call a thread is in. *)
Definition call_of (p : index_pc) : Z * option Z :=
  match p with
  | SLoad a v | SMap a v | SCas a v _ | SUnmap a v _ _ | SStore a v _ | SDone a v _ => (a, Some v)
  | GLoad a | GEntry a _ | GDone a _ => (a, None)
  end.

Lemma call_of_act s p weak m p' s' : index_act weak p = Some m -> m s = Done p' s' -> call_of p' = call_of p.
Proof.
  intros Ha Hm. destruct p as [a v|a v|a v n|a v n leaf|a v leaf|a v b|a|a leaf|a r]; try done;
    apply (inj Some) in Ha as <-; revert Hm; unfold get_root, get_entry; run_m; intros Hm;
    repeat case_match; by simplify_eq.
Qed.

(** An event is that of the call the thread was started with. *)
Lemma finished_does s0 s p o e :
  index_local s0 s p -> call_of p = call_of (index_start o) -> event_of p = Some e -> does e o.
Proof.
  intros Hl Hc He. pose proof (il_value _ _ _ Hl) as Hv.
  destruct p as [| | | | |a v []| | |a r]; simplify_eq; cbn in *; destruct o; cbn in *; simplify_eq; done.
Qed.

(** C8. The index is linearizable: threads that register, remove and look up
    chunks at the same time, one access to the tree at a time, never fault, and
    in every interleaving the calls that have returned have, in the order in
    which they took effect, exactly the effects and answers of a flat map from
    block numbers to headers, each call once and each as it was made; a
    registration is dropped exactly where the kernel refused its thread the
    pages of a leaf: the refusals on record since the start are those of the
    dropped registrations, one each. *)
Theorem index_race_linearizable s os s' ps :
  rtree_inv s -> Forall (fun o => 0 <= op_addr o < 2 ^ 64) os ->
  reaches index_act (s, index_start <$> os) (s', ps) ->
  rtree_inv s' /\
  (exists (h : list (nat * index_event)) l,
     st_refused s' = l ++ st_refused s /\ flat_history h.*2 (rtree_view s) l (rtree_view s') /\ NoDup h.*1 /\
     (forall i e, (i, e) ∈ h -> exists o, os !! i = Some o /\ does e o) /\
     forall i e, (i, e) ∈ h <-> exists p, ps !! i = Some p /\ event_of p = Some e) /\
  forall i p weak m, ps !! i = Some p -> index_act weak p = Some m -> exists p' s'', m s' = Done p' s''.
Proof.
  intros Hi Ho Hr. pose proof (race_inv_start s os Hi Ho) as Hst.
  destruct (reaches_inv index_act (race_inv s) _ _ (race_inv_step s) Hr Hst) as [[[Hi' H0'] HL _] _ (h & (l & El & Hf) & Hnd & Hh)].
  split_and!; [done| |].
  { exists h, l. split_and!; [done..| |done]. intros i e (p & Hp & He)%Hh.
    pose proof (reaches_fmap index_act call_of _ _ _ _ call_of_act Hr) as Hc.
    apply (f_equal (lookup i)) in Hc. cbn [snd] in Hp. rewrite !list_lookup_fmap, Hp in Hc.
    destruct (os !! i) as [o|]; [|done]. exists o. split; [done|]. injection Hc as Hc. by eapply finished_does, He; [eapply HL|]. }
  intros i p weak m Hp Ha.
  pose proof (move_act s s' p weak m Hi' H0' (HL _ _ Hp) Ha) as Hmv. unfold wp in Hmv.
  destruct (m s') as [p' s''|]; [by exists p', s''|done].
Qed.

(** C26. Publication of leaves neither leaks nor frees too much: [n] calls take
    at most five steps each under any schedule, memory that was mapped stays
    mapped, and when all calls have returned everything else that is mapped
    belongs to a leaf in the tree, each root slot with its own: the leaves of
    threads that lost the race are gone. *)
Theorem index_race_no_leak s os k s' ps :
  rtree_inv s -> Forall (fun o => 0 <= op_addr o < 2 ^ 64) os ->
  nsteps (firm_step index_act) k (s, index_start <$> os) (s', ps) ->
  (k <= 5 * length os)%nat /\
  (forall x, mapped s x = true -> mapped s' x = true) /\
  ((forall i p, ps !! i = Some p -> event_of p <> None) ->
   forall x, mapped s' x = true -> mapped s x = true \/
     exists j leaf, g_rtree_root s' !! j = Some leaf /\ leaf <= x < leaf + sizeof_leaf).
Proof.
  intros Hi Ho Hn. pose proof (race_inv_start s os Hi Ho) as Hst. pose proof (nsteps_firm index_act _ _ _ Hn) as Hr.
  destruct (reaches_inv index_act (race_inv s) _ _ (race_inv_step s) Hr Hst) as [[[Hi' H0'] HL _] Hac _].
  split_and!; [|exact H0'|].
  - by eapply index_steps_bound.
  - intros Hall x Hx. destruct (Hac x Hx) as [?|[(j & a & [Ha _] & Hax)|(i & p & a & Hip & Hp & _)]]; [by left|right; eauto|].
    exfalso. apply (Hall i p Hip). by destruct p.
Qed.

End theorems.

(** ** Witnesses *)

(** Two threads register chunks of one leaf; both map one, the second loses. *)
Definition race_ops : list index_op := [ISet 0x7f0000200000 1; ISet 0x7f0000400000 2; IGet 0x7f0000400000].

Lemma index_run : exists s' a v b a' v' b' g r,
  nsteps (firm_step index_act) 11 (boot_state, index_start <$> race_ops) (s', [SDone a v b; SDone a' v' b'; GDone g r]).
Proof.
  do 9 eexists.
  eapply nsteps_l; [fire 0%nat|]. eapply nsteps_l; [fire 1%nat|]. eapply nsteps_l; [fire 0%nat|].
  eapply nsteps_l; [fire 1%nat|]. eapply nsteps_l; [fire 0%nat|]. eapply nsteps_l; [fire 1%nat|].
  eapply nsteps_l; [fire 1%nat|]. eapply nsteps_l; [fire 0%nat|]. eapply nsteps_l; [fire 1%nat|].
  eapply nsteps_l; [fire 2%nat|]. eapply nsteps_l; [fire 2%nat|]. apply nsteps_O.
Qed.

Lemma race_ops_ok : Forall (fun o => 0 <= op_addr o < 2 ^ 64) race_ops.
Proof. repeat constructor; cbn; lia. Qed.

Lemma index_race_linearizable_witness : exists (s' : state) (ps : list index_pc),
  rtree_inv s' /\
  (exists (h : list (nat * index_event)) l,
     st_refused s' = l ++ st_refused boot_state /\
     flat_history h.*2 (rtree_view boot_state) l (rtree_view s') /\ NoDup h.*1 /\
     (forall i e, (i, e) ∈ h -> exists o, race_ops !! i = Some o /\ does e o) /\
     forall i e, (i, e) ∈ h <-> exists p, ps !! i = Some p /\ event_of p = Some e) /\
  forall i p weak m, ps !! i = Some p -> index_act weak p = Some m -> exists p' s'', m s' = Done p' s''.
Proof.
  destruct index_run as (s' & a & v & b & a' & v' & b' & g & r & Hr). eexists s', _.
  apply (index_race_linearizable boot_state race_ops);
    [by apply rtree_inv_empty|apply race_ops_ok|eapply nsteps_firm; exact Hr].
Defined.

Lemma index_race_no_leak_witness : exists (s' : state) (ps : list index_pc),
  (11 <= 5 * 3)%nat /\
  (forall x, mapped boot_state x = true -> mapped s' x = true) /\
  ((forall i p, ps !! i = Some p -> event_of p <> None) ->
   forall x, mapped s' x = true -> mapped boot_state x = true \/
     exists j leaf, g_rtree_root s' !! j = Some leaf /\ leaf <= x < leaf + sizeof_leaf).
Proof.
  destruct index_run as (s' & a & v & b & a' & v' & b' & g & r & Hr). eexists s', _.
  apply (index_race_no_leak boot_state race_ops 11); [by apply rtree_inv_empty|apply race_ops_ok|exact Hr].
Defined.
