(* ===== verification/MailRace.v ===== *)
(** * Threads that race on a mailbox

    The owner of a heap allocates, frees and reaps while any number of other
    threads free objects of that heap: [batch_remote] and the push loop of
    [lz_tlh_flush_outgoing_batch] in tlh.c, one access to the mailbox word at a
    time, against the exchange of [lz_tlh_reap].  In every interleaving each
    object of the heap is in exactly one place, and the lists in memory are
    those places. *)

From S2P Require Import Prelude Common Sizes Machine Wp Dll Testbed Security Rtree Vmm VmmSpec.
From S2P Require Import Provision Telemetry Span SpanSpec Slab Tlh SlabSpec BinSpec HeapSpec TlhSpec.
From S2P Require Import RemoteSpec Interleave.

(** ** The code of the threads *)

(** Where a thread is in a remote free of a node (the branch of [lz_tlh_free]
    for another heap), or in a flush alone (no node). *)
Inductive sender_pc :=
  | PIdle
  | PBegin (node : Z)
  | PFlush
  | PLoad (node : option Z)
  | PLink (node : option Z) (old_head : Z)
  | PCas (node : option Z) (old_head : Z)
  | PClear (node : option Z)
  | PAdd (node : Z).

(** Where the owner is: between calls, or in the walk of [lz_tlh_reap]. *)
Inductive owner_pc :=
  | OIdle
  | OWalk (head : Z).

Section code.
Context `{Env}.

Definition retarget (tlh owner : Z) : M unit :=
  update_tlh tlh (fun t => set_outgoing_batch (set_target_tlh owner (outgoing_batch t)) t).

(** The remote branch of [lz_tlh_free] up to the flush it may need. *)
Definition remote_begin (tlh owner node : Z) : M sender_pc :=
  store64 node NULL;;
  t ← tlh_at tlh;
  let batch := outgoing_batch t in
  if negb (target_tlh batch =? owner) || (LZ_BATCH_MAX_SIZE <=? batch_count batch) then
    if (batch_count batch =? 0) || (target_tlh batch =? NULL)
    then retarget tlh owner;; mret (PAdd node)
    else mret (PLoad (Some node))
  else mret (PAdd node).

(** Its end: the node becomes the head of the batch. *)
Definition remote_add (tlh node : Z) : M sender_pc :=
  t ← tlh_at tlh;
  let batch := outgoing_batch t in
  store64 node (batch_head batch);;
  update_tlh tlh (fun t => set_outgoing_batch
    (mk_batch (target_tlh batch) node
      (if batch_count batch =? 0 then node else batch_tail batch)
      (u32 (batch_count batch + 1))) t);;
  mret PIdle.

(** The loop of [lz_tlh_flush_outgoing_batch], an access at a time, between
    the two parts of a remote free. *)
Definition sender_act (tlh owner : Z) (weak : bool) (p : sender_pc) : option (M sender_pc) :=
  match p with
  | PIdle => None
  | PBegin node => Some (remote_begin tlh owner node)
  | PFlush => Some (
      t ← tlh_at tlh;
      let batch := outgoing_batch t in
      if (batch_count batch =? 0) || (target_tlh batch =? NULL) then mret PIdle
      else mret (PLoad None))
  | PLoad node => Some (
      t ← tlh_at tlh;
      target ← tlh_at (target_tlh (outgoing_batch t));
      mret (PLink node (remote_free_head target)))
  | PLink node old_head => Some (
      t ← tlh_at tlh;
      store64 (batch_tail (outgoing_batch t)) old_head;;
      mret (PCas node old_head))
  | PCas node old_head => Some (
      t ← tlh_at tlh;
      let batch := outgoing_batch t in
      target ← tlh_at (target_tlh batch);
      if negb weak && (remote_free_head target =? old_head)
      then update_tlh (target_tlh batch) (set_remote_free_head (batch_head batch));; mret (PClear node)
      else mret (PLink node (remote_free_head target)))
  | PClear node => Some (
      update_tlh tlh (set_outgoing_batch (mk_batch NULL NULL NULL 0));;
      match node with
      | None => mret PIdle
      | Some node => retarget tlh owner;; mret (PAdd node)
      end)
  | PAdd node => Some (remote_add tlh node)
  end.

(** The exchange at the start of [lz_tlh_reap]. *)
Definition reap_take (tlh : Z) : M Z :=
  t ← tlh_at tlh;
  update_tlh tlh (set_remote_free_head NULL);;
  mret (remote_free_head t).

(** One iteration of its walk: the node is freed, the next one returned. *)
Definition reap_node (tlh head : Z) : M Z :=
  next_clear ← load64 head;
  let chunk := head .& chunk_mask in
  c ← chunk_at chunk;
  (if chunk_type c =? LZ_CHUNK_TYPE_SLAB
   then free_to_slab tlh (chunk + LZ_CACHE_LINE_SIZE) head
   else if chunk_type c =? LZ_CHUNK_TYPE_SPAN
   then lz_span_free_remote tlh chunk head
   else mret tt);;
  mret next_clear.

Lemma tlh_at_eq tlh t s : h_tlhs s !! tlh = Some t -> tlh_at tlh s = Done t s.
Proof. intros Ht. unfold tlh_at. run_m. by rewrite Ht. Qed.

Lemma tlh_at_inv tlh t s s' : tlh_at tlh s = Done t s' -> h_tlhs s !! tlh = Some t /\ s' = s.
Proof. unfold tlh_at. run_m. destruct (h_tlhs s !! tlh); intros E; by simplify_eq. Qed.

(** Without interference the push loop runs once and is the flush. *)
Lemma push_alone tlh owner node fuel t s :
  h_tlhs s !! tlh = Some t -> batch_count (outgoing_batch t) <> 0 -> target_tlh (outgoing_batch t) <> NULL ->
  alone (sender_act tlh owner) (S (S (S (S fuel)))) (PLoad node) s =
  (lz_tlh_flush_outgoing_batch tlh;;
   match node with
   | None => mret PIdle
   | Some a => retarget tlh owner;; alone (sender_act tlh owner) fuel (PAdd a)
   end) s.
Proof.
  intros Ht Hc Hn. unfold lz_tlh_flush_outgoing_batch. cbn [alone sender_act]. run_m.
  rewrite (tlh_at_eq _ _ _ Ht). zfalse (batch_count (outgoing_batch t) =? 0). zfalse (target_tlh (outgoing_batch t) =? NULL).
  cbn [orb]. destruct (tlh_at (target_tlh (outgoing_batch t)) s) as [u s1|r] eqn:Eu; [|done].
  apply tlh_at_inv in Eu as [Hu ->].
  cbn [alone sender_act]. run_m. rewrite (tlh_at_eq _ _ _ Ht).
  unfold store64, check_mapped. run_m. destruct (mapped s (batch_tail (outgoing_batch t))); [|done].
  destruct (mapped s (batch_tail (outgoing_batch t) + 7)); [|done].
  set (s1 := set_h_bytes _ s). assert (h_tlhs s1 = h_tlhs s) as Eh by done.
  cbn [alone sender_act negb andb]. run_m. rewrite (tlh_at_eq tlh t s1), (tlh_at_eq _ u s1), Z.eqb_refl by (by rewrite Eh).
  unfold update_tlh. run_m. rewrite (tlh_at_eq _ u s1) by (by rewrite Eh). cbn [alone sender_act]. unfold update_tlh. run_m.
  destruct (tlh_at tlh _) as [v s2|r]; [|done]. destruct node as [a|]; [|by destruct fuel].
  run_m. by destruct (retarget tlh owner _) as [[] s3|r].
Qed.

(** The end of [batch_remote]. *)
Lemma add_alone tlh owner node fuel s :
  alone (sender_act tlh owner) (S fuel) (PAdd node) s =
  (t ← tlh_at tlh;
   let batch := outgoing_batch t in
   store64 node (batch_head batch);;
   update_tlh tlh (fun t => set_outgoing_batch
     (mk_batch (target_tlh batch) node
       (if batch_count batch =? 0 then node else batch_tail batch)
       (u32 (batch_count batch + 1))) t);;
   mret PIdle) s.
Proof.
  erewrite alone_S by reflexivity. unfold remote_add. run_m. destruct (tlh_at tlh s) as [t s1|r]; [|done].
  destruct (store64 _ _ s1) as [[] s2|r]; [|done]. destruct (update_tlh _ _ s2) as [[] s3|r]; [|done].
  by apply alone_end.
Qed.

(** Without interference a sender runs [batch_remote], or the flush alone. *)
Lemma batch_alone tlh owner node s :
  alone (sender_act tlh owner) 6 (PBegin node) s = (batch_remote tlh owner node;; mret PIdle) s.
Proof.
  unfold batch_remote. erewrite alone_S by reflexivity. unfold remote_begin. run_m.
  destruct (store64 node NULL s) as [[] s1|r]; [|done]. destruct (tlh_at tlh s1) as [t s2|r] eqn:Et; [|done].
  apply tlh_at_inv in Et as [Ht ->].
  destruct (negb (target_tlh (outgoing_batch t) =? owner) || (LZ_BATCH_MAX_SIZE <=? batch_count (outgoing_batch t))).
  - destruct ((batch_count (outgoing_batch t) =? 0) || (target_tlh (outgoing_batch t) =? NULL)) eqn:Eg.
    + unfold lz_tlh_flush_outgoing_batch, retarget. run_m. rewrite (tlh_at_eq _ _ _ Ht), Eg.
      destruct (update_tlh tlh _ s1) as [[] s3|r]; [|done]. rewrite add_alone. run_m.
      destruct (tlh_at tlh s3) as [u s4|r]; [|done]. by destruct (store64 node _ s4).
    + apply orb_false_elim in Eg as [E1%Z.eqb_neq E2%Z.eqb_neq].
      rewrite (push_alone tlh owner (Some node) 1 t s1) by done. run_m.
      destruct (lz_tlh_flush_outgoing_batch tlh s1) as [[] s2|r]; [|done]. unfold retarget.
      destruct (update_tlh tlh _ s2) as [[] s3|r]; [|done]. rewrite add_alone. run_m.
      destruct (tlh_at tlh s3) as [u s4|r]; [|done]. by destruct (store64 node _ s4).
  - rewrite add_alone. run_m. destruct (tlh_at tlh s1) as [u s4|r]; [|done]. by destruct (store64 node _ s4).
Qed.

Lemma flush_alone tlh owner s :
  alone (sender_act tlh owner) 5 PFlush s = (lz_tlh_flush_outgoing_batch tlh;; mret PIdle) s.
Proof.
  erewrite alone_S by reflexivity. unfold lz_tlh_flush_outgoing_batch. run_m.
  destruct (tlh_at tlh s) as [t s1|r] eqn:Et; [|done]. apply tlh_at_inv in Et as [Ht ->].
  destruct ((batch_count (outgoing_batch t) =? 0) || (target_tlh (outgoing_batch t) =? NULL)) eqn:Eg; [done|].
  pose proof Eg as [E1%Z.eqb_neq E2%Z.eqb_neq]%orb_false_elim.
  rewrite (push_alone tlh owner None 0 t s) by done. unfold lz_tlh_flush_outgoing_batch. run_m.
  by rewrite (tlh_at_eq _ _ _ Ht), Eg.
Qed.

(** The walk of the reap is a sequence of such iterations. *)
Lemma reap_loop_node fuel tlh head s :
  reap_loop (S fuel) tlh head s =
  (if head =? NULL then mret tt else next ← reap_node tlh head; reap_loop fuel tlh next) s.
Proof.
  cbn [reap_loop]. destruct (head =? NULL); [done|]. unfold reap_node. run_m.
  destruct (load64 head s) as [n s1|r]; [|done]. destruct (chunk_at _ s1) as [c s2|r]; [|done].
  by destruct (if chunk_type c =? LZ_CHUNK_TYPE_SLAB then _ else _).
Qed.

End code.

(** ** Configurations and steps *)

(** The process as the threads around one heap see it: what clients hold,
    where every sending heap is, and where the owner is. *)
Record mconfig := mk_mc {
  mc_state : state;
  mc_held : list Z;
  mc_senders : list (Z * sender_pc);
  mc_owner : owner_pc;
}.

(** The size of the object at [a] that the metadata of its chunk records. *)
Definition size_at (s : state) (a : Z) : Z :=
  let d := a .& chunk_mask in
  match body_of s (d + 64) with
  | BSlab sl => block_size sl
  | BSpan sp => default 0 (alloc_size_pages sp !! Z.to_nat ((a - d) / 4096)) * 4096
  | _ => 0
  end.

Section steps.
Context `{Env} (o : Z).

Inductive mail_step : mconfig -> mconfig -> Prop :=
  (* a sender starts to free an object that a client gives up, starts a flush,
     or acts *)
  | step_free s H1 a H2 S w i t :
      S !! i = Some (t, PIdle) ->
      mail_step (mk_mc s (H1 ++ a :: H2) S w) (mk_mc s (H1 ++ H2) (<[i := (t, PBegin a)]> S) w)
  | step_flush s H S w i t :
      S !! i = Some (t, PIdle) -> mail_step (mk_mc s H S w) (mk_mc s H (<[i := (t, PFlush)]> S) w)
  | step_sender s H S w i t p weak m p' s' :
      S !! i = Some (t, p) -> sender_act t o weak p = Some m -> m s = Done p' s' ->
      mail_step (mk_mc s H S w) (mk_mc s' H (<[i := (t, p')]> S) w)
  (* the owner allocates, frees an object that a client gives up, or reaps *)
  | step_alloc s H S size r s' :
      0 <= size <= 511 * 4096 -> lz_tlh_alloc o size s = Done r s' ->
      mail_step (mk_mc s H S OIdle) (mk_mc s' (if r =? NULL then H else r :: H) S OIdle)
  | step_local s H1 a H2 S s' :
      lz_tlh_free o a s = Done tt s' ->
      mail_step (mk_mc s (H1 ++ a :: H2) S OIdle) (mk_mc s' (H1 ++ H2) S OIdle)
  | step_take s H S head s' :
      reap_take o s = Done head s' -> mail_step (mk_mc s H S OIdle) (mk_mc s' H S (OWalk head))
  | step_node s H S head next s' :
      head <> NULL -> reap_node o head s = Done next s' ->
      mail_step (mk_mc s H S (OWalk head)) (mk_mc s' H S (OWalk next))
  | step_end s H S : mail_step (mk_mc s H S (OWalk NULL)) (mk_mc s H S OIdle).

(** Clients write into what they hold. *)
Inductive client_step : mconfig -> mconfig -> Prop :=
  | client_write s H S w a x v s' :
      a ∈ H -> a <= x -> x + 8 <= a + size_at s a -> store64 x v s = Done tt s' ->
      client_step (mk_mc s H S w) (mk_mc s' H S w).

Definition race_step (c c' : mconfig) : Prop := mail_step c c' \/ client_step c c'.

End steps.

(** ** Lists of nodes in memory *)

(** Nodes linked through their first words, the last one to [v]. *)
Fixpoint linked (m : gmap Z Z) (l : list Z) (v : Z) : Prop :=
  match l with
  | [] => True
  | a :: l => le_bytes m a 8 = hd v l /\ linked m l v
  end.

Lemma linked_chain m l : linked m l NULL <-> node_chain m (fun next _ => next) l.
Proof. induction l as [|a l IH]; [done|]. cbn. by rewrite IH. Qed.

Lemma linked_ext m m' l v :
  (forall a x, a ∈ l -> a <= x < a + 8 -> m' !! x = m !! x) -> linked m l v -> linked m' l v.
Proof.
  induction l as [|a l IH]; intros Hx; [done|]. cbn [linked]. intros [Ha Hl]. split.
  - rewrite <- Ha. apply le_bytes_ext. intros x Hr. change (Z.of_nat 8) with 8 in Hr. apply (Hx a); [set_solver|done].
  - apply IH; [|done]. intros; eapply Hx; [|done]. set_solver.
Qed.

Lemma linked_app m l l' v : linked m l (hd v l') -> linked m l' v -> linked m (l ++ l') v.
Proof.
  induction l as [|a l IH]; [done|]. cbn [linked app]. intros [Ha Hl] Hl'. split; [|auto].
  rewrite Ha. by destruct l.
Qed.

(** Rewriting the link of the last node. *)
Lemma linked_set m l w v :
  last l = Some w -> NoDup l -> (forall a, a ∈ l -> a = w \/ w + 8 <= a \/ a + 8 <= w) -> 0 <= v < 2 ^ 64 ->
  (exists v0, linked m l v0) -> linked (set_le_bytes m w v 8) l v.
Proof.
  intros Hl Hnd Hap Hv [v0 Hlk]. induction l as [|a l IH]; [done|].
  apply NoDup_cons in Hnd as [Ha Hnd]. destruct Hlk as [Hla Hlk]. destruct l as [|b l].
  - cbn in Hl. injection Hl as ->. split; [|done]. by apply le_bytes_set_eq.
  - rewrite last_cons_cons in Hl. split; [|apply IH; [done|done|intros; apply Hap; by right|done]].
    cbn [hd] in *. rewrite <- Hla. apply le_bytes_set_ne. change (Z.of_nat 8) with 8.
    destruct (Hap a) as [->|?]; [by left| |lia]. exfalso. apply Ha. by apply last_Some_elem_of.
Qed.

(** ** Invariant *)

Definition written (s : state) (l : list Z) : Prop := forall a, a ∈ l -> is_Some (h_bytes s !! a).

(** The batch of record [r] for heap [o] is [B]. *)
Record batched (s : state) (o : Z) (r : lz_tlh_t) (B : list Z) : Prop := {
  ba_count : batch_count (outgoing_batch r) = Z.of_nat (length B);
  ba_small : (length B <= 64)%nat;
  ba_head : batch_head (outgoing_batch r) = hd NULL B;
  ba_tail : B <> [] -> target_tlh (outgoing_batch r) = o /\ last B = Some (batch_tail (outgoing_batch r));
  ba_linked : exists v, linked (h_bytes s) B v;
  ba_written : written s B
}.

(** The nodes [N] that a sender with heap [t] has, by its program point. *)
Definition sender_ok (s : state) (o t : Z) (p : sender_pc) (N : list Z) : Prop :=
  t <> o /\ exists r, h_tlhs s !! t = Some r /\
  match p with
  | PIdle | PFlush => batched s o r N
  | PBegin a => exists B, N = a :: B /\ batched s o r B
  | PLoad k => exists B, N = option_list k ++ B /\ batched s o r B /\ B <> []
  | PLink k old => exists B, N = option_list k ++ B /\ batched s o r B /\ B <> [] /\ 0 <= old < 2 ^ 64
  | PCas k old => exists B, N = option_list k ++ B /\ batched s o r B /\ B <> [] /\ 0 <= old < 2 ^ 64 /\
      linked (h_bytes s) B old
  | PClear k => N = option_list k
  | PAdd a => exists B, N = a :: B /\ batched s o r B /\ target_tlh (outgoing_batch r) = o /\ (length B < 64)%nat
  end.

Definition owner_at (w : owner_pc) (K : list Z) : Prop :=
  match w with OIdle => K = [] | OWalk head => head = hd NULL K end.

(** All objects of the heap by where they are: with clients, in the mailbox
    [R], in the walk [K] of the owner, or with the senders [Ns]. *)
Definition tokens (c : mconfig) (R K : list Z) (Ns : list (list Z)) : list Z :=
  mc_held c ++ R ++ K ++ concat Ns.

(** The metadata tell the size of every object. *)
Lemma object_size s o Γ L G P a n : heap_core s o Γ L G P -> object s Γ L a n -> size_at s a = n.
Proof.
  intros Hc Hn. destruct (object_in _ _ _ _ _ _ _ _ Hc Hn) as (_ & _ & _ & ? & _).
  assert (forall m, object s Γ L a m -> m = n) as Hu.
  { intros m Hm. destruct (objects_disjoint _ _ _ _ _ _ _ _ _ _ Hc Hm Hn) as [[_ ?]|[?|?]]; [done| |lia].
    destruct (object_in _ _ _ _ _ _ _ _ Hc Hm) as (_ & _ & _ & ? & _). lia. }
  destruct (object_header _ _ _ _ _ _ _ _ Hc Hn) as (_ & _ & _ & _ & _ & [(_ & g & k & Hg & Hk & Ea)|(_ & Hd & _ & sp & i & m & Hb & Hr & Ea)]).
  - destruct (sb_body _ _ _ _ (hc_slab _ _ _ _ _ _ Hc _ _ Hg)) as (sl & Hb & Hsl). unfold size_at. rewrite Hb, (sr_size _ _ _ Hsl).
    apply Hu. left. by exists (a .& chunk_mask + 64), g, k.
  - unfold size_at. rewrite Hb. replace (a - a .& chunk_mask) with (i * 4096) by lia. rewrite Z.div_mul by lia.
    pose proof Hr as (_ & -> & _). cbn. apply Hu. right. exists m. split; [|done].
    exists (a .& chunk_mask + 64), sp, i. split_and!; [done..|lia].
Qed.

Section invariant.
Context `{EnvLaws} (o : Z).

Record mail_at (c : mconfig) (Γ : gmap Z slab_ghost) (L G : list Z) (P : list (list Z))
    (R K : list Z) (Ns : list (list Z)) : Prop := {
  ma_heap : heap (mc_state c) o Γ L G P;
  ma_head : exists t, h_tlhs (mc_state c) !! o = Some t /\ remote_free_head t = hd NULL R;
  ma_mail : linked (h_bytes (mc_state c)) R NULL /\ written (mc_state c) R;
  ma_walk : linked (h_bytes (mc_state c)) K NULL /\ written (mc_state c) K /\ owner_at (mc_owner c) K;
  ma_length : length Ns = length (mc_senders c);
  ma_senders : forall i t p N, mc_senders c !! i = Some (t, p) -> Ns !! i = Some N ->
    sender_ok (mc_state c) o t p N;
  ma_distinct : NoDup (mc_senders c).*1;
  ma_once : NoDup (tokens c R K Ns);
  ma_objects : forall a, a ∈ tokens c R K Ns <-> exists n, object (mc_state c) Γ L a n
}.

Definition mail_inv (c : mconfig) : Prop := exists Γ L G P R K Ns, mail_at c Γ L G P R K Ns.

(** What an action leaves alone. *)
Lemma batched_ext s s' r r' B :
  batched s o r B -> outgoing_batch r' = outgoing_batch r ->
  (forall a x, a ∈ B -> a <= x < a + 8 -> h_bytes s' !! x = h_bytes s !! x) -> batched s' o r' B.
Proof.
  intros [B1 B2 B3 B4 [v B5] B6] E Hx. constructor; rewrite ?E; try done.
  - exists v. by eapply linked_ext.
  - intros a Ha. rewrite (Hx a a Ha); [by apply B6|lia].
Qed.

Lemma sender_frame s s' t p N :
  sender_ok s o t p N ->
  (forall r, h_tlhs s !! t = Some r -> exists r', h_tlhs s' !! t = Some r' /\ outgoing_batch r' = outgoing_batch r) ->
  (forall a x, a ∈ N -> a <= x < a + 8 -> h_bytes s' !! x = h_bytes s !! x) -> sender_ok s' o t p N.
Proof.
  intros (Hne & r & Hr & Hp) Ht Hx. destruct (Ht r Hr) as (r' & Hr' & E). split; [done|]. exists r'. split; [done|].
  assert (forall B, (forall a, a ∈ B -> a ∈ N) -> batched s o r B -> batched s' o r' B) as Hb.
  { intros B HB Hb. eapply batched_ext; [exact Hb|done|]. intros; eapply Hx; eauto. }
  destruct p as [|a| |k|k old|k old|k|a]; cbn in *.
  - auto.
  - destruct Hp as (B & -> & ?). exists B. split; [done|]. apply Hb; [set_solver|done].
  - auto.
  - destruct Hp as (B & -> & ? & ?). exists B. split_and!; [done| |done]. apply Hb; [set_solver|done].
  - destruct Hp as (B & -> & ? & ? & ?). exists B. split_and!; [done| |done|lia|lia]. apply Hb; [set_solver|done].
  - destruct Hp as (B & -> & ? & ? & ? & Hl). exists B. split_and!; [done| |done|lia|lia|]; [apply Hb; [set_solver|done]|].
    eapply linked_ext; [|exact Hl]. intros a x Ha. apply Hx. set_solver.
  - done.
  - destruct Hp as (B & -> & ? & ? & ?). exists B. rewrite E. split_and!; [done| |done..]. apply Hb; [set_solver|done].
Qed.

Section move.
Context (c : mconfig) (Γ : gmap Z slab_ghost) (L G : list Z) (P : list (list Z)).
Context (R K : list Z) (Ns : list (list Z)) (Hc : mail_at c Γ L G P R K Ns).

Lemma token_object a : a ∈ tokens c R K Ns ->
  exists n, object (mc_state c) Γ L a n /\ mapped (mc_state c) a = true /\ 0 < a < 2 ^ 64 /\ 16 <= n /\
    mapped (mc_state c) (a + 7) = true.
Proof.
  intros [n Hn]%(ma_objects _ _ _ _ _ _ _ _ Hc). exists n.
  pose proof (hp_core _ _ _ _ _ _ (ma_heap _ _ _ _ _ _ _ _ Hc)) as Hk.
  destruct (object_header _ _ _ _ _ _ _ _ Hk Hn) as (? & _ & ? & _).
  destruct (object_in _ _ _ _ _ _ _ _ Hk Hn) as (_ & _ & _ & ? & _).
  split_and!; try done; [lia..|by eapply object_word_mapped].
Qed.

Lemma tokens_apart a b n : a ∈ tokens c R K Ns -> object (mc_state c) Γ L b n -> a <> b -> a + 8 <= b \/ b + n <= a.
Proof.
  intros (m & Hm & _ & _ & ? & _)%token_object Hb Hne.
  pose proof (hp_core _ _ _ _ _ _ (ma_heap _ _ _ _ _ _ _ _ Hc)) as Hk.
  destruct (objects_disjoint _ _ _ _ _ _ _ _ _ _ Hk Hm Hb) as [[? _]|?]; [done|lia].
Qed.

Lemma token_mail a : a ∈ R -> a ∈ tokens c R K Ns.
Proof. unfold tokens. set_solver. Qed.
Lemma token_walk a : a ∈ K -> a ∈ tokens c R K Ns.
Proof. unfold tokens. set_solver. Qed.
Lemma token_sender i N a : Ns !! i = Some N -> a ∈ N -> a ∈ tokens c R K Ns.
Proof. intros HN Ha. unfold tokens. do 3 (apply elem_of_app; right). by eapply elem_of_concat_lookup. Qed.

(** Nodes elsewhere are not those of sender [i]. *)
Lemma token_other i N a : Ns !! i = Some N -> a ∈ N ->
  a ∉ mc_held c /\ a ∉ R /\ a ∉ K /\ forall j N', j <> i -> Ns !! j = Some N' -> a ∉ N'.
Proof.
  intros HN Ha. pose proof (ma_once _ _ _ _ _ _ _ _ Hc) as Hnd. unfold tokens in Hnd.
  assert (a ∈ concat Ns) as Hin by (by eapply elem_of_concat_lookup).
  rewrite !NoDup_app in Hnd. destruct Hnd as (_ & H1' & _ & H2' & _ & H3' & H4').
  split_and!; [intros Hx; apply (H1' a Hx); set_solver|intros Hx; apply (H2' a Hx); set_solver|
    intros Hx; by apply (H3' a Hx)|].
  intros j N' Hne HN' Ha'. eapply (NoDup_concat_disj Ns i j); [done| |exact HN|exact HN'|done|done]. done.
Qed.

Lemma concat_swap i N N' (X X' : list Z) :
  Ns !! i = Some N -> X' ++ N' ≡ₚ X ++ N -> X' ++ concat (<[i := N']> Ns) ≡ₚ X ++ concat Ns.
Proof.
  intros HN HX. assert (i < length Ns)%nat as Hlt by (by eapply lookup_lt_Some).
  rewrite (concat_insert_perm (<[i := N']> Ns) i N' []) by (rewrite app_nil_r; by apply list_lookup_insert_eq).
  rewrite list_insert_insert_eq. rewrite (concat_insert_perm Ns i N []) by (by rewrite app_nil_r).
  by rewrite !app_assoc, HX.
Qed.

(** A step of sender [i], or a node handed to it. *)
Lemma sender_move i t p N s' H' R' p' N' :
  mc_senders c !! i = Some (t, p) -> Ns !! i = Some N ->
  heap s' o Γ L G P -> (forall a n, object s' Γ L a n <-> object (mc_state c) Γ L a n) ->
  (exists u, h_tlhs s' !! o = Some u /\ remote_free_head u = hd NULL R') ->
  (linked (h_bytes s') R' NULL /\ written s' R') ->
  (forall a x, a ∈ tokens c R K Ns -> a ∉ N -> a <= x < a + 8 -> h_bytes s' !! x = h_bytes (mc_state c) !! x) ->
  (forall u, u <> t -> u <> o -> h_tlhs s' !! u = h_tlhs (mc_state c) !! u) ->
  sender_ok s' o t p' N' -> H' ++ R' ++ N' ≡ₚ mc_held c ++ R ++ N ->
  mail_at (mk_mc s' H' (<[i := (t, p')]> (mc_senders c)) (mc_owner c)) Γ L G P R' K (<[i := N']> Ns).
Proof.
  intros Hi HN Hh Hob Hhd Hmail Hby Hrec Hok Hpm.
  assert (tokens (mk_mc s' H' (<[i := (t, p')]> (mc_senders c)) (mc_owner c)) R' K (<[i := N']> Ns) ≡ₚ tokens c R K Ns) as Hperm.
  { unfold tokens. cbn [mc_held]. rewrite (Permutation_app_comm K), (Permutation_app_comm K).
    rewrite !app_assoc. apply Permutation_app_tail. apply (concat_swap i N N'); [done|]. by rewrite <- !app_assoc. }
  assert (forall a, a ∉ N -> a ∈ tokens c R K Ns -> forall x, a <= x < a + 8 ->
    h_bytes s' !! x = h_bytes (mc_state c) !! x) as Hby' by eauto.
  destruct Hc as [Mh Md Mm [Wl [Ww Wo]] Ml Ms Mn Mo Mj]. constructor; cbn [mc_state mc_senders mc_owner].
  - done.
  - done.
  - done.
  - assert (forall a, a ∈ K -> a ∉ N) as HKN by (intros a Ha Hn; by destruct (token_other i N a HN Hn) as (_ & _ & ? & _)).
    split_and!; [|..|done].
    + eapply linked_ext; [|exact Wl]. intros a x Ha. apply Hby; [by apply token_walk|auto].
    + intros a Ha. rewrite (Hby a a); [by apply Ww|by apply token_walk|auto|lia].
  - by rewrite !length_insert.
  - intros j u q M Hj HM. destruct (decide (j = i)) as [->|Hne].
    + rewrite list_lookup_insert_eq in Hj by (by eapply lookup_lt_Some).
      rewrite list_lookup_insert_eq in HM by (by eapply lookup_lt_Some). by simplify_eq.
    + rewrite list_lookup_insert_ne in Hj by done. rewrite list_lookup_insert_ne in HM by done.
      assert (u <> t) as Hut.
      { intros ->. apply Hne. eapply (NoDup_lookup _ _ _ _ Mn); rewrite list_lookup_fmap; [by rewrite Hj|by rewrite Hi]. }
      pose proof (Ms _ _ _ _ Hj HM) as Hoku. destruct (Hoku) as [Huo _].
      eapply sender_frame; [exact Hoku|intros r Hr; exists r; by rewrite Hrec|].
      intros a x Ha. apply Hby; [by eapply token_sender|]. intros Hn. destruct (token_other i N a HN Hn) as (_ & _ & _ & Hj'). by apply (Hj' j M).
  - rewrite list_fmap_insert, list_insert_id; [done|]. by rewrite list_lookup_fmap, Hi.
  - by rewrite Hperm.
  - intros a. rewrite Hperm, Mj. split; intros [n ?]; exists n; by apply Hob.
Qed.

(** What an action of a sender gives: the invariant, with the contents of
    what clients hold unchanged. *)
Definition held_kept (s' : state) : Prop := forall a n x,
  a ∈ mc_held c -> object (mc_state c) Γ L a n -> a <= x < a + n -> h_bytes s' !! x = h_bytes (mc_state c) !! x.

Definition sender_post (i : nat) (t : Z) (p' : sender_pc) (s' : state) : Prop := exists R' N',
  mail_at (mk_mc s' (mc_held c) (<[i := (t, p')]> (mc_senders c)) (mc_owner c)) Γ L G P R' K (<[i := N']> Ns) /\
  held_kept s'.

Section sender.
Context (i : nat) (t : Z) (p : sender_pc) (N : list Z).
Context (Hi : mc_senders c !! i = Some (t, p)) (HN : Ns !! i = Some N).

(** Only first words of the sender's nodes, its record and the mailbox word
    change. *)
Lemma sender_poke s' m T p' N' R' :
  s' = set_h_tlhs T (set_h_bytes m (mc_state c)) ->
  (forall x, (forall w, w ∈ N -> ~ (w <= x < w + 8)) -> m !! x = h_bytes (mc_state c) !! x) ->
  (forall u, u <> t -> u <> o -> T !! u = h_tlhs (mc_state c) !! u) ->
  (forall r, h_tlhs (mc_state c) !! o = Some r -> T !! o = Some (set_remote_free_head (hd NULL R') r)) ->
  linked (h_bytes s') R' NULL -> written s' R' -> sender_ok s' o t p' N' -> R' ++ N' ≡ₚ R ++ N ->
  sender_post i t p' s'.
Proof.
  intros Es Hm HT Ho Hl Hw Hok Hpm. destruct (ma_head _ _ _ _ _ _ _ _ Hc) as (r & Hr & _). specialize (Ho r Hr).
  destruct (heap_poke (mc_state c) o Γ L G P m T s') as [Hh Hob]; [apply Hc|done|..].
  - intros r0 Hr0. rewrite Hr in Hr0. injection Hr0 as <-. eauto.
  - intros x. destruct (decide (Exists (fun w => w <= x < w + 8) N)) as [(w & Hw' & Hx)%Exists_exists|Hx].
    + right. destruct (token_object w) as (n & Hn & _ & _ & ? & _); [by eapply token_sender|].
      exists w, n. split; [done|lia].
    + left. apply Hm. intros w Hw' Hxw. apply Hx, Exists_exists. eauto.
  - assert (forall a n x, object (mc_state c) Γ L a n -> a ∉ N -> a <= x < a + n ->
      h_bytes s' !! x = h_bytes (mc_state c) !! x) as Hkeep.
    { intros a n x Ha Han Hx. rewrite Es. cbn. apply Hm. intros w Hw' Hxw.
      destruct (tokens_apart w a n); [by eapply token_sender|done|by intros ->|lia..]. }
    exists R', N'. split.
    + eapply (sender_move i t p N); [done|done|done|done|by exists (set_remote_free_head (hd NULL R') r); rewrite Es|done| |
        by rewrite Es|done|by rewrite Hpm].
      intros a x (n & Hn & _ & _ & ? & _)%token_object Han Hx. apply (Hkeep a n); [done|done|lia].
    + intros a n x Ha Hn. apply Hkeep; [done|]. intros HaN. by destruct (token_other i N a HN HaN) as [? _].
Qed.

(** The same when the mailbox stays. *)
Lemma sender_quiet s' m T p' N' :
  s' = set_h_tlhs T (set_h_bytes m (mc_state c)) ->
  (forall x, (forall w, w ∈ N -> ~ (w <= x < w + 8)) -> m !! x = h_bytes (mc_state c) !! x) ->
  (forall u, u <> t -> T !! u = h_tlhs (mc_state c) !! u) -> t <> o ->
  sender_ok s' o t p' N' -> N' ≡ₚ N -> sender_post i t p' s'.
Proof.
  intros Es Hm HT Hne Hok Hpm. destruct (ma_head _ _ _ _ _ _ _ _ Hc) as (r & Hr & Ehd).
  destruct (ma_mail _ _ _ _ _ _ _ _ Hc) as [Hl Hw].
  assert (forall a x, a ∈ R -> a <= x < a + 8 -> h_bytes s' !! x = h_bytes (mc_state c) !! x) as Hk.
  { intros a x Ha Hx. rewrite Es. cbn. apply Hm. intros w HwN Hxw.
    destruct (token_object a) as (n & Hn & _ & _ & ? & _); [by apply token_mail|].
    destruct (tokens_apart w a n); [by eapply token_sender|done| |lia..].
    intros ->. by destruct (token_other i N a HN HwN) as (_ & ? & _). }
  eapply (sender_poke s' m T p' N' R); [done|done|auto| | | |done|by rewrite Hpm].
  - intros r0 Hr0. rewrite HT by done. rewrite Hr in Hr0. injection Hr0 as <-. rewrite Hr, <- Ehd. by destruct r.
  - by eapply linked_ext.
  - intros a Ha. rewrite (Hk a a Ha); [by apply Hw|lia].
Qed.

(** Nothing but the program point changes. *)
Lemma sender_same p' N' : sender_ok (mc_state c) o t p' N' -> N' ≡ₚ N -> sender_post i t p' (mc_state c).
Proof.
  intros Hok Hpm. eapply (sender_quiet _ (h_bytes (mc_state c)) (h_tlhs (mc_state c))); try done.
  - by destruct (mc_state c).
  - by destruct Hok.
Qed.

End sender.

(** ** The actions of a sender *)

Lemma bytes_elsewhere m w v (N : list Z) x :
  w ∈ N -> (forall w, w ∈ N -> ~ (w <= x < w + 8)) -> set_le_bytes m w v 8 !! x = m !! x.
Proof. intros Hw Hx. apply set_le_bytes_ne. change (Z.of_nat 8) with 8. specialize (Hx w Hw). lia. Qed.

(** Words of nodes other than [a] survive a store to [a]. *)
Lemma batched_store i N a v r B T :
  Ns !! i = Some N -> (forall b, b ∈ a :: B -> b ∈ N) -> a ∉ B -> batched (mc_state c) o r B ->
  batched (set_h_tlhs T (set_h_bytes (set_le_bytes (h_bytes (mc_state c)) a v 8) (mc_state c))) o r B.
Proof.
  intros HN Hin HaB Hb. eapply batched_ext; [exact Hb|done|]. intros b x Hbx Hx. cbn [h_bytes set_h_tlhs set_h_bytes].
  apply set_le_bytes_ne. change (Z.of_nat 8) with 8.
  destruct (token_object b) as (n & Hn & _ & _ & ? & _); [eapply token_sender; [exact HN|apply Hin; by right]|].
  destruct (tokens_apart a b n); [eapply token_sender; [exact HN|apply Hin; by left]|done|by intros ->|lia..].
Qed.

Lemma sender_nodup i N : Ns !! i = Some N -> NoDup N.
Proof.
  intros HN. pose proof (ma_once _ _ _ _ _ _ _ _ Hc) as Hnd. unfold tokens in Hnd.
  rewrite !NoDup_app in Hnd. destruct Hnd as (_ & _ & _ & _ & _ & _ & Hnd).
  rewrite (concat_insert_perm Ns i N []) in Hnd by (by rewrite app_nil_r). by apply NoDup_app in Hnd as [? _].
Qed.

Lemma act_begin i t a N :
  mc_senders c !! i = Some (t, PBegin a) -> Ns !! i = Some N -> o <> NULL ->
  forall weak m, sender_act t o weak (PBegin a) = Some m -> wp m (sender_post i t) (mc_state c).
Proof.
  intros Hi HN Ho weak m Ha. apply (inj Some) in Ha as <-.
  destruct (ma_senders _ _ _ _ _ _ _ _ Hc _ _ _ _ Hi HN) as (Hne & r & Hr & B & -> & Hb).
  pose proof (sender_nodup i _ HN) as [HaB _]%NoDup_cons.
  destruct (token_object a) as (n & _ & Hma & _ & _ & Hm7); [eapply token_sender; [exact HN|by left]|].
  unfold remote_begin. wp_step. apply wp_store64; [done|done|]. set (m := set_le_bytes _ a NULL 8).
  assert (forall T, batched (set_h_tlhs T (set_h_bytes m (mc_state c))) o r B) as Hb'.
  { intros T. eapply batched_store; [exact HN|done|done|done]. }
  assert (set_h_bytes m (mc_state c) = set_h_tlhs (h_tlhs (mc_state c)) (set_h_bytes m (mc_state c))) as Es.
  { by destruct (mc_state c). }
  wp_step. eapply wp_tlh_at; [exact Hr|]. cbv zeta. destruct (Hb) as [B1 B2 B3 B4 _ _].
  assert (forall p' N', sender_ok (set_h_bytes m (mc_state c)) o t p' N' -> N' ≡ₚ a :: B ->
    sender_post i t p' (set_h_bytes m (mc_state c))) as Hfin.
  { intros p' N' Hok Hpm. eapply (sender_quiet i t (PBegin a) (a :: B) Hi HN _ m); [exact Es| |done|done|exact Hok|exact Hpm].
    intros x. apply bytes_elsewhere. by left. }
  destruct (negb (target_tlh (outgoing_batch r) =? o) || (LZ_BATCH_MAX_SIZE <=? batch_count (outgoing_batch r))) eqn:Eg.
  - destruct (decide (B = [])) as [->|HB].
    + rewrite B1. change (Z.of_nat (length []) =? 0) with true. cbn [orb]. unfold retarget. wp_step.
      eapply wp_update_tlh; [exact Hr|]. wp_step. set (r' := set_outgoing_batch _ r). set (s' := set_h_tlhs _ _).
      eapply (sender_quiet i t (PBegin a) [a] Hi HN s' m (<[t := r']> (h_tlhs (mc_state c)))); [done| | |done| |done].
      * intros x. apply bytes_elsewhere. by left.
      * intros u Hu. by apply lookup_insert_ne.
      * split; [done|]. exists r'. split; [apply lookup_insert_eq|]. exists []. split_and!; [done| |done|cbn; lia].
        constructor; try done; [exists NULL; done|]. intros b Hb0. by apply not_elem_of_nil in Hb0.
    + destruct (B4 HB) as [Et _]. rewrite B1, Et. zfalse (o =? NULL).
      replace (Z.of_nat (length B) =? 0) with false by (symmetry; apply Z.eqb_neq; destruct B; [done|cbn [length]; lia]). cbn [orb]. wp_step.
      apply (Hfin _ (a :: B)); [|done]. split; [done|]. exists r. split; [done|]. exists B.
      split_and!; [done|rewrite Es; apply Hb'|done].
  - apply orb_false_elim in Eg as [Et Ec]. apply negb_false_iff, Z.eqb_eq in Et. apply Z.leb_gt in Ec.
    unfold LZ_BATCH_MAX_SIZE in Ec. wp_step. apply (Hfin _ (a :: B)); [|done]. split; [done|]. exists r. split; [done|].
    exists B. split_and!; [done|rewrite Es; apply Hb'|done|lia].
Qed.

Lemma act_flush i t N :
  mc_senders c !! i = Some (t, PFlush) -> Ns !! i = Some N ->
  forall weak m, sender_act t o weak PFlush = Some m -> wp m (sender_post i t) (mc_state c).
Proof.
  intros Hi HN weak m Ha. apply (inj Some) in Ha as <-.
  destruct (ma_senders _ _ _ _ _ _ _ _ Hc _ _ _ _ Hi HN) as (Hne & r & Hr & Hb). destruct (Hb) as [B1 _ _ _ _ _].
  wp_step. eapply wp_tlh_at; [exact Hr|]. cbv zeta.
  destruct ((batch_count (outgoing_batch r) =? 0) || (target_tlh (outgoing_batch r) =? NULL)) eqn:Eg;
    wp_step; (eapply (sender_same i t _ N Hi HN _ N); [|done]; split; [done|]; exists r; split; [done|]).
  - done.
  - exists N. split_and!; [done|done|]. intros ->. by rewrite B1 in Eg.
Qed.

Lemma head_range : 0 <= hd NULL R < 2 ^ 64.
Proof.
  assert (forall l : list Z, l = [] \/ hd NULL l ∈ l) as Hl by (intros [|a l]; [by left|right; by left]).
  destruct (Hl R) as [E|Hin]; [rewrite E; cbn; lia|].
  destruct (token_object (hd NULL R)) as (_ & _ & _ & ? & _); [by apply token_mail|lia].
Qed.

Lemma act_load i t k N :
  mc_senders c !! i = Some (t, PLoad k) -> Ns !! i = Some N ->
  forall weak m, sender_act t o weak (PLoad k) = Some m -> wp m (sender_post i t) (mc_state c).
Proof.
  intros Hi HN weak m Ha. apply (inj Some) in Ha as <-.
  destruct (ma_senders _ _ _ _ _ _ _ _ Hc _ _ _ _ Hi HN) as (Hne & r & Hr & B & -> & Hb & HB).
  destruct (ba_tail _ _ _ _ Hb HB) as [Et _]. destruct (ma_head _ _ _ _ _ _ _ _ Hc) as (u & Hu & Ehd).
  wp_step. eapply wp_tlh_at; [exact Hr|]. rewrite Et. wp_step. eapply wp_tlh_at; [exact Hu|]. wp_step.
  eapply (sender_same i t _ _ Hi HN); [|done]. split; [done|]. exists r. split; [done|]. exists B.
  rewrite Ehd. pose proof head_range. split_and!; [done|done|done|lia|lia].
Qed.

Lemma act_link i t k old N :
  mc_senders c !! i = Some (t, PLink k old) -> Ns !! i = Some N ->
  forall weak m, sender_act t o weak (PLink k old) = Some m -> wp m (sender_post i t) (mc_state c).
Proof.
  intros Hi HN weak m Ha. apply (inj Some) in Ha as <-.
  destruct (ma_senders _ _ _ _ _ _ _ _ Hc _ _ _ _ Hi HN) as (Hne & r & Hr & B & -> & Hb & HB & Hold).
  destruct (Hb) as [B1 B2 B3 B4 B5 B6]. destruct (B4 HB) as [Et Hl].
  set (w := batch_tail (outgoing_batch r)) in *. assert (w ∈ B) as HwB by (by apply last_Some_elem_of).
  assert (w ∈ option_list k ++ B) as HwN by set_solver.
  destruct (token_object w) as (n & Hn & Hmw & _ & ? & Hm7); [by eapply token_sender|].
  wp_step. eapply wp_tlh_at; [exact Hr|]. fold w. wp_step. apply wp_store64; [done|done|]. wp_step.
  set (m := set_le_bytes _ w old 8).
  assert (linked m B old) as Hlk.
  { apply linked_set; [done| | |done|done].
    - pose proof (sender_nodup i _ HN) as Hnd. by apply NoDup_app in Hnd as (_ & _ & ?).
    - intros a HaB. destruct (decide (a = w)) as [|Hne']; [by left|right].
      destruct (tokens_apart a w n); [eapply token_sender; [exact HN|set_solver]|done|done|lia..]. }
  eapply (sender_quiet i t _ _ Hi HN _ m (h_tlhs (mc_state c)));
    [by destruct (mc_state c)|intros x; by apply bytes_elsewhere|done|done| |done].
  split; [done|]. exists r. split; [done|]. exists B. split_and!; [done| |done|lia|lia|done].
  constructor; try done; [by exists old|]. intros a HaB. apply set_le_bytes_some. left. by apply B6.
Qed.

Lemma act_cas i t k old N :
  mc_senders c !! i = Some (t, PCas k old) -> Ns !! i = Some N ->
  forall weak m, sender_act t o weak (PCas k old) = Some m -> wp m (sender_post i t) (mc_state c).
Proof.
  intros Hi HN weak m Ha. apply (inj Some) in Ha as <-.
  destruct (ma_senders _ _ _ _ _ _ _ _ Hc _ _ _ _ Hi HN) as (Hne & r & Hr & B & -> & Hb & HB & Hold & Hlk).
  destruct (Hb) as [B1 B2 B3 B4 B5 B6]. destruct (B4 HB) as [Et _].
  destruct (ma_head _ _ _ _ _ _ _ _ Hc) as (u & Hu & Ehd). destruct (ma_mail _ _ _ _ _ _ _ _ Hc) as [Rl Rw].
  wp_step. eapply wp_tlh_at; [exact Hr|]. cbv zeta. rewrite Et. wp_step. eapply wp_tlh_at; [exact Hu|]. rewrite Ehd.
  destruct (negb weak && (hd NULL R =? old)) eqn:Eg.
  - apply andb_prop in Eg as [_ Eo%Z.eqb_eq]. wp_step. eapply wp_update_tlh; [exact Hu|]. wp_step. rewrite B3.
    set (u' := set_remote_free_head _ u). set (s' := set_h_tlhs _ (mc_state c)).
    eapply (sender_poke i t _ _ Hi HN s' (h_bytes (mc_state c)) (<[o := u']> (h_tlhs (mc_state c))) _ (option_list k) (B ++ R));
      [by unfold s'; destruct (mc_state c)|done| | | | | |].
    + intros v _ Hv. by apply lookup_insert_ne.
    + intros r0 Hr0. rewrite Hu in Hr0. injection Hr0 as <-. rewrite lookup_insert_eq. unfold u'. by destruct B.
    + apply linked_app; [by rewrite Eo|done].
    + intros a [Ha|Ha]%elem_of_app; [by apply B6|by apply Rw].
    + split; [done|]. exists r. split; [|done]. cbn. by rewrite lookup_insert_ne.
    + rewrite (Permutation_app_comm B R), <- app_assoc, (Permutation_app_comm B). done.
  - wp_step. eapply (sender_same i t _ _ Hi HN); [|done]. split; [done|]. exists r. split; [done|]. exists B.
    pose proof head_range. split_and!; [done|done|done|lia|lia].
Qed.

Lemma batched_empty s r : batch_count (outgoing_batch r) = 0 -> batch_head (outgoing_batch r) = NULL -> batched s o r [].
Proof.
  intros E1 E2. constructor; [done|cbn; lia|done|done|by exists NULL|]. intros a Ha. by apply not_elem_of_nil in Ha.
Qed.

Lemma act_clear i t k N :
  mc_senders c !! i = Some (t, PClear k) -> Ns !! i = Some N ->
  forall weak m, sender_act t o weak (PClear k) = Some m -> wp m (sender_post i t) (mc_state c).
Proof.
  intros Hi HN weak m Ha. apply (inj Some) in Ha as <-.
  destruct (ma_senders _ _ _ _ _ _ _ _ Hc _ _ _ _ Hi HN) as (Hne & r & Hr & ->).
  assert (forall r' p' s', s' = set_h_tlhs (<[t := r']> (h_tlhs (mc_state c))) (mc_state c) ->
    sender_ok s' o t p' (option_list k) -> sender_post i t p' s') as Hfin.
  { intros r' p' s' Es Hok. eapply (sender_quiet i t _ _ Hi HN _ (h_bytes (mc_state c)) (<[t := r']> (h_tlhs (mc_state c))));
      [rewrite Es; by destruct (mc_state c)|done| |done|exact Hok|done]. intros u Hu. by apply lookup_insert_ne. }
  wp_step. eapply wp_update_tlh; [exact Hr|]. set (r' := set_outgoing_batch _ r). destruct k as [a|].
  - unfold retarget. wp_step. eapply wp_update_tlh; [cbn; apply lookup_insert_eq|]. wp_step. set (r'' := set_outgoing_batch _ r').
    eapply (Hfin r''); [cbn; by rewrite insert_insert_eq|]. split; [done|]. exists r''.
    split; [cbn; apply lookup_insert_eq|]. exists []. split_and!; [done|by apply batched_empty|done|cbn; lia].
  - wp_step. eapply (Hfin r'); [done|]. split; [done|]. exists r'. split; [cbn; apply lookup_insert_eq|]. by apply batched_empty.
Qed.

Lemma act_add i t a N :
  mc_senders c !! i = Some (t, PAdd a) -> Ns !! i = Some N ->
  forall weak m, sender_act t o weak (PAdd a) = Some m -> wp m (sender_post i t) (mc_state c).
Proof.
  intros Hi HN weak m Ha. apply (inj Some) in Ha as <-.
  destruct (ma_senders _ _ _ _ _ _ _ _ Hc _ _ _ _ Hi HN) as (Hne & r & Hr & B & -> & Hb & Et & Hlen).
  pose proof (sender_nodup i _ HN) as [HaB _]%NoDup_cons.
  destruct (token_object a) as (n & _ & Hma & Hra & _ & Hm7); [eapply token_sender; [exact HN|by left]|].
  destruct (Hb) as [B1 B2 B3 B4 [v B5] B6].
  unfold remote_add. wp_step. eapply wp_tlh_at; [exact Hr|]. cbv zeta. wp_step. apply wp_store64; [done|done|]. wp_step.
  eapply wp_update_tlh; [exact Hr|]. wp_step. rewrite B1, B3, Et, u32_small by lia.
  set (m := set_le_bytes _ a _ 8). set (r' := set_outgoing_batch _ r). set (s' := set_h_tlhs _ _).
  assert (batched s' o r B) as [_ _ _ _ [v' B5'] B6'] by (eapply batched_store; [exact HN|done|done|done]).
  eapply (sender_quiet i t _ _ Hi HN s' m (<[t := r']> (h_tlhs (mc_state c)))); [done| | |done| |done].
  - intros x. apply bytes_elsewhere. by left.
  - intros u Hu. by apply lookup_insert_ne.
  - split; [done|]. exists r'. split; [cbn; apply lookup_insert_eq|]. constructor; cbn [r' outgoing_batch set_outgoing_batch
      batch_count batch_head target_tlh batch_tail length hd].
    + lia.
    + lia.
    + done.
    + intros _. split; [done|]. destruct B as [|b B]; [done|]. rewrite last_cons_cons.
      replace (Z.of_nat (length (b :: B)) =? 0) with false by (symmetry; apply Z.eqb_neq; cbn [length]; lia). by apply B4.
    + exists (match B with [] => NULL | _ => v' end). cbn [linked]. split; [|by destruct B].
      cbn [s' h_bytes set_h_tlhs set_h_bytes]. unfold m. rewrite le_bytes_set_eq; [by destruct B|].
      change (256 ^ Z.of_nat 8) with (2 ^ 64). destruct B as [|b B]; cbn [hd]; [lia|].
      destruct (token_object b) as (_ & _ & _ & ? & _); [eapply token_sender; [exact HN|right; by left]|lia].
    + intros b [->|Hb0]%elem_of_cons; [|by apply B6']. apply set_le_bytes_some. right. change (Z.of_nat 8) with 8. lia.
Qed.

(** Every action of a sender. *)
Lemma act_sender i t p N weak m :
  mc_senders c !! i = Some (t, p) -> Ns !! i = Some N -> o <> NULL -> sender_act t o weak p = Some m ->
  wp m (sender_post i t) (mc_state c).
Proof.
  intros Hi HN Ho Ha. destruct p as [|a| |k|k old|k old|k|a]; [done|..].
  - by eapply act_begin.
  - by eapply act_flush.
  - by eapply act_load.
  - by eapply act_link.
  - by eapply act_cas.
  - by eapply act_clear.
  - by eapply act_add.
Qed.

(** ** The steps of the owner *)

Lemma mail_heap_at : mail_heap (mc_state c) o Γ L G P R.
Proof.
  constructor; [apply Hc|apply Hc|]. destruct (ma_mail _ _ _ _ _ _ _ _ Hc) as [Hl Hw]. constructor.
  - by apply linked_chain.
  - pose proof (ma_once _ _ _ _ _ _ _ _ Hc) as Hnd. unfold tokens in Hnd. rewrite !NoDup_app in Hnd. naive_solver.
  - intros a Ha. split; [by apply Hw|]. apply (ma_objects _ _ _ _ _ _ _ _ Hc). by apply token_mail.
Qed.

(** A call of the owner that frees the objects [D] and adds the objects [A]
    to the rest [T]. *)
Lemma owner_move D A T (new : Z -> Z -> Prop) s' Γ' L' G' P' H' R' K' w' :
  tlh_step (mc_state c) o Γ L G P (fun a => a ∈ D) new s' Γ' L' G' P' R' ->
  tokens c R K Ns ≡ₚ D ++ T -> H' ++ R' ++ K' ++ concat Ns ≡ₚ A ++ T ->
  NoDup A -> (forall a, a ∈ A <-> exists n, new a n) ->
  (forall a, a ∈ K' ++ concat Ns -> a ∈ T) ->
  linked (h_bytes (mc_state c)) K' NULL -> written (mc_state c) K' -> owner_at w' K' ->
  mail_at (mk_mc s' H' (mc_senders c) w') Γ' L' G' P' R' K' Ns /\
  forall a n x, a ∈ T -> object (mc_state c) Γ L a n -> a <= x < a + n -> h_bytes s' !! x = h_bytes (mc_state c) !! x.
Proof.
  intros Hst Htok Htok' HA Hnew Hsub Hl Hw Hat.
  pose proof (ma_once _ _ _ _ _ _ _ _ Hc) as Hnd. rewrite Htok in Hnd. apply NoDup_app in Hnd as (_ & HDT & HT).
  assert (forall a, a ∈ T -> a ∉ D) as HTD by (intros a Ha HD; by eapply HDT).
  assert (forall a, a ∈ T -> a ∈ tokens c R K Ns) as HTt by (intros a Ha; rewrite Htok; set_solver).
  destruct (tp_heap _ _ _ _ _ _ _ _ _ _ _ _ _ _ Hst) as [Hh Hhd Hpe].
  assert (forall a n x, a ∈ T -> object (mc_state c) Γ L a n -> a <= x < a + n ->
    h_bytes s' !! x = h_bytes (mc_state c) !! x) as Hkeep.
  { intros a n x Ha Hn Hx. eapply (tp_bytes _ _ _ _ _ _ _ _ _ _ _ _ _ _ Hst a n); [done|by apply HTD|done]. }
  assert (forall a x, a ∈ T -> a <= x < a + 8 -> h_bytes s' !! x = h_bytes (mc_state c) !! x) as Hword.
  { intros a x Ha Hx. destruct (token_object a) as (n & Hn & _ & _ & ? & _); [auto|]. apply (Hkeep a n); [done|done|lia]. }
  split; [|done]. constructor; cbn [mc_state mc_senders mc_owner].
  - done.
  - done.
  - split; [by apply linked_chain, Hpe|]. intros a Ha. by apply Hpe.
  - split_and!; [|..|done].
    + eapply linked_ext; [|exact Hl]. intros a x Ha. apply Hword, Hsub. set_solver.
    + intros a Ha. rewrite (Hword a a); [by apply Hw|apply Hsub; set_solver|lia].
  - apply Hc.
  - intros i t p N Hi HN. pose proof (ma_senders _ _ _ _ _ _ _ _ Hc _ _ _ _ Hi HN) as Hok.
    eapply sender_frame; [exact Hok| |].
    + intros r Hr. exists r. split; [|done]. destruct (tp_global _ _ _ _ _ _ _ _ _ _ _ _ _ _ Hst) as [_ ->]; [done|].
      by destruct Hok.
    + intros a x Ha. apply Hword, Hsub, elem_of_app. right. by eapply elem_of_concat_lookup.
  - apply Hc.
  - unfold tokens. cbn [mc_held]. rewrite Htok'. apply NoDup_app. split_and!; [done| |done].
    intros a [n Hn]%Hnew Ha. destruct (token_object a) as (m & Hm & _); [auto|].
    eapply (tp_fresh _ _ _ _ _ _ _ _ _ _ _ _ _ _ Hst a n m); [done|done|by apply HTD].
  - intros a. unfold tokens. cbn [mc_held]. rewrite Htok', elem_of_app, Hnew.
    assert (a ∈ T <-> (exists n, object (mc_state c) Γ L a n) /\ a ∉ D) as ->.
    { split.
      - intros Ha. split; [|by apply HTD]. apply (ma_objects _ _ _ _ _ _ _ _ Hc). auto.
      - intros [Ha%(ma_objects _ _ _ _ _ _ _ _ Hc) HD]. rewrite Htok in Ha. set_solver. }
    pose proof (tp_objects _ _ _ _ _ _ _ _ _ _ _ _ _ _ Hst a) as Hob. split.
    + intros [[n Hn]|[[n Hn] HD]]; exists n; apply Hob; auto.
    + intros [n [[? ?]|?]%Hob]; eauto.
Qed.

Lemma idle_walk : mc_owner c = OIdle -> K = [].
Proof. intros E. destruct (ma_walk _ _ _ _ _ _ _ _ Hc) as (_ & _ & Hw). by rewrite E in Hw. Qed.

Lemma walk_head head : mc_owner c = OWalk head ->
  head = NULL /\ K = [] \/ head <> NULL /\ exists K', K = head :: K'.
Proof.
  intros E. destruct (ma_walk _ _ _ _ _ _ _ _ Hc) as (_ & _ & Hw). rewrite E in Hw. cbn in Hw.
  assert (forall l : list Z, l = [] \/ exists l', l = hd NULL l :: l') as Hl by (intros [|a l]; eauto).
  destruct (Hl K) as [EK|[K' EK]]; [left; split; [by rewrite EK in Hw|done]|right]. rewrite <- Hw in EK.
  split; [|by exists K']. destruct (token_object head) as (_ & _ & _ & ? & _); [|lia].
  apply token_walk. rewrite EK. by left.
Qed.

Definition owner_post (H' : list Z) (w' : owner_pc) (s' : state) : Prop :=
  (exists Γ' L' G' P' R' K', mail_at (mk_mc s' H' (mc_senders c) w') Γ' L' G' P' R' K' Ns) /\
  forall a n x, a ∈ mc_held c -> a ∈ H' -> object (mc_state c) Γ L a n -> a <= x < a + n ->
    h_bytes s' !! x = h_bytes (mc_state c) !! x.

Lemma owner_alloc size : mc_owner c = OIdle -> 0 <= size <= 511 * 4096 ->
  wp (lz_tlh_alloc o size) (fun r s' => owner_post (if r =? NULL then mc_held c else r :: mc_held c) OIdle s') (mc_state c).
Proof.
  intros Ew Hsz. pose proof (idle_walk Ew) as EK.
  eapply wp_tlh_alloc; [apply mail_heap_at|done|]. intros n r s' Hn (R0 & Γ' & L' & G' & P' & R' & HR & Hst & _).
  set (A := if r =? NULL then [] else [r]). set (T := mc_held c ++ R' ++ K ++ concat Ns).
  assert (R0 ++ R' = R) as ER by (destruct HR as [[-> ->]|[-> ->]]; [done|by rewrite app_nil_r]).
  destruct (owner_move R0 A T (fun a m => r <> NULL /\ a = r /\ m = n) s' Γ' L' G' P' (A ++ mc_held c) R' [] OIdle)
    as [Hat Hk]; [exact Hst| | | | | |done| |done|].
  - unfold tokens, T. rewrite <- ER, <- !app_assoc. rewrite Permutation_app_swap_app. done.
  - unfold T. rewrite EK. by rewrite <- !app_assoc.
  - unfold A. destruct (r =? NULL); [constructor|apply NoDup_singleton].
  - intros a. unfold A. destruct (Z.eqb_spec r NULL).
    + split; [intros Ha; by apply not_elem_of_nil in Ha|]. by intros (m & ? & _).
    + rewrite list_elem_of_singleton. split; [intros ->; by exists n|by intros (m & _ & -> & _)].
  - intros a Ha. unfold T. set_solver.
  - intros a Ha. by apply not_elem_of_nil in Ha.
  - assert (A ++ mc_held c = if r =? NULL then mc_held c else r :: mc_held c) as EA by (unfold A; by destruct (r =? NULL)).
    rewrite EA in Hat. split; [by do 6 eexists|]. intros a m x Ha _. apply Hk. unfold T. set_solver.
Qed.

Lemma owner_local H1 a H2 : mc_owner c = OIdle -> mc_held c = H1 ++ a :: H2 ->
  wp (lz_tlh_free o a) (fun _ s' => owner_post (H1 ++ H2) OIdle s') (mc_state c).
Proof.
  intros Ew EH. pose proof (idle_walk Ew) as EK.
  assert (a ∈ tokens c R K Ns) as Ha by (unfold tokens; rewrite EH; set_solver).
  destruct (token_object a Ha) as (n & Hn & _). pose proof (ma_once _ _ _ _ _ _ _ _ Hc) as Hnd.
  assert (tokens c R K Ns ≡ₚ [a] ++ (H1 ++ H2) ++ R ++ concat Ns) as Ht.
  { unfold tokens. rewrite EH, EK. cbn [app]. rewrite <- Permutation_middle. done. }
  assert (a ∉ (H1 ++ H2) ++ R ++ concat Ns) as Hout by (rewrite Ht in Hnd; by apply NoDup_cons in Hnd as [? _]).
  eapply wp_tlh_free_local; [apply Hc|exact Hn|]. intros s' Γ' L' G' P' Hst.
  destruct (owner_move [a] [] ((H1 ++ H2) ++ R ++ concat Ns) nothing_new s' Γ' L' G' P' (H1 ++ H2) R [] OIdle) as [Hat Hk];
    [|done|done|constructor| | |done| |done|].
  - eapply tlh_step_weaken; [eapply tlh_step_keep; [apply mail_heap_at|exact Hst|]| |done].
    + intros b Hb ->. apply Hout. set_solver.
    + intros b. by rewrite list_elem_of_singleton.
  - intros b. split; [intros Hb; by apply not_elem_of_nil in Hb|by intros (m & [])].
  - intros b. cbn [app]. set_solver.
  - intros b Hb. by apply not_elem_of_nil in Hb.
  - split; [by do 6 eexists|]. intros b m x _ Hb. apply Hk. set_solver.
Qed.

Lemma owner_node head : mc_owner c = OWalk head -> head <> NULL ->
  wp (reap_node o head) (fun next s' => owner_post (mc_held c) (OWalk next) s') (mc_state c).
Proof.
  intros Ew Hne. destruct (walk_head head Ew) as [[? _]|(_ & K' & EK)]; [done|].
  destruct (ma_walk _ _ _ _ _ _ _ _ Hc) as (Wl & Ww & _). rewrite EK in Wl, Ww. destruct Wl as [Wn Wl].
  assert (head ∈ tokens c R K Ns) as Hin by (apply token_walk; rewrite EK; by left).
  destruct (token_object head Hin) as (n & Hn & Hmh & _ & _ & Hm7). pose proof (ma_once _ _ _ _ _ _ _ _ Hc) as Hnd.
  set (T := mc_held c ++ R ++ K' ++ concat Ns). assert (tokens c R K Ns ≡ₚ [head] ++ T) as Ht.
  { unfold tokens, T. rewrite EK. cbn [app]. by rewrite app_assoc, <- Permutation_middle, <- app_assoc. }
  assert (head ∉ T) as Hout by (rewrite Ht in Hnd; by apply NoDup_cons in Hnd as [? _]).
  destruct (object_header _ _ _ _ _ _ _ _ (hp_core _ _ _ _ _ _ (ma_heap _ _ _ _ _ _ _ _ Hc)) Hn) as (_ & Hmd & _).
  unfold reap_node. wp_step. apply wp_load64; [done|done|]. rewrite Wn. wp_step. apply wp_chunk_at; [done|].
  wp_step. change (lz_span_free_remote o) with (lz_span_free_local o).
  eapply wp_release_object; [apply Hc|exact Hn|]. intros s' Γ' L' G' P' Hst. wp_step.
  destruct (owner_move [head] [] T nothing_new s' Γ' L' G' P' (mc_held c) R K' (OWalk (hd NULL K'))) as [Hat Hk];
    [|done|done|constructor| | |done| |done|].
  - eapply tlh_step_weaken; [eapply tlh_step_keep; [apply mail_heap_at|exact Hst|]| |done].
    + intros b Hb ->. apply Hout. unfold T. set_solver.
    + intros b. by rewrite list_elem_of_singleton.
  - intros b. split; [intros Hb; by apply not_elem_of_nil in Hb|by intros (m & [])].
  - intros b. unfold T. set_solver.
  - intros b Hb. apply Ww. by right.
  - split; [by do 6 eexists|]. intros b m x Hb _. apply Hk. unfold T. set_solver.
Qed.

Lemma owner_take : mc_owner c = OIdle ->
  wp (reap_take o) (fun head s' => owner_post (mc_held c) (OWalk head) s') (mc_state c).
Proof.
  intros Ew. pose proof (idle_walk Ew) as EK. destruct (ma_head _ _ _ _ _ _ _ _ Hc) as (u & Hu & Ehd).
  unfold reap_take. wp_step. eapply wp_tlh_at; [exact Hu|]. wp_step. eapply wp_update_tlh; [exact Hu|]. wp_step. rewrite Ehd.
  set (u' := set_remote_free_head NULL u). set (s' := set_h_tlhs _ (mc_state c)). split; [|done].
  destruct (ma_mail _ _ _ _ _ _ _ _ Hc) as [Rl Rw].
  assert (tokens (mk_mc s' (mc_held c) (mc_senders c) (OWalk (hd NULL R))) [] R Ns = tokens c R K Ns) as Et
    by (unfold tokens; by rewrite EK).
  exists Γ, L, G, P, [], R. constructor; cbn [mc_state mc_senders mc_owner].
  - apply heap_set_mail; [apply Hc|done].
  - exists u'. split; [apply lookup_insert_eq|done].
  - split; [done|]. intros a Ha. by apply not_elem_of_nil in Ha.
  - split_and!; [exact Rl|exact Rw|done].
  - apply Hc.
  - intros i t p N Hi HN. pose proof (ma_senders _ _ _ _ _ _ _ _ Hc _ _ _ _ Hi HN) as Hok. destruct (Hok) as [Hne _].
    eapply sender_frame; [exact Hok| |done]. intros r Hr. exists r. split; [|done]. cbn. by rewrite lookup_insert_ne.
  - apply Hc.
  - rewrite Et. apply Hc.
  - intros a. rewrite Et. apply (ma_objects _ _ _ _ _ _ _ _ Hc).
Qed.

Lemma owner_end : mc_owner c = OWalk NULL ->
  mail_at (mk_mc (mc_state c) (mc_held c) (mc_senders c) OIdle) Γ L G P R K Ns.
Proof.
  intros Ew. destruct (walk_head NULL Ew) as [[_ EK]|[? _]]; [|done].
  destruct Hc as [? ? ? (? & ? & _) ? ? ? ? ?]. by constructor.
Qed.

(** ** Clients *)

(** A client gives an object to an idle sender, or an idle sender flushes. *)
Lemma sender_start i t H' p' N' N :
  mc_senders c !! i = Some (t, PIdle) -> Ns !! i = Some N ->
  p' = PFlush /\ N' = N /\ H' = mc_held c \/
  (exists a H1 H2, p' = PBegin a /\ N' = a :: N /\ H' = H1 ++ H2 /\ mc_held c = H1 ++ a :: H2) ->
  mail_at (mk_mc (mc_state c) H' (<[i := (t, p')]> (mc_senders c)) (mc_owner c)) Γ L G P R K (<[i := N']> Ns).
Proof.
  intros Hi HN Hp. pose proof (ma_senders _ _ _ _ _ _ _ _ Hc _ _ _ _ Hi HN) as (Hne & r & Hr & Hb).
  eapply (sender_move i t PIdle N); [done|done|apply Hc|done|apply Hc|apply Hc|done|done| |].
  - split; [done|]. exists r. split; [done|].
    destruct Hp as [(-> & -> & _)|(a & H1' & H2' & -> & -> & _)]; [done|by exists N].
  - destruct Hp as [(_ & -> & ->)|(a & H1' & H2' & _ & -> & -> & ->)]; [done|].
    rewrite <- !app_assoc. apply Permutation_app_head. cbn [app]. rewrite !app_assoc. by rewrite Permutation_middle.
Qed.

(** A client writes a word of an object it holds. *)
Lemma client_writes a x v s' :
  a ∈ mc_held c -> a <= x -> x + 8 <= a + size_at (mc_state c) a -> store64 x v (mc_state c) = Done tt s' ->
  mail_at (mk_mc s' (mc_held c) (mc_senders c) (mc_owner c)) Γ L G P R K Ns.
Proof.
  intros Ha Hx1 Hx2 Hs. assert (a ∈ tokens c R K Ns) as Hin by (unfold tokens; set_solver).
  destruct (token_object a Hin) as (n & Hn & _ & _ & ? & _).
  rewrite (object_size _ _ _ _ _ _ _ _ (hp_core _ _ _ _ _ _ (ma_heap _ _ _ _ _ _ _ _ Hc)) Hn) in Hx2.
  unfold store64, check_mapped in Hs. revert Hs. run_m. destruct (mapped (mc_state c) x); [|done].
  destruct (mapped (mc_state c) (x + 7)); [|done]. set (m := set_le_bytes (h_bytes (mc_state c)) x v 8). intros E.
  assert (s' = set_h_bytes m (mc_state c)) as -> by congruence. clear E.
  pose proof (ma_once _ _ _ _ _ _ _ _ Hc) as Hnd. unfold tokens in Hnd. apply NoDup_app in Hnd as (_ & Hd & _).
  destruct (heap_poke (mc_state c) o Γ L G P m (h_tlhs (mc_state c)) (set_h_bytes m (mc_state c))) as [Hh Hob];
    [apply Hc|by destruct (mc_state c)|eauto| |].
  { intros y. destruct (decide (x <= y < x + 8)); [right; exists a, n; split; [done|lia]|left].
    apply set_le_bytes_ne. change (Z.of_nat 8) with 8. lia. }
  assert (forall b y, b ∈ R ++ K ++ concat Ns -> b <= y < b + 8 -> m !! y = h_bytes (mc_state c) !! y) as Hw.
  { intros b y Hb Hy. apply set_le_bytes_ne. change (Z.of_nat 8) with 8.
    destruct (tokens_apart b a n); [unfold tokens; set_solver|done| |lia..]. intros ->. by eapply Hd. }
  destruct Hc as [Mh Md [Ml Mw] (Wl & Ww & Wo) Mn Ms Mu Mo Mj]. constructor; cbn [mc_state mc_senders mc_owner].
  - done.
  - done.
  - split; [eapply linked_ext; [|exact Ml]; intros b y Hb; apply Hw; set_solver|].
    intros b Hb. apply set_le_bytes_some. left. by apply Mw.
  - split_and!; [eapply linked_ext; [|exact Wl]; intros b y Hb; apply Hw; set_solver| |done].
    intros b Hb. apply set_le_bytes_some. left. by apply Ww.
  - done.
  - intros i t p N Hi HN. eapply sender_frame; [by eapply Ms|eauto|]. intros b y Hb. apply Hw.
    do 2 (apply elem_of_app; right). by eapply elem_of_concat_lookup.
  - done.
  - done.
  - intros b. rewrite Mj. split; intros [k ?]; exists k; by apply Hob.
Qed.

End move.

Lemma senders_nodes c Γ L G P R K Ns i t p :
  mail_at c Γ L G P R K Ns -> mc_senders c !! i = Some (t, p) -> exists N, Ns !! i = Some N.
Proof.
  intros Hc Hi. apply lookup_lt_is_Some_2. rewrite (ma_length _ _ _ _ _ _ _ _ Hc). by eapply lookup_lt_Some.
Qed.

(** Every step keeps the invariant, and the contents of what clients hold. *)
Lemma mail_step_inv c c' Γ L G P R K Ns : o <> NULL -> mail_at c Γ L G P R K Ns -> mail_step o c c' ->
  mail_inv c' /\
  forall a n x, a ∈ mc_held c -> a ∈ mc_held c' -> object (mc_state c) Γ L a n -> a <= x < a + n ->
    h_bytes (mc_state c') !! x = h_bytes (mc_state c) !! x.
Proof.
  intros Ho Hc Hs. destruct Hs as
    [s H1 a H2 S w i t Hi|s Hd S w i t Hi|s Hd S w i t p weak m p' s' Hi Ha Hm|s Hd S size r s' Hsz Hm|
     s H1 a H2 S s' Hm|s Hd S head s' Hm|s Hd S head next s' Hne Hm|s Hd S].
  - destruct (senders_nodes _ _ _ _ _ _ _ _ _ _ _ Hc Hi) as [N HN]. split; [|done].
    exists Γ, L, G, P, R, K, (<[i := a :: N]> Ns).
    apply (sender_start _ _ _ _ _ _ _ _ Hc i t (H1 ++ H2) (PBegin a) (a :: N) N Hi HN). right. by exists a, H1, H2.
  - destruct (senders_nodes _ _ _ _ _ _ _ _ _ _ _ Hc Hi) as [N HN]. split; [|done].
    exists Γ, L, G, P, R, K, (<[i := N]> Ns).
    apply (sender_start _ _ _ _ _ _ _ _ Hc i t Hd PFlush N N Hi HN). by left.
  - destruct (senders_nodes _ _ _ _ _ _ _ _ _ _ _ Hc Hi) as [N HN].
    pose proof (act_sender _ _ _ _ _ _ _ _ Hc i t p N weak m Hi HN Ho Ha) as Hw. unfold wp in Hw. cbn in Hw.
    rewrite Hm in Hw. destruct Hw as (R' & N' & Hat & Hk). split; [by do 7 eexists|]. intros b n x Hb _. by apply Hk.
  - pose proof (owner_alloc _ _ _ _ _ _ _ _ Hc size eq_refl Hsz) as Hw. unfold wp in Hw. cbn in Hw. rewrite Hm in Hw.
    destruct Hw as [(Γ' & L' & G' & P' & R' & K' & Hat) Hk]. split; [by do 7 eexists|exact Hk].
  - pose proof (owner_local _ _ _ _ _ _ _ _ Hc H1 a H2 eq_refl eq_refl) as Hw. unfold wp in Hw. cbn in Hw. rewrite Hm in Hw.
    destruct Hw as [(Γ' & L' & G' & P' & R' & K' & Hat) Hk]. split; [by do 7 eexists|exact Hk].
  - pose proof (owner_take _ _ _ _ _ _ _ _ Hc eq_refl) as Hw. unfold wp in Hw. cbn in Hw. rewrite Hm in Hw.
    destruct Hw as [(Γ' & L' & G' & P' & R' & K' & Hat) Hk]. split; [by do 7 eexists|exact Hk].
  - pose proof (owner_node _ _ _ _ _ _ _ _ Hc head eq_refl Hne) as Hw. unfold wp in Hw. cbn in Hw. rewrite Hm in Hw.
    destruct Hw as [(Γ' & L' & G' & P' & R' & K' & Hat) Hk]. split; [by do 7 eexists|exact Hk].
  - split; [|done]. exists Γ, L, G, P, R, K, Ns. exact (owner_end _ _ _ _ _ _ _ _ Hc eq_refl).
Qed.

Lemma race_step_inv c c' : o <> NULL -> mail_inv c -> race_step o c c' -> mail_inv c'.
Proof.
  intros Ho (Γ & L & G & P & R & K & Ns & Hc) [Hs|Hs]; [by eapply mail_step_inv|].
  destruct Hs as [s Hd S w a x v s' Ha Hx1 Hx2 Hm]. exists Γ, L, G, P, R, K, Ns.
  exact (client_writes _ _ _ _ _ _ _ _ Hc a x v s' Ha Hx1 Hx2 Hm).
Qed.

End invariant.

(** ** A sender left alone *)

(** Actions a sender needs when no one else moves, [h] in the mailbox word: an
    attempt with a stale value fails once. *)
Definition sender_work (h : Z) (p : sender_pc) : nat :=
  match p with
  | PIdle => 0
  | PAdd _ => 1
  | PClear _ => 2
  | PCas _ old => if (old =? h)%Z then 3 else 5
  | PLink _ old => if (old =? h)%Z then 4 else 6
  | PLoad _ => 5
  | PBegin _ | PFlush => 6
  end.

Definition mail_word (s : state) (o : Z) : Z := default 0 (remote_free_head <$> h_tlhs s !! o).

Section alone.
Context `{EnvLaws} (o : Z).

Lemma store64_tlhs a v s s' : store64 a v s = Done tt s' -> h_tlhs s' = h_tlhs s.
Proof. unfold store64, check_mapped. run_m. destruct (mapped s a); [|done]. destruct (mapped s (a + 7)); [|done]. intros E. by injection E as <-. Qed.

Lemma act_work c Γ L G P R K Ns i t p m p' s' :
  mail_at o c Γ L G P R K Ns -> mc_senders c !! i = Some (t, p) -> sender_act t o false p = Some m ->
  m (mc_state c) = Done p' s' ->
  (sender_work (mail_word s' o) p' < sender_work (mail_word (mc_state c) o) p)%nat.
Proof.
  intros Hc Hi Ha Hm. destruct (senders_nodes _ _ _ _ _ _ _ _ _ _ _ _ Hc Hi) as [N HN].
  destruct (ma_senders _ _ _ _ _ _ _ _ _ Hc _ _ _ _ Hi HN) as (Hne & r & Hr & Hp).
  destruct (ma_head _ _ _ _ _ _ _ _ _ Hc) as (u & Hu & _).
  assert (mail_word (mc_state c) o = remote_free_head u) as Ew by (unfold mail_word; by rewrite Hu).
  assert (forall r', mail_word (set_h_tlhs (<[t := r']> (h_tlhs (mc_state c))) (mc_state c)) o = mail_word (mc_state c) o) as Et.
  { intros r'. unfold mail_word. cbn. by rewrite lookup_insert_ne. }
  destruct p as [|a| |k|k old|k old|k|a]; [done|..]; apply (inj Some) in Ha as <-; revert Hm; unfold remote_begin, remote_add; run_m.
  - destruct (store64 a NULL (mc_state c)) as [[] s1|] eqn:Es; [|done]. apply store64_tlhs in Es.
    rewrite (tlh_at_eq _ r s1) by (by rewrite Es).
    destruct (_ || _); [destruct (_ || _)|]; [|intros E; injection E as <- <-; cbn; lia..].
    destruct (retarget t o s1) as [[] s2|]; [|done]. intros E. injection E as <- <-. cbn. lia.
  - rewrite (tlh_at_eq _ r) by done. destruct (_ || _); intros E; injection E as <- <-; cbn; lia.
  - destruct Hp as (B & _ & Hb & HB). destruct (ba_tail _ _ _ _ Hb HB) as [Et' _].
    rewrite (tlh_at_eq _ r) by done. rewrite Et', (tlh_at_eq _ u) by done.
    intros E. injection E as <- <-. cbn. rewrite Ew, Z.eqb_refl. lia.
  - rewrite (tlh_at_eq _ r) by done. destruct (store64 _ old (mc_state c)) as [[] s1|] eqn:Es; [|done].
    intros E. injection E as <- <-. apply store64_tlhs in Es. unfold mail_word in *. rewrite Es. cbn.
    destruct (old =? _); lia.
  - destruct Hp as (B & _ & Hb & HB & _). destruct (ba_tail _ _ _ _ Hb HB) as [Et' _].
    rewrite (tlh_at_eq _ r) by done. rewrite Et', (tlh_at_eq _ u) by done. cbn [negb andb].
    destruct (Z.eqb_spec (remote_free_head u) old) as [Eo|Eo].
    + unfold update_tlh. run_m. rewrite (tlh_at_eq _ u) by done. intros E. injection E as <- <-.
      cbn. rewrite Ew, Eo, Z.eqb_refl. lia.
    + intros E. injection E as <- <-. cbn. rewrite Ew, Z.eqb_refl, (proj2 (Z.eqb_neq old _)) by congruence. lia.
  - destruct (update_tlh t _ (mc_state c)) as [[] s1|]; [|done]. destruct k as [a|].
    + destruct (retarget t o s1) as [[] s2|]; [|done]. intros E. injection E as <- <-. cbn. lia.
    + intros E. injection E as <- <-. cbn. lia.
  - rewrite (tlh_at_eq _ r) by done. destruct (store64 _ _ (mc_state c)) as [[] s1|]; [|done].
    destruct (update_tlh t _ s1) as [[] s2|]; [|done]. intros E. injection E as <- <-. cbn. lia.
Qed.

Lemma act_none t weak p : sender_act t o weak p = None -> p = PIdle.
Proof. by destruct p. Qed.

Lemma sender_finishes n c i t p :
  o <> NULL -> mail_inv o c -> mc_senders c !! i = Some (t, p) -> (sender_work (mail_word (mc_state c) o) p <= n)%nat ->
  exists s', alone (sender_act t o) n p (mc_state c) = Done PIdle s' /\
    mail_inv o (mk_mc s' (mc_held c) (<[i := (t, PIdle)]> (mc_senders c)) (mc_owner c)).
Proof.
  intros Ho. revert c p. induction n as [|n IH]; intros c p Hinv Hi Hw.
  - assert (p = PIdle) as -> by (destruct p; cbn in Hw; try done; try lia; destruct (_ =? _); lia).
    exists (mc_state c). split; [done|]. rewrite list_insert_id by done. by destruct c.
  - destruct (sender_act t o false p) as [m|] eqn:Ea.
    2: { apply act_none in Ea as ->. exists (mc_state c). split; [done|]. rewrite list_insert_id by done. by destruct c. }
    rewrite (alone_S _ _ _ _ _ Ea). destruct (Hinv) as (Γ & L & G & P & R & K & Ns & Hc).
    destruct (senders_nodes _ _ _ _ _ _ _ _ _ _ _ _ Hc Hi) as [N HN].
    pose proof (act_sender _ _ _ _ _ _ _ _ _ Hc i t p N false m Hi HN Ho Ea) as Hp. unfold wp in Hp.
    destruct (m (mc_state c)) as [p' s1|] eqn:Em; [|done]. destruct Hp as (R' & N' & Hat & _).
    pose proof (act_work _ _ _ _ _ _ _ _ _ _ _ _ _ _ Hc Hi Ea Em) as Hlt.
    destruct (IH (mk_mc s1 (mc_held c) (<[i := (t, p')]> (mc_senders c)) (mc_owner c)) p') as (s' & Hs & Hinv').
    + by do 7 eexists.
    + cbn. apply list_lookup_insert_eq. by eapply lookup_lt_Some.
    + cbn [mc_state]. lia.
    + exists s'. run_m. rewrite Em. split; [exact Hs|]. cbn [mc_held mc_senders mc_owner] in Hinv'.
      by rewrite list_insert_insert_eq in Hinv'.
Qed.

End alone.

(** ** Theorems *)

Section theorems.
Context `{EnvLaws} (o : Z).

(** Whatever a thread does next runs to its end. *)
Record never_faults (c : mconfig) : Prop := {
  nf_sender : forall i t p weak m, mc_senders c !! i = Some (t, p) -> sender_act t o weak p = Some m ->
    exists p' s', m (mc_state c) = Done p' s';
  nf_alloc : forall size, mc_owner c = OIdle -> 0 <= size <= 511 * 4096 ->
    exists r s', lz_tlh_alloc o size (mc_state c) = Done r s';
  nf_local : forall a, mc_owner c = OIdle -> a ∈ mc_held c -> exists s', lz_tlh_free o a (mc_state c) = Done tt s';
  nf_take : mc_owner c = OIdle -> exists head s', reap_take o (mc_state c) = Done head s';
  nf_node : forall head, mc_owner c = OWalk head -> head <> NULL ->
    exists next s', reap_node o head (mc_state c) = Done next s'
}.

Lemma wp_runs {A} (m : M A) Q s : wp m Q s -> exists a s', m s = Done a s'.
Proof. unfold wp. destruct (m s) as [a s'|]; [by exists a, s'|done]. Qed.

Lemma mail_inv_runs c : o <> NULL -> mail_inv o c -> never_faults c.
Proof.
  intros Ho (Γ & L & G & P & R & K & Ns & Hc). constructor.
  - intros i t p weak m Hi Ha. destruct (senders_nodes _ _ _ _ _ _ _ _ _ _ _ _ Hc Hi) as [N HN].
    eapply wp_runs. by eapply (act_sender _ _ _ _ _ _ _ _ _ Hc).
  - intros size Ew Hsz. eapply wp_runs. by eapply (owner_alloc _ _ _ _ _ _ _ _ _ Hc).
  - intros a Ew Ha. apply list_elem_of_split in Ha as (H1' & H2' & EH).
    destruct (wp_runs _ _ _ (owner_local _ _ _ _ _ _ _ _ _ Hc H1' a H2' Ew EH)) as ([] & s' & E). by exists s'.
  - intros Ew. eapply wp_runs. by eapply (owner_take _ _ _ _ _ _ _ _ _ Hc).
  - intros head Ew Hne. eapply wp_runs. by eapply (owner_node _ _ _ _ _ _ _ _ _ Hc).
Qed.

(** C7. The mailbox protocol is safe under every interleaving: while the owner
    allocates, frees and reaps and any number of other threads free objects of
    its heap (each step one access to the shared mailbox word, failed and
    spurious compare-and-swaps and reuse of reaped objects included), and while
    clients write anywhere into the objects they hold, the heap stays well formed, every object of it is in exactly one place (held by a
    client, in a batch, in flight, in the mailbox or in the walk of the owner:
    none is lost or freed twice), the lists in memory are those places, and no
    thread can fault. *)
Theorem mailbox_race_safe c c' :
  o <> NULL -> mail_inv o c -> rtc (race_step o) c c' -> mail_inv o c' /\ never_faults c'.
Proof.
  intros Ho Hc Hr. assert (mail_inv o c') as Hc'.
  { induction Hr as [|c c1 c' Hs _ IH]; [done|]. apply IH. by eapply race_step_inv. }
  split; [done|]. by apply mail_inv_runs.
Qed.

(** Isolation: no step of the owner or of a sender changes a byte of an
    object that a client holds before and after it. *)
Theorem mailbox_race_isolated c c' Γ L G P R K Ns a n x :
  o <> NULL -> mail_at o c Γ L G P R K Ns -> mail_step o c c' ->
  a ∈ mc_held c -> a ∈ mc_held c' -> object (mc_state c) Γ L a n -> a <= x < a + n ->
  byte_of (mc_state c') x = byte_of (mc_state c) x.
Proof.
  intros Ho Hc Hs Ha Ha' Hn Hx. unfold byte_of. f_equal.
  destruct (mail_step_inv o c c' Γ L G P R K Ns) as [_ Hk]; [done..|]. by apply (Hk a n).
Qed.

(** A push always completes when it is left alone: from any configuration
    the threads can reach, in the middle of any attempt and however stale the
    value it holds, a sender that runs without interference finishes its free
    or flush in at most six actions, and the invariant holds then. *)
Theorem mailbox_push_completes c c' i t p :
  o <> NULL -> mail_inv o c -> rtc (race_step o) c c' -> mc_senders c' !! i = Some (t, p) ->
  exists s', alone (sender_act t o) 6 p (mc_state c') = Done PIdle s' /\
    mail_inv o (mk_mc s' (mc_held c') (<[i := (t, PIdle)]> (mc_senders c')) (mc_owner c')).
Proof.
  intros Ho Hc Hr Hi. apply sender_finishes; [done| |done|].
  - induction Hr as [|c c1 c' Hs _ IH]; [done|]. apply IH; [by eapply race_step_inv|done].
  - destruct p; cbn; try lia; destruct (_ =? _); lia.
Qed.

End theorems.

(** ** Witnesses *)

(** Block 1 waits in the mailbox, block 2 in the batch of heap 12288, and a
    client holds block 3. *)
Definition four_config : mconfig := mk_mc four_state [slab_base + 48] [(12288, PIdle)] OIdle.

Lemma four_mail_at :
  mail_at 8192 four_config four_ghost [] [] (replicate 16 []) [slab_base + 16] [] [[slab_base + 32]].
Proof.
  constructor; cbn [four_config mc_state mc_senders mc_owner].
  - apply four_heap_ok.
  - by exists four_owner.
  - split; [by vm_compute|]. intros a ->%list_elem_of_singleton. exists 0. by vm_compute.
  - split_and!; [done| |done]. intros a Ha. by apply not_elem_of_nil in Ha.
  - done.
  - intros [|i] t p N Hi HN; [|done]. injection Hi as <- <-. injection HN as <-. split; [done|]. exists four_sender.
    split; [done|]. constructor; [done|cbn; lia|done|done|exists 0; by vm_compute|].
    intros a ->%list_elem_of_singleton. exists 0. by vm_compute.
  - apply NoDup_singleton.
  - unfold tokens. cbn. rewrite !NoDup_cons, !not_elem_of_cons. unfold slab_base.
    split_and!; (lia || apply not_elem_of_nil || apply NoDup_nil_2).
  - intros a. unfold tokens. cbn [four_config mc_held app concat]. rewrite !elem_of_cons. split.
    + assert (slab_base + 48 = slab_base + 3 * 16 /\ slab_base + 16 = slab_base + 1 * 16 /\
        slab_base + 32 = slab_base + 2 * 16) as (E3 & E1 & E2) by lia.
      rewrite E1, E2, E3. intros [->|[->|[->|Ha]]]; [exists 16; apply four_object; lia..|]. by apply not_elem_of_nil in Ha.
    + intros (n & [(p & g & k & [-> ->]%four_lookup & [Hk Hf] & -> & _)|(m & (p & sp & j & Hp & _) & _)]);
        [|by apply not_elem_of_nil in Hp].
      cbn in Hk, Hf. rewrite list_elem_of_singleton in Hf.
      assert (blk 0x7f0000200040 four_blocks k = slab_base + k * 16) as -> by done.
      assert (k = 1 \/ k = 2 \/ k = 3) as [->|[->| ->]] by lia; [right; by left|right; right; by left|by left].
Qed.

Lemma four_mail_inv : mail_inv 8192 four_config.
Proof. do 7 eexists. apply four_mail_at. Qed.

(** A client frees block 3 through heap 12288 while the owner takes the
    mailbox and frees block 1. *)
Lemma four_run : exists c', rtc (race_step 8192) four_config c' /\ mc_held c' = [] /\ mc_owner c' = OWalk NULL.
Proof.
  eexists. split.
  - eapply rtc_l; [left; by apply (step_free 8192 four_state [] (slab_base + 48) [] [(12288, PIdle)] OIdle 0 12288)|].
    eapply rtc_l; [left; eapply (step_sender _ _ _ _ _ 0%nat _ _ false); [reflexivity|reflexivity|vm_compute; reflexivity]|].
    eapply rtc_l; [left; eapply step_take; vm_compute; reflexivity|].
    eapply rtc_l; [left; eapply (step_sender _ _ _ _ _ 0%nat _ _ false); [reflexivity|reflexivity|vm_compute; reflexivity]|].
    eapply rtc_l; [left; eapply step_node; [done|vm_compute; reflexivity]|]. apply rtc_refl.
  - done.
Qed.

Lemma mailbox_race_safe_witness : exists c', rtc (race_step 8192) four_config c' /\
  mail_inv 8192 c' /\ never_faults 8192 c'.
Proof.
  destruct four_run as (c' & Hr & _). exists c'. split; [exact Hr|].
  apply (mailbox_race_safe 8192 four_config); [done|apply four_mail_inv|exact Hr].
Defined.

Lemma four_take : exists c', mail_step 8192 four_config c' /\ mc_held c' = [slab_base + 48].
Proof. eexists. split; [eapply step_take; vm_compute; reflexivity|done]. Qed.

Lemma mailbox_race_isolated_witness : exists c', mail_step 8192 four_config c' /\
  byte_of (mc_state c') (slab_base + 50) = byte_of four_state (slab_base + 50).
Proof.
  destruct four_take as (c' & Hs & EH). exists c'. split; [exact Hs|].
  apply (mailbox_race_isolated 8192 four_config c' four_ghost [] [] (replicate 16 []) [slab_base + 16] []
    [[slab_base + 32]] (slab_base + 48) 16 (slab_base + 50)); [done|apply four_mail_at|exact Hs|by left| | |lia].
  - rewrite EH. by left.
  - apply (four_object 3). lia.
Defined.

Lemma mailbox_push_completes_witness : exists c', rtc (race_step 8192) four_config c' /\
  exists s', alone (sender_act 12288 8192) 6 PFlush (mc_state c') = Done PIdle s' /\
    mail_inv 8192 (mk_mc s' (mc_held c') (<[0%nat := (12288, PIdle)]> (mc_senders c')) (mc_owner c')).
Proof.
  set (c' := mk_mc four_state [slab_base + 48] [(12288, PFlush)] OIdle).
  assert (rtc (race_step 8192) four_config c') as Hr.
  { apply rtc_once. left. by apply (step_flush 8192 four_state _ [(12288, PIdle)] OIdle 0 12288). }
  exists c'. split; [exact Hr|].
  apply (mailbox_push_completes 8192 four_config c'); [done|apply four_mail_inv|exact Hr|done].
Defined.
