(* ===== verification/MailProgress.v ===== *)
(** * The mailbox is lock-free

    The push loop of [lz_tlh_flush_outgoing_batch] repeats its
    compare-and-swap until the mailbox word is the one it read.  A bound on the
    actions that all senders of MailRace.v together can take: an attempt fails
    only because another sender, or the owner, has changed the word. *)

From S2P Require Import Prelude Common Sizes Machine Wp Dll Testbed Security Rtree Vmm VmmSpec.
From S2P Require Import Provision Telemetry Span SpanSpec Slab Tlh SlabSpec BinSpec HeapSpec TlhSpec.
From S2P Require Import RemoteSpec Interleave MailRace.

Section runs.
Context `{Env} (o : Z).

(** Executions in which the senders finish what they have begun: [k] actions of
    senders, none of which fails spuriously, [r] steps of the owner, and any
    number of writes by clients. *)
Inductive sends : nat -> nat -> mconfig -> mconfig -> Prop :=
  | sends_none c : sends 0 0 c c
  | sends_act k r s K S w i t p m p' s' c' :
      S !! i = Some (t, p) -> sender_act t o false p = Some m -> m s = Done p' s' ->
      sends k r (mk_mc s' K (<[i := (t, p')]> S) w) c' -> sends (Datatypes.S k) r (mk_mc s K S w) c'
  | sends_owner k r c c1 c' :
      mail_step o c c1 -> mc_senders c1 = mc_senders c -> sends k r c1 c' -> sends k (Datatypes.S r) c c'
  | sends_client k r c c1 c' : client_step c c1 -> sends k r c1 c' -> sends k r c c'.

Lemma sends_reaches k r c c' : sends k r c c' -> rtc (race_step o) c c'.
Proof.
  induction 1; [apply rtc_refl|eapply rtc_l; [|done]..].
  - left. by eapply step_sender.
  - by left.
  - by right.
Qed.

End runs.

(** The actions a sender may still need among [n] of them, when the word is
    [h]: a success of another one costs it one failed attempt. *)
Definition send_work (n : nat) (h : Z) (x : Z * sender_pc) : nat :=
  match x.2 with
  | PIdle => 0
  | PAdd _ => 1
  | PClear _ => 2
  | p => 2 * n + sender_work h p
  end.

(** An upper bound of it for a sender that begins. *)
Definition sends_left (c : mconfig) (o : Z) : nat :=
  total (send_work (length (mc_senders c)) (mail_word (mc_state c) o)) (mc_senders c).

Lemma send_work_word n h h' x : (send_work n h' x <= send_work n h x + 2)%nat.
Proof. destruct x as [t []]; cbn; try lia; destruct (_ =? h'), (_ =? h); lia. Qed.

Lemma sends_left_word n h h' (S : list (Z * sender_pc)) :
  (total (send_work n h') S <= total (send_work n h) S + length S * 2)%nat.
Proof. apply total_le. intros x _. apply send_work_word. Qed.

Section bound.
Context `{EnvLaws} (o : Z).

(** The word changes with a successful compare-and-swap only. *)
Lemma act_word c Γ L G P R K Ns i t p m p' s' :
  mail_at o c Γ L G P R K Ns -> mc_senders c !! i = Some (t, p) -> sender_act t o false p = Some m ->
  m (mc_state c) = Done p' s' ->
  mail_word s' o = mail_word (mc_state c) o \/
  exists k, p = PCas k (mail_word (mc_state c) o) /\ p' = PClear k.
Proof.
  intros Hc Hi Ha Hm. destruct (senders_nodes _ _ _ _ _ _ _ _ _ _ _ _ Hc Hi) as [N HN].
  destruct (ma_senders _ _ _ _ _ _ _ _ _ Hc _ _ _ _ Hi HN) as (Hne & r & Hr & Hp).
  destruct (ma_head _ _ _ _ _ _ _ _ _ Hc) as (u & Hu & _).
  assert (forall a v s1, store64 a v (mc_state c) = Done tt s1 -> mail_word s1 o = mail_word (mc_state c) o) as Hst.
  { intros a v s1 E%store64_tlhs. unfold mail_word. by rewrite E. }
  assert (forall f s1 s2, update_tlh t f s1 = Done tt s2 -> mail_word s2 o = mail_word s1 o) as Hup.
  { intros f s1 s2. unfold update_tlh, tlh_at. run_m. destruct (h_tlhs s1 !! t); [|done]. intros [= <-].
    unfold mail_word. cbn. by rewrite lookup_insert_ne. }
  destruct p as [|a| |k|k old|k old|k|a]; [done|..]; apply (inj Some) in Ha as <-; revert Hm; unfold remote_begin, remote_add; run_m.
  - destruct (store64 a NULL (mc_state c)) as [[] s1|] eqn:Es; [|done]. rewrite <- (Hst _ _ _ Es). apply store64_tlhs in Es.
    rewrite (tlh_at_eq _ r s1) by (by rewrite Es).
    destruct (_ || _); [destruct (_ || _)|]; [|intros [= <- <-]; by left..].
    destruct (retarget t o s1) as [[] s2|] eqn:Et; [|done]. intros [= <- <-]. left. by eapply Hup.
  - rewrite (tlh_at_eq _ r) by done. destruct (_ || _); intros [= <- <-]; by left.
  - destruct Hp as (B & _ & Hb & HB). destruct (ba_tail _ _ _ _ Hb HB) as [Et' _].
    rewrite (tlh_at_eq _ r) by done. rewrite Et', (tlh_at_eq _ u) by done. intros [= <- <-]. by left.
  - rewrite (tlh_at_eq _ r) by done. destruct (store64 _ old (mc_state c)) as [[] s1|] eqn:Es; [|done].
    intros [= <- <-]. left. by eapply Hst.
  - destruct Hp as (B & _ & Hb & HB & _). destruct (ba_tail _ _ _ _ Hb HB) as [Et' _].
    rewrite (tlh_at_eq _ r) by done. rewrite Et', (tlh_at_eq _ u) by done. cbn [negb andb].
    destruct (Z.eqb_spec (remote_free_head u) old) as [<-|Eo]; [|intros [= <- <-]; by left].
    unfold update_tlh. run_m. rewrite (tlh_at_eq _ u) by done. intros [= <- <-]. right. exists k. split; [|done].
    unfold mail_word. by rewrite Hu.
  - destruct (update_tlh t _ (mc_state c)) as [[] s1|] eqn:Eu; [|done]. rewrite <- (Hup _ _ _ Eu). destruct k as [a|].
    + destruct (retarget t o s1) as [[] s2|] eqn:Et; [|done]. intros [= <- <-]. left. by eapply Hup.
    + intros [= <- <-]. by left.
  - rewrite (tlh_at_eq _ r) by done. destruct (store64 _ _ (mc_state c)) as [[] s1|] eqn:Es; [|done].
    destruct (update_tlh t _ s1) as [[] s2|] eqn:Eu; [|done]. intros [= <- <-]. left. rewrite (Hup _ _ _ Eu). by eapply Hst.
Qed.

Lemma act_lowers s K S w Γ L G P R Q Ns i t p m p' s' :
  mail_at o (mk_mc s K S w) Γ L G P R Q Ns -> S !! i = Some (t, p) -> sender_act t o false p = Some m -> m s = Done p' s' ->
  (sends_left (mk_mc s' K (<[i := (t, p')]> S) w) o < sends_left (mk_mc s K S w) o)%nat.
Proof.
  intros Hc Hi Ha Hm. pose proof (act_work o _ _ _ _ _ _ _ _ i t p m p' s' Hc Hi Ha Hm) as Hlt. cbn in Hlt.
  unfold sends_left. cbn [mc_senders mc_state]. rewrite length_insert. set (n := length S).
  destruct (act_word _ _ _ _ _ _ _ _ i t p m p' s' Hc Hi Ha Hm) as [E|(k & -> & ->)]; cbn [mc_state] in *.
  - rewrite E in Hlt |- *. set (h := mail_word s o) in *.
    pose proof (total_insert (send_work n h) S i (t, p) (t, p') Hi) as Ht.
    assert (send_work n h (t, p') < send_work n h (t, p))%nat; [|lia].
    destruct p, p'; cbn in Hlt |- *; try lia; repeat case_match; lia.
  - pose proof (sends_left_word n (mail_word s o) (mail_word s' o) (<[i := (t, PClear k)]> S)) as Hle.
    rewrite length_insert in Hle. fold n in Hle.
    pose proof (total_insert (send_work n (mail_word s o)) S i _ (t, PClear k) Hi) as Ht. cbn in Ht.
    rewrite Z.eqb_refl in Ht. lia.
Qed.

Lemma sends_bound k r c c' : o <> NULL -> mail_inv o c -> sends o k r c c' ->
  (k <= sends_left c o + 2 * length (mc_senders c) * r)%nat.
Proof.
  intros Ho Hc Hr. revert Hc. induction Hr as [c|k r s K S w i t p m p' s' c' Hi Ha Hm _ IH|k r c c1 c' Hs E _ IH|k r c c1 c' Hs _ IH];
    intros Hc.
  - lia.
  - assert (mail_inv o (mk_mc s' K (<[i := (t, p')]> S) w)) as Hc'.
    { eapply race_step_inv; [done|exact Hc|]. left. by eapply step_sender. }
    specialize (IH Hc'). cbn [mc_senders] in *. rewrite length_insert in IH.
    destruct Hc as (Γ & L & G & P & R & Q & Ns & Hc). pose proof (act_lowers _ _ _ _ _ _ _ _ _ _ _ _ _ _ _ _ _ Hc Hi Ha Hm). lia.
  - assert (mail_inv o c1) as Hc1 by (eapply race_step_inv; [done|exact Hc|by left]). specialize (IH Hc1). unfold sends_left in *.
    rewrite E in IH. pose proof (sends_left_word (length (mc_senders c)) (mail_word (mc_state c) o) (mail_word (mc_state c1) o) (mc_senders c)).
    lia.
  - assert (mail_inv o c1) as Hc1 by (eapply race_step_inv; [done|exact Hc|by right]). specialize (IH Hc1).
    destruct Hs as [s K S w a x v s' _ _ _ Hm]. apply store64_tlhs in Hm. unfold sends_left, mail_word in *. cbn [mc_senders mc_state] in *.
    by rewrite Hm in IH.
Qed.

(** C22. The mailbox is lock-free: [n] threads that free objects of the same
    heap, or flush their batches to it, at the same time, take together at most
    2 n^2 + 6 n actions, and 2 n more for each step that the owner of the heap
    takes in between (an allocation, a free, the exchange of a reap), however
    they are interleaved and whatever clients write into the objects they hold;
    and a sender that has not finished can always act.  So a push fails only
    because another one succeeds, and all of them end once the owner is quiet. *)
Theorem mailbox_lock_free k r c c' :
  o <> NULL -> mail_inv o c -> sends o k r c c' ->
  (k <= 2 * length (mc_senders c) * length (mc_senders c) + 6 * length (mc_senders c) + 2 * length (mc_senders c) * r)%nat /\
  forall i t p, mc_senders c' !! i = Some (t, p) ->
    p = PIdle \/ exists m p' s', sender_act t o false p = Some m /\ m (mc_state c') = Done p' s'.
Proof.
  intros Ho Hc Hr. split.
  - pose proof (sends_bound k r c c' Ho Hc Hr) as Hk. set (n := length (mc_senders c)) in *.
    assert (sends_left c o <= total (fun _ => 0%nat) (mc_senders c) + n * (2 * n + 6))%nat as Hle.
    { apply total_le. intros [t p] _. unfold n. destruct p; cbn; try lia; case_match; lia. }
    rewrite (total_const _ _ 0%nat) in Hle by done. lia.
  - intros i t p Hi. destruct (sender_act t o false p) as [m|] eqn:Ha; [|left; by eapply act_none].
    right. assert (mail_inv o c') as Hc'.
    { apply sends_reaches in Hr. induction Hr as [|c c1 c' Hs _ IH]; [done|]. apply IH; [by eapply race_step_inv|done]. }
    destruct (nf_sender _ _ (mail_inv_runs o c' Ho Hc') i t p false m Hi Ha) as (p' & s' & Hm). by exists m, p', s'.
Qed.

End bound.

(** ** Witness *)

(** Heap 12288 starts to flush its batch; the owner empties the mailbox after
    the sender has read it, so the first attempt fails. *)
Definition flush_config : mconfig := mk_mc four_state [slab_base + 48] [(12288, PFlush)] OIdle.

Ltac send_act := eapply (sends_act _ _ _ _ _ _ _ 0%nat); [reflexivity|reflexivity|vm_compute; reflexivity|].

Lemma flush_run : exists c', sends 8192 7 1 flush_config c' /\ (mc_senders c').*2 = [PIdle].
Proof.
  eexists. split.
  - do 2 send_act. eapply sends_owner; [eapply step_take; vm_compute; reflexivity|reflexivity|].
    do 5 send_act. apply sends_none.
  - reflexivity.
Qed.

Lemma flush_config_inv : mail_inv 8192 flush_config.
Proof.
  eapply race_step_inv; [done|exact four_mail_inv|]. left. by apply (step_flush 8192 four_state _ [(12288, PIdle)] OIdle 0 12288).
Qed.

Lemma mailbox_lock_free_witness : exists c', sends 8192 7 1 flush_config c' /\ (7 <= 10)%nat.
Proof.
  destruct flush_run as (c' & Hr & _). exists c'. split; [exact Hr|].
  exact (proj1 (mailbox_lock_free 8192 7 1 flush_config c' ltac:(discriminate) flush_config_inv Hr)).
Defined.
