(* ===== verification/RegistryRace.v ===== *)
(** * Threads that race on the registry of heaps

    The heaps of dead threads are kept in a list under a spinlock
    (lzmalloc.c): [ensure_tls_init] adopts one or maps a new one,
    [lz_tlh_destructor] registers one, [lzmalloc_gc] walks the list.  Here any
    number of threads do so at once, one access to the registry at a time, while
    all of them use their heaps. *)

From S2P Require Import Prelude Common Machine Wp Testbed Security Rtree Vmm VmmSpec Telemetry Span Slab Tlh Lzmalloc.
From S2P Require Import Frame Interleave.

(** ** The code *)

Inductive zpc :=
  | ZIdle
  | ZDone
  | ZUses (h : Z)
  (* ensure_tls_init *)
  | RLock
  | RHead
  | RNext (h : Z)
  | RPop (h next : Z)
  | RClear (h : Z)
  | RUnlock (h : Z)
  | RAdopt (h : Z)
  | RMap
  | RAttach (h : Z)
  (* lz_tlh_destructor *)
  | XFlush (h : Z)
  | XMark (h : Z)
  | XLock (h : Z)
  | XNext (h : Z)
  | XHead (h : Z)
  | XUnlock
  (* lzmalloc_gc of a thread with heap [o], if any *)
  | CMine (o : option Z)
  | CLock (o : option Z)
  | CHead (o : option Z)
  | CUnlock (o : option Z) (current : Z)
  | CWalk (o : option Z) (current : Z)
  | CNext (o : option Z) (current : Z)
  | CPurge (o : option Z).

(** Where a collection started. *)
Definition back (o : option Z) : zpc := match o with Some h => ZUses h | None => ZIdle end.

Section code.
Context `{Env}.

(** One test-and-set. *)
Definition try_zombie_lock (spin ok : zpc) : M zpc :=
  b ← fetch g_zombie_lock;
  if b : bool then mret spin else modify (set_g_zombie_lock true);; mret ok.

(** An action is one access to the registry, or an operation on a heap. *)

(** [lz_resurrect_zombie], called by [ensure_tls_init]. *)
Definition resurrect_act (p : zpc) : option (M zpc) :=
  match p with
  | RLock => Some (try_zombie_lock RLock RHead)
  | RHead => Some (
      head ← fetch g_zombie_tlhs;
      mret (if negb (head =? NULL) then RNext head else RUnlock NULL))
  | RNext h => Some (t ← tlh_at h; mret (RPop h (next_zombie t)))
  | RPop h next => Some (modify (set_g_zombie_tlhs next);; mret (RClear h))
  | RClear h => Some (update_tlh h (set_next_zombie NULL);; mret (RUnlock h))
  | RUnlock h => Some (zombie_unlock;; mret (if negb (h =? NULL) then RAdopt h else RMap))
  | _ => None
  end.

(** [ensure_tls_init] with the heap it got, or with a new one. *)
Definition attach_act (p : zpc) : option (M zpc) :=
  match p with
  | RAdopt h => Some (
      update_tlh h (set_is_zombie 0);;
      tid ← next_thread_id;
      update_tlh h (set_thread_id tid);;
      mret (RAttach h))
  | RMap => Some (
      o ← mmap sizeof_tlh;
      match o with
      | None => stop Trap
      | Some h =>
          modify (fun s => set_h_tlhs (<[h := zero_tlh]> (h_tlhs s)) s);;
          tid ← next_thread_id;
          lz_tlh_init h tid;;
          update_tlh h (set_is_zombie 0);;
          update_tlh h (set_next_zombie NULL);;
          mret (RAttach h)
      end)
  | RAttach h => Some (attach_statistics h;; mret (ZUses h))
  | _ => None
  end.

(** [lz_tlh_destructor]. *)
Definition exit_act (p : zpc) : option (M zpc) :=
  match p with
  | XFlush h => Some (lz_tlh_flush_outgoing_batch h;; flush_statistics h;; mret (XMark h))
  | XMark h => Some (update_tlh h (set_is_zombie 1);; mret (XLock h))
  | XLock h => Some (try_zombie_lock (XLock h) (XNext h))
  | XNext h => Some (z ← fetch g_zombie_tlhs; update_tlh h (set_next_zombie z);; mret (XHead h))
  | XHead h => Some (modify (set_g_zombie_tlhs h);; mret XUnlock)
  | XUnlock => Some (zombie_unlock;; mret ZDone)
  | _ => None
  end.

(** [lzmalloc_gc]. *)
Definition gc_act (p : zpc) : option (M zpc) :=
  match p with
  | CMine o => Some (
      (match o with Some h => lz_tlh_reap h | None => mret tt end);; mret (CLock o))
  | CLock o => Some (try_zombie_lock (CLock o) (CHead o))
  | CHead o => Some (current ← fetch g_zombie_tlhs; mret (CUnlock o current))
  | CUnlock o current => Some (zombie_unlock;; mret (CWalk o current))
  | CWalk o current => Some (
      if current =? NULL then mret (CPurge o)
      else lz_tlh_reap current;; mret (CNext o current))
  | CNext o current => Some (t ← tlh_at current; mret (CWalk o (next_zombie t)))
  | CPurge o => Some (lz_vmm_purge_all_caches;; mret (back o))
  | _ => None
  end.

Definition z_act (p : zpc) : option (M zpc) :=
  match p with
  | ZIdle | ZDone | ZUses _ => None
  | RLock | RHead | RNext _ | RPop _ _ | RClear _ | RUnlock _ => resurrect_act p
  | RAdopt _ | RMap | RAttach _ => attach_act p
  | XFlush _ | XMark _ | XLock _ | XNext _ | XHead _ | XUnlock => exit_act p
  | CMine _ | CLock _ | CHead _ | CUnlock _ _ | CWalk _ _ | CNext _ _ | CPurge _ => gc_act p
  end.

End code.

(** The link and the flag of every heap. *)
Definition marks (s : state) : gmap Z (Z * Z) := (fun t => (next_zombie t, is_zombie t)) <$> h_tlhs s.

(** A step that leaves the registry alone. *)
Record registry_kept (s s' : state) : Prop := {
  rk_marks : marks s' = marks s;
  rk_head : g_zombie_tlhs s' = g_zombie_tlhs s;
  rk_lock : g_zombie_lock s' = g_zombie_lock s
}.

#[export] Instance registry_kept_refl : Reflexive registry_kept.
Proof. by constructor. Qed.
#[export] Instance registry_kept_trans : Transitive registry_kept.
Proof. intros s1 s2 s3 [A1 A2 A3] [B1 B2 B3]. constructor; congruence. Qed.

(** All operations on chunks, slabs, spans and heaps leave it alone. *)
#[export] Instance registry_frame `{Env} : Frame registry_kept.
Proof.
  constructor; try apply _.
  - intros s s' []. constructor; unfold marks; congruence.
  - intros s t h h' Hh E1 E2. constructor; [|done..]. unfold marks. cbn [h_tlhs set_h_tlhs]. rewrite fmap_insert, E1, E2.
    apply insert_id. by rewrite lookup_fmap, Hh.
  - intros len s r s'. unfold mmap, tick. run_m. destruct (sys_mmap _ _ len) as [a|]; intros [= <- <-]; by constructor.
  - intros a len s r s' [= _ <-]. by constructor.
  - intros a len s r s' [= _ <-]. by constructor.
  - intros a v s r s'. unfold store64, check_mapped. run_m. destruct (mapped s a); [|done]. destruct (mapped s (a + 7)); [|done].
    set (w := set_le_bytes _ _ _ _). intros [= _ <-]. by constructor.
Qed.

(** ** Steps *)

Definition zconfig : Type := state * list zpc.

Section steps.
Context `{Env}.

Inductive z_step : zconfig -> zconfig -> Prop :=
  | z_first_call s ps i :
      ps !! i = Some ZIdle -> z_step (s, ps) (s, <[i := RLock]> ps)
  | z_exit s ps i h :
      ps !! i = Some (ZUses h) -> z_step (s, ps) (s, <[i := XFlush h]> ps)
  | z_collect s ps i o :
      ps !! i = Some (back o) -> z_step (s, ps) (s, <[i := CMine o]> ps)
  (* heaps are never unmapped: a new one is placed where none is *)
  | z_acts s ps i p m p' s' :
      ps !! i = Some p -> z_act p = Some m -> m s = Done p' s' ->
      (forall h, p = RMap -> p' = RAttach h -> h <> NULL /\ h_tlhs s !! h = None) ->
      z_step (s, ps) (s', <[i := p']> ps)
  (* a thread uses its heap: whatever leaves the registry alone *)
  | z_works {A} s ps i h (m : M A) r s' :
      ps !! i = Some (ZUses h) -> respects registry_kept m -> m s = Done r s' -> z_step (s, ps) (s', ps).

End steps.

(** ** Invariant *)

(** The heap that a thread has to itself. *)
Definition owned (p : zpc) : list Z :=
  match p with
  | ZUses h | RClear h | RAdopt h | RAttach h => [h]
  | RUnlock h => if h =? NULL then [] else [h]
  | XFlush h | XMark h | XLock h | XNext h | XHead h => [h]
  | CMine o | CLock o | CHead o | CUnlock o _ | CWalk o _ | CNext o _ | CPurge o => option_list o
  | _ => []
  end.
Definition all_owned (ps : list zpc) : list Z := concat (owned <$> ps).

Definition holds_lock (p : zpc) : bool :=
  match p with
  | RHead | RNext _ | RPop _ _ | RClear _ | RUnlock _ | XNext _ | XHead _ | XUnlock | CHead _ | CUnlock _ _ => true
  | _ => false
  end.

(** The registered heaps, marked as left behind. *)
Fixpoint zlist (m : gmap Z (Z * Z)) (a : Z) (Zs : list Z) : Prop :=
  match Zs with
  | [] => a = NULL
  | z :: Zs => a = z /\ z <> NULL /\ exists n, m !! z = Some (n, 1) /\ zlist m n Zs
  end.

Definition in_use (m : gmap Z (Z * Z)) (h : Z) : Prop := exists n, m !! h = Some (n, 0).

(** What a thread knows at a program point. *)
Definition z_local (s : state) (Zs : list Z) (p : zpc) : Prop :=
  match p with
  | ZUses h | RAttach h | XFlush h | XMark h => in_use (marks s) h
  | RNext h => exists l, Zs = h :: l
  | RPop h next => exists l, Zs = h :: l /\ marks s !! h = Some (next, 1)
  | XLock h | XNext h => exists n, marks s !! h = Some (n, 1)
  | XHead h => marks s !! h = Some (g_zombie_tlhs s, 1)
  | CMine o | CLock o | CHead o | CPurge o => forall h, o = Some h -> in_use (marks s) h
  | CUnlock o current | CWalk o current =>
      (current = NULL \/ is_Some (marks s !! current)) /\ forall h, o = Some h -> in_use (marks s) h
  | CNext o current => is_Some (marks s !! current) /\ forall h, o = Some h -> in_use (marks s) h
  | _ => True
  end.

(** Links lead to heaps. *)
Definition links_ok (s : state) : Prop :=
  forall t n f, marks s !! t = Some (n, f) -> n = NULL \/ is_Some (marks s !! n).

Record z_at (c : zconfig) (Zs : list Z) : Prop := {
  zi_list : zlist (marks c.1) (g_zombie_tlhs c.1) Zs;
  zi_links : links_ok c.1;
  zi_once : NoDup (Zs ++ all_owned c.2);
  zi_known : forall h, h ∈ Zs ++ all_owned c.2 -> h <> NULL /\ is_Some (marks c.1 !! h);
  zi_local : forall i p, c.2 !! i = Some p -> z_local c.1 Zs p;
  zi_lock : g_zombie_lock c.1 = true <-> exists i p, c.2 !! i = Some p /\ holds_lock p = true;
  zi_excl : forall i j p q, c.2 !! i = Some p -> c.2 !! j = Some q -> holds_lock p = true -> holds_lock q = true -> i = j
}.

(** What one step of a thread from [p] to [p'] does; [new] is a heap it maps. *)
Record z_effect (s : state) (p : zpc) (Zs : list Z) (s' : state) (p' : zpc) (Zs' new : list Z) : Prop := {
  ze_list : zlist (marks s') (g_zombie_tlhs s') Zs';
  ze_links : links_ok s';
  ze_perm : Zs' ++ owned p' ≡ₚ new ++ Zs ++ owned p;
  ze_new : NoDup new /\ forall h, h ∈ new -> marks s !! h = None /\ h <> NULL /\ is_Some (marks s' !! h);
  ze_marks : forall t v, marks s !! t = Some v -> t ∉ owned p -> marks s' !! t = Some v;
  ze_dom : forall t, is_Some (marks s !! t) -> is_Some (marks s' !! t);
  ze_local : z_local s' Zs' p';
  ze_lock : g_zombie_lock s' = if holds_lock p' then true else if holds_lock p then false else g_zombie_lock s;
  ze_enter : holds_lock p' = true -> holds_lock p = true \/ g_zombie_lock s = false;
  ze_head : holds_lock p = false -> g_zombie_tlhs s' = g_zombie_tlhs s /\ Zs' = Zs
}.

(** What a thread knows survives the steps of others. *)
Lemma z_local_frame s s' Zs Zs' q :
  z_local s Zs q -> (forall t v, marks s !! t = Some v -> t ∈ owned q -> marks s' !! t = Some v) ->
  (forall t, is_Some (marks s !! t) -> is_Some (marks s' !! t)) ->
  (holds_lock q = true -> g_zombie_tlhs s' = g_zombie_tlhs s /\ Zs' = Zs /\
     forall t v, t ∈ Zs -> marks s !! t = Some v -> marks s' !! t = Some v) ->
  z_local s' Zs' q.
Proof.
  intros Hl Hm Hd Hh.
  assert (forall h, h ∈ owned q -> in_use (marks s) h -> in_use (marks s') h) as Hu.
  { intros h Ho [n Hn]. exists n. by apply Hm. }
  destruct q as [| |h| | |h|h next|h|h|h| |h|h|h|h|h|h| |o|o|o|o cur|o cur|o cur|o]; cbn [z_local holds_lock owned] in *; try done.
  all: try (apply Hu; [by left|done]).
  all: try (intros h ->; apply Hu; [by left|by apply Hl]).
  - by destruct (Hh eq_refl) as (_ & -> & _).
  - destruct (Hh eq_refl) as (_ & -> & Hk). destruct Hl as (l & -> & Hn). exists l. split; [done|]. apply Hk; [by left|done].
  - destruct Hl as [n Hn]. exists n. apply Hm; [done|by left].
  - destruct Hl as [n Hn]. exists n. apply Hm; [done|by left].
  - destruct (Hh eq_refl) as (-> & _ & _). apply Hm; [done|by left].
  - destruct Hl as [Hc Hl]. split; [destruct Hc; auto|]. intros h ->. apply Hu; [by left|by apply Hl].
  - destruct Hl as [Hc Hl]. split; [destruct Hc; auto|]. intros h ->. apply Hu; [by left|by apply Hl].
  - destruct Hl as [Hc Hl]. split; [by apply Hd|]. intros h ->. apply Hu; [by left|by apply Hl].
Qed.

Section effect_ok.
Context (s : state) (ps : list zpc) (Zs : list Z) (i : nat) (p : zpc).
Hypothesis Hc : z_at (s, ps) Zs.
Hypothesis Hi : ps !! i = Some p.

(** The heaps of the other threads. *)
Notation rest := (concat (<[i := []]> (owned <$> ps))).

Lemma owned_rest : all_owned ps ≡ₚ owned p ++ rest.
Proof. unfold all_owned. apply (concat_insert_perm _ i (owned p) []). by rewrite list_lookup_fmap, Hi, app_nil_r. Qed.

Lemma others_apart j q t : j <> i -> ps !! j = Some q -> t ∈ owned q -> t ∉ owned p /\ t ∉ Zs.
Proof.
  intros Hne Hj Ht. pose proof (zi_once _ _ Hc) as Hnd. cbn in Hnd. rewrite owned_rest in Hnd.
  assert (t ∈ rest) as Hr.
  { eapply elem_of_concat_lookup; [|exact Ht]. rewrite list_lookup_insert_ne by done. by rewrite list_lookup_fmap, Hj. }
  apply NoDup_app in Hnd as (_ & H1 & Hnd). apply NoDup_app in Hnd as (_ & H2 & _). split.
  - intros Hp. by apply (H2 t).
  - intros Hz. apply (H1 t Hz). set_solver.
Qed.

Lemma listed_free t : t ∈ Zs -> t ∉ owned p.
Proof.
  intros Hz Ht. pose proof (zi_once _ _ Hc) as Hnd. cbn in Hnd. rewrite owned_rest in Hnd.
  apply NoDup_app in Hnd as (_ & H1 & _). apply (H1 t Hz). set_solver.
Qed.

Context (s' : state) (p' : zpc) (Zs' new : list Z).
Hypothesis He : z_effect s p Zs s' p' Zs' new.

Lemma owned_step : all_owned (<[i := p']> ps) ≡ₚ owned p' ++ rest.
Proof.
  unfold all_owned. rewrite list_fmap_insert. rewrite (concat_insert_perm (<[i := owned p']> (owned <$> ps)) i (owned p') []).
  - by rewrite list_insert_insert_eq.
  - rewrite app_nil_r. apply list_lookup_insert_eq. rewrite length_fmap. by eapply lookup_lt_Some.
Qed.

Lemma places_after : Zs' ++ all_owned (<[i := p']> ps) ≡ₚ new ++ Zs ++ all_owned ps.
Proof. rewrite owned_step, owned_rest, (app_assoc Zs'), (ze_perm _ _ _ _ _ _ _ He). solve_Permutation. Qed.

Lemma z_others j q : j <> i -> ps !! j = Some q -> z_local s' Zs' q.
Proof.
  intros Hne Hj. eapply z_local_frame; [exact (zi_local _ _ Hc j q Hj)| |apply He|].
  - intros t v Hv Ht. apply (ze_marks _ _ _ _ _ _ _ He); [done|]. by apply (others_apart j q t).
  - intros Hq. assert (holds_lock p = false) as Hp.
    { apply not_true_is_false. intros Hp. apply Hne. by eapply (zi_excl _ _ Hc j i). }
    destruct (ze_head _ _ _ _ _ _ _ He Hp) as [? ?]. split_and!; [done..|]. intros t v Ht Hv.
    apply (ze_marks _ _ _ _ _ _ _ He); [done|]. by apply listed_free.
Qed.

Lemma z_excl_after j k q r :
  <[i := p']> ps !! j = Some q -> <[i := p']> ps !! k = Some r -> holds_lock q = true -> holds_lock r = true -> j = k.
Proof.
  assert (forall j q, j <> i -> ps !! j = Some q -> holds_lock q = true -> holds_lock p' = true -> False) as Hx.
  { intros j' q' Hne Hj Hq Hp'. destruct (ze_enter _ _ _ _ _ _ _ He Hp') as [Hp|Hf].
    - apply Hne. by eapply (zi_excl _ _ Hc j' i).
    - assert (g_zombie_lock s = true) as Ht by (apply (zi_lock _ _ Hc); cbn; eauto). congruence. }
  intros [(<- & <- & _)|[Hne Hj]]%list_lookup_insert_Some [(<- & <- & _)|[Hne' Hk]]%list_lookup_insert_Some Hq Hr; [done|..].
  - exfalso. by eapply (Hx k).
  - exfalso. by eapply (Hx j).
  - by eapply (zi_excl _ _ Hc j k).
Qed.

Lemma z_lock_after :
  g_zombie_lock s' = true <-> exists j q, <[i := p']> ps !! j = Some q /\ holds_lock q = true.
Proof.
  rewrite (ze_lock _ _ _ _ _ _ _ He). assert ((i < length ps)%nat) as Hlt by (by eapply lookup_lt_Some).
  destruct (holds_lock p') eqn:Hp'.
  { split; [|done]. intros _. exists i, p'. split; [by apply list_lookup_insert_eq|done]. }
  destruct (holds_lock p) eqn:Hp.
  - split; [done|]. intros (j & q & [(<- & <- & _)|[Hne Hj]]%list_lookup_insert_Some & Hq); [congruence|].
    exfalso. apply Hne. by eapply (zi_excl _ _ Hc i j).
  - rewrite (zi_lock _ _ Hc). cbn. split.
    + intros (j & q & Hj & Hq). exists j, q. split; [|done]. rewrite list_lookup_insert_ne; [done|]. intros <-. congruence.
    + intros (j & q & [(<- & <- & _)|[Hne Hj]]%list_lookup_insert_Some & Hq); [congruence|]. eauto.
Qed.

Lemma effect_ok : z_at (s', <[i := p']> ps) Zs'.
Proof.
  destruct (ze_new _ _ _ _ _ _ _ He) as [Hn1 Hn2]. constructor; cbn [fst snd]; try apply He.
  - rewrite places_after. apply NoDup_app. split_and!; [done| |apply Hc].
    intros h Hh Hh'. destruct (Hn2 h Hh) as [E _]. destruct (zi_known _ _ Hc h Hh') as [_ [v Hv]]. cbn in Hv. congruence.
  - intros h. rewrite places_after. intros [Hh|Hh]%elem_of_app; [by destruct (Hn2 h Hh) as (_ & ? & ?)|].
    destruct (zi_known _ _ Hc h Hh) as [? ?]. split; [done|]. by apply (ze_dom _ _ _ _ _ _ _ He).
  - intros j q [(<- & <- & _)|[Hne Hj]]%list_lookup_insert_Some; [apply He|]. by apply (z_others j).
  - exact z_lock_after.
  - exact z_excl_after.
Qed.

End effect_ok.

(** ** The actions *)

Section acts.
Context `{Env}.

(** A step that leaves the registry alone. *)
Lemma effect_kept s p Zs s' p' :
  zlist (marks s) (g_zombie_tlhs s) Zs -> links_ok s -> registry_kept s s' ->
  owned p' = owned p -> holds_lock p' = holds_lock p -> (holds_lock p = true -> g_zombie_lock s = true) ->
  z_local s Zs p' -> z_effect s p Zs s' p' Zs [].
Proof.
  intros Hz Hk [E1 E2 E3] Ho Hh Hl Hp. constructor.
  - by rewrite E1, E2.
  - unfold links_ok. by rewrite E1.
  - by rewrite Ho.
  - split; [constructor|]. intros h Hn. by apply not_elem_of_nil in Hn.
  - intros t v. by rewrite E1.
  - intros t. by rewrite E1.
  - eapply z_local_frame; [exact Hp|..]; rewrite ?E1; try done.
  - rewrite E3, Hh. destruct (holds_lock p); [by apply Hl|done].
  - rewrite Hh. auto.
  - done.
Qed.

(** A test-and-set. *)
Lemma effect_lock s p Zs p' ok s' :
  zlist (marks s) (g_zombie_tlhs s) Zs -> links_ok s -> z_local s Zs p ->
  holds_lock p = false -> holds_lock ok = true -> owned ok = owned p -> z_local s Zs ok ->
  try_zombie_lock p ok s = Done p' s' -> z_effect s p Zs s' p' Zs [].
Proof.
  intros Hz Hk Hp Hf Ht Ho Hok. unfold try_zombie_lock. run_m. destruct (g_zombie_lock s) eqn:El; intros [= <- <-].
  - by apply effect_kept.
  - constructor; try done.
    + by rewrite Ho.
    + split; [constructor|]. intros h Hn. by apply not_elem_of_nil in Hn.
    + by rewrite Ht.
    + by right.
Qed.

Lemma effect_unlock s p Zs p' :
  zlist (marks s) (g_zombie_tlhs s) Zs -> links_ok s ->
  holds_lock p = true -> holds_lock p' = false -> owned p' = owned p -> z_local s Zs p' ->
  z_effect s p Zs (set_g_zombie_lock false s) p' Zs [].
Proof.
  intros Hz Hk Ht Hf Ho Hp. constructor; try done.
  - by rewrite Ho.
  - split; [constructor|]. intros h Hn. by apply not_elem_of_nil in Hn.
  - by rewrite Hf, Ht.
  - congruence.
Qed.

(** A thread writes the link and the flag of its own heap. *)
Lemma effect_own s p Zs p' h n f s' :
  zlist (marks s) (g_zombie_tlhs s) Zs -> links_ok s -> owned p = [h] -> owned p' = [h] -> h ∉ Zs ->
  marks s' = <[h := (n, f)]> (marks s) -> g_zombie_tlhs s' = g_zombie_tlhs s -> g_zombie_lock s' = g_zombie_lock s ->
  (n = NULL \/ is_Some (marks s !! n)) -> holds_lock p' = holds_lock p -> (holds_lock p = true -> g_zombie_lock s = true) ->
  z_local s' Zs p' -> z_effect s p Zs s' p' Zs [].
Proof.
  intros Hz Hk Ho Ho' Hn Em Eh El Hl Hh Ht Hp.
  assert (forall t, is_Some (marks s !! t) -> is_Some (marks s' !! t)) as Hd.
  { intros t [v Hv]. rewrite Em. destruct (decide (t = h)) as [->|]; [rewrite lookup_insert_eq|rewrite lookup_insert_ne by done]; eauto. }
  constructor; try done.
  - rewrite Em, Eh. clear -Hz Hn. revert Hz. generalize (g_zombie_tlhs s). induction Zs as [|z Zs IH]; intros a; cbn; [done|].
    intros (-> & Hz & m & Hm & Hl). split_and!; [done..|]. exists m. rewrite lookup_insert_ne by set_solver. split; [done|].
    apply IH; [set_solver|done].
  - intros t m g. rewrite Em at 1. intros [[<- [= <- <-]]|[Hne Ht']]%lookup_insert_Some.
    + destruct Hl as [?|?]; [by left|right; by apply Hd].
    + destruct (Hk t m g Ht'); [by left|right; by apply Hd].
  - by rewrite Ho, Ho'.
  - split; [constructor|]. intros t Ht'. by apply not_elem_of_nil in Ht'.
  - intros t v Hv. rewrite Ho. intros Hne. rewrite Em, lookup_insert_ne by set_solver. done.
  - rewrite El, Hh. destruct (holds_lock p); [by apply Ht|done].
  - rewrite Hh. auto.
Qed.

Lemma update_tlh_done h f s u s' : update_tlh h f s = Done u s' ->
  exists t, h_tlhs s !! h = Some t /\ marks s' = <[h := (next_zombie (f t), is_zombie (f t))]> (marks s) /\
    g_zombie_tlhs s' = g_zombie_tlhs s /\ g_zombie_lock s' = g_zombie_lock s.
Proof.
  unfold update_tlh, tlh_at. run_m. destruct (h_tlhs s !! h) as [t|] eqn:Et; [|done]. intros [= _ <-].
  exists t. split_and!; try done. unfold marks. cbn [h_tlhs set_h_tlhs]. by rewrite fmap_insert.
Qed.

Lemma marks_lookup s h n f : marks s !! h = Some (n, f) -> exists t, h_tlhs s !! h = Some t /\ next_zombie t = n /\ is_zombie t = f.
Proof. unfold marks. rewrite lookup_fmap. destruct (h_tlhs s !! h) as [t|]; [|done]. intros [= <- <-]. eauto. Qed.

Lemma tlh_at_done h s t s' : tlh_at h s = Done t s' -> s' = s /\ marks s !! h = Some (next_zombie t, is_zombie t).
Proof.
  unfold tlh_at. run_m. destruct (h_tlhs s !! h) as [t'|] eqn:Et; [|done]. intros [= <- <-]. split; [done|].
  unfold marks. by rewrite lookup_fmap, Et.
Qed.

Lemma registry_thread_id : respects registry_kept next_thread_id.
Proof. intros s r s' [= _ <-]. by constructor. Qed.
Lemma registry_attach h : respects registry_kept (attach_statistics h).
Proof. unfold attach_statistics. respects_solve. Qed.
Lemma registry_flush h : respects registry_kept (flush_statistics h).
Proof. unfold flush_statistics. respects_solve. Qed.

(** Allocation and release, from slabs, spans and mappings of their own, are
    among the uses of a heap that [z_works] allows. *)
Lemma registry_heap_use h n p :
  respects registry_kept (lz_tlh_alloc h n) /\ respects registry_kept (lz_span_alloc h n) /\
  respects registry_kept (lz_tlh_free h p) /\ respects registry_kept (lz_tlh_reap h) /\
  respects registry_kept (alloc_direct 128 n) /\ respects registry_kept (free_direct p).
Proof. unfold free_direct, direct_at. split_and!; respects_solve. Qed.

(** Adoption clears the flag. *)
Lemma adopt_done h s p' s' :
  (update_tlh h (set_is_zombie 0);; tid ← next_thread_id; update_tlh h (set_thread_id tid);; mret (RAttach h)) s = Done p' s' ->
  exists t, p' = RAttach h /\ h_tlhs s !! h = Some t /\ marks s' = <[h := (next_zombie t, 0)]> (marks s) /\
    g_zombie_tlhs s' = g_zombie_tlhs s /\ g_zombie_lock s' = g_zombie_lock s.
Proof.
  intros (u1 & s1 & E1 & Hm)%bind_done. apply bind_done in Hm as (tid & s2 & E2 & Hm). apply bind_done in Hm as (u3 & s3 & E3 & Hm).
  injection Hm as <- <-. apply update_tlh_done in E1 as (t & Ht & M1 & H1 & L1). apply registry_thread_id in E2 as [M2 H2 L2].
  assert (registry_kept s2 s3) as [M3 H3 L3].
  { eapply (respects_update_tlh registry_kept h (set_thread_id tid)); [by intros []|exact E3]. }
  exists t. split_and!; [done|done|rewrite M3, M2, M1; by destruct t|congruence..].
Qed.

(** A new heap is linked to nothing and in use. *)
Lemma map_done s p' s' :
  (o ← mmap sizeof_tlh;
   match o with
   | None => stop Trap
   | Some h =>
       modify (fun s => set_h_tlhs (<[h := zero_tlh]> (h_tlhs s)) s);;
       tid ← next_thread_id;
       lz_tlh_init h tid;;
       update_tlh h (set_is_zombie 0);;
       update_tlh h (set_next_zombie NULL);;
       mret (RAttach h)
   end) s = Done p' s' ->
  exists h, p' = RAttach h /\ marks s' = <[h := (NULL, 0)]> (marks s) /\
    g_zombie_tlhs s' = g_zombie_tlhs s /\ g_zombie_lock s' = g_zombie_lock s.
Proof.
  intros (o & s1 & E1 & Hm)%bind_done. apply (fr_mmap (R := registry_kept)) in E1 as [M1 H1 L1]. destruct o as [h|]; [|done].
  apply bind_done in Hm as (u2 & s2 & E2 & Hm). apply bind_done in Hm as (tid & s3 & E3 & Hm).
  apply registry_thread_id in E3 as [M3 H3 L3]. apply bind_done in Hm as (u4 & s4 & E4 & Hm).
  apply bind_done in Hm as (u5 & s5 & E5 & Hm). apply bind_done in Hm as (u6 & s6 & E6 & Hm). injection Hm as <- <-.
  apply update_tlh_done in E4 as (t4 & _ & M4 & H4 & L4), E5 as (t5 & Ht5 & M5 & H5 & L5), E6 as (t6 & Ht6 & M6 & H6 & L6).
  assert (marks s2 = <[h := (NULL, 0)]> (marks s1) /\ g_zombie_tlhs s2 = g_zombie_tlhs s1 /\ g_zombie_lock s2 = g_zombie_lock s1)
    as (M2 & H2 & L2).
  { injection E2 as _ <-. split_and!; try done. unfold marks. cbn [h_tlhs set_h_tlhs]. by rewrite fmap_insert. }
  exists h. split_and!; [done| |congruence..]. rewrite M6, M5, M4, M3, M2, M1, !insert_insert_eq. f_equal. f_equal.
  assert (marks s5 !! h = Some (next_zombie t6, is_zombie t6)) as Hk by (unfold marks; by rewrite lookup_fmap, Ht6).
  rewrite M5, lookup_insert_eq in Hk. injection Hk as _ Hk. cbn in Hk |- *. by destruct t6.
Qed.

(** The part of the configuration that one thread sees. *)
Record z_sees (s : state) (Zs : list Z) (p : zpc) : Prop := {
  zs_list : zlist (marks s) (g_zombie_tlhs s) Zs;
  zs_links : links_ok s;
  zs_local : z_local s Zs p;
  zs_lock : holds_lock p = true -> g_zombie_lock s = true;
  zs_own : forall h, h ∈ owned p -> h <> NULL /\ is_Some (marks s !! h) /\ h ∉ Zs
}.

Lemma z_at_sees s ps Zs i p : z_at (s, ps) Zs -> ps !! i = Some p -> z_sees s Zs p.
Proof.
  intros Hc Hi. constructor; [apply Hc|apply Hc|by apply (zi_local _ _ Hc i)| |].
  - intros Hp. apply (zi_lock _ _ Hc). cbn. eauto.
  - intros h Hh. pose proof (owned_rest ps i p Hi) as Ho.
    destruct (zi_known _ _ Hc h) as [? ?]; [cbn; rewrite Ho; set_solver|]. split_and!; [done..|].
    intros Hin. eapply listed_free; [exact Hc|exact Hi|exact Hin|exact Hh].
Qed.

(** The head of the registry is a heap or NULL. *)
Lemma zlist_head m a Zs : zlist m a Zs -> a = NULL \/ is_Some (m !! a).
Proof. destruct Zs as [|z l]; cbn; [by left|]. intros (-> & _ & n & -> & _). by right. Qed.

(** A thread maps a heap where none is. *)
Lemma effect_new s Zs h s' :
  z_sees s Zs RMap -> marks s' = <[h := (NULL, 0)]> (marks s) -> g_zombie_tlhs s' = g_zombie_tlhs s ->
  g_zombie_lock s' = g_zombie_lock s -> h <> NULL -> h_tlhs s !! h = None -> z_effect s RMap Zs s' (RAttach h) Zs [h].
Proof.
  intros [Hz Hk _ _ _] Em Eh El Hne Hnone.
  assert (marks s !! h = None) as Hnm by (unfold marks; by rewrite lookup_fmap, Hnone).
  assert (forall t v, marks s !! t = Some v -> marks s' !! t = Some v) as Hup.
  { intros t v Hv. rewrite Em, lookup_insert_ne; [done|]. congruence. }
  constructor; try done.
  - rewrite Eh. revert Hz. generalize (g_zombie_tlhs s). clear -Hup. induction Zs as [|z l IH]; intros a; cbn; [done|].
    intros (-> & ? & n & Hn & Hl). split_and!; [done..|]. exists n. auto.
  - intros t n f. rewrite Em at 1. intros [[<- [= <- <-]]|[Hne' Ht']]%lookup_insert_Some; [by left|].
    destruct (Hk t n f Ht') as [?|[v Hv]]; [by left|right; exists v; auto].
  - cbn. solve_Permutation.
  - split; [apply NoDup_singleton|]. intros t ->%list_elem_of_singleton. split_and!; [done..|]. by rewrite Em, lookup_insert_eq.
  - intros t v Hv _. by apply Hup.
  - intros t [v Hv]. exists v. auto.
  - exists NULL. by rewrite Em, lookup_insert_eq.
Qed.

Definition moves_on (s : state) (Zs : list Z) (p p' : zpc) (s' : state) : Prop :=
  exists Zs' new, z_effect s p Zs s' p' Zs' new.

Lemma moves_kept s Zs p p' s' :
  z_sees s Zs p -> registry_kept s s' -> owned p' = owned p -> holds_lock p' = holds_lock p -> z_local s Zs p' ->
  moves_on s Zs p p' s'.
Proof. intros Hv Hr ? ? ?. exists Zs, []. apply effect_kept; try done; apply Hv. Qed.

Definition exits (p : zpc) : bool :=
  match p with XFlush _ | XMark _ | XLock _ | XNext _ | XHead _ | XUnlock => true | _ => false end.
Definition collects (p : zpc) : bool :=
  match p with
  | CMine _ | CLock _ | CHead _ | CUnlock _ _ | CWalk _ _ | CNext _ _ | CPurge _ => true
  | _ => false
  end.

(** Adoption of a heap. *)
Lemma act_adopt s Zs p m p' s' :
  z_sees s Zs p -> z_act p = Some m -> m s = Done p' s' -> exits p || collects p = false ->
  (forall h, p = RMap -> p' = RAttach h -> h <> NULL /\ h_tlhs s !! h = None) ->
  moves_on s Zs p p' s'.
Proof.
  intros Hv Ha Hm Hp Hfr. pose proof Hv as [Hz Hk Hl Hlk Hown]. pose proof (moves_kept s Zs p p' s' Hv) as Hkept.
  destruct p as [| |h| | |h|h next|h|h|h| |h|h|h|h|h|h| |o|o|o|o cur|o cur|o cur|o];
    try discriminate Hp; try discriminate Ha; apply (inj Some) in Ha as <-; cbn [z_local holds_lock owned] in Hl, Hlk, Hown.
  - exists Zs, []. by apply (effect_lock s RLock Zs p' RHead).
  - (* RHead *) injection Hm as <- <-. destruct (Z.eqb_spec (g_zombie_tlhs s) NULL) as [E|E]; cbn [negb] in *.
    + by apply Hkept.
    + apply Hkept; try done. cbn. destruct Zs as [|z l]; [done|]. destruct Hz as (-> & _). eauto.
  - (* RNext *) apply bind_done in Hm as (t & s1 & [-> Et]%tlh_at_done & Hm). injection Hm as <- <-. apply Hkept; try done.
    destruct Hl as [l ->]. destruct Hz as (_ & _ & n & Hn & _). exists l. split; [done|]. rewrite Et in Hn |- *. by injection Hn as _ ->.
  - (* RPop *) injection Hm as <- <-. destruct Hl as (l & -> & Hn). destruct Hz as (E & Hne & n & Hn' & Hz).
    rewrite Hn in Hn'. injection Hn' as <-. exists l, []. constructor; try done.
    + cbn [owned]. solve_Permutation.
    + split; [constructor|]. intros t Ht. by apply not_elem_of_nil in Ht.
    + cbn. by rewrite Hlk.
    + by left.
  - (* RClear *) apply bind_done in Hm as (u & s1 & E & Hm). injection Hm as <- <-.
    apply update_tlh_done in E as (t & Ht & Em & Eh & El). destruct (Hown h) as (Hne & _ & Hnin); [by left|].
    exists Zs, []. eapply (effect_own s (RClear h) Zs (RUnlock h) h NULL (is_zombie t)); try done; [|by left].
    cbn. by zfalse (h =? NULL).
  - (* RUnlock *) injection Hm as <- <-. exists Zs, []. destruct (Z.eqb_spec h NULL) as [->|Hne]; apply effect_unlock; try done.
    cbn. by zfalse (h =? NULL).
  - (* RAdopt *) apply adopt_done in Hm as (t & -> & Ht & Em & Eh & El). destruct (Hown h) as (Hne & Hs & Hnin); [by left|].
    exists Zs, []. eapply (effect_own s (RAdopt h) Zs (RAttach h) h (next_zombie t) 0); try done.
    + apply (Hk h _ (is_zombie t)). unfold marks. by rewrite lookup_fmap, Ht.
    + exists (next_zombie t). by rewrite Em, lookup_insert_eq.
  - (* RMap *) apply map_done in Hm as (h & -> & Em & Eh & El). destruct (Hfr h eq_refl eq_refl) as [Hne Hnone].
    exists Zs, [h]. by apply effect_new.
  - (* RAttach *) apply bind_done in Hm as (u & s1 & E%registry_attach & Hm). injection Hm as <- <-. by apply Hkept.
Qed.

(** The exit of a thread. *)
Lemma act_exit s Zs p m p' s' :
  z_sees s Zs p -> z_act p = Some m -> m s = Done p' s' -> exits p = true ->
  moves_on s Zs p p' s'.
Proof.
  intros Hv Ha Hm Hp. pose proof Hv as [Hz Hk Hl Hlk Hown]. pose proof (moves_kept s Zs p p' s' Hv) as Hkept.
  destruct p as [| |h| | |h|h next|h|h|h| |h|h|h|h|h|h| |o|o|o|o cur|o cur|o cur|o];
    try discriminate Hp; try discriminate Ha; apply (inj Some) in Ha as <-; cbn [z_local holds_lock owned] in Hl, Hlk, Hown.
  - (* XFlush *) apply bind_done in Hm as (u & s1 & E1 & Hm). apply bind_done in Hm as (u2 & s2 & E2%registry_flush & Hm).
    injection Hm as <- <-. apply (respects_flush registry_kept) in E1. apply Hkept; try done. by etrans.
  - (* XMark *) apply bind_done in Hm as (u & s1 & E & Hm). injection Hm as <- <-.
    apply update_tlh_done in E as (t & Ht & Em & Eh & El). destruct (Hown h) as (Hne & Hs & Hnin); [by left|].
    exists Zs, []. eapply (effect_own s (XMark h) Zs (XLock h) h (next_zombie t) 1); try done.
    + apply (Hk h _ (is_zombie t)). unfold marks. by rewrite lookup_fmap, Ht.
    + exists (next_zombie t). rewrite Em, lookup_insert_eq. by destruct t.
  - exists Zs, []. by apply (effect_lock s (XLock h) Zs p' (XNext h)).
  - (* XNext *) apply bind_done in Hm as (z & s0 & E0 & Hm). injection E0 as <- <-. apply bind_done in Hm as (u & s1 & E & Hm).
    injection Hm as <- <-. apply update_tlh_done in E as (t & Ht & Em & Eh & El). destruct (Hown h) as (Hne & _ & Hnin); [by left|].
    destruct Hl as [n Hn]. apply marks_lookup in Hn as (t' & Ht' & _ & Ef). rewrite Ht in Ht'. injection Ht' as <-.
    pose proof (zlist_head _ _ _ Hz) as Hhead.
    exists Zs, []. eapply (effect_own s (XNext h) Zs (XHead h) h (g_zombie_tlhs s) 1); try done.
    + rewrite Em, <- Ef. by destruct t.
    + cbn. rewrite Em, lookup_insert_eq, Eh, <- Ef. by destruct t.
  - (* XHead *) injection Hm as <- <-. destruct (Hown h) as (Hne & _ & Hnin); [by left|]. exists (h :: Zs), []. constructor; try done.
    + cbn. split_and!; [done..|]. by exists (g_zombie_tlhs s).
    + cbn. solve_Permutation.
    + split; [constructor|]. intros t Ht. by apply not_elem_of_nil in Ht.
    + cbn. by rewrite Hlk.
    + by left.
  - injection Hm as <- <-. exists Zs, []. by apply effect_unlock.
Qed.

(** A collection. *)
Lemma act_collect s Zs p m p' s' :
  z_sees s Zs p -> z_act p = Some m -> m s = Done p' s' -> collects p = true ->
  moves_on s Zs p p' s'.
Proof.
  intros Hv Ha Hm Hp. pose proof Hv as [Hz Hk Hl Hlk Hown]. pose proof (moves_kept s Zs p p' s' Hv) as Hkept.
  destruct p as [| |h| | |h|h next|h|h|h| |h|h|h|h|h|h| |o|o|o|o cur|o cur|o cur|o];
    try discriminate Hp; try discriminate Ha; apply (inj Some) in Ha as <-; cbn [z_local holds_lock owned] in Hl, Hlk, Hown.
  - (* CMine *) apply bind_done in Hm as (u & s1 & E & Hm). injection Hm as <- <-. apply Hkept; try done.
    destruct o as [h|]; [by apply (respects_reap registry_kept) in E|by injection E as _ <-].
  - exists Zs, []. by apply (effect_lock s (CLock o) Zs p' (CHead o)).
  - injection Hm as <- <-. apply Hkept; try done. split; [by apply (zlist_head _ _ _ Hz)|done].
  - injection Hm as <- <-. exists Zs, []. by apply effect_unlock.
  - (* CWalk *) destruct Hl as [Hcur Hl]. destruct (Z.eqb_spec cur NULL) as [E|E].
    + injection Hm as <- <-. by apply Hkept.
    + apply bind_done in Hm as (u & s1 & E1 & Hm). injection Hm as <- <-. apply (respects_reap registry_kept) in E1.
      apply Hkept; try done. cbn. destruct Hcur; [done|]. done.
  - (* CNext *) apply bind_done in Hm as (t & s1 & [-> Et]%tlh_at_done & Hm). injection Hm as <- <-. destruct Hl as [Hcur Hl].
    apply Hkept; try done. cbn. split; [|done]. by apply Hk in Et.
  - (* CPurge *) apply bind_done in Hm as (u & s1 & E & Hm). injection Hm as <- <-. apply (respects_purge registry_kept) in E.
    apply Hkept; try (by destruct o). destruct o as [h|]; [|done]. by apply Hl.
Qed.

Lemma z_act_ok s Zs p m p' s' :
  z_sees s Zs p -> z_act p = Some m -> m s = Done p' s' ->
  (forall h, p = RMap -> p' = RAttach h -> h <> NULL /\ h_tlhs s !! h = None) -> moves_on s Zs p p' s'.
Proof.
  intros Hv Ha Hm Hfr. destruct (exits p) eqn:Ex; [by eapply act_exit|].
  destruct (collects p) eqn:Ec; [by eapply act_collect|]. eapply act_adopt; [done..| |done]. by rewrite Ex, Ec.
Qed.

End acts.

(** ** Executions *)

Section executions.
Context `{Env}.

Lemma z_move s ps Zs i p p' s' :
  z_at (s, ps) Zs -> ps !! i = Some p -> moves_on s Zs p p' s' ->
  exists Zs', z_at (s', <[i := p']> ps) Zs' /\ forall h, h ∈ Zs ++ all_owned ps -> h ∈ Zs' ++ all_owned (<[i := p']> ps).
Proof.
  intros Hc Hi (Zs' & new & He). exists Zs'. split; [by eapply effect_ok|].
  intros h Hh. rewrite (places_after s ps Zs i p Hi s' p' Zs' new He). set_solver.
Qed.

Lemma z_step_ok c c' Zs : z_at c Zs -> z_step c c' ->
  exists Zs', z_at c' Zs' /\ forall h, h ∈ Zs ++ all_owned c.2 -> h ∈ Zs' ++ all_owned c'.2.
Proof.
  intros Hc Hs. destruct Hs as [s ps i Hi|s ps i h Hi|s ps i o Hi|s ps i p m p' s' Hi Ha Hm Hfr|A s ps i h m r s' Hi Hr Hm];
    pose proof (z_at_sees s ps Zs i _ Hc Hi) as Hv.
  - eapply z_move; [done..|]. by apply moves_kept.
  - eapply z_move; [done..|]. apply moves_kept; try done. apply Hv.
  - eapply z_move; [done..|]. apply moves_kept; try (by destruct o). pose proof (zs_local _ _ _ Hv) as Hl.
    intros h ->. exact Hl.
  - eapply z_move; [done..|]. by eapply z_act_ok.
  - assert (moves_on s Zs (ZUses h) (ZUses h) s') as Hmv by (apply moves_kept; try done; [by eapply Hr|apply Hv]).
    apply (z_move s ps Zs i (ZUses h)) in Hmv as (Zs' & Hc' & Hst); [|done..]. rewrite (list_insert_id ps i (ZUses h) Hi) in Hc', Hst. eauto.
Qed.

(** Points that only access the registry and the words of the own heap. *)
Definition registry_point (p : zpc) : bool :=
  match p with RMap | XFlush _ | CMine _ | CWalk _ _ | CPurge _ => false | _ => true end.

(** The next access of every thread to the registry succeeds. *)
Definition z_runs (c : zconfig) : Prop :=
  forall i p m, c.2 !! i = Some p -> z_act p = Some m -> registry_point p = true ->
    exists p' s', m c.1 = Done p' s'.

Lemma tlh_at_runs s h : is_Some (marks s !! h) -> exists t, tlh_at h s = Done t s.
Proof.
  unfold marks. rewrite lookup_fmap. intros [v Hv]. destruct (h_tlhs s !! h) as [t|] eqn:Et; [|done].
  exists t. unfold tlh_at. run_m. by rewrite Et.
Qed.
Lemma update_tlh_runs s h f : is_Some (marks s !! h) ->
  exists s', update_tlh h f s = Done tt s' /\ is_Some (marks s' !! h).
Proof.
  intros Hs. destruct (tlh_at_runs s h Hs) as [t Ht]. unfold update_tlh. unfold mbind, M_bind. rewrite Ht. eexists. split; [reflexivity|].
  unfold marks. cbn [h_tlhs set_h_tlhs]. by rewrite fmap_insert, lookup_insert_eq.
Qed.

Lemma attach_runs s h : is_Some (marks s !! h) -> exists s', attach_statistics h s = Done tt s'.
Proof.
  intros H1. unfold attach_statistics. destruct (update_tlh_runs s h (set_local_bytes_alloc_batch 0) H1) as (s1 & E1 & H2).
  destruct (update_tlh_runs s1 h (set_local_bytes_free_batch 0) H2) as (s2 & E2 & H3). destruct (tlh_at_runs s2 h H3) as [t E3].
  unfold mbind, M_bind. rewrite E1, E2, E3. unfold lz_telemetry_get_slot. run_m. destruct (_ || _);
    match goal with |- context [update_tlh h ?f s2] => destruct (update_tlh_runs s2 h f H3) as (s3 & -> & _) end; by exists s3.
Qed.

Lemma z_at_runs c Zs : z_at c Zs -> z_runs c.
Proof.
  destruct c as [s ps]. intros Hc i p m Hi Ha Hp. cbn in Hi. destruct (z_at_sees s ps Zs i p Hc Hi) as [Hz Hk Hl _ Hown]. cbn [fst].
  assert (forall h, h ∈ owned p -> is_Some (marks s !! h)) as Hs by (intros h Hh; by apply Hown).
  assert (forall spin ok, exists p' s', try_zombie_lock spin ok s = Done p' s') as Htry.
  { intros spin ok. unfold try_zombie_lock. run_m. destruct (g_zombie_lock s); eauto. }
  destruct p as [| |h| | |h|h next|h|h|h| |h|h|h|h|h|h| |o|o|o|o cur|o cur|o cur|o];
    try discriminate Hp; try discriminate Ha; apply (inj Some) in Ha as <-; cbn [z_local owned] in Hl, Hs; try apply Htry.
  all: try (run_m; eauto; fail).
  - destruct Hl as [l ->]. destruct Hz as (_ & _ & n & Hn & _). destruct (tlh_at_runs s h) as [t Et]; [by rewrite Hn|].
    unfold mbind, M_bind. rewrite Et. eauto.
  - destruct (update_tlh_runs s h (set_next_zombie NULL)) as (s1 & E1 & _); [apply Hs; by left|]. unfold mbind, M_bind. rewrite E1. eauto.
  - destruct (update_tlh_runs s h (set_is_zombie 0)) as (s1 & E1 & H1); [apply Hs; by left|]. unfold mbind, M_bind. rewrite E1.
    destruct (next_thread_id s1) as [tid s2|] eqn:E2; [|done]. apply registry_thread_id in E2 as [M2 _ _].
    destruct (update_tlh_runs s2 h (set_thread_id tid)) as (s3 & E3 & _); [by rewrite M2|]. rewrite E3. eauto.
  - destruct (attach_runs s h) as [s1 E1]; [apply Hs; by left|]. unfold mbind, M_bind. rewrite E1. eauto.
  - destruct (update_tlh_runs s h (set_is_zombie 1)) as (s1 & E1 & _); [apply Hs; by left|]. unfold mbind, M_bind. rewrite E1. eauto.
  - destruct (update_tlh_runs s h (set_next_zombie (g_zombie_tlhs s))) as (s1 & E1 & _); [apply Hs; by left|].
    unfold mbind, M_bind, fetch. rewrite E1. eauto.
  - destruct Hl as [Hcur _]. destruct (tlh_at_runs s cur Hcur) as [t Et]. unfold mbind, M_bind. rewrite Et. eauto.
Qed.

(** C9. The registry of heaps is safe under every interleaving: threads start,
    exit and collect at the same time, one access to the registry at a time,
    while others use their heaps in any way that leaves the registry alone.
    Every heap is registered once or belongs to exactly one thread, none is
    lost, registered heaps are marked as left behind and heaps in use are not,
    the lock excludes, and no access to the registry faults. *)
Theorem registry_race_safe c c' Zs :
  z_at c Zs -> rtc z_step c c' ->
  z_runs c' /\ exists Zs', z_at c' Zs' /\
    (forall h, h ∈ Zs ++ all_owned c.2 -> h ∈ Zs' ++ all_owned c'.2) /\
    (forall i j p q h, i <> j -> c'.2 !! i = Some p -> c'.2 !! j = Some q -> h ∈ owned p -> h ∉ owned q /\ h ∉ Zs').
Proof.
  intros Hc Hr. enough (exists Zs', z_at c' Zs' /\ forall h, h ∈ Zs ++ all_owned c.2 -> h ∈ Zs' ++ all_owned c'.2) as (Zs' & Hc' & Hst).
  { split; [by eapply z_at_runs|]. exists Zs'. split_and!; [done..|]. intros i j p q h Hij Hi Hj Hh. destruct c' as [s ps].
    destruct (others_apart s ps Zs' j q Hc' Hj i p h Hij Hi Hh) as [? ?]. done. }
  revert Zs Hc. induction Hr as [c|c c1 c' Hs _ IH]; intros Zs Hc; [by exists Zs|].
  destruct (z_step_ok c c1 Zs Hc Hs) as (Zs1 & Hc1 & H1). destruct (IH Zs1 Hc1) as (Zs' & Hc' & H2).
  exists Zs'. split; [done|]. auto.
Qed.

End executions.

(** ** Schedules *)

Inductive z_event := ECall (i : nat) | EExit (i : nat) | EGc (i : nat) | EStep (i : nat).

(** A new heap may be placed at the point the action leads to. *)
Definition fresh_heap (s : state) (p p' : zpc) : bool :=
  match p, p' with
  | RMap, RAttach h => negb (h =? NULL) && match h_tlhs s !! h with None => true | Some _ => false end
  | _, _ => true
  end.

Section schedules.
Context `{Env}.

Definition z_event_step (e : z_event) (c : zconfig) : option zconfig :=
  let '(s, ps) := c in
  match e with
  | ECall i => match ps !! i with Some ZIdle => Some (s, <[i := RLock]> ps) | _ => None end
  | EExit i => match ps !! i with Some (ZUses h) => Some (s, <[i := XFlush h]> ps) | _ => None end
  | EGc i =>
      match ps !! i with
      | Some ZIdle => Some (s, <[i := CMine None]> ps)
      | Some (ZUses h) => Some (s, <[i := CMine (Some h)]> ps)
      | _ => None
      end
  | EStep i =>
      match ps !! i with
      | Some p =>
          match z_act p with
          | Some m =>
              match m s with
              | Done p' s' => if fresh_heap s p p' then Some (s', <[i := p']> ps) else None
              | Stop _ _ => None
              end
          | None => None
          end
      | None => None
      end
  end.

Fixpoint z_sched (es : list z_event) (c : zconfig) : option zconfig :=
  match es with
  | [] => Some c
  | e :: es => match z_event_step e c with Some c' => z_sched es c' | None => None end
  end.

Lemma z_event_sound e c c' : z_event_step e c = Some c' -> z_step c c'.
Proof.
  destruct c as [s ps]. destruct e as [i|i|i|i]; cbn [z_event_step].
  - destruct (ps !! i) as [[]|] eqn:Hi; intros [= <-]. by apply z_first_call.
  - destruct (ps !! i) as [[]|] eqn:Hi; intros [= <-]. by apply z_exit.
  - destruct (ps !! i) as [[]|] eqn:Hi; intros [= <-]; [by apply (z_collect s ps i None)|by apply (z_collect s ps i (Some h))].
  - destruct (ps !! i) as [p|] eqn:Hi; [|done]. destruct (z_act p) as [m|] eqn:Ha; [|done].
    destruct (m s) as [p' s'|] eqn:Hm; [|done]. destruct (fresh_heap s p p') eqn:Hf; [|done]. intros [= <-].
    eapply z_acts; [done..|]. intros h -> ->. cbn in Hf. apply andb_true_iff in Hf as [H1 H2].
    apply negb_true_iff, Z.eqb_neq in H1. by destruct (h_tlhs s !! h).
Qed.

Lemma z_sched_sound es c c' : z_sched es c = Some c' -> rtc z_step c c'.
Proof.
  revert c. induction es as [|e es IH]; intros c; cbn; [intros [= <-]; apply rtc_refl|].
  destruct (z_event_step e c) as [c1|] eqn:E; [|done]. intros Hs. eapply rtc_l; [by eapply z_event_sound|by apply IH].
Qed.

End schedules.

(** ** A collector and a new owner *)

(** A process that starts: [k] threads, no heap. *)
Definition z_boot (k : nat) : zconfig := (boot_state, replicate k ZIdle).

Lemma z_boot_at k : z_at (z_boot k) [].
Proof.
  assert (all_owned (replicate k ZIdle) = []) as E by (unfold all_owned; clear; by induction k).
  constructor; cbn [z_boot fst snd]; rewrite ?E; try done.
  - constructor.
  - intros h Hh. by apply not_elem_of_nil in Hh.
  - by intros i p [-> _]%lookup_replicate.
  - split; [done|]. by intros (i & p & [-> _]%lookup_replicate & ?).
  - by intros i j p q [-> _]%lookup_replicate.
Qed.

(** Thread 0 gets a heap and exits; thread 1 collects and reads the list;
    thread 2 adopts the heap before the collector reaps it. *)
Definition collector_overtaken : list z_event :=
  [ECall 0] ++ replicate 5 (EStep 0) ++ [EExit 0] ++ replicate 6 (EStep 0) ++
  [EGc 1] ++ replicate 4 (EStep 1) ++ [ECall 2] ++ replicate 8 (EStep 2).

Definition shared_heap (c : zconfig) : bool :=
  match c.2 with
  | [ZDone; CWalk None h; ZUses h'] => negb (h =? NULL) && (h =? h')
  | _ => false
  end.

Lemma collector_overtaken_run :
  match z_sched collector_overtaken (z_boot 3) with Some c => shared_heap c | None => false end = true.
Proof. vm_compute. reflexivity. Qed.

(** C38. A collector can reap a heap that is in use: it reads the list of
    registered heaps under the lock and walks it afterwards, so a thread that
    starts in between adopts a heap of the list; then one thread uses the heap
    while the next action of the other is to reap the same heap. *)
Theorem gc_reaps_adopted_heap : exists c' h,
  rtc z_step (z_boot 3) c' /\ c'.2 = [ZDone; CWalk None h; ZUses h] /\
  z_act (CWalk None h) = Some (lz_tlh_reap h;; mret (CNext None h)).
Proof.
  pose proof collector_overtaken_run as Hr. destruct (z_sched collector_overtaken (z_boot 3)) as [c'|] eqn:E; [|done].
  apply z_sched_sound in E. destruct c' as [s ps]. unfold shared_heap in Hr. cbn in Hr. repeat case_match; simplify_eq.
  apply andb_true_iff in Hr as [H1 H2]. apply negb_true_iff, Z.eqb_neq in H1. apply Z.eqb_eq in H2 as <-.
  eexists _, _. split_and!; [exact E|done|]. cbn. by zfalse (current =? NULL).
Qed.

(** ** Witnesses *)

(** The heap is registered while one thread collects and another starts. *)
Definition registry_demo : list z_event :=
  [ECall 0] ++ replicate 5 (EStep 0) ++ [EExit 0] ++ replicate 6 (EStep 0) ++ [EGc 1; EStep 1; EStep 1; ECall 2; EStep 2].
Definition registry_config : zconfig := default (z_boot 3) (z_sched registry_demo (z_boot 3)).

Lemma registry_run : rtc z_step (z_boot 3) registry_config.
Proof.
  unfold registry_config. destruct (z_sched registry_demo (z_boot 3)) as [c|] eqn:E; [by apply z_sched_sound in E|apply rtc_refl].
Qed.

Lemma registry_race_safe_witness : z_runs registry_config.
Proof. exact (proj1 (registry_race_safe (z_boot 3) registry_config [] (z_boot_at 3) registry_run)). Defined.
