(* ===== verification/RegistryProgress.v ===== *)
(** * Threads on the registry make progress

    The lock of the registry of heaps is always released, and the start and the
    exit of a thread (RegistryRace.v) take a bounded number of accesses to the
    registry once the thread gets the lock. *)

From S2P Require Import Prelude Common Machine Wp Testbed Security Rtree Vmm VmmSpec Telemetry Span Slab Tlh Lzmalloc.
From S2P Require Import Frame Interleave RegistryRace.

(** The actions until the thread at this point lets go of the lock. *)
Definition z_hold (p : zpc) : nat :=
  match p with
  | RHead => 5 | RNext _ => 4 | RPop _ _ => 3 | RClear _ => 2 | RUnlock _ => 1
  | XNext _ => 3 | XHead _ => 2 | XUnlock => 1
  | CHead _ => 2 | CUnlock _ _ => 1
  | _ => 0
  end%nat.

(** The actions that remain of the start or the exit of a thread. *)
Definition z_left (p : zpc) : nat :=
  match p with
  | RLock => 8 | RHead => 7 | RNext _ => 6 | RPop _ _ => 5 | RClear _ => 4 | RUnlock _ => 3
  | RAdopt _ => 2 | RMap => 2 | RAttach _ => 1
  | XFlush _ => 6 | XMark _ => 5 | XLock _ => 4 | XNext _ => 3 | XHead _ => 2 | XUnlock => 1
  | _ => 0
  end%nat.

Section progress.
Context `{Env}.

(** An action of thread [i]. *)
Inductive z_acts_alone (i : nat) : zconfig -> zconfig -> Prop :=
  | z_acts_one s ps p m p' s' :
      ps !! i = Some p -> z_act p = Some m -> m s = Done p' s' -> z_acts_alone i (s, ps) (s', <[i := p']> ps).

Lemma try_zombie_end spin ok s p' s' :
  try_zombie_lock spin ok s = Done p' s' -> p' = spin /\ g_zombie_lock s = true \/ p' = ok.
Proof. unfold try_zombie_lock. run_m. destruct (g_zombie_lock s); intros [= <- <-]; auto. Qed.

(** Splits an action into its parts, down to the point it ends at. *)
Ltac z_end Hm :=
  repeat match type of Hm with
  | mbind _ _ _ = Done _ _ => apply bind_done in Hm as (? & ? & ? & Hm)
  | match ?x with _ => _ end _ = Done _ _ => destruct x
  end;
  try discriminate Hm; try (injection Hm as <- <-).

(** A holder comes closer to the release; nothing but the release ends its
    critical section. *)
Lemma hold_less p m s p' s' :
  holds_lock p = true -> z_act p = Some m -> m s = Done p' s' ->
  if holds_lock p' then (z_hold p' < z_hold p)%nat else g_zombie_lock s' = false.
Proof.
  intros Hp Ha Hm. destruct p; try discriminate Hp; apply (inj Some) in Ha as <-.
  all: z_end Hm; repeat case_match; simplify_eq; cbn in *; try lia; try discriminate.
  all: revert select (zombie_unlock _ = _); by intros [= _ <-].
Qed.

(** A thread that starts or exits comes closer to its end, or waits for the
    lock. *)
Lemma left_less p m s p' s' :
  collects p = false -> z_act p = Some m -> m s = Done p' s' ->
  (z_left p' < z_left p)%nat \/ p' = p /\ g_zombie_lock s = true.
Proof.
  intros Hp Ha Hm. destruct p; try discriminate Hp; try discriminate Ha; apply (inj Some) in Ha as <-.
  all: try (apply try_zombie_end in Hm as [[-> ->]| ->]; [by right|left; cbn; lia]).
  all: left; z_end Hm; repeat case_match; simplify_eq; cbn in *; lia.
Qed.

Lemma let_go n c Zs i p :
  z_at c Zs -> c.2 !! i = Some p -> holds_lock p = true -> (z_hold p <= n)%nat ->
  exists k c', (k <= n)%nat /\ nsteps (z_acts_alone i) k c c' /\ g_zombie_lock c'.1 = false.
Proof.
  revert c Zs p. induction n as [|n IH]; intros [s ps] Zs p Hc Hi Hp Hn; cbn in Hi; [by destruct p; cbn in Hp, Hn; try lia|].
  assert (exists m, z_act p = Some m) as [m Ha] by (destruct p; try discriminate Hp; eauto).
  assert (p <> RMap) as Hr by (by intros ->). assert (registry_point p = true) as Hrp by (by destruct p).
  destruct (z_at_runs _ _ Hc i p m Hi Ha Hrp) as (p' & s' & Hm). cbn in Hm.
  assert (z_acts_alone i (s, ps) (s', <[i := p']> ps)) as Hs by (by eapply z_acts_one).
  destruct (z_step_ok (s, ps) (s', <[i := p']> ps) Zs Hc) as (Zs' & Hc' & _).
  { eapply z_acts; [done..|]. by intros h ->. }
  pose proof (hold_less p m s p' s' Hp Ha Hm) as Hh. destruct (holds_lock p') eqn:Hp'.
  - destruct (IH _ Zs' p' Hc') as (k & c' & Hk & Hns & Ht); [|done|lia|].
    + cbn. apply list_lookup_insert_eq. by eapply lookup_lt_Some.
    + exists (S k), c'. split_and!; [lia|by eapply nsteps_l|done].
  - exists 1%nat, (s', <[i := p']> ps). split_and!; [lia|by apply nsteps_once|done].
Qed.

(** C23. Threads on the registry of heaps make progress: in every configuration
    they can reach, the lock is free or has exactly one holder, which releases
    it after at most five actions of its own; and each action of a thread that
    starts or exits brings it closer to its end, at most eight actions away,
    unless the lock is taken at that moment. *)
Theorem registry_lock_released c c' Zs :
  z_at c Zs -> rtc z_step c c' ->
  (g_zombie_lock c'.1 = true ->
     exists i p, c'.2 !! i = Some p /\ holds_lock p = true /\
       (forall j q, c'.2 !! j = Some q -> holds_lock q = true -> j = i) /\
       exists k c'', (k <= 5)%nat /\ nsteps (z_acts_alone i) k c' c'' /\ g_zombie_lock c''.1 = false) /\
  (forall i p m p' s', c'.2 !! i = Some p -> collects p = false -> z_act p = Some m -> m c'.1 = Done p' s' ->
     (z_left p' < z_left p <= 8)%nat \/ p' = p /\ g_zombie_lock c'.1 = true).
Proof.
  intros Hc Hr. assert (exists Zs', z_at c' Zs') as [Zs' Hc'].
  { revert Zs Hc. induction Hr as [c|c c1 c' Hs _ IH]; intros Zs Hc; [by exists Zs|].
    destruct (z_step_ok c c1 Zs Hc Hs) as (Zs1 & Hc1 & _). eauto. }
  split.
  - intros Hl. apply (zi_lock _ _ Hc') in Hl as (i & p & Hi & Hp). exists i, p. split_and!; [done..| |].
    + intros j q Hj Hq. by eapply (zi_excl _ _ Hc').
    + eapply let_go; [done..|]. destruct p; cbn; lia.
  - intros i p m p' s' _ Hp Ha Hm. destruct (left_less p m _ p' s' Hp Ha Hm) as [?|?]; [left|by right].
    split; [done|]. destruct p; cbn; lia.
Qed.

End progress.

(** ** Witness *)

(** Thread 1 reads the registry under the lock, which thread 2 waits for. *)
Definition reading_config : zconfig :=
  default (z_boot 3) (z_sched (registry_demo ++ [EStep 2]) (z_boot 3)).

Lemma reading_run : rtc z_step (z_boot 3) reading_config.
Proof.
  unfold reading_config. destruct (z_sched _ (z_boot 3)) as [c|] eqn:E; [by apply z_sched_sound in E|apply rtc_refl].
Qed.

Lemma registry_lock_released_witness : g_zombie_lock reading_config.1 = true /\
  exists i p, reading_config.2 !! i = Some p /\ holds_lock p = true.
Proof.
  assert (g_zombie_lock reading_config.1 = true) as Hl by (vm_compute; reflexivity). split; [exact Hl|].
  destruct (proj1 (registry_lock_released (z_boot 3) reading_config [] (z_boot_at 3) reading_run) Hl) as (i & p & Hi & Hp & _).
  exists i, p. split; [exact Hi|exact Hp].
Defined.
