(* ===== verification/VmmRace.v ===== *)
(** * Threads that race on the chunk manager

    [lz_vmm_alloc_chunk], [lz_vmm_free_chunk] and [lz_vmm_purge_all_caches] of
    vmm.c run by any number of threads at once, one access to shared memory at
    a time: the spinlocks exclude each other, no chunk is lost or handed out
    twice, no access faults, and every lock is released.  A thread that waits
    for a lock repeats its test-and-set. *)

From S2P Require Import Prelude Common Machine Wp Testbed Security Vmm VmmSpec Interleave.

(** ** The code *)

(** What follows a push onto the global list: nothing, the walk of the purge,
    or the next chunk of an extent mapped for node [n] at [a]. *)
Inductive push_goal :=
  | ToFree
  | ToPurge (i next : Z)
  | ToExtent (n a j : Z).

Inductive vpc :=
  | VIdle
  | VRet (r : Z)
  (* lz_vmm_alloc_chunk: the cache of the node *)
  | ANode
  | ALock (n : Z)
  | ATop (n : Z)
  | ANext (n top : Z)
  | APop (n top next : Z)
  | ACount (n top : Z)
  | AUnlock (n top : Z)
  | AClear (top : Z)
  (* the global list, before and after a new extent *)
  | GLock (n : Z) (again : bool)
  | GTest (n : Z)
  | GUnlockEmpty (n : Z)
  | GExtent (n : Z)
  | GTop (n : Z)
  | GNext (n top : Z)
  | GPop (n top next : Z)
  | GUnlock (n top : Z)
  | GStamp (n top : Z)
  (* a push onto the global list *)
  | PushLock (c : Z) (k : push_goal)
  | PushNext (c : Z) (k : push_goal)
  | PushHead (c : Z) (k : push_goal)
  | PushUnlock (k : push_goal)
  (* lz_vmm_free_chunk *)
  | FStart (c : Z)
  | FLock (n c : Z)
  | FCount (n c : Z)
  | FTop (n c : Z)
  | FHead (n c : Z)
  | FInc (n : Z)
  | FUnlock (n : Z) (r : option Z)
  | FDrop (c : Z) (k : push_goal)
  (* lz_vmm_purge_all_caches *)
  | PLock (i : Z)
  | PTake (i : Z)
  | PZero (i chunk : Z)
  | PUnlock (i chunk : Z)
  | PWalk (i chunk : Z).

Definition after_push (k : push_goal) : vpc :=
  match k with
  | ToExtent n a j =>
      if j + 1 <? LZ_EXTENT_CHUNKS
      then PushNext (u64 (a + (j + 1) * LZ_HUGE_PAGE_SIZE)) (ToExtent n a (j + 1))
      else PushUnlock k
  | _ => PushUnlock k
  end.
Definition after_unlock (k : push_goal) : vpc :=
  match k with
  | ToFree => VIdle
  | ToPurge i next => PWalk i next
  | ToExtent n _ _ => GLock n true
  end.

Section code.
Context `{Env}.

(** One test-and-set. *)
Definition try_pool_lock (n : Z) (spin ok : vpc) : M vpc :=
  o ← fetch (fun s => g_pool_locks s !! Z.to_nat n);
  match o with
  | None => stop Segv
  | Some true => mret spin
  | Some false => modify (fun s => set_g_pool_locks (<[Z.to_nat n := true]> (g_pool_locks s)) s);; mret ok
  end.
Definition try_global_lock (spin ok : vpc) : M vpc :=
  b ← fetch g_global_pool_lock;
  if b : bool then mret spin else modify (set_g_global_pool_lock true);; mret ok.

(** An action is one access to shared memory, a system call, or writes to a
    chunk that the thread has to itself.  Mapping and trimming an extent is one
    action. *)

(** [lz_vmm_alloc_chunk], up to the push of a new extent. *)
Definition alloc_act (p : vpc) : option (M vpc) :=
  match p with
  | ANode => Some (n ← lz_get_current_node; mret (ALock n))
  | ALock n => Some (try_pool_lock n (ALock n) (ATop n))
  | ATop n => Some (
      p ← pool_at (lz_topology_get_pool n);
      let top := free_chunks p in
      mret (if negb (top =? NULL) then ANext n top else AUnlock n NULL))
  | ANext n top => Some (c ← chunk_at top; mret (APop n top (chunk_next c)))
  | APop n top next => Some (
      update_pool (lz_topology_get_pool n) (set_free_chunks next);; mret (ACount n top))
  | ACount n top => Some (
      update_pool (lz_topology_get_pool n)
        (fun p => set_available_count (u64 (available_count p - 1)) p);; mret (AUnlock n top))
  | AUnlock n top => Some (
      pool_unlock n;; mret (if negb (top =? NULL) then AClear top else GLock n false))
  | AClear top => Some (update_chunk top (set_chunk_next NULL);; mret (VRet top))
  | GLock n again => Some (try_global_lock (GLock n again) (if again then GTop n else GTest n))
  | GTest n => Some (
      top ← fetch g_global_free_chunks;
      mret (if top =? NULL then GUnlockEmpty n else GTop n))
  | GUnlockEmpty n => Some (global_pool_unlock;; mret (GExtent n))
  | GExtent n => Some (
      o ← map_huge_aligned LZ_EXTENT_SIZE;
      match o with
      | None => mret (GLock n true)
      | Some a => madvise_hugepage a LZ_EXTENT_SIZE;; mret (PushLock (u64 (a + 0 * LZ_HUGE_PAGE_SIZE)) (ToExtent n a 0))
      end)
  | GTop n => Some (
      top ← fetch g_global_free_chunks;
      mret (if negb (top =? NULL) then GNext n top else GUnlock n NULL))
  | GNext n top => Some (c ← chunk_at top; mret (GPop n top (chunk_next c)))
  | GPop n top next => Some (modify (set_g_global_free_chunks next);; mret (GUnlock n top))
  | GUnlock n top => Some (
      global_pool_unlock;; mret (if top =? NULL then VRet NULL else GStamp n top))
  | GStamp n top => Some (
      update_chunk top (set_chunk_next NULL);;
      update_chunk top (set_owning_tlh NULL);;
      update_chunk top (set_node_id n);;
      update_chunk top (set_magic LZ_CHUNK_MAGIC_V2);;
      update_chunk top (set_canary 0);;
      update_chunk top (set_checksum 0);;
      mret (VRet top))
  | _ => None
  end.

(** Pushes onto the global list: the chunks of an extent, or one chunk. *)
Definition push_act (p : vpc) : option (M vpc) :=
  match p with
  | PushLock c k => Some (try_global_lock (PushLock c k) (PushNext c k))
  | PushNext c k => Some (
      top ← fetch g_global_free_chunks;
      update_chunk c (set_chunk_next top);; mret (PushHead c k))
  | PushHead c k => Some (modify (set_g_global_free_chunks c);; mret (after_push k))
  | PushUnlock k => Some (global_pool_unlock;; mret (after_unlock k))
  | _ => None
  end.

(** [lz_vmm_free_chunk], up to the push; the purge retires chunks the same way. *)
Definition free_act (p : vpc) : option (M vpc) :=
  match p with
  | FStart c => Some (
      if c =? NULL then mret VIdle
      else
        h ← chunk_at c;
        mret (if negb (magic h =? LZ_CHUNK_MAGIC_V2) then VIdle else FLock (node_id h) c))
  | FLock n c => Some (try_pool_lock n (FLock n c) (FCount n c))
  | FCount n c => Some (
      p ← pool_at (lz_topology_get_pool n);
      mret (if available_count p <? LZ_VMM_MAX_CACHED_CHUNKS then FTop n c else FUnlock n (Some c)))
  | FTop n c => Some (
      p ← pool_at (lz_topology_get_pool n);
      update_chunk c (set_chunk_next (free_chunks p));; mret (FHead n c))
  | FHead n c => Some (update_pool (lz_topology_get_pool n) (set_free_chunks c);; mret (FInc n))
  | FInc n => Some (
      update_pool (lz_topology_get_pool n)
        (fun p => set_available_count (u64 (available_count p + 1)) p);; mret (FUnlock n None))
  | FUnlock n r => Some (
      pool_unlock n;; mret (match r with Some c => FDrop c ToFree | None => VIdle end))
  | FDrop c k => Some (
      madvise_dontneed (c + LZ_PAGE_SIZE) (LZ_HUGE_PAGE_SIZE - LZ_PAGE_SIZE);; mret (PushLock c k))
  | _ => None
  end.

(** [lz_vmm_purge_all_caches]. *)
Definition purge_act (p : vpc) : option (M vpc) :=
  match p with
  | PLock i => Some (try_pool_lock i (PLock i) (PTake i))
  | PTake i => Some (
      p ← pool_at (lz_topology_get_pool i);
      update_pool (lz_topology_get_pool i) (set_free_chunks NULL);; mret (PZero i (free_chunks p)))
  | PZero i chunk => Some (
      update_pool (lz_topology_get_pool i) (set_available_count 0);; mret (PUnlock i chunk))
  | PUnlock i chunk => Some (pool_unlock i;; mret (PWalk i chunk))
  | PWalk i chunk => Some (
      if chunk =? NULL then mret (if i + 1 <? LZ_MAX_NUMA_NODES then PLock (i + 1) else VIdle)
      else c ← chunk_at chunk; mret (FDrop chunk (ToPurge i (chunk_next c))))
  | _ => None
  end.

Definition vm_act (p : vpc) : option (M vpc) :=
  match p with
  | VIdle | VRet _ => None
  | ANode | ALock _ | ATop _ | ANext _ _ | APop _ _ _ | ACount _ _ | AUnlock _ _ | AClear _
  | GLock _ _ | GTest _ | GUnlockEmpty _ | GExtent _ | GTop _ | GNext _ _ | GPop _ _ _ | GUnlock _ _ | GStamp _ _ => alloc_act p
  | PushLock _ _ | PushNext _ _ | PushHead _ _ | PushUnlock _ => push_act p
  | FStart _ | FLock _ _ | FCount _ _ | FTop _ _ | FHead _ _ | FInc _ | FUnlock _ _ | FDrop _ _ => free_act p
  | PLock _ | PTake _ | PZero _ _ | PUnlock _ _ | PWalk _ _ => purge_act p
  end.

End code.

(** ** Locks *)

Inductive lock_id := LPool (n : Z) | LGlobal.

#[export] Instance lock_id_eq_dec : EqDecision lock_id.
Proof. solve_decision. Defined.

(** The lock a thread holds at a program point. *)
Definition holding (p : vpc) : option lock_id :=
  match p with
  | ATop n | ANext n _ | APop n _ _ | ACount n _ | AUnlock n _ => Some (LPool n)
  | FCount n _ | FTop n _ | FHead n _ | FInc n | FUnlock n _ => Some (LPool n)
  | PTake i | PZero i _ | PUnlock i _ => Some (LPool i)
  | GTest _ | GUnlockEmpty _ | GTop _ | GNext _ _ | GPop _ _ _ | GUnlock _ _ => Some LGlobal
  | PushNext _ _ | PushHead _ _ | PushUnlock _ => Some LGlobal
  | _ => None
  end.

Definition taken (s : state) (l : lock_id) : bool :=
  match l with
  | LPool n => default false (g_pool_locks s !! Z.to_nat n)
  | LGlobal => g_global_pool_lock s
  end.

Definition node (n : Z) : Prop := 0 <= n < 16.
Definition real_lock (l : lock_id) : Prop := match l with LPool n => node n | LGlobal => True end.

(** ** Configurations and steps *)

(** What clients do with the chunks [K] they hold: format them as slabs and
    spans, write their headers and contents, and anything else that leaves the
    manager, the other headers, and the magic and node of their chunks alone. *)
Record clients_act (K : list Z) (s s' : state) : Prop := {
  cl_vmm : vmm_part s' = vmm_part s;
  cl_header : forall d, d ∉ K -> chunk_of s' d = chunk_of s d;
  cl_stamp : forall d, d ∈ K ->
    magic (chunk_of s' d) = magic (chunk_of s d) /\ node_id (chunk_of s' d) = node_id (chunk_of s d);
  cl_mapped : forall x, mapped s x = true -> mapped s' x = true
}.

#[export] Instance clients_act_preorder K : PreOrder (clients_act K).
Proof.
  split; [by constructor|]. intros s1 s2 s3 [A1 A2 A3 A4] [B1 B2 B3 B4]. constructor; [congruence| | |auto].
  - intros d Hd. rewrite B2, A2 by done. done.
  - intros d Hd. destruct (A3 d Hd), (B3 d Hd). split; congruence.
Qed.

(** The chunks that clients hold, and where every thread is. *)
Record vconfig := mk_vc {
  vc_state : state;
  vc_held : list Z;
  vc_threads : list vpc;
}.

Section steps.
Context `{Env}.

Inductive vm_step : vconfig -> vconfig -> Prop :=
  | vm_call_alloc s H ps i :
      ps !! i = Some VIdle -> vm_step (mk_vc s H ps) (mk_vc s H (<[i := ANode]> ps))
  | vm_call_free s H1 c H2 ps i :
      ps !! i = Some VIdle -> vm_step (mk_vc s (H1 ++ c :: H2) ps) (mk_vc s (H1 ++ H2) (<[i := FStart c]> ps))
  | vm_call_purge s H ps i :
      ps !! i = Some VIdle -> vm_step (mk_vc s H ps) (mk_vc s H (<[i := PLock 0]> ps))
  | vm_acts s H ps i p m p' s' :
      ps !! i = Some p -> vm_act p = Some m -> m s = Done p' s' ->
      vm_step (mk_vc s H ps) (mk_vc s' H (<[i := p']> ps))
  | vm_returns s H ps i r :
      ps !! i = Some (VRet r) ->
      vm_step (mk_vc s H ps) (mk_vc s (if r =? NULL then H else r :: H) (<[i := VIdle]> ps))
  | vm_client s H ps s' : clients_act H s s' -> vm_step (mk_vc s H ps) (mk_vc s' H ps).

End steps.

(** ** Invariant *)

Definition pool_of (s : state) (n : Z) : lz_numa_pool_t :=
  default (mk_pool 0 0) (g_numa_pools s !! Z.to_nat n).

(** The chunk carries the magic and the node it belongs to. *)
Definition stamped (s : state) (n c : Z) : Prop :=
  magic (chunk_of s c) = LZ_CHUNK_MAGIC_V2 /\ node_id (chunk_of s c) = n.

(** The count of a cache is that of its list. *)
Definition counted (s : state) (P : list (list Z)) (n : Z) : Prop :=
  exists l, P !! Z.to_nat n = Some l /\ available_count (pool_of s n) = Z.of_nat (length l).

(** Chunks [j] to 31 of the extent at [a]. *)
Definition extent_rest (a j : Z) : list Z :=
  (fun i => a + i * LZ_HUGE_PAGE_SIZE) <$> seqZ j (LZ_EXTENT_CHUNKS - j).

(** What a thread that pushes [c] keeps besides. *)
Definition goal_ok (s : state) (c : Z) (k : push_goal) (N : list Z) : Prop :=
  match k with
  | ToFree => N = []
  | ToPurge i next => node i /\ chain s next N
  | ToExtent n a j =>
      node n /\ 0 <= j < LZ_EXTENT_CHUNKS /\ 0 < a /\ a + LZ_EXTENT_SIZE <= 2 ^ 47 /\
      c = a + j * LZ_HUGE_PAGE_SIZE /\ N = extent_rest a (j + 1)
  end.
Definition goal_end (s : state) (k : push_goal) (N : list Z) : Prop :=
  match k with
  | ToFree => N = []
  | ToPurge i next => node i /\ chain s next N
  | ToExtent n _ _ => node n /\ N = []
  end.

(** What a thread knows at a program point, and the chunks [N] it has to
    itself. *)
Definition local (s : state) (G : list Z) (P : list (list Z)) (p : vpc) (N : list Z) : Prop :=
  match p with
  | VIdle | ANode => N = []
  | VRet r => r = NULL /\ N = [] \/
      N = [r] /\ chunk_next (chunk_of s r) = NULL /\ exists n, node n /\ stamped s n r
  | ALock n | PLock n | PTake n => node n /\ N = []
  | GLock n _ | GTest n | GUnlockEmpty n | GExtent n | GTop n => node n /\ N = []
  | ATop n => node n /\ N = [] /\ counted s P n
  | ANext n top => node n /\ N = [] /\ counted s P n /\ exists l, P !! Z.to_nat n = Some (top :: l)
  | APop n top next => node n /\ N = [] /\ counted s P n /\ chunk_next (chunk_of s top) = next /\
      exists l, P !! Z.to_nat n = Some (top :: l)
  | ACount n top => node n /\ N = [top] /\ stamped s n top /\
      exists l, P !! Z.to_nat n = Some l /\ available_count (pool_of s n) = Z.of_nat (length l) + 1
  | AUnlock n top => node n /\ counted s P n /\ (top = NULL /\ N = [] \/ N = [top] /\ stamped s n top)
  | AClear top => N = [top] /\ exists n, node n /\ stamped s n top
  | GNext n top => node n /\ N = [] /\ exists l, G = top :: l
  | GPop n top next => node n /\ N = [] /\ chunk_next (chunk_of s top) = next /\ exists l, G = top :: l
  | GUnlock n top => node n /\ (top = NULL /\ N = [] \/ N = [top])
  | GStamp n top => node n /\ N = [top]
  | PushLock c k | PushNext c k | FDrop c k => exists N', N = c :: N' /\ goal_ok s c k N'
  | PushHead c k => chunk_next (chunk_of s c) = g_global_free_chunks s /\ exists N', N = c :: N' /\ goal_ok s c k N'
  | PushUnlock k => goal_end s k N
  | FStart c => N = [c] /\ exists n, node n /\ stamped s n c
  | FLock n c => node n /\ N = [c] /\ stamped s n c
  | FCount n c => node n /\ N = [c] /\ stamped s n c /\ counted s P n
  | FTop n c => node n /\ N = [c] /\ stamped s n c /\ counted s P n /\
      available_count (pool_of s n) < LZ_VMM_MAX_CACHED_CHUNKS
  | FHead n c => node n /\ N = [c] /\ stamped s n c /\ counted s P n /\
      available_count (pool_of s n) < LZ_VMM_MAX_CACHED_CHUNKS /\
      chunk_next (chunk_of s c) = free_chunks (pool_of s n)
  | FInc n => node n /\ N = [] /\
      exists l, P !! Z.to_nat n = Some l /\ available_count (pool_of s n) + 1 = Z.of_nat (length l)
  | FUnlock n r => node n /\ counted s P n /\ N = option_list r
  | PZero i chunk => node i /\ chain s chunk N /\ P !! Z.to_nat i = Some []
  | PUnlock i chunk => node i /\ chain s chunk N /\ counted s P i
  | PWalk i chunk => node i /\ chain s chunk N
  end.

Record lists_ok (s : state) (G : list Z) (P : list (list Z)) : Prop := {
  lo_len : length P = 16%nat /\ length (g_numa_pools s) = 16%nat /\ length (g_pool_locks s) = 16%nat;
  lo_global : chain s (g_global_free_chunks s) G;
  lo_pool : forall n l, node n -> P !! Z.to_nat n = Some l ->
    chain s (free_chunks (pool_of s n)) l /\ (length l <= 32)%nat /\ forall c, c ∈ l -> stamped s n c
}.

(** All chunks by where they are: with clients, in the global list, in a cache,
    or with a thread. *)
Definition places (c : vconfig) (G : list Z) (P : list (list Z)) (Ns : list (list Z)) : list Z :=
  vc_held c ++ G ++ concat P ++ concat Ns.

Record vm_at (c : vconfig) (G : list Z) (P : list (list Z)) (Ns : list (list Z)) : Prop := {
  va_lists : lists_ok (vc_state c) G P;
  va_counted : forall n, node n -> taken (vc_state c) (LPool n) = false -> counted (vc_state c) P n;
  va_length : length Ns = length (vc_threads c);
  va_local : forall i p N, vc_threads c !! i = Some p -> Ns !! i = Some N -> local (vc_state c) G P p N;
  va_taken : forall l, real_lock l ->
    (taken (vc_state c) l = true <-> exists i p, vc_threads c !! i = Some p /\ holding p = Some l);
  va_excl : forall i j p q l, vc_threads c !! i = Some p -> vc_threads c !! j = Some q ->
    holding p = Some l -> holding q = Some l -> i = j;
  va_once : NoDup (places c G P Ns);
  va_ok : forall d, d ∈ places c G P Ns -> chunk_ok (vc_state c) d;
  va_held : forall d, d ∈ vc_held c -> exists n, node n /\ stamped (vc_state c) n d
}.

(** ** One step of one thread *)

(** Thread [p] with chunks [N] moves to [p'] with chunks [N']; [new] comes from
    the kernel. *)
Record stepped (s : state) (G : list Z) (P : list (list Z)) (p : vpc) (N : list Z)
    (s' : state) (G' : list Z) (P' : list (list Z)) (p' : vpc) (N' : list Z) (new : list Z) : Prop := {
  sp_lists : lists_ok s' G' P';
  sp_local : local s' G' P' p' N';
  sp_perm : G' ++ concat P' ++ N' ≡ₚ new ++ G ++ concat P ++ N;
  sp_new : NoDup new /\ forall c, c ∈ new -> chunk_ok s' c /\ mapped s c = false;
  sp_mapped : forall x, mapped s x = true -> mapped s' x = true;
  sp_header : forall c, mapped s c = true -> c ∉ N -> chunk_of s' c = chunk_of s c;
  sp_body : forall c, mapped s c = true -> body_of s' c = body_of s c;
  sp_bytes : forall d x, chunk_ok s d -> d ∉ N -> d <= x < d + 2 ^ 21 -> h_bytes s' !! x = h_bytes s !! x;
  sp_lock : forall l, real_lock l -> taken s' l =
    if decide (holding p' = Some l) then true else if decide (holding p = Some l) then false else taken s l;
  sp_enter : forall l, holding p' = Some l -> real_lock l /\ (holding p = Some l \/ taken s l = false);
  sp_pool : forall n, node n -> holding p <> Some (LPool n) ->
    pool_of s' n = pool_of s n /\ P' !! Z.to_nat n = P !! Z.to_nat n;
  sp_global : holding p <> Some LGlobal -> g_global_free_chunks s' = g_global_free_chunks s /\ G' = G;
  sp_counted : forall n, holding p = Some (LPool n) -> holding p' <> Some (LPool n) -> counted s' P' n
}.

(** A lock that a program point holds is one of the locks. *)
Lemma local_node s G P p N l : local s G P p N -> holding p = Some l -> real_lock l.
Proof. destruct p; cbn; try done; intros Hl [= <-]; cbn; tauto. Qed.

Lemma goal_frame s s' c k N :
  (forall d, d ∈ N -> chunk_of s' d = chunk_of s d) -> goal_ok s c k N -> goal_ok s' c k N.
Proof.
  intros Hh. destruct k; cbn; [done| |done]. intros [? Hc]. split; [done|]. eapply chain_ext; [|exact Hc].
  intros d Hd. by rewrite Hh.
Qed.

Lemma stamped_frame s s' n c : chunk_of s' c = chunk_of s c -> stamped s n c -> stamped s' n c.
Proof. unfold stamped. by intros ->. Qed.

(** What a thread knows survives a step that leaves its chunks and what its
    lock protects alone. *)
Lemma local_frame s s' G G' P P' q M :
  local s G P q M -> (forall d, d ∈ M -> chunk_of s' d = chunk_of s d) ->
  (forall n, holding q = Some (LPool n) -> pool_of s' n = pool_of s n /\ P' !! Z.to_nat n = P !! Z.to_nat n /\
     forall l d, P !! Z.to_nat n = Some l -> d ∈ l -> chunk_of s' d = chunk_of s d) ->
  (holding q = Some LGlobal -> g_global_free_chunks s' = g_global_free_chunks s /\ G' = G /\
     forall d, d ∈ G -> chunk_of s' d = chunk_of s d) ->
  local s' G' P' q M.
Proof.
  intros Hl Hh Hp Hg.
  assert (forall n, holding q = Some (LPool n) -> counted s P n -> counted s' P' n) as Hct.
  { intros n Hq (l & El & Ec). destruct (Hp n Hq) as (E1 & E2 & _). exists l. by rewrite E1, E2. }
  assert (forall n c, M = [c] -> stamped s n c -> stamped s' n c) as Hst.
  { intros n c ->. apply stamped_frame, Hh. by left. }
  assert (forall c k N', M = c :: N' -> goal_ok s c k N' -> goal_ok s' c k N') as Hgo.
  { intros c k N' ->. apply goal_frame. intros d Hd. apply Hh. by right. }
  assert (forall a, chain s a M -> chain s' a M) as Hch.
  { intros a. apply chain_ext. intros d Hd. by rewrite Hh. }
  destruct q; cbn [local holding] in *; try done.
  - destruct Hl as [?|(-> & En & n & ? & Hs)]; [by left|right]. split_and!; [done| |exists n; eauto].
    rewrite Hh; [done|by left].
  - destruct Hl as (? & ? & ?). eauto.
  - destruct Hl as (? & ? & ? & l & El). destruct (Hp n eq_refl) as (_ & -> & _). eauto 6.
  - destruct Hl as (? & ? & ? & En & l & El). destruct (Hp n eq_refl) as (_ & -> & Hhd). split_and!; eauto.
    rewrite (Hhd _ _ El); [done|by left].
  - destruct Hl as (? & -> & Hs & l & El & Ec). destruct (Hp n eq_refl) as (-> & -> & _). split_and!; eauto.
  - destruct Hl as (? & ? & [?|[-> ?]]); split_and!; eauto.
  - destruct Hl as (-> & n & ? & ?). split; [done|]. eauto.
  - destruct Hl as (? & ? & l & El). destruct (Hg eq_refl) as (_ & -> & _). eauto.
  - destruct Hl as (? & ? & En & l & El). destruct (Hg eq_refl) as (_ & -> & Hhd). split_and!; eauto.
    rewrite Hhd; [done|]. rewrite El. by left.
  - destruct Hl as (N' & -> & ?). exists N'. eauto.
  - destruct Hl as (N' & -> & ?). exists N'. eauto.
  - destruct Hl as (En & N' & -> & ?). destruct (Hg eq_refl) as (-> & _ & _). split; [|exists N'; eauto].
    rewrite Hh; [done|by left].
  - destruct k; cbn in *; [done| |done]. destruct Hl. eauto.
  - destruct Hl as (-> & n & ? & ?). split; [done|]. eauto.
  - destruct Hl as (? & -> & ?). split_and!; eauto.
  - destruct Hl as (? & -> & ? & ?). split_and!; eauto.
  - destruct Hl as (? & -> & ? & ? & ?). destruct (Hp n eq_refl) as (-> & _ & _). split_and!; eauto.
  - destruct Hl as (? & -> & ? & ? & ? & En). destruct (Hp n eq_refl) as (-> & _ & _). split_and!; eauto.
    rewrite Hh; [done|by left].
  - destruct Hl as (? & ? & l & El & Ec). destruct (Hp n eq_refl) as (-> & -> & _). eauto.
  - destruct Hl as (? & ? & ?). eauto.
  - destruct Hl as (N' & -> & ?). exists N'. eauto.
  - destruct Hl as (? & ? & El). destruct (Hp i eq_refl) as (_ & -> & _). eauto.
  - destruct Hl as (? & ? & ?). eauto.
  - destruct Hl as (? & ?). eauto.
Qed.

(** ** The step in the whole configuration *)

Section step_ok.
Context (s : state) (H : list Z) (ps : list vpc) (G : list Z) (P Ns : list (list Z)).
Context (i : nat) (p : vpc) (N : list Z).
Hypothesis Hc : vm_at (mk_vc s H ps) G P Ns.
Hypothesis Hi : ps !! i = Some p.
Hypothesis HN : Ns !! i = Some N.

Lemma places_own :
  places (mk_vc s H ps) G P Ns ≡ₚ N ++ H ++ G ++ concat P ++ concat (<[i := []]> Ns).
Proof.
  unfold places. cbn. rewrite (concat_insert_perm Ns i N []) by (by rewrite app_nil_r). solve_Permutation.
Qed.

Lemma own_apart d : d ∈ N -> d ∈ H ++ G ++ concat P ++ concat (<[i := []]> Ns) -> False.
Proof.
  intros Hd Hd'. pose proof (va_once _ _ _ _ Hc) as Hnd. rewrite places_own in Hnd.
  apply NoDup_app in Hnd as (_ & Hx & _). by apply (Hx d).
Qed.

Lemma own_held d : d ∈ H -> d ∉ N.
Proof. intros Hd Hd'. apply (own_apart d Hd'). set_solver. Qed.
Lemma own_global d : d ∈ G -> d ∉ N.
Proof. intros Hd Hd'. apply (own_apart d Hd'). set_solver. Qed.
Lemma own_pool n l d : P !! n = Some l -> d ∈ l -> d ∉ N.
Proof.
  intros Hl Hd Hd'. apply (own_apart d Hd'). assert (d ∈ concat P) by (by eapply elem_of_concat_lookup). set_solver.
Qed.
Lemma own_other j M d : j <> i -> Ns !! j = Some M -> d ∈ M -> d ∉ N.
Proof.
  intros Hne Hj Hd Hd'. apply (own_apart d Hd').
  assert (d ∈ concat (<[i := []]> Ns)); [|set_solver].
  eapply elem_of_concat_lookup; [|exact Hd]. by rewrite list_lookup_insert_ne.
Qed.

Lemma place_mapped d : d ∈ places (mk_vc s H ps) G P Ns -> mapped s d = true.
Proof. intros Hd. by apply chunk_ok_self, (va_ok _ _ _ _ Hc). Qed.

Context (s' : state) (G' : list Z) (P' : list (list Z)) (p' : vpc) (N' new : list Z).
Hypothesis Hs : stepped s G P p N s' G' P' p' N' new.

Lemma places_step :
  places (mk_vc s' H (<[i := p']> ps)) G' P' (<[i := N']> Ns) ≡ₚ new ++ places (mk_vc s H ps) G P Ns.
Proof.
  unfold places. cbn.
  assert ((i < length Ns)%nat) as Hlt by (by eapply lookup_lt_Some).
  rewrite (concat_insert_perm (<[i := N']> Ns) i N' []) by (rewrite app_nil_r; by apply list_lookup_insert_eq).
  rewrite list_insert_insert_eq. rewrite (concat_insert_perm Ns i N []) by (by rewrite app_nil_r).
  set (R := concat (<[i := []]> Ns)). pose proof (sp_perm _ _ _ _ _ _ _ _ _ _ _ Hs) as Hp.
  transitivity (H ++ (G' ++ concat P' ++ N') ++ R); [solve_Permutation|]. rewrite Hp. solve_Permutation.
Qed.

(** The chunks that are not the thread's keep their headers. *)
Lemma header_kept d : d ∈ places (mk_vc s H ps) G P Ns -> d ∉ N -> chunk_of s' d = chunk_of s d.
Proof. intros Hd Hn. apply (sp_header _ _ _ _ _ _ _ _ _ _ _ Hs); [by apply place_mapped|done]. Qed.

Lemma locals_kept j q M :
  j <> i -> ps !! j = Some q -> Ns !! j = Some M -> local s' G' P' q M.
Proof.
  intros Hne Hj HM. pose proof (va_excl _ _ _ _ Hc) as Hex. cbn in Hex.
  eapply local_frame; [exact (va_local _ _ _ _ Hc j q M Hj HM)|..].
  - intros d Hd. apply header_kept; [|by eapply own_other]. unfold places.
    assert (d ∈ concat Ns) by (by eapply elem_of_concat_lookup). set_solver.
  - intros n Hq. assert (holding p <> Some (LPool n)) as Hp by (intros Hp; apply Hne; by eapply (Hex j i)).
    assert (node n) as Hn by exact (local_node _ _ _ _ _ _ (va_local _ _ _ _ Hc j q M Hj HM) Hq).
    destruct (sp_pool _ _ _ _ _ _ _ _ _ _ _ Hs n Hn Hp) as [? ?]. split_and!; [done..|].
    intros l d Hl Hd. apply header_kept; [|by eapply own_pool]. unfold places.
    assert (d ∈ concat P) by (by eapply elem_of_concat_lookup). set_solver.
  - intros Hq. assert (holding p <> Some LGlobal) as Hp by (intros Hp; apply Hne; by eapply (Hex j i)).
    destruct (sp_global _ _ _ _ _ _ _ _ _ _ _ Hs Hp) as [? ?]. split_and!; [done..|].
    intros d Hd. apply header_kept; [unfold places; set_solver|by apply own_global].
Qed.

Lemma excl_kept j k q r l :
  <[i := p']> ps !! j = Some q -> <[i := p']> ps !! k = Some r ->
  holding q = Some l -> holding r = Some l -> j = k.
Proof.
  pose proof (va_excl _ _ _ _ Hc) as Hex. cbn in Hex. pose proof (va_taken _ _ _ _ Hc) as Htk. cbn in Htk.
  assert (forall j q, j <> i -> ps !! j = Some q -> holding q = Some l -> holding p' = Some l -> False) as Hx.
  { intros j' q' Hne Hj Hq Hp'. destruct (sp_enter _ _ _ _ _ _ _ _ _ _ _ Hs l Hp') as [Hr [Hp|Hf]].
    - apply Hne. by eapply (Hex j' i).
    - assert (taken s l = true) as Ht by (apply Htk; eauto). congruence. }
  intros [(<- & <- & _)|[Hne Hj]]%list_lookup_insert_Some [(<- & <- & _)|[Hne' Hk]]%list_lookup_insert_Some Hq Hr; [done|..].
  - exfalso. by eapply (Hx k).
  - exfalso. by eapply (Hx j).
  - by eapply (Hex j k).
Qed.

Lemma taken_kept l : real_lock l ->
  (taken s' l = true <-> exists j q, <[i := p']> ps !! j = Some q /\ holding q = Some l).
Proof.
  intros Hl. rewrite (sp_lock _ _ _ _ _ _ _ _ _ _ _ Hs l Hl).
  assert ((i < length ps)%nat) as Hlt by (by eapply lookup_lt_Some).
  pose proof (va_excl _ _ _ _ Hc) as Hex. cbn in Hex. pose proof (va_taken _ _ _ _ Hc l Hl) as Htk. cbn in Htk.
  destruct (decide (holding p' = Some l)) as [Hp'|Hp'].
  { split; [|done]. intros _. exists i, p'. split; [by apply list_lookup_insert_eq|done]. }
  destruct (decide (holding p = Some l)) as [Hp|Hp].
  - split; [done|]. intros (j & q & [(<- & <- & _)|[Hne Hj]]%list_lookup_insert_Some & Hq); [done|].
    exfalso. apply Hne. by eapply (Hex i j).
  - rewrite Htk. split.
    + intros (j & q & Hj & Hq). exists j, q. split; [|done]. rewrite list_lookup_insert_ne; [done|]. intros <-. congruence.
    + intros (j & q & [(<- & <- & _)|[Hne Hj]]%list_lookup_insert_Some & Hq); [done|]. eauto.
Qed.

Lemma step_ok : vm_at (mk_vc s' H (<[i := p']> ps)) G' P' (<[i := N']> Ns).
Proof.
  assert ((i < length ps)%nat) as Hlt by (by eapply lookup_lt_Some).
  constructor; cbn [vc_state vc_held vc_threads].
  - apply Hs.
  - intros n Hn Ht. rewrite (sp_lock _ _ _ _ _ _ _ _ _ _ _ Hs (LPool n) Hn) in Ht.
    destruct (decide (holding p' = _)) as [|Hp']; [done|].
    destruct (decide (holding p = _)) as [Hp|Hp]; [by apply (sp_counted _ _ _ _ _ _ _ _ _ _ _ Hs)|].
    destruct (va_counted _ _ _ _ Hc n Hn Ht) as (l & El & Ec).
    destruct (sp_pool _ _ _ _ _ _ _ _ _ _ _ Hs n Hn Hp) as [E1 E2]. exists l. by rewrite E1, E2.
  - rewrite !length_insert. apply Hc.
  - intros j q M [(<- & <- & _)|[Hne Hj]]%list_lookup_insert_Some HM.
    + rewrite list_lookup_insert_eq in HM by (by eapply lookup_lt_Some). injection HM as <-. apply Hs.
    + rewrite list_lookup_insert_ne in HM by done. by apply (locals_kept j).
  - exact taken_kept.
  - exact excl_kept.
  - rewrite places_step. destruct (sp_new _ _ _ _ _ _ _ _ _ _ _ Hs) as [Hn1 Hn2]. apply NoDup_app.
    split_and!; [done| |apply Hc]. intros d Hd Hd'%place_mapped. destruct (Hn2 d Hd). congruence.
  - intros d. rewrite places_step. intros [Hd|Hd]%elem_of_app; [by apply (sp_new _ _ _ _ _ _ _ _ _ _ _ Hs)|].
    eapply chunk_ok_mono; [apply Hs|by apply (va_ok _ _ _ _ Hc)].
  - intros d Hd. destruct (va_held _ _ _ _ Hc d Hd) as (n & ? & Hst). exists n. split; [done|].
    eapply stamped_frame; [|exact Hst]. apply header_kept; [unfold places; set_solver|by apply own_held].
Qed.

End step_ok.

(** ** The kinds of action *)

(** The part of the configuration that one thread sees. *)
Record sees (s : state) (G : list Z) (P : list (list Z)) (p : vpc) (N : list Z) : Prop := {
  se_lists : lists_ok s G P;
  se_local : local s G P p N;
  se_counted : forall n, node n -> taken s (LPool n) = false -> counted s P n;
  se_taken : forall l, holding p = Some l -> taken s l = true;
  se_once : NoDup (N ++ G ++ concat P);
  se_ok : forall d, d ∈ N ++ G ++ concat P -> chunk_ok s d
}.

Lemma vm_at_sees s H ps G P Ns i p N :
  vm_at (mk_vc s H ps) G P Ns -> ps !! i = Some p -> Ns !! i = Some N -> sees s G P p N.
Proof.
  intros Hc Hi HN. pose proof (places_own s H ps G P Ns i N HN) as Hp.
  assert (places (mk_vc s H ps) G P Ns ≡ₚ (N ++ G ++ concat P) ++ H ++ concat (<[i := []]> Ns)) as Hq.
  { rewrite Hp. solve_Permutation. }
  constructor; try apply Hc.
  - by eapply (va_local _ _ _ _ Hc).
  - intros l Hl. apply (va_taken _ _ _ _ Hc l); [|eauto]. eapply local_node; [by eapply (va_local _ _ _ _ Hc)|done].
  - pose proof (va_once _ _ _ _ Hc) as Hnd. rewrite Hq in Hnd. by apply NoDup_app in Hnd as [? _].
  - intros d Hd. apply (va_ok _ _ _ _ Hc). rewrite Hq. set_solver.
Qed.

Section kinds.
Context (s : state) (G : list Z) (P : list (list Z)) (p : vpc) (N : list Z).
Hypothesis Hv : sees s G P p N.

Lemma seen_mapped d : d ∈ N ++ G ++ concat P -> mapped s d = true.
Proof. intros Hd. by apply chunk_ok_self, (se_ok _ _ _ _ _ Hv). Qed.

Lemma listed_apart d : d ∈ G ++ concat P -> d ∉ N.
Proof. intros Hd Hn. pose proof (se_once _ _ _ _ _ Hv) as Hnd. apply NoDup_app in Hnd as (_ & Hx & _). by apply (Hx d). Qed.

Lemma in_cache n l d : P !! n = Some l -> d ∈ l -> d ∈ G ++ concat P.
Proof. intros Hl Hd. apply elem_of_app. right. by eapply elem_of_concat_lookup. Qed.

(** Lists survive when the pool records and the listed headers do. *)
Lemma lists_frame s' :
  g_numa_pools s' = g_numa_pools s -> length (g_pool_locks s') = length (g_pool_locks s) ->
  g_global_free_chunks s' = g_global_free_chunks s ->
  (forall d, d ∈ G ++ concat P -> chunk_of s' d = chunk_of s d) -> lists_ok s' G P.
Proof.
  intros E1 E2 E3 Hh. destruct (se_lists _ _ _ _ _ Hv) as [L1 L2 L3].
  constructor; rewrite ?E1, ?E2, ?E3; [done| |].
  - eapply chain_ext; [|exact L2]. intros d Hd. rewrite Hh; [done|set_solver].
  - intros n l Hn Hl. destruct (L3 n l Hn Hl) as (Hch & Hle & Hst). unfold pool_of in *. rewrite E1. split_and!; [|done|].
    + eapply chain_ext; [|exact Hch]. intros d Hd. rewrite Hh; [done|by eapply in_cache].
    + intros d Hd. eapply stamped_frame; [|by apply Hst]. apply Hh. by eapply in_cache.
Qed.

(** Only the chunks of the thread change. *)
Lemma step_private s' p' N' new :
  vmm_part s' = vmm_part s -> holding p' = holding p -> local s' G P p' N' -> N' ≡ₚ new ++ N ->
  NoDup new -> (forall c, c ∈ new -> chunk_ok s' c /\ mapped s c = false) ->
  (forall x, mapped s x = true -> mapped s' x = true) ->
  (forall c, mapped s c = true -> c ∉ N -> chunk_of s' c = chunk_of s c) ->
  (forall c, mapped s c = true -> body_of s' c = body_of s c) ->
  (forall d x, chunk_ok s d -> d ∉ N -> d <= x < d + 2 ^ 21 -> h_bytes s' !! x = h_bytes s !! x) ->
  stepped s G P p N s' G P p' N' new.
Proof.
  intros Ev Eh Hl Hp Hn1 Hn2 Hm Hh Hb Hby. unfold vmm_part in Ev. injection Ev as _ E1 E2 E3 E4.
  assert (forall l, taken s' l = taken s l) as Et by (intros []; cbn; by rewrite ?E2, ?E3).
  constructor; try done.
  - apply lists_frame; [done|by rewrite E2|done|]. intros d Hd. apply Hh; [|by apply listed_apart].
    apply seen_mapped. set_solver.
  - rewrite Hp. solve_Permutation.
  - intros l Hr. rewrite Et, Eh. destruct (decide (holding p = Some l)); [by apply (se_taken _ _ _ _ _ Hv)|done].
  - intros l Hl'. rewrite Eh in Hl'. split; [|by left]. by eapply local_node; [apply Hv|].
  - intros n _ _. unfold pool_of. by rewrite E1.
  - intros n Hn Hn'. congruence.
Qed.

(** Nothing changes but the program point. *)
Lemma step_still p' N' : N' = N -> holding p' = holding p -> local s G P p' N -> stepped s G P p N s G P p' N' [].
Proof. intros -> ? ?. apply step_private; try done; [constructor|intros c Hc; by apply not_elem_of_nil in Hc]. Qed.

Lemma lock_insert n b : node n -> g_pool_locks s !! Z.to_nat n <> None ->
  forall l, real_lock l -> taken (set_g_pool_locks (<[Z.to_nat n := b]> (g_pool_locks s)) s) l =
    if decide (l = LPool n) then b else taken s l.
Proof.
  intros Hn Hs [m|] Hm; cbn.
  - rewrite list_lookup_insert. unfold node in *. cbn in Hm.
    destruct (decide (Z.to_nat n = Z.to_nat m /\ _)) as [[E _]|Hne].
    + assert (m = n) as -> by (unfold node in Hm; lia). by rewrite decide_True.
    + rewrite decide_False; [done|]. intros [= ->]. apply Hne. split; [done|].
      apply lookup_lt_is_Some. by apply not_eq_None_Some.
  - by rewrite decide_False.
Qed.

Lemma pool_lock_some n : node n -> g_pool_locks s !! Z.to_nat n <> None.
Proof.
  intros Hn. apply not_eq_None_Some, lookup_lt_is_Some. destruct (lo_len _ _ _ (se_lists _ _ _ _ _ Hv)) as (_ & _ & ->).
  unfold node in Hn. lia.
Qed.

Lemma step_pool_lock n p' :
  node n -> taken s (LPool n) = false -> holding p = None -> holding p' = Some (LPool n) ->
  (counted s P n -> local s G P p' N) ->
  stepped s G P p N (set_g_pool_locks (<[Z.to_nat n := true]> (g_pool_locks s)) s) G P p' N [].
Proof.
  intros Hn Ht Hp Hp' Hl. set (s' := set_g_pool_locks _ s).
  assert (local s G P p' N) as Hl' by (by apply Hl, (se_counted _ _ _ _ _ Hv)).
  constructor; try done.
  - apply lists_frame; try done. cbn. by rewrite length_insert.
  - by eapply local_frame.
  - split; [constructor|]. intros c Hc. by apply not_elem_of_nil in Hc.
  - intros l Hr. unfold s'. rewrite (lock_insert n true Hn (pool_lock_some n Hn) l Hr), Hp, Hp'.
    destruct (decide (l = LPool n)) as [->|Hne]; [by rewrite decide_True|].
    rewrite decide_False by congruence. by rewrite decide_False.
  - intros l Hl2. rewrite Hp' in Hl2. injection Hl2 as <-. split; [done|by right].
  - intros m Hm. by rewrite Hp in Hm.
Qed.

Lemma step_pool_unlock n p' :
  node n -> holding p = Some (LPool n) -> holding p' = None -> counted s P n -> local s G P p' N ->
  stepped s G P p N (set_g_pool_locks (<[Z.to_nat n := false]> (g_pool_locks s)) s) G P p' N [].
Proof.
  intros Hn Hp Hp' Hct Hl. set (s' := set_g_pool_locks _ s). constructor; try done.
  - apply lists_frame; try done. cbn. by rewrite length_insert.
  - by eapply local_frame.
  - split; [constructor|]. intros c Hc. by apply not_elem_of_nil in Hc.
  - intros l Hr. unfold s'. rewrite (lock_insert n false Hn (pool_lock_some n Hn) l Hr), Hp, Hp'.
    destruct (decide (l = LPool n)) as [->|Hne]; [by rewrite decide_False, decide_True|].
    by rewrite !decide_False by congruence.
  - intros l Hl2. by rewrite Hp' in Hl2.
  - intros m Hm _. rewrite Hp in Hm. by injection Hm as <-.
Qed.

Lemma step_global_lock p' :
  taken s LGlobal = false -> holding p = None -> holding p' = Some LGlobal -> local s G P p' N ->
  stepped s G P p N (set_g_global_pool_lock true s) G P p' N [].
Proof.
  intros Ht Hp Hp' Hl. constructor; try done.
  - by apply lists_frame.
  - by eapply local_frame.
  - split; [constructor|]. intros c Hc. by apply not_elem_of_nil in Hc.
  - intros [n|] Hr; rewrite Hp, Hp'; [|by rewrite decide_True]. by rewrite !decide_False by done.
  - intros l Hl2. rewrite Hp' in Hl2. injection Hl2 as <-. split; [done|by right].
  - intros m Hm. by rewrite Hp in Hm.
Qed.

Lemma step_global_unlock p' :
  holding p = Some LGlobal -> holding p' = None -> local s G P p' N ->
  stepped s G P p N (set_g_global_pool_lock false s) G P p' N [].
Proof.
  intros Hp Hp' Hl. constructor; try done.
  - by apply lists_frame.
  - by eapply local_frame.
  - split; [constructor|]. intros c Hc. by apply not_elem_of_nil in Hc.
  - intros [n|] Hr; rewrite Hp, Hp'; [by rewrite !decide_False by done|]. by rewrite decide_False, decide_True.
  - intros l Hl2. by rewrite Hp' in Hl2.
  - intros m Hm. by rewrite Hp in Hm.
Qed.

(** The record of a cache whose lock the thread holds. *)
Lemma step_pool n l l' pool' p' N' :
  node n -> holding p = Some (LPool n) -> holding p' = Some (LPool n) -> P !! Z.to_nat n = Some l ->
  chain s (free_chunks pool') l' -> (length l' <= 32)%nat -> (forall c, c ∈ l' -> stamped s n c) ->
  l' ++ N' ≡ₚ l ++ N ->
  let s' := set_g_numa_pools (<[Z.to_nat n := pool']> (g_numa_pools s)) s in
  (pool_of s' n = pool' -> <[Z.to_nat n := l']> P !! Z.to_nat n = Some l' ->
   local s' G (<[Z.to_nat n := l']> P) p' N') ->
  stepped s G P p N s' G (<[Z.to_nat n := l']> P) p' N' [].
Proof.
  intros Hn Hp Hp' Hl Hch Hle Hst Hpm s' Hloc. destruct (se_lists _ _ _ _ _ Hv) as [(L1 & L2 & L3) Lg Lp].
  assert ((Z.to_nat n < 16)%nat) as Hlt by (unfold node in Hn; lia).
  assert (pool_of s' n = pool') as Epool by (unfold pool_of, s'; cbn; rewrite list_lookup_insert_eq by lia; done).
  assert (forall m, node m -> m <> n -> pool_of s' m = pool_of s m /\ <[Z.to_nat n := l']> P !! Z.to_nat m = P !! Z.to_nat m) as Hoth.
  { intros m Hm Hne. assert (Z.to_nat n <> Z.to_nat m) by (unfold node in *; lia).
    unfold pool_of, s'. cbn. by rewrite !list_lookup_insert_ne by done. }
  assert (<[Z.to_nat n := l']> P !! Z.to_nat n = Some l') as EP by (apply list_lookup_insert_eq; lia).
  constructor; try done.
  - assert (forall a k, chain s a k -> chain s' a k) as Hchs by (intros a k; by apply chain_ext).
    constructor; [cbn; by rewrite !length_insert|by apply Hchs|]. intros m k Hm Hk.
    destruct (decide (m = n)) as [->|Hne].
    + rewrite EP in Hk. injection Hk as <-. rewrite Epool. auto.
    + destruct (Hoth m Hm Hne) as [-> E]. rewrite E in Hk. destruct (Lp m k Hm Hk) as (? & ? & ?). auto.
  - by apply Hloc.
  - cbn [app]. rewrite (concat_insert_perm P (Z.to_nat n) l []) by (by rewrite app_nil_r).
    rewrite (concat_insert_perm (<[Z.to_nat n := l']> P) (Z.to_nat n) l' []) by (by rewrite app_nil_r).
    rewrite list_insert_insert_eq. set (R := concat (<[Z.to_nat n := []]> P)).
    transitivity (G ++ R ++ (l' ++ N')); [solve_Permutation|]. rewrite Hpm. solve_Permutation.
  - split; [constructor|]. intros c Hc. by apply not_elem_of_nil in Hc.
  - intros k Hk. change (taken s' k) with (taken s k). rewrite Hp, Hp'.
    destruct (decide (Some (LPool n) = Some k)) as [[= <-]|]; [|done]. by apply (se_taken _ _ _ _ _ Hv).
  - intros k Hk. rewrite Hp' in Hk. injection Hk as <-. split; [done|by left].
  - intros m Hm Hx. apply Hoth; [done|]. intros ->. congruence.
  - intros m Hm Hx. congruence.
Qed.

(** The global list, whose lock the thread holds. *)
Lemma step_global v G' p' N' :
  holding p = Some LGlobal -> holding p' = Some LGlobal -> chain s v G' -> G' ++ N' ≡ₚ G ++ N ->
  let s' := set_g_global_free_chunks v s in
  local s' G' P p' N' -> stepped s G P p N s' G' P p' N' [].
Proof.
  intros Hp Hp' Hch Hpm s' Hloc. destruct (se_lists _ _ _ _ _ Hv) as [L1 _ Lp].
  assert (forall a k, chain s a k -> chain s' a k) as Hchs by (intros a k; by apply chain_ext).
  constructor; try done.
  - constructor; [done|by apply Hchs|]. intros n l Hn Hl. destruct (Lp n l Hn Hl) as (? & ? & ?). split_and!; auto.
  - cbn [app]. transitivity (concat P ++ (G' ++ N')); [solve_Permutation|]. rewrite Hpm. solve_Permutation.
  - split; [constructor|]. intros c Hc. by apply not_elem_of_nil in Hc.
  - intros [n|] Hk; rewrite Hp, Hp'; [by rewrite !decide_False by done|]. rewrite decide_True by done.
    change (taken s LGlobal = true). by apply (se_taken _ _ _ _ _ Hv).
  - intros k Hk. rewrite Hp' in Hk. injection Hk as <-. split; [done|by left].
  - intros m Hm Hx. congruence.
Qed.

(** The header of a chunk of the thread. *)
Lemma step_header c s' p' :
  c ∈ N -> only_chunk c s s' -> holding p' = holding p -> local s' G P p' N -> stepped s G P p N s' G P p' N [].
Proof.
  intros Hc [Es Ex] Hh Hl.
  assert (vmm_part s' = vmm_part s /\ (forall x, mapped s' x = mapped s x) /\ (forall x, body_of s' x = body_of s x) /\
    h_bytes s' = h_bytes s) as (Ev & Em & Eb & Ey) by (by rewrite Es).
  apply step_private; [done|done|done|done|constructor|intros d Hd; by apply not_elem_of_nil in Hd|..].
  - intros x. by rewrite Em.
  - intros d _ Hd. apply Ex. by intros ->.
  - done.
  - intros d x _ _ _. by rewrite Ey.
Qed.

End kinds.

Section acts.
Context `{EnvLaws}.

(** The step leaves the thread at [p']. *)
Definition moves (s : state) (G : list Z) (P : list (list Z)) (p : vpc) (N : list Z) (p' : vpc) (s' : state) : Prop :=
  exists G' P' N' new, stepped s G P p N s' G' P' p' N' new.

Lemma moves_one s G P p N p' s' G' P' N' new :
  stepped s G P p N s' G' P' p' N' new -> moves s G P p N p' s'.
Proof. intros Hs. by do 4 eexists. Qed.

Section views.
Context (s : state) (G : list Z) (P : list (list Z)) (N : list Z).

Lemma node_pool p n : sees s G P p N -> node n ->
  lz_topology_get_pool n = Z.to_nat n /\ g_numa_pools s !! Z.to_nat n = Some (pool_of s n).
Proof.
  intros Hv Hn. unfold node in Hn. split.
  - unfold lz_topology_get_pool, LZ_MAX_NUMA_NODES. by zfalse (16 <=? n).
  - destruct (lo_len _ _ _ (se_lists _ _ _ _ _ Hv)) as (_ & Hl & _).
    destruct (lookup_lt_is_Some_2 (g_numa_pools s) (Z.to_nat n)) as [q Hq]; [lia|]. unfold pool_of. by rewrite Hq.
Qed.

Lemma wp_try_pool p n ok :
  sees s G P p N -> node n -> holding p = None -> holding ok = Some (LPool n) ->
  (counted s P n -> local s G P ok N) -> wp (try_pool_lock n p ok) (moves s G P p N) s.
Proof.
  intros Hv Hn Hp Hok Hl. unfold try_pool_lock. wp_step. wp_step.
  pose proof (pool_lock_some s G P p N Hv n Hn) as Hs.
  destruct (g_pool_locks s !! Z.to_nat n) as [[|]|] eqn:El; [| |done]; wp_steps; eapply moves_one.
  - eapply step_still; [done|done|done|apply Hv].
  - eapply step_pool_lock; [done|done| |done|done|done]. cbn. by rewrite El.
Qed.

Lemma wp_try_global p ok :
  sees s G P p N -> holding p = None -> holding ok = Some LGlobal -> local s G P ok N ->
  wp (try_global_lock p ok) (moves s G P p N) s.
Proof.
  intros Hv Hp Hok Hl. unfold try_global_lock. wp_step. wp_step. destruct (g_global_pool_lock s) eqn:El; wp_steps; eapply moves_one.
  - eapply step_still; [done|done|done|apply Hv].
  - eapply step_global_lock; done.
Qed.

Lemma wp_leave_pool p n p' :
  sees s G P p N -> node n -> holding p = Some (LPool n) -> holding p' = None -> counted s P n -> local s G P p' N ->
  wp (pool_unlock n;; mret p') (moves s G P p N) s.
Proof. intros. unfold pool_unlock. wp_steps. eapply moves_one. by eapply step_pool_unlock. Qed.

Lemma wp_leave_global p p' :
  sees s G P p N -> holding p = Some LGlobal -> holding p' = None -> local s G P p' N ->
  wp (global_pool_unlock;; mret p') (moves s G P p N) s.
Proof. intros. unfold global_pool_unlock. wp_steps. eapply moves_one. by eapply step_global_unlock. Qed.

(** The head of a cache or of the global list is its first chunk. *)
Lemma chain_head a l : chain s a l -> a <> NULL -> exists l', l = a :: l'.
Proof. destruct l as [|c l]; cbn; [done|]. intros (-> & _) _. eauto. Qed.

Lemma own_nonnull p c : sees s G P p N -> c ∈ N -> c <> NULL.
Proof.
  intros Hv Hc. destruct (se_ok _ _ _ _ _ Hv c) as (_ & ? & _); [set_solver|lia].
Qed.

(** ** Allocation from the cache of a node *)

Lemma act_top n : sees s G P (ATop n) N -> wp (p ← pool_at (lz_topology_get_pool n);
    mret (if negb (free_chunks p =? NULL) then ANext n (free_chunks p) else AUnlock n NULL)) (moves s G P (ATop n) N) s.
Proof.
  intros Hv. pose proof (se_local _ _ _ _ _ Hv) as (Hn & EN & Hct). destruct (node_pool _ n Hv Hn) as [-> Hq].
  wp_step. eapply wp_pool_at; [exact Hq|]. wp_step. eapply moves_one. destruct (Hct) as (l & Hl & _).
  destruct (lo_pool _ _ _ (se_lists _ _ _ _ _ Hv) n l Hn Hl) as (Hch & _).
  destruct (Z.eqb_spec (free_chunks (pool_of s n)) NULL) as [E|E]; cbn [negb]; (eapply step_still; [done|done|done|]); cbn.
  - split_and!; [done..|by left].
  - split_and!; [done..|]. destruct (chain_head _ _ Hch E) as [l' ->]. eauto.
Qed.

Lemma act_next n top : sees s G P (ANext n top) N ->
  wp (c ← chunk_at top; mret (APop n top (chunk_next c))) (moves s G P (ANext n top) N) s.
Proof.
  intros Hv. pose proof (se_local _ _ _ _ _ Hv) as (Hn & EN & Hct & l & Hl).
  wp_step. apply wp_chunk_at.
  { eapply seen_mapped; [exact Hv|]. apply elem_of_app. right. eapply in_cache; [exact Hl|by left]. }
  wp_step. eapply moves_one, step_still; [done|done|done|]. cbn. eauto 6.
Qed.

Lemma act_pop n top next : sees s G P (APop n top next) N ->
  wp (update_pool (lz_topology_get_pool n) (set_free_chunks next);; mret (ACount n top)) (moves s G P (APop n top next) N) s.
Proof.
  intros Hv. pose proof (se_local _ _ _ _ _ Hv) as (Hn & EN & (l0 & Hl0 & Hct) & Hnx & l & Hl).
  rewrite Hl in Hl0. injection Hl0 as <-. cbn [length] in Hct.
  destruct (lo_pool _ _ _ (se_lists _ _ _ _ _ Hv) n _ Hn Hl) as ((E & Hnz & Hch) & Hle & Hst). cbn [length] in Hle.
  destruct (node_pool _ n Hv Hn) as [-> Hq]. wp_step. eapply wp_update_pool; [exact Hq|]. wp_step. eapply moves_one.
  eapply (step_pool s G P _ N Hv n (top :: l) l _ _ [top]); [done|done|done|done| |lia| | |].
  - cbn. by rewrite <- Hnx.
  - intros c Hc. apply Hst. by right.
  - rewrite EN, app_nil_r. symmetry. apply Permutation_cons_append.
  - intros Ep El. cbn [local]. split_and!; [done|done|apply Hst; by left|]. exists l. split; [exact El|]. rewrite Ep. cbn. lia.
Qed.

Lemma act_count n top : sees s G P (ACount n top) N ->
  wp (update_pool (lz_topology_get_pool n) (fun p => set_available_count (u64 (available_count p - 1)) p);;
      mret (AUnlock n top)) (moves s G P (ACount n top) N) s.
Proof.
  intros Hv. pose proof (se_local _ _ _ _ _ Hv) as (Hn & EN & Hs & l & Hl & Hct).
  destruct (lo_pool _ _ _ (se_lists _ _ _ _ _ Hv) n _ Hn Hl) as (Hch & Hle & Hst).
  destruct (node_pool _ n Hv Hn) as [-> Hq]. wp_step. eapply wp_update_pool; [exact Hq|]. wp_step. eapply moves_one.
  eapply (step_pool s G P _ N Hv n l l); [done|done|done|done|exact Hch|done|done|done|].
  intros Ep El. cbn [local]. split_and!; [done| |by right]. exists l. split; [exact El|]. rewrite Ep. cbn.
  rewrite Hct, u64_small by lia. lia.
Qed.

Lemma act_unlock n top : sees s G P (AUnlock n top) N ->
  wp (pool_unlock n;; mret (if negb (top =? NULL) then AClear top else GLock n false)) (moves s G P (AUnlock n top) N) s.
Proof.
  intros Hv. pose proof (se_local _ _ _ _ _ Hv) as (Hn & Hct & Hd). apply wp_leave_pool; try done.
  - by destruct (negb _).
  - destruct Hd as [[-> EN]|[EN Hs]]; [done|].
    assert (top <> NULL) by (eapply own_nonnull; [exact Hv|rewrite EN; by left]). zfalse (top =? NULL). cbn. eauto.
Qed.

Lemma act_reset top : sees s G P (AClear top) N ->
  wp (update_chunk top (set_chunk_next NULL);; mret (VRet top)) (moves s G P (AClear top) N) s.
Proof.
  intros Hv. pose proof (se_local _ _ _ _ _ Hv) as (EN & n & Hn & Hs). assert (top ∈ N) as Hin by (rewrite EN; by left).
  wp_step. eapply wp_update_only; [apply only_chunk_refl|eapply seen_mapped; [exact Hv|set_solver]|].
  intros s' Ho Eh. wp_step. eapply moves_one, step_header; [done|exact Hin|done|done|].
  right. split; [done|]. unfold stamped in *. rewrite Eh. split; [done|]. exists n. done.
Qed.

(** ** Allocation from the global list *)

Lemma act_stamp n top : sees s G P (GStamp n top) N ->
  wp (update_chunk top (set_chunk_next NULL);;
      update_chunk top (set_owning_tlh NULL);;
      update_chunk top (set_node_id n);;
      update_chunk top (set_magic LZ_CHUNK_MAGIC_V2);;
      update_chunk top (set_canary 0);;
      update_chunk top (set_checksum 0);;
      mret (VRet top)) (moves s G P (GStamp n top) N) s.
Proof.
  intros Hv. pose proof (se_local _ _ _ _ _ Hv) as (Hn & EN). assert (top ∈ N) as Hin by (rewrite EN; by left).
  assert (mapped s top = true) as Hm by (eapply seen_mapped; [exact Hv|set_solver]).
  pose proof (only_chunk_refl top s) as H0'.
  do 6 (wp_step; eapply wp_update_only; [eassumption|exact Hm|]; clear dependent H0';
        let s' := fresh "s" in let E := fresh "E" in intros s' H0' E).
  wp_steps. eapply moves_one, step_header; [exact Hv|exact Hin|exact H0'|done|]. cbn [local]. right. split; [done|].
  unfold stamped. rewrite E4, E3, E2, E1, E0, E. split; [done|]. exists n. done.
Qed.

Lemma act_gnext n top : sees s G P (GNext n top) N ->
  wp (c ← chunk_at top; mret (GPop n top (chunk_next c))) (moves s G P (GNext n top) N) s.
Proof.
  intros Hv. pose proof (se_local _ _ _ _ _ Hv) as (Hn & EN & l & El).
  wp_step. apply wp_chunk_at; [eapply seen_mapped; [exact Hv|rewrite El; set_solver]|].
  wp_step. eapply moves_one, step_still; [done|done|done|]. cbn. eauto 6.
Qed.

Lemma act_gpop n top next : sees s G P (GPop n top next) N ->
  wp (modify (set_g_global_free_chunks next);; mret (GUnlock n top)) (moves s G P (GPop n top next) N) s.
Proof.
  intros Hv. pose proof (se_local _ _ _ _ _ Hv) as (Hn & EN & Hnx & l & El). wp_steps.
  pose proof (lo_global _ _ _ (se_lists _ _ _ _ _ Hv)) as Hch. rewrite El in Hch. destruct Hch as (_ & _ & Hch).
  eapply moves_one, (step_global s G P _ N Hv next l _ [top]); [done|done|by rewrite <- Hnx| |].
  - rewrite El, EN, app_nil_r. symmetry. apply Permutation_cons_append.
  - cbn. split; [done|by right].
Qed.

Lemma act_gunlock n top : sees s G P (GUnlock n top) N ->
  wp (global_pool_unlock;; mret (if top =? NULL then VRet NULL else GStamp n top)) (moves s G P (GUnlock n top) N) s.
Proof.
  intros Hv. pose proof (se_local _ _ _ _ _ Hv) as (Hn & Hd). apply wp_leave_global; try done.
  - by destruct (_ =? _).
  - destruct Hd as [[-> EN]|EN]; [by left|].
    assert (top <> NULL) by (eapply own_nonnull; [exact Hv|rewrite EN; by left]). by zfalse (top =? NULL).
Qed.

(** ** Extents *)

Lemma extent_rest_cons a j : 0 <= j < LZ_EXTENT_CHUNKS ->
  extent_rest a j = (a + j * LZ_HUGE_PAGE_SIZE) :: extent_rest a (j + 1).
Proof.
  intros Hj. unfold extent_rest. rewrite seqZ_cons by lia. cbn [fmap list_fmap]. f_equal. f_equal. f_equal. lia.
Qed.

Lemma extent_rest_end a j : LZ_EXTENT_CHUNKS <= j -> extent_rest a j = [].
Proof. intros Hj. unfold extent_rest. by rewrite seqZ_nil by lia. Qed.

Lemma elem_of_extent_rest a c : c ∈ extent_rest a 0 <-> c ∈ extent a 32.
Proof.
  unfold extent_rest. rewrite elem_of_extent, list_elem_of_fmap. unfold LZ_HUGE_PAGE_SIZE, LZ_EXTENT_CHUNKS.
  split; [intros (i & -> & Hi%elem_of_seqZ)|intros (i & Hi & ->)]; exists i; [split; lia|].
  split; [lia|]. apply elem_of_seqZ. lia.
Qed.

Lemma NoDup_extent_rest a j : NoDup (extent_rest a j).
Proof. unfold extent_rest. apply NoDup_fmap_2; [intros x y; unfold LZ_HUGE_PAGE_SIZE; lia|apply NoDup_seqZ]. Qed.

Lemma act_extent n : sees s G P (GExtent n) N ->
  wp (o ← map_huge_aligned LZ_EXTENT_SIZE;
      match o with
      | None => mret (GLock n true)
      | Some a => madvise_hugepage a LZ_EXTENT_SIZE;; mret (PushLock (u64 (a + 0 * LZ_HUGE_PAGE_SIZE)) (ToExtent n a 0))
      end) (moves s G P (GExtent n) N) s.
Proof.
  intros Hv. pose proof (se_local _ _ _ _ _ Hv) as (Hn & EN). wp_step. apply wp_map_huge_aligned; [done..| |].
  - intros _. wp_step. eapply moves_one, (step_private s G P _ N Hv _ _ N []); try done; [constructor|].
    intros c Hc. by apply not_elem_of_nil in Hc.
  - intros raw a s1 _ Hf. unfold madvise_hugepage. wp_steps. destruct (fm_range _ _ _ _ Hf) as [Ha1 Ha2].
    assert (u64 (a + 0 * LZ_HUGE_PAGE_SIZE) = a + 0 * LZ_HUGE_PAGE_SIZE) as ->.
    { apply u64_small. change LZ_EXTENT_SIZE with (32 * 2 ^ 21) in Ha2. lia. }
    eapply moves_one, (step_private s G P _ N Hv _ _ (extent_rest a 0) (extent_rest a 0)).
    + apply Hf.
    + done.
    + cbn [local]. exists (extent_rest a 1). split; [by apply extent_rest_cons|]. cbn. done.
    + by rewrite EN, app_nil_r.
    + apply NoDup_extent_rest.
    + intros c Hc%elem_of_extent_rest. destruct (extent_ok _ _ _ _ Hf Hc) as [Hok Hx]. split; [exact Hok|apply Hx; lia].
    + apply Hf.
    + intros c Hc _. by apply (ext_chunk _ _ (fm_ext _ _ _ _ Hf)).
    + intros c Hc. by apply (ext_body _ _ (fm_ext _ _ _ _ Hf)).
    + intros d x (_ & _ & _ & Hm) _ Hx. by apply (ext_byte _ _ (fm_ext _ _ _ _ Hf)), Hm.
Qed.

(** ** Pushes onto the global list *)

Lemma own_tail p c N' : sees s G P p N -> N = c :: N' -> c ∉ N'.
Proof.
  intros Hv EN. pose proof (se_once _ _ _ _ _ Hv) as Hnd. rewrite EN in Hnd. cbn in Hnd.
  apply NoDup_cons in Hnd as [Hc _]. intros Hx. apply Hc. set_solver.
Qed.

Lemma act_push_next c k : sees s G P (PushNext c k) N ->
  wp (top ← fetch g_global_free_chunks; update_chunk c (set_chunk_next top);; mret (PushHead c k))
    (moves s G P (PushNext c k) N) s.
Proof.
  intros Hv. pose proof (se_local _ _ _ _ _ Hv) as (N' & EN & Hg). assert (c ∈ N) as Hin by (rewrite EN; by left).
  wp_step. wp_step. wp_step. eapply wp_update_only; [apply only_chunk_refl|eapply seen_mapped; [exact Hv|set_solver]|].
  intros s' Ho Eh. wp_step. eapply moves_one, step_header; [exact Hv|exact Hin|done|done|]. destruct Ho as [Es Ex].
  split; [rewrite Eh, Es; done|]. exists N'. split; [done|]. eapply goal_frame; [|exact Hg]. intros d Hd. apply Ex.
  intros ->. by eapply own_tail.
Qed.

Lemma act_push_head c k : sees s G P (PushHead c k) N ->
  wp (modify (set_g_global_free_chunks c);; mret (after_push k)) (moves s G P (PushHead c k) N) s.
Proof.
  intros Hv. pose proof (se_local _ _ _ _ _ Hv) as (Hnx & N' & EN & Hg). wp_steps.
  assert (c <> NULL) as Hnz by (eapply own_nonnull; [exact Hv|rewrite EN; by left]).
  eapply moves_one, (step_global s G P _ N Hv c (c :: G) _ N'); [done| | | |].
  - destruct k; cbn; try done. by destruct (_ <? _).
  - cbn. split_and!; [done|done|]. rewrite Hnx. apply (lo_global _ _ _ (se_lists _ _ _ _ _ Hv)).
  - rewrite EN. cbn. by rewrite <- Permutation_middle.
  - set (s' := set_g_global_free_chunks c s). assert (goal_ok s' c k N') as Hg' by (by eapply goal_frame; [|exact Hg]).
    destruct k as [|i next|n a j]; cbn [after_push local goal_end goal_ok] in *; [done|done|].
    destruct Hg' as (Hn & Hj & Ha1 & Ha2 & Ec & EN'). destruct (Z.ltb_spec (j + 1) LZ_EXTENT_CHUNKS) as [Hlt|Hge]; cbn [local].
    + change LZ_EXTENT_SIZE with (32 * 2 ^ 21) in Ha2. unfold LZ_EXTENT_CHUNKS in *.
      assert (u64 (a + (j + 1) * LZ_HUGE_PAGE_SIZE) = a + (j + 1) * LZ_HUGE_PAGE_SIZE) as ->.
      { apply u64_small. unfold LZ_HUGE_PAGE_SIZE. lia. }
      exists (extent_rest a (j + 1 + 1)). rewrite EN'. split; [by apply extent_rest_cons; unfold LZ_EXTENT_CHUNKS; lia|].
      cbn. unfold LZ_EXTENT_CHUNKS. change LZ_EXTENT_SIZE with (32 * 2 ^ 21). split_and!; done || lia.
    + split; [done|]. rewrite EN'. by apply extent_rest_end.
Qed.

Lemma act_push_unlock k : sees s G P (PushUnlock k) N ->
  wp (global_pool_unlock;; mret (after_unlock k)) (moves s G P (PushUnlock k) N) s.
Proof.
  intros Hv. pose proof (se_local _ _ _ _ _ Hv) as Hg. apply wp_leave_global; [done|done|by destruct k|].
  destruct k; cbn in *; done.
Qed.

(** The pages of a chunk of the thread go back to the kernel. *)
Lemma act_drop c k : sees s G P (FDrop c k) N ->
  wp (madvise_dontneed (c + LZ_PAGE_SIZE) (LZ_HUGE_PAGE_SIZE - LZ_PAGE_SIZE);; mret (PushLock c k))
    (moves s G P (FDrop c k) N) s.
Proof.
  intros Hv. pose proof (se_local _ _ _ _ _ Hv) as (N' & EN & Hg). unfold madvise_dontneed. wp_steps.
  eapply moves_one, (step_private s G P _ N Hv _ _ N []); try done; [|constructor|by intros d Hd; apply not_elem_of_nil in Hd|].
  - exists N'. split; [done|]. by eapply goal_frame; [|exact Hg].
  - intros d x (Hal & _) Hd Hx. cbn [h_bytes set_h_bytes]. apply drop_mapped_other.
    assert (c ∈ N) as Hin by (rewrite EN; by left).
    destruct (se_ok _ _ _ _ _ Hv c) as (Hal' & _); [set_solver|]. unfold LZ_PAGE_SIZE, LZ_HUGE_PAGE_SIZE.
    assert (c <> d) by (by intros ->). clear - Hal Hal' Hx H1. dlia.
Qed.

(** ** Release *)

Lemma act_start c : sees s G P (FStart c) N ->
  wp (if c =? NULL then mret VIdle
      else h ← chunk_at c;
           mret (if negb (magic h =? LZ_CHUNK_MAGIC_V2) then VIdle else FLock (node_id h) c))
    (moves s G P (FStart c) N) s.
Proof.
  intros Hv. pose proof (se_local _ _ _ _ _ Hv) as (EN & n & Hn & Hs). assert (c ∈ N) as Hin by (rewrite EN; by left).
  assert (c <> NULL) by (by eapply own_nonnull). zfalse (c =? NULL). wp_step.
  apply wp_chunk_at; [eapply seen_mapped; [exact Hv|set_solver]|]. wp_step. pose proof Hs as [-> ->]. rewrite Z.eqb_refl. cbn [negb].
  eapply moves_one, step_still; [done|done|done|]. cbn. done.
Qed.

Lemma act_fcount n c : sees s G P (FCount n c) N ->
  wp (p ← pool_at (lz_topology_get_pool n);
      mret (if available_count p <? LZ_VMM_MAX_CACHED_CHUNKS then FTop n c else FUnlock n (Some c)))
    (moves s G P (FCount n c) N) s.
Proof.
  intros Hv. pose proof (se_local _ _ _ _ _ Hv) as (Hn & EN & Hs & Hct). destruct (node_pool _ n Hv Hn) as [-> Hq].
  wp_step. eapply wp_pool_at; [exact Hq|]. wp_step. eapply moves_one.
  destruct (Z.ltb_spec (available_count (pool_of s n)) LZ_VMM_MAX_CACHED_CHUNKS); (eapply step_still; [done|done|done|]); done.
Qed.

Lemma act_ftop n c : sees s G P (FTop n c) N ->
  wp (p ← pool_at (lz_topology_get_pool n);
      update_chunk c (set_chunk_next (free_chunks p));; mret (FHead n c)) (moves s G P (FTop n c) N) s.
Proof.
  intros Hv. pose proof (se_local _ _ _ _ _ Hv) as (Hn & EN & Hs & (l & Hl & Hct) & Hlt). destruct (node_pool _ n Hv Hn) as [-> Hq].
  assert (c ∈ N) as Hin by (rewrite EN; by left). wp_step. eapply wp_pool_at; [exact Hq|]. wp_step.
  eapply wp_update_only; [apply only_chunk_refl|eapply seen_mapped; [exact Hv|set_solver]|]. intros s' Ho Eh. wp_step.
  eapply moves_one, step_header; [exact Hv|exact Hin|done|done|]. destruct Ho as [Es _].
  assert (pool_of s' n = pool_of s n) as Ep by (unfold pool_of; by rewrite Es).
  cbn [local]. unfold stamped, counted. rewrite Ep, Eh. split_and!; [done|done|apply Hs|apply Hs|eauto|done|done].
Qed.

Lemma act_fhead n c : sees s G P (FHead n c) N ->
  wp (update_pool (lz_topology_get_pool n) (set_free_chunks c);; mret (FInc n)) (moves s G P (FHead n c) N) s.
Proof.
  intros Hv. pose proof (se_local _ _ _ _ _ Hv) as (Hn & EN & Hs & (l & Hl & Hct) & Hlt & Hnx).
  destruct (lo_pool _ _ _ (se_lists _ _ _ _ _ Hv) n _ Hn Hl) as (Hch & Hle & Hst). rewrite Hct in Hlt. unfold LZ_VMM_MAX_CACHED_CHUNKS in Hlt.
  assert (c <> NULL) as Hnz by (eapply own_nonnull; [exact Hv|rewrite EN; by left]).
  destruct (node_pool _ n Hv Hn) as [-> Hq]. wp_step. eapply wp_update_pool; [exact Hq|]. wp_step. eapply moves_one.
  eapply (step_pool s G P _ N Hv n l (c :: l) _ _ []); [done|done|done|done| |cbn; lia| | |].
  - cbn. split_and!; [done|done|]. by rewrite Hnx.
  - intros d [->|Hd]%elem_of_cons; auto.
  - rewrite EN, app_nil_r. apply Permutation_cons_append.
  - intros Ep El. cbn [local]. split_and!; [done|done|]. exists (c :: l). split; [exact El|]. rewrite Ep. cbn. lia.
Qed.

Lemma act_finc n : sees s G P (FInc n) N ->
  wp (update_pool (lz_topology_get_pool n) (fun p => set_available_count (u64 (available_count p + 1)) p);;
      mret (FUnlock n None)) (moves s G P (FInc n) N) s.
Proof.
  intros Hv. pose proof (se_local _ _ _ _ _ Hv) as (Hn & EN & l & Hl & Hct).
  destruct (lo_pool _ _ _ (se_lists _ _ _ _ _ Hv) n _ Hn Hl) as (Hch & Hle & Hst).
  destruct (node_pool _ n Hv Hn) as [-> Hq]. wp_step. eapply wp_update_pool; [exact Hq|]. wp_step. eapply moves_one.
  eapply (step_pool s G P _ N Hv n l l); [done|done|done|done|exact Hch|done|done|done|].
  intros Ep El. cbn [local]. split_and!; [done| |done]. exists l. split; [exact El|]. rewrite Ep. cbn.
  rewrite Hct, u64_small by lia. done.
Qed.

Lemma act_funlock n r : sees s G P (FUnlock n r) N ->
  wp (pool_unlock n;; mret (match r with Some c => FDrop c ToFree | None => VIdle end)) (moves s G P (FUnlock n r) N) s.
Proof.
  intros Hv. pose proof (se_local _ _ _ _ _ Hv) as (Hn & Hct & EN). apply wp_leave_pool; [done|done|done|by destruct r|done|].
  destruct r as [c|]; cbn in *; [|done]. by exists [].
Qed.

(** ** The purge *)

Lemma act_take i : sees s G P (PTake i) N ->
  wp (p ← pool_at (lz_topology_get_pool i);
      update_pool (lz_topology_get_pool i) (set_free_chunks NULL);; mret (PZero i (free_chunks p)))
    (moves s G P (PTake i) N) s.
Proof.
  intros Hv. pose proof (se_local _ _ _ _ _ Hv) as (Hn & EN). destruct (node_pool _ i Hv Hn) as [-> Hq].
  destruct (lookup_lt_is_Some_2 P (Z.to_nat i)) as [l Hl].
  { destruct (lo_len _ _ _ (se_lists _ _ _ _ _ Hv)) as (-> & _). unfold node in Hn. lia. }
  destruct (lo_pool _ _ _ (se_lists _ _ _ _ _ Hv) i _ Hn Hl) as (Hch & Hle & Hst).
  wp_step. eapply wp_pool_at; [exact Hq|]. wp_step. eapply wp_update_pool; [exact Hq|]. wp_step. eapply moves_one.
  eapply (step_pool s G P _ N Hv i l [] _ _ l); [done|done|done|done|done|cbn; lia| | |].
  - intros c Hc. by apply not_elem_of_nil in Hc.
  - by rewrite EN, app_nil_r.
  - intros _ El. cbn [local]. split_and!; [done| |done]. by eapply chain_ext; [|exact Hch].
Qed.

Lemma act_zero i chunk : sees s G P (PZero i chunk) N ->
  wp (update_pool (lz_topology_get_pool i) (set_available_count 0);; mret (PUnlock i chunk)) (moves s G P (PZero i chunk) N) s.
Proof.
  intros Hv. pose proof (se_local _ _ _ _ _ Hv) as (Hn & Hch & Hl). destruct (node_pool _ i Hv Hn) as [-> Hq].
  destruct (lo_pool _ _ _ (se_lists _ _ _ _ _ Hv) i _ Hn Hl) as (Hch' & _ & _).
  wp_step. eapply wp_update_pool; [exact Hq|]. wp_step. eapply moves_one.
  eapply (step_pool s G P _ N Hv i [] []); [done|done|done|done|exact Hch'|cbn; lia| |done|].
  - intros c Hc. by apply not_elem_of_nil in Hc.
  - intros Ep El. cbn [local]. split_and!; [done|by eapply chain_ext; [|exact Hch]|]. exists []. split; [exact El|]. by rewrite Ep.
Qed.

Lemma act_walk i chunk : sees s G P (PWalk i chunk) N ->
  wp (if chunk =? NULL then mret (if i + 1 <? LZ_MAX_NUMA_NODES then PLock (i + 1) else VIdle)
      else c ← chunk_at chunk; mret (FDrop chunk (ToPurge i (chunk_next c)))) (moves s G P (PWalk i chunk) N) s.
Proof.
  intros Hv. pose proof (se_local _ _ _ _ _ Hv) as (Hn & Hch). destruct N as [|c N'] eqn:EN; cbn in Hch.
  - subst chunk. change (NULL =? NULL) with true. cbv iota. wp_step. eapply moves_one, step_still; [exact Hv|done|by destruct (_ <? _)|].
    unfold LZ_MAX_NUMA_NODES, node in *. destruct (Z.ltb_spec (i + 1) 16); cbn; unfold node; [split; [lia|done]|done].
  - destruct Hch as (-> & Hnz & Hch). zfalse (c =? NULL). wp_step. apply wp_chunk_at; [eapply seen_mapped; [exact Hv|set_solver]|].
    wp_step. eapply moves_one, step_still; [exact Hv|done|done|]. cbn. eauto 6.
Qed.

End views.

(** Every action of every thread runs, and keeps the invariant. *)
Lemma act_ok s G P p N m : sees s G P p N -> vm_act p = Some m -> wp m (moves s G P p N) s.
Proof.
  intros Hv Ha. pose proof (se_local _ _ _ _ _ Hv) as Hl.
  destruct p; apply (inj Some) in Ha as <- || discriminate Ha; cbn [local] in Hl.
  - wp_step. apply wp_get_current_node. wp_step. eapply moves_one, (step_private s G P _ N Hv _ _ N []); try done; [|constructor|].
    + cbn. pose proof (current_node_lt s). unfold node. split; [lia|done].
    + intros c Hc. by apply not_elem_of_nil in Hc.
  - destruct Hl. by apply wp_try_pool.
  - by apply act_top.
  - by apply act_next.
  - by apply act_pop.
  - by apply act_count.
  - by apply act_unlock.
  - by apply act_reset.
  - apply wp_try_global; [done|done|by destruct again|by destruct again].
  - wp_steps. eapply moves_one. destruct (_ =? _); (eapply step_still; [done|done|done|]); done.
  - by apply wp_leave_global.
  - by apply act_extent.
  - pose proof (lo_global _ _ _ (se_lists _ _ _ _ _ Hv)) as Hch. wp_steps. eapply moves_one.
    destruct (Z.eqb_spec (g_global_free_chunks s) NULL) as [E|E]; cbn [negb]; (eapply step_still; [done|done|done|]); cbn.
    + destruct Hl. split; [done|by left].
    + destruct Hl. split_and!; [done..|]. by eapply chain_head.
  - by apply act_gnext.
  - by apply act_gpop.
  - by apply act_gunlock.
  - by apply act_stamp.
  - by apply wp_try_global.
  - by apply act_push_next.
  - by apply act_push_head.
  - by apply act_push_unlock.
  - by apply act_start.
  - destruct Hl as (? & ? & ?). apply wp_try_pool; done.
  - by apply act_fcount.
  - by apply act_ftop.
  - by apply act_fhead.
  - by apply act_finc.
  - by apply act_funlock.
  - by apply act_drop.
  - destruct Hl. by apply wp_try_pool.
  - by apply act_take.
  - by apply act_zero.
  - destruct Hl as (? & ? & ?). by apply wp_leave_pool.
  - by apply act_walk.
Qed.

(** ** Calls, returns and clients *)

Definition vm_inv (c : vconfig) : Prop := exists G P Ns, vm_at c G P Ns.

(** Chunks pass between the clients and a thread outside of all locks. *)
Lemma hand_over s K ps G P Ns i p N K' p' N' :
  vm_at (mk_vc s K ps) G P Ns -> ps !! i = Some p -> Ns !! i = Some N -> holding p = None -> holding p' = None ->
  local s G P p' N' -> K' ++ N' ≡ₚ K ++ N -> (forall d, d ∈ K' -> exists n, node n /\ stamped s n d) ->
  vm_at (mk_vc s K' (<[i := p']> ps)) G P (<[i := N']> Ns) /\
  places (mk_vc s K' (<[i := p']> ps)) G P (<[i := N']> Ns) ≡ₚ places (mk_vc s K ps) G P Ns.
Proof.
  intros Hc Hi HN Hp Hp' Hl Hpm Hst. assert ((i < length ps)%nat) as Hlt by (by eapply lookup_lt_Some).
  assert ((i < length Ns)%nat) as Hlt' by (by eapply lookup_lt_Some).
  assert (places (mk_vc s K' (<[i := p']> ps)) G P (<[i := N']> Ns) ≡ₚ places (mk_vc s K ps) G P Ns) as Hpl.
  { unfold places. cbn.
    rewrite (concat_insert_perm (<[i := N']> Ns) i N' []) by (rewrite app_nil_r; by apply list_lookup_insert_eq).
    rewrite list_insert_insert_eq, (concat_insert_perm Ns i N []) by (by rewrite app_nil_r). set (R := concat (<[i := []]> Ns)).
    transitivity ((K' ++ N') ++ G ++ concat P ++ R); [solve_Permutation|]. rewrite Hpm. solve_Permutation. }
  assert (forall j q l, <[i := p']> ps !! j = Some q -> holding q = Some l -> j <> i /\ ps !! j = Some q) as Hoth.
  { intros j q l [(<- & <- & _)|[? ?]]%list_lookup_insert_Some Hq; [congruence|done]. }
  split; [|done]. constructor; cbn [vc_state vc_held vc_threads].
  - apply Hc.
  - apply Hc.
  - rewrite !length_insert. apply Hc.
  - intros j q M [(<- & <- & _)|[Hne Hj]]%list_lookup_insert_Some HM.
    + rewrite list_lookup_insert_eq in HM by done. by injection HM as <-.
    + rewrite list_lookup_insert_ne in HM by done. by apply (va_local _ _ _ _ Hc j).
  - intros l Hr. rewrite (va_taken _ _ _ _ Hc l Hr). cbn. split.
    + intros (j & q & Hj & Hq). exists j, q. rewrite list_lookup_insert_ne; [done|]. intros <-. congruence.
    + intros (j & q & Hj & Hq). destruct (Hoth j q l Hj Hq). eauto.
  - intros j k q r l Hj Hk Hq Hr. destruct (Hoth j q l Hj Hq), (Hoth k r l Hk Hr). by eapply (va_excl _ _ _ _ Hc).
  - rewrite Hpl. apply Hc.
  - intros d. rewrite Hpl. apply (va_ok _ _ _ _ Hc).
  - done.
Qed.

(** Clients use the chunks they hold. *)
Lemma clients_ok s K ps G P Ns s' :
  vm_at (mk_vc s K ps) G P Ns -> clients_act K s s' -> vm_at (mk_vc s' K ps) G P Ns.
Proof.
  intros Hc [Ev Hh Hs Hm]. unfold vmm_part in Ev. injection Ev as _ E1 E2 E3 E4.
  pose proof (va_once _ _ _ _ Hc) as Hnd. unfold places in Hnd. cbn in Hnd. apply NoDup_app in Hnd as (_ & Hx & _).
  assert (forall d, d ∈ G ++ concat P ++ concat Ns -> chunk_of s' d = chunk_of s d) as Hsame.
  { intros d Hd. apply Hh. intros Hk. by apply (Hx d). }
  assert (forall l, taken s' l = taken s l) as Et by (intros []; cbn; by rewrite ?E2, ?E3).
  assert (forall n, pool_of s' n = pool_of s n) as Ep by (intros n; unfold pool_of; by rewrite E1).
  assert (forall d, chunk_ok s d -> chunk_ok s' d) as Hok by (intros d (? & ? & ? & ?); split_and!; auto).
  destruct (va_lists _ _ _ _ Hc) as [L1 L2 L3]. cbn in L1, L2, L3.
  constructor; cbn [vc_state vc_held vc_threads]; try apply Hc.
  - constructor; [by rewrite E1, E2|rewrite E4|].
    + eapply chain_ext; [|exact L2]. intros d Hd. rewrite Hsame; [done|set_solver].
    + intros n l Hn Hl. destruct (L3 n l Hn Hl) as (Hch & Hle & Hst). rewrite Ep. split_and!; [|done|].
      * eapply chain_ext; [|exact Hch]. intros d Hd. rewrite Hsame; [done|].
        assert (d ∈ concat P) by (by eapply elem_of_concat_lookup). set_solver.
      * intros d Hd. eapply stamped_frame; [|by apply Hst]. apply Hsame.
        assert (d ∈ concat P) by (by eapply elem_of_concat_lookup). set_solver.
  - intros n Hn Ht. rewrite Et in Ht. destruct (va_counted _ _ _ _ Hc n Hn Ht) as (l & ? & ?). exists l. by rewrite Ep.
  - intros i p N Hi HN. eapply local_frame; [by apply (va_local _ _ _ _ Hc i)|..].
    + intros d Hd. apply Hsame. assert (d ∈ concat Ns) by (by eapply elem_of_concat_lookup). set_solver.
    + intros n _. split_and!; [by rewrite Ep|done|]. intros l d Hl Hd. apply Hsame.
      assert (d ∈ concat P) by (by eapply elem_of_concat_lookup). set_solver.
    + intros _. split_and!; [done..|]. intros d Hd. apply Hsame. set_solver.
  - intros l Hr. rewrite Et. by apply (va_taken _ _ _ _ Hc).
  - intros d Hd. apply Hok, (va_ok _ _ _ _ Hc). exact Hd.
  - intros d Hd. destruct (va_held _ _ _ _ Hc d Hd) as (n & ? & Hm1 & Hn1), (Hs d Hd). cbn in Hm1, Hn1.
    exists n. unfold stamped. split_and!; [done|congruence..].
Qed.

(** Formatting the header of a chunk is such a use. *)
Lemma formats_chunk K c f s s' :
  c ∈ K -> (forall h, magic (f h) = magic h /\ node_id (f h) = node_id h) ->
  update_chunk c f s = Done tt s' -> clients_act K s s'.
Proof.
  intros Hin Hf. unfold update_chunk, check_mapped. run_m. destruct (mapped s c); [|done]. intros [= <-].
  constructor; [done| | |done].
  - intros d Hd. rewrite chunk_of_insert, decide_False; [done|]. by intros ->.
  - intros d _. rewrite chunk_of_insert. destruct (decide (c = d)) as [<-|]; [apply Hf|done].
Qed.

(** ** All steps *)

(** No chunk is lost. *)
Definition still_there (c : vconfig) G P Ns (c' : vconfig) G' P' Ns' : Prop :=
  forall d, d ∈ places c G P Ns -> d ∈ places c' G' P' Ns'.

Lemma vm_step_ok c c' G P Ns :
  vm_at c G P Ns -> vm_step c c' ->
  exists G' P' Ns', vm_at c' G' P' Ns' /\ still_there c G P Ns c' G' P' Ns'.
Proof.
  assert (forall c1 c2 G1 P1 Ns1 G2 P2 Ns2, vm_at c2 G2 P2 Ns2 /\ places c2 G2 P2 Ns2 ≡ₚ places c1 G1 P1 Ns1 ->
    exists G' P' Ns', vm_at c2 G' P' Ns' /\ still_there c1 G1 P1 Ns1 c2 G' P' Ns') as Hperm.
  { intros c1 c2 G1 P1 Ns1 G2 P2 Ns2 [Hv Hp]. exists G2, P2, Ns2. split; [done|]. intros d. by rewrite Hp. }
  intros Hc Hs. destruct Hs as [s H2 ps i Hi|s H2 c H3 ps i Hi|s H2 ps i Hi|s H2 ps i p m p' s' Hi Ha Hm|s H2 ps i r Hi|s H2 ps s' Hu].
  all: try (destruct (lookup_lt_is_Some_2 Ns i) as [N HN]; [rewrite (va_length _ _ _ _ Hc); by eapply lookup_lt_Some|];
    pose proof (va_local _ _ _ _ Hc i _ N Hi HN) as Hl; cbn [local vc_state] in Hl).
  - subst N. eapply Hperm, hand_over; try done. apply Hc.
  - subst N. pose proof (va_held _ _ _ _ Hc) as Hst. cbn in Hst. eapply Hperm, (hand_over s (H2 ++ c :: H3) ps G P Ns i VIdle []); try done.
    + cbn. split; [done|]. apply Hst. set_solver.
    + solve_Permutation.
    + intros d Hd. apply Hst. set_solver.
  - subst N. eapply Hperm, hand_over; try done. apply Hc.
  - pose proof (vm_at_sees s H2 ps G P Ns i p N Hc Hi HN) as Hv. pose proof (act_ok s G P p N m Hv Ha) as Hwp. unfold wp in Hwp.
    rewrite Hm in Hwp. destruct Hwp as (G' & P' & N' & new & Hst). exists G', P', (<[i := N']> Ns).
    split; [by eapply step_ok|]. intros d Hd. rewrite (places_step s H2 ps G P Ns i p N) by done. set_solver.
  - pose proof (va_held _ _ _ _ Hc) as Hst. cbn in Hst. destruct Hl as [[-> ->]|(-> & _ & n & Hn & Hr)].
    + eapply Hperm, hand_over; try done.
    + assert (r <> NULL).
      { destruct (va_ok _ _ _ _ Hc r) as (_ & ? & _); [|cbn in *; lia]. unfold places.
        assert (r ∈ concat Ns) by (eapply elem_of_concat_lookup; [exact HN|by left]). set_solver. }
      zfalse (r =? NULL). eapply Hperm, (hand_over s H2 ps G P Ns i (VRet r) [r]); try done.
      * solve_Permutation.
      * intros d [->|Hd]%elem_of_cons; eauto.
  - exists G, P, Ns. split; [by eapply clients_ok|]. intros d Hd. exact Hd.
Qed.

(** ** Executions *)

(** Every thread can make its next access. *)
Definition vm_runs (c : vconfig) : Prop :=
  forall i p m, vc_threads c !! i = Some p -> vm_act p = Some m -> exists p' s', m (vc_state c) = Done p' s'.

Lemma vm_at_runs c G P Ns : vm_at c G P Ns -> vm_runs c.
Proof.
  destruct c as [s K ps]. intros Hc i p m Hi Ha. cbn in *.
  destruct (lookup_lt_is_Some_2 Ns i) as [N HN]; [rewrite (va_length _ _ _ _ Hc); by eapply lookup_lt_Some|].
  pose proof (act_ok s G P p N m (vm_at_sees s K ps G P Ns i p N Hc Hi HN) Ha) as Hwp. unfold wp in Hwp.
  destruct (m s) as [p' s'|]; [by exists p', s'|done].
Qed.

Lemma vm_reaches_ok c c' G P Ns : vm_at c G P Ns -> rtc vm_step c c' ->
  exists G' P' Ns', vm_at c' G' P' Ns' /\ still_there c G P Ns c' G' P' Ns'.
Proof.
  intros Hc Hr. revert G P Ns Hc. induction Hr as [c|c c1 c' Hs _ IH]; intros G P Ns Hc.
  - exists G, P, Ns. split; [done|]. by intros d.
  - destruct (vm_step_ok c c1 G P Ns Hc Hs) as (G1 & P1 & Ns1 & Hc1 & Hst1).
    destruct (IH G1 P1 Ns1 Hc1) as (G' & P' & Ns' & Hc' & Hst'). exists G', P', Ns'. split; [done|].
    intros d Hd. by apply Hst', Hst1.
Qed.

(** [k] threads that have not called yet; clients hold the chunks [K]. *)
Definition vm_start (s : state) (K : list Z) (k : nat) : vconfig := mk_vc s K (replicate k VIdle).

Lemma pool_of_lookup s n pool : g_numa_pools s !! Z.to_nat n = Some pool -> pool_of s n = pool.
Proof. unfold pool_of. by intros ->. Qed.

Lemma vm_start_at s K k G P :
  vmm_inv s G P -> NoDup (K ++ G ++ concat P) ->
  (forall c, c ∈ K -> chunk_ok s c /\ exists n, node n /\ stamped s n c) ->
  vm_at (vm_start s K k) G P (replicate k []).
Proof.
  intros Hv Hnd HK. destruct (vi_locks _ _ _ Hv) as [Hl1 Hl2].
  assert (forall n l, node n -> P !! Z.to_nat n = Some l -> exists pool, pool_of s n = pool /\ chain s (free_chunks pool) l /\
    available_count pool = Z.of_nat (length l) /\ (length l <= 32)%nat /\ forall c, c ∈ l -> stamped s n c) as Hpool.
  { intros n l Hn Hl. destruct (vi_pool _ _ _ Hv _ _ Hl) as (pool & Hp & ? & ? & ? & Hst). exists pool.
    split_and!; [by apply pool_of_lookup|done..|]. intros c Hc. destruct (Hst c Hc) as [? E]. split; [done|].
    rewrite E. unfold node in Hn. lia. }
  assert (concat (replicate k ([] : list Z)) = []) as Ecat by (clear; by induction k).
  assert (forall l, taken s l = false) as Hfree.
  { intros [n|]; cbn; [|done]. rewrite Hl1. destruct (replicate 16 false !! Z.to_nat n) as [b|] eqn:E; [|done].
    by apply lookup_replicate in E as [-> _]. }
  constructor; unfold vm_start, places; cbn [vc_state vc_held vc_threads]; rewrite ?Ecat, ?app_nil_r; try done.
  - constructor.
    + destruct (vi_len _ _ _ Hv). by rewrite Hl1.
    + apply Hv.
    + intros n l Hn Hl. destruct (Hpool n l Hn Hl) as (pool & <- & ? & ? & ? & ?). done.
  - intros n Hn _. destruct (lookup_lt_is_Some_2 P (Z.to_nat n)) as [l Hl].
    { destruct (vi_len _ _ _ Hv) as [-> _]. unfold node in Hn. lia. }
    destruct (Hpool n l Hn Hl) as (pool & <- & ? & ? & ? & ?). by exists l.
  - by rewrite !length_replicate.
  - intros i p N [-> _]%lookup_replicate [-> _]%lookup_replicate. done.
  - intros l _. rewrite Hfree. split; [done|]. by intros (i & p & [-> _]%lookup_replicate & ?).
  - by intros i j p q l [-> _]%lookup_replicate.
  - intros d [Hd|Hd]%elem_of_app; [by apply HK|by apply (vi_chunks _ _ _ Hv)].
  - intros d Hd. by apply HK.
Qed.

(** The threads are idle again: the sequential invariant holds. *)
Lemma vm_at_idle c G P Ns :
  vm_at c G P Ns -> (forall p, p ∈ vc_threads c -> p = VIdle) -> vmm_inv (vc_state c) G P.
Proof.
  intros Hc Hq. destruct (va_lists _ _ _ _ Hc) as [(L1 & L1' & L1'') L2 L3].
  assert (forall l, real_lock l -> taken (vc_state c) l = false) as Hfree.
  { intros l Hl. apply not_true_is_false. rewrite (va_taken _ _ _ _ Hc l Hl). intros (i & p & Hi & Hp).
    rewrite (Hq p) in Hp; [done|]. by eapply list_elem_of_lookup_2. }
  pose proof (va_once _ _ _ _ Hc) as Hnd. unfold places in Hnd.
  constructor; try done.
  - split; [|by apply (Hfree LGlobal)]. apply list_eq_same_length with 16%nat; [by rewrite length_replicate|done|].
    intros i x y Hi Hx [-> _]%lookup_replicate. specialize (Hfree (LPool (Z.of_nat i))). cbn in Hfree.
    rewrite Nat2Z.id, Hx in Hfree. apply Hfree. unfold node. lia.
  - intros n l Hl. assert (node (Z.of_nat n)) as Hn by (apply lookup_lt_Some in Hl; unfold node; lia).
    destruct (va_counted _ _ _ _ Hc (Z.of_nat n) Hn (Hfree (LPool _) Hn)) as (l' & Hl' & Ec).
    destruct (L3 (Z.of_nat n) l Hn) as (Hch & Hle & Hst); [by rewrite Nat2Z.id|]. rewrite Nat2Z.id in Hl'.
    rewrite Hl in Hl'. injection Hl' as <-. destruct (lookup_lt_is_Some_2 (g_numa_pools (vc_state c)) n) as [pool Hp].
    { apply lookup_lt_Some in Hl. lia. }
    rewrite (pool_of_lookup _ _ pool) in Ec, Hch by (by rewrite Nat2Z.id). by exists pool.
  - intros d Hd. apply (va_ok _ _ _ _ Hc). unfold places. set_solver.
  - apply NoDup_app in Hnd as (_ & _ & Hnd). rewrite app_assoc in Hnd. by apply NoDup_app in Hnd as (? & _ & _).
Qed.

End acts.
