(* ===== verification/VmmRaceSpec.v ===== *)
(** * What the racing chunk manager promises

    The theorems about the threads of VmmRace.v: safety under every
    interleaving, isolation of the chunks clients hold, a bound on the actions
    of every call, release of every lock, agreement with the sequential code of
    Vmm.v, and the schedule that makes an allocation fail although memory is
    available. *)

From S2P Require Import Prelude Common Machine Wp Testbed Security Vmm VmmSpec Frame Interleave VmmRace.

(** ** Progress *)

Section progress.
Context `{Env}.

(** A thread acts without waiting, or repeats a test-and-set that failed. *)
Inductive vm_acts_once (i : nat) : vconfig -> vconfig -> Prop :=
  | acts_once s K ps p m p' s' :
      ps !! i = Some p -> vm_act p = Some m -> m s = Done p' s' -> p' <> p ->
      vm_acts_once i (mk_vc s K ps) (mk_vc s' K (<[i := p']> ps)).
Inductive vm_spins : vconfig -> vconfig -> Prop :=
  | spins_once s K ps i p m s' :
      ps !! i = Some p -> vm_act p = Some m -> m s = Done p s' ->
      vm_spins (mk_vc s K ps) (mk_vc s' K (<[i := p]> ps)).

(** Executions of the calls under way with [k] actions, not counting the
    repetitions of a failed test-and-set. *)
Inductive vm_runs_for : nat -> vconfig -> vconfig -> Prop :=
  | runs_none c : vm_runs_for 0 c c
  | runs_act k i c c1 c' : vm_acts_once i c c1 -> vm_runs_for k c1 c' -> vm_runs_for (S k) c c'
  | runs_spin k c c1 c' : vm_spins c c1 -> vm_runs_for k c1 c' -> vm_runs_for k c c'.

Lemma acts_once_step i c c' : vm_acts_once i c c' -> vm_step c c'.
Proof. intros Hs. destruct Hs. by eapply vm_acts. Qed.
Lemma spins_step c c' : vm_spins c c' -> vm_step c c'.
Proof. intros Hs. destruct Hs. by eapply vm_acts. Qed.

Lemma runs_for_reaches k c c' : vm_runs_for k c c' -> rtc vm_step c c'.
Proof.
  induction 1; [apply rtc_refl| |]; (eapply rtc_l; [|done]); [by eapply acts_once_step|by eapply spins_step].
Qed.

(** The actions that remain of a call, for a thread that keeps [n] chunks. *)
Definition purge_work (i : Z) (n : nat) : nat := (1 + 7 * n + Z.to_nat (15 - i) * 229)%nat.

Definition push_work (k : push_goal) (n : nat) : nat :=
  match k with
  | ToFree => 1
  | ToPurge i _ => S (purge_work i n)
  | ToExtent _ _ _ => 7
  end.
(** Pushes to come after that of chunk [j]. *)
Definition pushes_left (k : push_goal) : nat :=
  match k with ToExtent _ _ j => Z.to_nat (31 - j) | _ => 0 end.

Definition work (p : vpc) (n : nat) : nat :=
  match p with
  | VIdle | VRet _ => 0
  | AClear _ => 1
  | GStamp _ _ => 1 | GUnlock _ _ => 2 | GPop _ _ _ => 3 | GNext _ _ => 4 | GTop _ => 5
  | GLock _ true => 6
  | GExtent _ => 73 | GUnlockEmpty _ => 74 | GTest _ => 75 | GLock _ false => 76
  | AUnlock _ _ => 77 | ACount _ _ => 78 | APop _ _ _ => 79 | ANext _ _ => 80 | ATop _ => 81 | ALock _ => 82 | ANode => 83
  | PushUnlock k => push_work k n
  | PushHead _ k => 1 + push_work k (pred n) + 2 * pushes_left k
  | PushNext _ k => 2 + push_work k (pred n) + 2 * pushes_left k
  | PushLock _ k => 3 + push_work k (pred n) + 2 * pushes_left k
  | FDrop _ k => 4 + push_work k (pred n) + 2 * pushes_left k
  | FUnlock _ _ => 6 | FInc _ => 7 | FHead _ _ => 8 | FTop _ _ => 9 | FCount _ _ => 10 | FLock _ _ => 11 | FStart _ => 12
  | PWalk i _ => purge_work i n
  | PUnlock i _ => 1 + purge_work i n
  | PZero i _ => 2 + purge_work i n
  | PTake i => 3 + purge_work i 32
  | PLock i => 4 + purge_work i 32
  end%nat.

(** The actions of a whole call. *)
Definition call_work (p : vpc) : nat := work p 0.

Lemma ret_done {A} (a b : A) s s' : (mret a : M A) s = Done b s' -> b = a /\ s' = s.
Proof. by intros [= -> ->]. Qed.

End progress.

(** Runs through the binds of an action to the program point it ends at. *)
Ltac act_end Hm :=
  repeat (apply bind_done in Hm as (? & ? & ? & Hm));
  try (apply ret_done in Hm as [-> ->]).

(** ** The work of one action *)

(** A list is determined by its head and the links. *)
Lemma chain_unique s s' a l l' :
  (forall d, d ∈ l -> chunk_next (chunk_of s' d) = chunk_next (chunk_of s d)) ->
  chain s a l -> chain s' a l' -> l' = l.
Proof.
  revert a l'. induction l as [|c l IH]; intros a l' Hn; cbn.
  - intros ->. destruct l' as [|c' l']; [done|]. cbn. by intros (<- & ? & _).
  - intros (-> & Hc & Hl). destruct l' as [|c' l']; cbn; [done|]. intros (<- & _ & Hl'). f_equal.
    rewrite Hn in Hl' by (by left). eapply IH; [|done..]. intros d Hd. apply Hn. by right.
Qed.

Section work.
Context `{EnvLaws}.

(** The links of the chunks a purge still has to move. *)
Lemma goal_same s s' c k N N' :
  (forall d, d ∈ N -> chunk_next (chunk_of s' d) = chunk_next (chunk_of s d)) ->
  goal_ok s c k N -> goal_ok s' c k N' -> N' = N.
Proof.
  intros Hn. destruct k; cbn; [by intros -> ->| |].
  - intros [_ Hc] [_ Hc']. exact (chain_unique s s' _ N N' Hn Hc Hc').
  - intros (_ & _ & _ & _ & _ & ->) (_ & _ & _ & _ & _ & ->). done.
Qed.

(** The chunk whose header an action of a push may write. *)
Definition pushed (p : vpc) : option Z := match p with PushNext c _ => Some c | _ => None end.

(** Points of a purge or of a push. *)
Definition moving (p : vpc) : bool :=
  match p with
  | PTake _ | PZero _ _ | PUnlock _ _ | PWalk _ _ | FDrop _ _ => true
  | PushLock _ _ | PushNext _ _ | PushHead _ _ | PushUnlock _ => true
  | _ => false
  end.

Lemma update_pool_links n f s u s' d : update_pool n f s = Done u s' -> chunk_of s' d = chunk_of s d.
Proof. unfold update_pool, pool_at. run_m. destruct (_ !! n); [|done]. by intros [= _ <-]. Qed.
Lemma update_chunk_links c f s u s' d : update_chunk c f s = Done u s' -> d <> c -> chunk_of s' d = chunk_of s d.
Proof.
  unfold update_chunk, check_mapped. run_m. destruct (mapped s c); [|done]. intros [= _ <-] Hd.
  rewrite chunk_of_insert. by rewrite decide_False.
Qed.

Lemma links_kept p m s p' s' d :
  moving p = true -> vm_act p = Some m -> m s = Done p' s' -> pushed p <> Some d -> chunk_of s' d = chunk_of s d.
Proof.
  intros Hp Ha Hm Hd. destruct p; try discriminate Hp; apply (inj Some) in Ha as <-.
  - unfold try_global_lock in Hm. revert Hm. run_m. by destruct (g_global_pool_lock s); intros [= _ <-].
  - act_end Hm. cbn in Hd. assert (d <> c) by congruence. revert select (fetch _ _ = _). intros [= _ <-].
    by eapply update_chunk_links.
  - act_end Hm. revert select (modify _ _ = _). by intros [= _ <-].
  - act_end Hm. revert select (global_pool_unlock _ = _). by intros [= _ <-].
  - act_end Hm. revert select (madvise_dontneed _ _ _ = _). by intros [= _ <-].
  - apply bind_done in Hm as (q & s1 & Hq & Hm). assert (s1 = s) as ->.
    { revert Hq. unfold pool_at. run_m. destruct (_ !! _); [|done]. by intros [= _ <-]. }
    act_end Hm. by eapply update_pool_links.
  - act_end Hm. by eapply update_pool_links.
  - act_end Hm. revert select (pool_unlock _ _ = _). by intros [= _ <-].
  - destruct (_ =? _); act_end Hm; [done|]. revert select (chunk_at _ _ = _). unfold chunk_at, check_mapped. run_m.
    destruct (mapped s chunk); [|done]. by intros [= _ <-].
Qed.

Lemma try_pool_end n spin ok s p' s' : try_pool_lock n spin ok s = Done p' s' -> p' = spin /\ s' = s \/ p' = ok.
Proof. unfold try_pool_lock. run_m. destruct (_ !! _) as [[|]|]; [| |done]; intros [= <- <-]; auto. Qed.
Lemma try_global_end spin ok s p' s' : try_global_lock spin ok s = Done p' s' -> p' = spin /\ s' = s \/ p' = ok.
Proof. unfold try_global_lock. run_m. destruct (g_global_pool_lock s); intros [= <- <-]; auto. Qed.

(** What a push or a walk keeps. *)
Lemma moving_goal s s' G P G' P' p m p' N N' c k :
  sees s G P p N -> vm_act p = Some m -> m s = Done p' s' -> moving p = true ->
  (local s G P p N -> exists M, N = c :: M /\ goal_ok s c k M) ->
  (local s' G' P' p' N' -> exists M, N' = c :: M /\ goal_ok s' c k M) ->
  (forall d, pushed p = Some d -> d = c) -> local s' G' P' p' N' -> N' = N.
Proof.
  intros Hv Ha Hm Hmv Hl Hl' Hpd Hp'. destruct (Hl (se_local _ _ _ _ _ Hv)) as (M & EN & Hg).
  destruct (Hl' Hp') as (M' & -> & Hg'). pose proof (own_tail s G P N p c M Hv EN) as Hnin. rewrite EN. f_equal.
  eapply goal_same; [|exact Hg|exact Hg']. intros d Hd.
  rewrite (links_kept p m s p' s' d Hmv Ha Hm); [done|]. intros ->%Hpd. done.
Qed.

Lemma moving_chain p m s p' s' a N N' :
  vm_act p = Some m -> m s = Done p' s' -> moving p = true -> pushed p = None -> chain s a N -> chain s' a N' -> N' = N.
Proof.
  intros Ha Hm Hmv Hp. apply chain_unique. intros d _. rewrite (links_kept p m s p' s' d Hmv Ha Hm); [done|congruence].
Qed.

(** Waiting, or one action less to do. *)
Definition pays (p : vpc) (N : list Z) (p' : vpc) (N' : list Z) : Prop :=
  p' = p /\ length N' = length N \/ p' <> p /\ (work p' (length N') < work p (length N))%nat.

Lemma work_push s G P p N m p' s' G' P' N' new :
  sees s G P p N -> vm_act p = Some m -> m s = Done p' s' -> stepped s G P p N s' G' P' p' N' new ->
  moving p = true -> pays p N p' N'.
Proof.
  intros Hv Ha Hm Hst Hmv. pose proof (se_local _ _ _ _ _ Hv) as Hl. pose proof (sp_local _ _ _ _ _ _ _ _ _ _ _ Hst) as Hl'.
  pose proof (fun a => moving_chain p m s p' s' a N N' Ha Hm Hmv) as Hch.
  pose proof (fun c k => moving_goal s s' G P G' P' p m p' N N' c k Hv Ha Hm Hmv) as Hgo. unfold pays.
  pose proof (fun d => links_kept p m s p' s' d Hmv Ha Hm) as Hlk.
  destruct p; try discriminate Hmv; apply (inj Some) in Ha as <-; cbn [local pushed] in *.
  - (* PushLock *) apply try_global_end in Hm as [[-> ->]| ->]; cbn [local] in Hl'.
    + left. split; [done|]. f_equal. by apply (Hgo c k).
    + right. split; [done|]. rewrite (Hgo c k); [|done..]. cbn. lia.
  - (* PushNext *) act_end Hm. cbn [local] in Hl'. right. split; [done|]. rewrite (Hgo c k); [cbn; lia|done| | |done].
    + by intros [_ ?].
    + by intros d [= ->].
  - (* PushHead *) act_end Hm. right. destruct Hl as (_ & M & -> & Hg). destruct k as [|i next|n a j]; cbn in *.
    + split; [done|lia].
    + destruct Hg as [_ Hg], Hl' as [_ Hl']. split; [done|]. erewrite (chain_unique _ _ next M N'); [lia| |done..].
      intros d _. by rewrite Hlk.
    + unfold LZ_EXTENT_CHUNKS in *. destruct (Z.ltb_spec (j + 1) 32); cbn; split; (done || lia).
  - (* PushUnlock *) act_end Hm. right. destruct k as [|i next|n a j]; cbn in *; split; try done; try lia.
    destruct Hl as [_ Hl], Hl' as [_ Hl']. rewrite (Hch next eq_refl Hl Hl'). lia.
  - (* FDrop *) act_end Hm. right. cbn [local] in Hl'. split; [done|]. rewrite (Hgo c k); [cbn; lia|done..].
  - (* PTake *) destruct Hl as [Hn ->]. destruct (node_pool s G P _ _ i Hv Hn) as [Ep Hq]. rewrite Ep in Hm.
    apply bind_done in Hm as (q & s1 & Hq1 & Hm). unfold pool_at in Hq1. revert Hq1. run_m. rewrite Hq. intros [= <- <-].
    act_end Hm. right. split; [done|]. cbn in Hl'. destruct Hl' as (_ & Hl' & _).
    destruct (lo_len _ _ _ (se_lists _ _ _ _ _ Hv)) as (Hlen & _).
    destruct (lookup_lt_is_Some_2 P (Z.to_nat i)) as [l El]; [unfold node in Hn; lia|].
    destruct (lo_pool _ _ _ (se_lists _ _ _ _ _ Hv) i l Hn El) as (Hchl & Hle & _).
    rewrite (chain_unique s _ _ l N' (fun d _ => f_equal chunk_next (Hlk d ltac:(done))) Hchl Hl'). cbn. unfold purge_work. lia.
  - (* PZero *) act_end Hm. right. split; [done|]. cbn in Hl'. destruct Hl as (_ & Hl & _), Hl' as (_ & Hl' & _).
    rewrite (Hch _ eq_refl Hl Hl'). cbn. lia.
  - (* PUnlock *) act_end Hm. right. split; [done|]. cbn in Hl'. destruct Hl as (_ & Hl & _), Hl' as (_ & Hl').
    rewrite (Hch _ eq_refl Hl Hl'). cbn. lia.
  - (* PWalk *) right. destruct Hl as [Hn Hl]. unfold node in Hn. destruct (Z.eqb_spec chunk NULL) as [E|E]; act_end Hm.
    + unfold LZ_MAX_NUMA_NODES. destruct (Z.ltb_spec (i + 1) 16); cbn; unfold purge_work; split; (done || lia).
    + cbn [local] in Hl'. destruct Hl' as (M' & -> & _ & Hc'). destruct N as [|c M]; [done|]. destruct Hl as (-> & _ & Hl).
      revert select (chunk_at _ _ = _). unfold chunk_at, check_mapped. run_m. destruct (mapped s c); [|done]. intros [= <- <-].
      split; [done|]. rewrite (chain_unique s s _ M M' (fun _ _ => eq_refl) Hl Hc'). cbn. unfold purge_work. lia.
Qed.

Lemma work_step s G P p N m p' s' G' P' N' new :
  sees s G P p N -> vm_act p = Some m -> m s = Done p' s' -> stepped s G P p N s' G' P' p' N' new -> pays p N p' N'.
Proof.
  intros Hv Ha Hm Hst. destruct (moving p) eqn:Hmv; [by eapply work_push|].
  pose proof (se_local _ _ _ _ _ Hv) as Hl. pose proof (sp_local _ _ _ _ _ _ _ _ _ _ _ Hst) as Hl'. unfold pays.
  destruct p; try discriminate Hmv; try discriminate Ha; apply (inj Some) in Ha as <-; cbn [local] in Hl.
  all: try (act_end Hm; right; repeat case_match; simplify_eq; cbn; split; (done || lia)).
  all: try (apply try_pool_end in Hm as [[-> ->]| ->]; cbn [local] in Hl'; [left|right; split; [done|cbn; lia]]).
  all: try (apply try_global_end in Hm as [[-> ->]| ->]; cbn [local] in Hl'; [left|right]).
  - by destruct Hl as [_ ->], Hl' as [_ ->].
  - by destruct Hl as [_ ->], Hl' as [_ ->].
  - by destruct again; (split; [done|cbn; lia]).
  - apply bind_done in Hm as (o & s1 & _ & Hm). right. destruct o; act_end Hm; (split; [done|]); cbn [work push_work pushes_left]; lia.
  - right. destruct (_ =? _); act_end Hm; [|case_match]; cbn; (split; [done|lia]).
  - by destruct Hl as (_ & -> & _), Hl' as (_ & -> & _).
  - by destruct Hl as [_ ->], Hl' as [_ ->].
Qed.

(** An action of one thread in the whole configuration. *)
Lemma act_pays s K ps G P Ns i p m p' s' :
  vm_at (mk_vc s K ps) G P Ns -> ps !! i = Some p -> vm_act p = Some m -> m s = Done p' s' ->
  exists G' P' N N' new, Ns !! i = Some N /\ stepped s G P p N s' G' P' p' N' new /\
    vm_at (mk_vc s' K (<[i := p']> ps)) G' P' (<[i := N']> Ns) /\ pays p N p' N'.
Proof.
  intros Hc Hi Ha Hm.
  destruct (lookup_lt_is_Some_2 Ns i) as [N HN]; [rewrite (va_length _ _ _ _ Hc); by eapply lookup_lt_Some|].
  pose proof (vm_at_sees s K ps G P Ns i p N Hc Hi HN) as Hv. pose proof (act_ok s G P p N m Hv Ha) as Hwp. unfold wp in Hwp.
  rewrite Hm in Hwp. destruct Hwp as (G' & P' & N' & new & Hst). exists G', P', N, N', new.
  split_and!; [done|done|by eapply step_ok|by eapply work_step].
Qed.

(** The actions that remain of all calls. *)
Definition work_left (ps : list vpc) (Ns : list (list Z)) : nat :=
  total (fun x => work x.1 (length x.2)) (zip ps Ns).

Lemma work_left_step ps Ns i p N p' N' :
  ps !! i = Some p -> Ns !! i = Some N ->
  (work_left (<[i := p']> ps) (<[i := N']> Ns) + work p (length N) = work_left ps Ns + work p' (length N'))%nat.
Proof.
  intros Hi HN. unfold work_left. rewrite <- insert_zip_with.
  apply (total_insert (fun x : vpc * list Z => work x.1 (length x.2)) (zip ps Ns) i (p, N) (p', N')).
  by rewrite lookup_zip_with, Hi; cbn; rewrite HN.
Qed.

Lemma runs_bound k c c' G P Ns :
  vm_at c G P Ns -> vm_runs_for k c c' -> (k <= work_left (vc_threads c) Ns)%nat.
Proof.
  intros Hc Hr. revert G P Ns Hc. induction Hr as [c|k i c c1 c' Hs _ IH|k c c1 c' Hs _ IH]; intros G P Ns Hc; [lia|..].
  - destruct Hs as [s K ps p m p' s' Hi Ha Hm Hne].
    destruct (act_pays s K ps G P Ns i p m p' s' Hc Hi Ha Hm) as (G' & P' & N & N' & new & HN & _ & Hc' & [[? _]|[_ Hlt]]); [done|].
    specialize (IH _ _ _ Hc'). pose proof (work_left_step ps Ns i p N p' N' Hi HN). cbn [vc_threads] in *. lia.
  - destruct Hs as [s K ps i p m s' Hi Ha Hm].
    destruct (act_pays s K ps G P Ns i p m p s' Hc Hi Ha Hm) as (G' & P' & N & N' & new & HN & _ & Hc' & [[_ E]|[? _]]); [|done].
    specialize (IH _ _ _ Hc'). pose proof (work_left_step ps Ns i p N p N' Hi HN) as Hw. rewrite E in Hw. cbn [vc_threads] in *. lia.
Qed.

(** ** Waiting *)

(** The lock a thread waits for. *)
Definition waits_for (p : vpc) : option lock_id :=
  match p with
  | ALock n | FLock n _ | PLock n => Some (LPool n)
  | GLock _ _ | PushLock _ _ => Some LGlobal
  | _ => None
  end.

Lemma try_pool_spin n p ok s s' : try_pool_lock n p ok s = Done p s' -> ok <> p -> taken s (LPool n) = true.
Proof. unfold try_pool_lock. run_m. cbn. by destruct (_ !! _) as [[|]|]; [|intros [= ? _]|]. Qed.
Lemma try_global_spin p ok s s' : try_global_lock p ok s = Done p s' -> ok <> p -> taken s LGlobal = true.
Proof. unfold try_global_lock. run_m. cbn. by destruct (g_global_pool_lock s); [|intros [= ? _]]. Qed.

(** A thread that does not advance waits for a lock that is taken. *)
Lemma spin_waits s G P p N m s' :
  sees s G P p N -> vm_act p = Some m -> m s = Done p s' ->
  exists l, waits_for p = Some l /\ holding p = None /\ real_lock l /\ taken s l = true.
Proof.
  intros Hv Ha Hm. pose proof (se_local _ _ _ _ _ Hv) as Hl.
  assert (waits_for p <> None) as Hw.
  { pose proof (act_ok s G P p N m Hv Ha) as Hwp. unfold wp in Hwp. rewrite Hm in Hwp. destruct Hwp as (G' & P' & N' & new & Hst).
    destruct (work_step _ _ _ _ _ _ _ _ _ _ _ _ Hv Ha Hm Hst) as [_|[? _]]; [|done].
    destruct p; try done; exfalso; apply (inj Some) in Ha as <- || discriminate Ha;
      repeat first [apply bind_done in Hm as (? & ? & ? & Hm)|case_match|apply ret_done in Hm as [Hm _]]; simplify_eq.
    all: destruct k; cbn in Hm; repeat case_match; done. }
  destruct p; try done; apply (inj Some) in Ha as <-; cbn [local] in Hl; eexists; (split; [reflexivity|]); (split; [done|]).
  - split; [apply Hl|by eapply try_pool_spin].
  - split; [done|]. eapply try_global_spin; [exact Hm|]. by destruct again.
  - split; [done|by eapply try_global_spin].
  - split; [apply Hl|by eapply try_pool_spin].
  - split; [apply Hl|by eapply try_pool_spin].
Qed.

(** Some call under way can act without waiting. *)
Lemma some_acts c G P Ns :
  vm_at c G P Ns -> (exists p, p ∈ vc_threads c /\ vm_act p <> None) -> exists i c', vm_acts_once i c c'.
Proof.
  destruct c as [s K ps]. intros Hc (p & [i Hi]%list_elem_of_lookup & Hp). cbn in Hi.
  assert (forall j q m, ps !! j = Some q -> vm_act q = Some m ->
    (exists c', vm_acts_once j (mk_vc s K ps) c') \/ exists l, holding q = None /\ real_lock l /\ taken s l = true) as Hone.
  { intros j q m Hj Ha. destruct (vm_at_runs _ _ _ _ Hc j q m Hj Ha) as (q' & s' & Hm).
    destruct (act_pays s K ps G P Ns j q m q' s' Hc Hj Ha Hm) as (G' & P' & N & N' & new & HN & _ & _ & [[-> _]|[Hne _]]).
    - right. destruct (spin_waits s G P q N m s') as (l & _ & ? & ? & ?); [by eapply vm_at_sees|done..|]. eauto.
    - left. eexists. by eapply acts_once. }
  destruct (vm_act p) as [m|] eqn:Ha; [|done].
  destruct (Hone i p m Hi Ha) as [?|(l & _ & Hr & Ht)]; [eauto|].
  apply (va_taken _ _ _ _ Hc l Hr) in Ht as (j & q & Hj & Hq).
  destruct (vm_act q) as [m'|] eqn:Hb; [|by destruct q].
  destruct (Hone j q m' Hj Hb) as [?|(l' & Hq' & _)]; [eauto|congruence].
Qed.

(** ** Release of the locks *)

(** The actions until the thread at this point lets go of its lock. *)
Definition hold_left (p : vpc) : nat :=
  match p with
  | AUnlock _ _ => 1 | ACount _ _ => 2 | APop _ _ _ => 3 | ANext _ _ => 4 | ATop _ => 5
  | FUnlock _ _ => 1 | FInc _ => 2 | FHead _ _ => 3 | FTop _ _ => 4 | FCount _ _ => 5
  | PUnlock _ _ => 1 | PZero _ _ => 2 | PTake _ => 3
  | GUnlock _ _ => 1 | GUnlockEmpty _ => 1 | GPop _ _ _ => 2 | GNext _ _ => 3 | GTop _ => 4 | GTest _ => 5
  | PushUnlock _ => 1
  | PushHead _ k => 2 + 2 * pushes_left k
  | PushNext _ k => 3 + 2 * pushes_left k
  | _ => 0
  end%nat.

Lemma hold_step p m s p' s' l :
  holding p = Some l -> vm_act p = Some m -> m s = Done p' s' ->
  holding p' = None \/ holding p' = Some l /\ (hold_left p' < hold_left p)%nat.
Proof.
  intros Hp Ha Hm. destruct p; try discriminate Hp; apply (inj Some) in Ha as <-; cbn [holding] in Hp; act_end Hm.
  all: try (repeat case_match; cbn; (by left) || (right; split; (done || lia))).
  - right. destruct k as [| |n a j]; cbn; [split; (done || lia)..|].
    unfold LZ_EXTENT_CHUNKS. destruct (Z.ltb_spec (j + 1) 32); cbn [holding hold_left pushes_left]; split; (done || lia).
  - left. by destruct k.
Qed.

Lemma hold_left_bound s G P p N : local s G P p N -> (hold_left p <= 65)%nat.
Proof.
  assert (forall c k M, goal_ok s c k M -> (pushes_left k <= 31)%nat) as Hk.
  { intros c k M. destruct k as [| |n a j]; cbn; [lia..|]. intros (_ & Hj & _). lia. }
  destruct p; cbn [local hold_left]; try lia.
  - intros (M & _ & Hg%Hk). lia.
  - intros (_ & M & _ & Hg%Hk). lia.
Qed.

Lemma lock_let_go n c G P Ns i p l :
  vm_at c G P Ns -> vc_threads c !! i = Some p -> holding p = Some l -> (hold_left p <= n)%nat ->
  exists k c', (k <= n)%nat /\ nsteps (vm_acts_once i) k c c' /\ taken (vc_state c') l = false.
Proof.
  revert c G P Ns p. induction n as [|n IH]; intros [s K ps] G P Ns p Hc Hi Hp Hn; cbn in Hi; [by destruct p; cbn in Hp, Hn; try lia|].
  destruct (vm_act p) as [m|] eqn:Ha; [|by destruct p].
  destruct (vm_at_runs _ _ _ _ Hc i p m Hi Ha) as (p' & s' & Hm). cbn in Hm.
  destruct (act_pays s K ps G P Ns i p m p' s' Hc Hi Ha Hm) as (G' & P' & N & N' & new & HN & Hst & Hc' & _).
  assert (real_lock l) as Hr by (eapply local_node; [by eapply (va_local _ _ _ _ Hc)|done]).
  assert (p' <> p) as Hne.
  { intros ->. destruct (hold_step p m s p s' l Hp Ha Hm) as [?|[_ ?]]; [congruence|lia]. }
  assert (vm_acts_once i (mk_vc s K ps) (mk_vc s' K (<[i := p']> ps))) as Hs by (by eapply acts_once).
  destruct (hold_step p m s p' s' l Hp Ha Hm) as [Hp'|[Hp' Hlt]].
  - exists 1%nat, (mk_vc s' K (<[i := p']> ps)). split_and!; [lia|by apply nsteps_once|]. cbn [vc_state].
    rewrite (sp_lock _ _ _ _ _ _ _ _ _ _ _ Hst l Hr), Hp', Hp. by rewrite decide_False, decide_True.
  - destruct (IH _ G' P' _ p' Hc') as (k & c' & Hk & Hns & Ht); [|done|lia|].
    + cbn. apply list_lookup_insert_eq. by eapply lookup_lt_Some.
    + exists (S k), c'. split_and!; [lia|by eapply nsteps_l|done].
Qed.

End work.

(** ** Schedules *)

(** A thread calls (a release takes the chunk a client got last), acts or
    returns. *)
Inductive vm_event := EAlloc (i : nat) | EFree (i : nat) | EPurge (i : nat) | EAct (i : nat) | ERet (i : nat).

Section schedules.
Context `{Env}.

Definition vm_event_step (e : vm_event) (c : vconfig) : option vconfig :=
  let '(mk_vc s K ps) := c in
  match e with
  | EAlloc i => match ps !! i with Some VIdle => Some (mk_vc s K (<[i := ANode]> ps)) | _ => None end
  | EFree i => match ps !! i, K with Some VIdle, d :: K => Some (mk_vc s K (<[i := FStart d]> ps)) | _, _ => None end
  | EPurge i => match ps !! i with Some VIdle => Some (mk_vc s K (<[i := PLock 0]> ps)) | _ => None end
  | EAct i =>
      match ps !! i with
      | Some p =>
          match vm_act p with
          | Some m => match m s with Done p' s' => Some (mk_vc s' K (<[i := p']> ps)) | Stop _ _ => None end
          | None => None
          end
      | None => None
      end
  | ERet i =>
      match ps !! i with
      | Some (VRet r) => Some (mk_vc s (if r =? NULL then K else r :: K) (<[i := VIdle]> ps))
      | _ => None
      end
  end.

Fixpoint vm_sched (es : list vm_event) (c : vconfig) : option vconfig :=
  match es with
  | [] => Some c
  | e :: es => match vm_event_step e c with Some c' => vm_sched es c' | None => None end
  end.

Lemma event_step_sound e c c' : vm_event_step e c = Some c' -> vm_step c c'.
Proof.
  destruct c as [s K ps]. destruct e as [i|i|i|i|i]; cbn [vm_event_step].
  - destruct (ps !! i) as [[]|] eqn:Hi; intros [= <-]. by apply vm_call_alloc.
  - destruct (ps !! i) as [[]|] eqn:Hi, K as [|d K]; intros [= <-]. by apply (vm_call_free s [] d K).
  - destruct (ps !! i) as [[]|] eqn:Hi; intros [= <-]. by apply vm_call_purge.
  - destruct (ps !! i) as [p|] eqn:Hi; [|done]. destruct (vm_act p) as [m|] eqn:Ha; [|done].
    destruct (m s) as [p' s'|] eqn:Hm; [|done]. intros [= <-]. by eapply vm_acts.
  - destruct (ps !! i) as [[]|] eqn:Hi; intros [= <-]. by apply vm_returns.
Qed.

Lemma sched_sound es c c' : vm_sched es c = Some c' -> rtc vm_step c c'.
Proof.
  revert c. induction es as [|e es IH]; intros c; cbn; [intros [= <-]; apply rtc_refl|].
  destruct (vm_event_step e c) as [c1|] eqn:E; [|done]. intros Hs. eapply rtc_l; [by eapply event_step_sound|by apply IH].
Qed.

End schedules.

(** ** Theorems *)

Section theorems.
Context `{EnvLaws}.

(** C5. The chunk manager is safe under every interleaving: threads allocate,
    release and purge at the same time, one access to shared memory at a time,
    while clients format and use the chunks they hold in any way that leaves the
    rest alone.  Then no access faults, the spinlocks exclude, every cache has at most 32 chunks of its node, every
    chunk is in exactly one place (with a client, on the global list, in one
    cache or with one thread), no chunk is lost, and once all threads are idle
    the pools satisfy the invariant of the sequential code. *)
Theorem vmm_race_safe s K k G P c' :
  vmm_inv s G P -> NoDup (K ++ G ++ concat P) ->
  (forall d, d ∈ K -> chunk_ok s d /\ exists n, node n /\ stamped s n d) ->
  rtc vm_step (vm_start s K k) c' ->
  vm_runs c' /\ exists G' P' Ns', vm_at c' G' P' Ns' /\
    (forall d, d ∈ K ++ G ++ concat P -> d ∈ places c' G' P' Ns') /\
    ((forall p, p ∈ vc_threads c' -> p = VIdle) -> vmm_inv (vc_state c') G' P').
Proof.
  intros Hv Hnd HK Hr. destruct (vm_reaches_ok _ _ _ _ _ (vm_start_at s K k G P Hv Hnd HK) Hr) as (G' & P' & Ns' & Hc' & Hst).
  split; [by eapply vm_at_runs|]. exists G', P', Ns'. split_and!; [done| |by eapply vm_at_idle].
  intros d Hd. apply Hst. unfold places, vm_start. cbn. set_solver.
Qed.

(** Isolation: whatever the chunk manager does in other threads, the header
    and the contents of a chunk that a client holds stay as they are. *)
Theorem vmm_race_isolated c i p m p' s' d :
  vm_inv c -> vc_threads c !! i = Some p -> vm_act p = Some m -> m (vc_state c) = Done p' s' -> d ∈ vc_held c ->
  chunk_of s' d = chunk_of (vc_state c) d /\
  forall x, d <= x < d + 2 ^ 21 ->
    mapped s' x = true /\ body_of s' x = body_of (vc_state c) x /\ h_bytes s' !! x = h_bytes (vc_state c) !! x.
Proof.
  destruct c as [s K ps]. cbn. intros (G & P & Ns & Hc) Hi Ha Hm Hd.
  destruct (act_pays s K ps G P Ns i p m p' s' Hc Hi Ha Hm) as (G' & P' & N & N' & new & HN & Hst & _ & _).
  assert (chunk_ok s d) as Hok by (apply (va_ok _ _ _ _ Hc); unfold places; set_solver).
  assert (d ∉ N) as Hn by (by eapply own_held). pose proof Hok as (_ & _ & _ & Hmp). split.
  - apply (sp_header _ _ _ _ _ _ _ _ _ _ _ Hst); [by apply chunk_ok_self|done].
  - intros x Hx. split_and!; [by apply (sp_mapped _ _ _ _ _ _ _ _ _ _ _ Hst), Hmp| |].
    + apply (sp_body _ _ _ _ _ _ _ _ _ _ _ Hst), Hmp. done.
    + by apply (sp_bytes _ _ _ _ _ _ _ _ _ _ _ Hst d).
Qed.

(** C10. Calls of the chunk manager terminate: from a configuration in which
    every thread is about to run a call or is idle, no schedule performs more
    than 83 actions per allocation, 12 per release and 3664 per purge (failed
    test-and-sets apart), and as long as a call is under way some thread can
    act without waiting: there is no deadlock. *)
Theorem vmm_race_terminates c k c' :
  vm_inv c -> (forall p, p ∈ vc_threads c -> p = VIdle \/ p = ANode \/ p = PLock 0 \/ exists d, p = FStart d) ->
  vm_runs_for k c c' ->
  (k <= total call_work (vc_threads c))%nat /\
  ((exists p, p ∈ vc_threads c' /\ vm_act p <> None) -> exists i c1, vm_acts_once i c' c1).
Proof.
  intros (G & P & Ns & Hc) Hp Hr. split.
  - transitivity (work_left (vc_threads c) Ns); [by eapply runs_bound|]. unfold work_left.
    pose proof (va_length _ _ _ _ Hc) as Hlen. clear Hc Hr. revert Ns Hlen. induction (vc_threads c) as [|p ps IH]; intros [|N Ns] Hlen; try done.
    cbn. specialize (IH ltac:(set_solver) Ns ltac:(cbn in Hlen; lia)).
    assert (work p (length N) = call_work p); [|lia]. by destruct (Hp p ltac:(set_solver)) as [->|[->|[->|[d ->]]]].
  - intros Hu. destruct (vm_reaches_ok c c' G P Ns Hc (runs_for_reaches _ _ _ Hr)) as (G' & P' & Ns' & Hc' & _).
    by eapply some_acts.
Qed.

(** C21. Every lock is released: in every configuration that the threads can
    reach, a lock that is taken has exactly one holder, and the holder, running
    on its own and without waiting, releases it after at most 65 actions. *)
Theorem vmm_lock_released c c' l :
  vm_inv c -> rtc vm_step c c' -> real_lock l -> taken (vc_state c') l = true ->
  exists i p, vc_threads c' !! i = Some p /\ holding p = Some l /\
    (forall j q, vc_threads c' !! j = Some q -> holding q = Some l -> j = i) /\
    exists k c'', (k <= 65)%nat /\ nsteps (vm_acts_once i) k c' c'' /\ taken (vc_state c'') l = false.
Proof.
  intros (G & P & Ns & Hc) Hr Hl Ht. destruct (vm_reaches_ok c c' G P Ns Hc Hr) as (G' & P' & Ns' & Hc' & _).
  apply (va_taken _ _ _ _ Hc' l Hl) in Ht as (i & p & Hi & Hp). exists i, p. split_and!; [done..| |].
  - intros j q Hj Hq. by eapply (va_excl _ _ _ _ Hc').
  - destruct (lookup_lt_is_Some_2 Ns' i) as [N HN]; [rewrite (va_length _ _ _ _ Hc'); by eapply lookup_lt_Some|].
    eapply lock_let_go; [done..|]. eapply hold_left_bound. by eapply (va_local _ _ _ _ Hc').
Qed.

End theorems.

(** ** Failure without exhaustion *)

Definition run_thread (i k : nat) : list vm_event := replicate k (EAct i).

(** Thread 0 maps an extent and pushes its 32 chunks. *)
Definition extent_pushed : list vm_event := EAlloc 0 :: run_thread 0 74.
(** Thread 1 takes them all before thread 0 has the lock again. *)
Definition others_take : list vm_event := concat (replicate 32 (EAlloc 1 :: run_thread 1 11 ++ [ERet 1])).
Definition finds_nothing : list vm_event := run_thread 0 3.

(** The extent is on the list, and thread 0 wants the lock again. *)
Definition extent_ready (c : vconfig) : bool :=
  match c with
  | mk_vc s [] [GLock 0 true; VIdle] => negb (g_global_free_chunks s =? NULL)
  | _ => false
  end.
(** Thread 0 returns NULL although the kernel would still map an extent. *)
Definition refused (c : vconfig) : bool :=
  match c with
  | mk_vc s K [VRet 0; VIdle] =>
      (length K =? 32)%nat && bool_decide (is_Some (sys_mmap (st_clock s) (st_mapped s) (LZ_EXTENT_SIZE + LZ_HUGE_PAGE_SIZE)))
  | _ => false
  end.

Lemma refused_run :
  match vm_sched extent_pushed (vm_start boot_state [] 2) with
  | Some c1 => extent_ready c1 && match vm_sched (others_take ++ finds_nothing) c1 with Some c2 => refused c2 | None => false end
  | None => false
  end = true.
Proof. vm_compute. reflexivity. Qed.

(** C37. An allocation can fail although memory is available: a thread that has
    mapped an extent and pushed its 32 chunks gives up the lock and takes it
    again; when another thread takes all 32 chunks in between, it finds the list
    empty and returns NULL, without a second attempt, while the kernel would
    grant another extent. *)
Theorem vmm_alloc_spurious_null : exists c1 c2,
  rtc vm_step (vm_start boot_state [] 2) c1 /\ vc_threads c1 = [GLock 0 true; VIdle] /\
  g_global_free_chunks (vc_state c1) <> NULL /\
  rtc vm_step c1 c2 /\ vc_threads c2 = [VRet NULL; VIdle] /\ length (vc_held c2) = 32%nat /\
  is_Some (sys_mmap (st_clock (vc_state c2)) (st_mapped (vc_state c2)) (LZ_EXTENT_SIZE + LZ_HUGE_PAGE_SIZE)).
Proof.
  pose proof refused_run as Hr. destruct (vm_sched extent_pushed _) as [c1|] eqn:E1; [|done].
  apply andb_true_iff in Hr as [H1 H2]. destruct (vm_sched _ c1) as [c2|] eqn:E2; [|done]. exists c1, c2.
  apply sched_sound in E1, E2. split; [exact E1|]. clear E1. destruct c1 as [s1 K1 ps1], c2 as [s2 K2 ps2]. cbn in H1, H2 |- *.
  repeat case_match; simplify_eq. apply andb_true_iff in H2 as [H2 H3]. apply Nat.eqb_eq in H2.
  apply bool_decide_eq_true in H3. split_and!; try done. by apply negb_true_iff, Z.eqb_neq in H1.
Qed.

(** ** Witnesses *)

(** Two threads allocate at the same time on an empty pool: both map an
    extent. *)
Definition two_allocs : list vm_event :=
  [EAlloc 0; EAlloc 1] ++ run_thread 0 7 ++ run_thread 1 7 ++ run_thread 0 40 ++ run_thread 1 3.

Definition two_config : vconfig :=
  default (vm_start boot_state [] 2) (vm_sched two_allocs (vm_start boot_state [] 2)).

Lemma two_run : rtc vm_step (vm_start boot_state [] 2) two_config.
Proof.
  unfold two_config. destruct (vm_sched two_allocs _) as [c|] eqn:E; [by apply sched_sound in E|apply rtc_refl].
Qed.

Lemma no_chunk_held (Q : Z -> Prop) : forall d, d ∈ ([] : list Z) -> Q d.
Proof. intros d Hd. by apply not_elem_of_nil in Hd. Qed.

Lemma boot_nodup : NoDup ([] ++ [] ++ concat (replicate 16 ([] : list Z))).
Proof. constructor. Qed.

Lemma vmm_race_safe_witness : vm_runs two_config.
Proof.
  refine (proj1 (vmm_race_safe boot_state [] 2 [] (replicate 16 []) two_config _ boot_nodup (no_chunk_held _) two_run)).
  by apply vmm_inv_boot.
Defined.

Lemma boot_vm_inv k : vm_inv (vm_start boot_state [] k).
Proof. exists [], (replicate 16 []), (replicate k []). apply vm_start_at; [by apply vmm_inv_boot|constructor|apply no_chunk_held]. Qed.

Lemma vmm_lock_released_witness : exists i p, vc_threads two_config !! i = Some p /\ holding p = Some LGlobal.
Proof.
  destruct (vmm_lock_released (vm_start boot_state [] 2) two_config LGlobal (boot_vm_inv 2) two_run I) as (i & p & Hi & Hp & _).
  - vm_compute. reflexivity.
  - exists i, p. split; [exact Hi|exact Hp].
Defined.

(** An allocation, a release and a purge under way. *)
Definition held_chunk : Z := 0x7f0000200000.
Definition three_calls : vconfig := mk_vc one_chunk_state [] [ANode; FStart held_chunk; PLock 0].

Lemma one_chunk_held d : d ∈ [held_chunk] -> chunk_ok one_chunk_state d /\ exists n, node n /\ stamped one_chunk_state n d.
Proof.
  intros ->%list_elem_of_singleton. split.
  - unfold held_chunk. split_and!; [done..|]. intros x Hx. unfold mapped. cbn. lia.
  - exists 3. unfold node. split; [lia|]. done.
Qed.

Lemma one_chunk_start k : vm_inv (vm_start one_chunk_state [held_chunk] k).
Proof.
  exists [], (replicate 16 []), (replicate k []).
  apply vm_start_at; [by apply vmm_inv_boot|apply NoDup_singleton|exact one_chunk_held].
Qed.

Lemma three_calls_inv : vm_inv three_calls.
Proof.
  destruct (one_chunk_start 3) as (G & P & Ns & Hc).
  destruct (vm_reaches_ok _ three_calls G P Ns Hc) as (G' & P' & Ns' & Hc' & _); [|by exists G', P', Ns'].
  by apply (sched_sound [EAlloc 0; EFree 1; EPurge 2]).
Qed.

Lemma three_first : exists c', vm_runs_for 1 three_calls c' /\ ANode ∈ vc_threads c'.
Proof.
  eexists. split.
  - eapply (runs_act 0 1); [|apply runs_none]. eapply acts_once; [reflexivity|reflexivity|vm_compute; reflexivity|done].
  - by left.
Qed.

Lemma vmm_race_terminates_witness : exists c', vm_runs_for 1 three_calls c' /\
  (1 <= 3759)%nat /\ exists i c1, vm_acts_once i c' c1.
Proof.
  destruct three_first as (c' & Hr & Hin). exists c'. split; [exact Hr|].
  destruct (vmm_race_terminates three_calls 1 c' three_calls_inv) as [Hk Hp]; [|exact Hr|].
  - unfold three_calls. cbn [vc_threads]. intros p. rewrite !elem_of_cons. intros [->|[->|[->|Hp]]]; [eauto 6..|].
    by apply not_elem_of_nil in Hp.
  - split; [exact Hk|]. apply Hp. exists ANode. split; [exact Hin|done].
Defined.

Lemma vmm_race_isolated_witness : exists p' s',
  try_pool_lock 0 (PLock 0) (PTake 0) one_chunk_state = Done p' s' /\ chunk_of s' held_chunk = chunk_of one_chunk_state held_chunk.
Proof.
  do 2 eexists. split; [vm_compute; reflexivity|].
  set (c := mk_vc one_chunk_state [held_chunk] [PLock 0]).
  assert (vm_inv c) as Hc.
  { destruct (one_chunk_start 1) as (G & P & Ns & Hc).
    destruct (vm_reaches_ok _ c G P Ns Hc) as (G' & P' & Ns' & Hc' & _); [|by exists G', P', Ns'].
    by apply (sched_sound [EPurge 0]). }
  apply (vmm_race_isolated c 0 (PLock 0) (try_pool_lock 0 (PLock 0) (PTake 0)) (PTake 0) _ held_chunk Hc); [done|done| |by left].
  vm_compute. reflexivity.
Defined.
