(* ===== verification/VmmAlone.v ===== *)
(** * The racing chunk manager and the sequential one

    A thread of VmmRace.v that no other thread interrupts does what the code of
    Vmm.v does, action by action: the sequential functions are one of the
    interleavings, with the same result and the same final state. *)

From S2P Require Import Prelude Common Machine Wp Testbed Security Vmm VmmSpec Frame Interleave VmmRace VmmRaceSpec.

(** ** A thread that is left alone *)

Section solo.
Context `{Env}.

Inductive solo_step : vpc * state -> vpc * state -> Prop :=
  | solo_one p s m p' s' : vm_act p = Some m -> m s = Done p' s' -> solo_step (p, s) (p', s').
Definition solo : vpc * state -> vpc * state -> Prop := rtc solo_step.

Lemma solo_act p s m p1 s1 x : vm_act p = Some m -> m s = Done p1 s1 -> solo (p1, s1) x -> solo (p, s) x.
Proof. intros Ha Hm. apply rtc_l. by eapply solo_one. Qed.

(** Steps of the pool in which only thread [i] acts: no other thread, no client. *)
Inductive own_step (i : nat) : vconfig -> vconfig -> Prop :=
  | own_act s K ps p m p' s' :
      ps !! i = Some p -> vm_act p = Some m -> m s = Done p' s' ->
      own_step i (mk_vc s K ps) (mk_vc s' K (<[i := p']> ps)).

Lemma own_step_step i c c' : own_step i c c' -> vm_step c c'.
Proof. intros []. by eapply vm_acts. Qed.

Lemma own_step_det i c c1 c2 : own_step i c c1 -> own_step i c c2 -> c1 = c2.
Proof. intros [s K ps p m p' s' Hp Ha Hm] H2. inversion H2; simplify_eq. congruence. Qed.

(** Thread [i], left alone, comes to rest at [c']: it gets there, has no action
    left there, and cannot get anywhere else. *)
Definition settles (i : nat) (c c' : vconfig) : Prop :=
  rtc (own_step i) c c' /\ nf (own_step i) c' /\ forall d, rtc (own_step i) c d -> rtc (own_step i) d c'.

Lemma settles_intro i c c' : rtc (own_step i) c c' -> nf (own_step i) c' -> settles i c c'.
Proof.
  intros Hr Hn. split_and!; [done..|]. revert Hn. induction Hr as [c|c c1 c' H1 Hr IH]; intros Hn d Hd.
  - destruct Hd as [|c d1 d Hs _]; [apply rtc_refl|]. destruct Hn. by exists d1.
  - destruct Hd as [|c d1 d Hs Hd]; [by eapply rtc_l|]. rewrite (own_step_det i c d1 c1) in Hd by done. auto.
Qed.

Lemma solo_interleaving s K ps i p p' s' :
  (i < length ps)%nat -> solo (p, s) (p', s') ->
  rtc (own_step i) (mk_vc s K (<[i := p]> ps)) (mk_vc s' K (<[i := p']> ps)).
Proof.
  intros Hi Hs. remember (p, s) as x eqn:Ex. remember (p', s') as y eqn:Ey. revert p s p' s' Ex Ey.
  induction Hs as [x|x z y Hxz _ IH]; intros p s p' s' -> Ey; [injection Ey as <- <-; apply rtc_refl|].
  inversion Hxz as [? ? m p1 s1 Ha Hm]; subst. eapply rtc_l; [|by apply IH].
  rewrite <- (list_insert_insert_eq ps i p1 p). eapply (own_act i _ _ _ p m); [by apply list_lookup_insert_eq|done..].
Qed.

Lemma solo_settles s K ps i p p' s' :
  (i < length ps)%nat -> vm_act p' = None -> solo (p, s) (p', s') ->
  settles i (mk_vc s K (<[i := p]> ps)) (mk_vc s' K (<[i := p']> ps)).
Proof.
  intros Hi Ha Hs. apply settles_intro; [by apply solo_interleaving|]. intros [c Hc].
  inversion Hc as [? ? ? q ? ? ? Hq Hq' ?]; subst. rewrite list_lookup_insert_eq in Hq by done. congruence.
Qed.

(** A lock that the sequential code gets, the machine gets at once. *)
Lemma try_pool_gets n u s s1 spin ok : pool_lock n s = Done u s1 -> try_pool_lock n spin ok s = Done ok s1.
Proof. unfold pool_lock, try_pool_lock. run_m. destruct (_ !! _) as [[|]|]; [done| |done]. by intros [= _ <-]. Qed.
Lemma try_global_gets u s s1 spin ok : global_pool_lock s = Done u s1 -> try_global_lock spin ok s = Done ok s1.
Proof. unfold global_pool_lock, try_global_lock. run_m. destruct (g_global_pool_lock s); [done|]. by intros [= _ <-]. Qed.

End solo.

(** One action of the machine whose parts the sequential code has run. *)
Ltac solo_do := eapply solo_act; [reflexivity|unfold mbind, M_bind, mret, M_ret;
  repeat (match goal with E : ?m ?s = Done _ _ |- _ => rewrite E end; cbv beta iota); reflexivity|].
Ltac solo_bind Hm := let E := fresh "E" in apply bind_done in Hm as (? & ? & E & Hm).

Section alone.
Context `{Env}.

Lemma solo_push c k s u s' :
  push_global c s = Done u s' -> solo (PushNext c k, s) (after_push k, s').
Proof.
  unfold push_global. intros Hm. solo_bind Hm. solo_bind Hm. solo_do. solo_do. apply rtc_refl.
Qed.

(** The pushes of an extent, from chunk [j] on. *)
Lemma solo_pushes n a k j s u s' :
  0 <= j -> j + Z.of_nat (S k) = LZ_EXTENT_CHUNKS ->
  for_loop (S k) j (fun i => push_global (u64 (a + i * LZ_HUGE_PAGE_SIZE))) s = Done u s' ->
  solo (PushNext (u64 (a + j * LZ_HUGE_PAGE_SIZE)) (ToExtent n a j), s) (PushUnlock (ToExtent n a 31), s').
Proof.
  unfold LZ_EXTENT_CHUNKS. revert j s. induction k as [|k IH]; intros j s Hj Hk Hm; cbn [for_loop] in Hm.
  - solo_bind Hm. injection Hm as <- <-. assert (j = 31) as -> by lia. by apply (solo_push _ (ToExtent n a 31)) in E.
  - solo_bind Hm. apply (solo_push _ (ToExtent n a j)) in E. etrans; [exact E|].
    unfold after_push, LZ_EXTENT_CHUNKS. ztrue (j + 1 <? 32). apply IH; [lia|lia|exact Hm].
Qed.

Lemma solo_extent n s u s' : sys_alloc_extent s = Done u s' -> solo (GExtent n, s) (GLock n true, s').
Proof.
  unfold sys_alloc_extent. intros Hm. apply bind_done in Hm as ([a|] & s1 & E1 & Hm).
  - solo_bind Hm. apply bind_done in Hm as (u2 & s2 & E2 & Hm). apply bind_done in Hm as (u3 & s3 & E3 & Hm).
    solo_do. eapply solo_act; [reflexivity|by eapply try_global_gets|].
    change (Z.to_nat LZ_EXTENT_CHUNKS) with 32%nat in E3. apply (solo_pushes n a 31 0) in E3; [|done..].
    etrans; [exact E3|]. solo_do. apply rtc_refl.
  - injection Hm as <- <-. solo_do. apply rtc_refl.
Qed.

Lemma solo_pop_pool n s c s' :
  pop_pool n s = Done c s' -> solo (ALock n, s) (if negb (c =? NULL) then AClear c else GLock n false, s').
Proof.
  unfold pop_pool. intros Hm. apply bind_done in Hm as (u & s1 & E1 & Hm). eapply solo_act; [reflexivity|by eapply try_pool_gets|].
  apply bind_done in Hm as (p & s2 & E2 & Hm). solo_do.
  apply bind_done in Hm as (top & s3 & E3 & Hm). destruct (free_chunks p =? NULL) eqn:Et; cbn [negb] in E3 |- *.
  - injection E3 as <- <-. solo_bind Hm. injection Hm as <- <-. solo_do. apply rtc_refl.
  - solo_bind E3. solo_bind E3. solo_bind E3. injection E3 as <- <-. solo_bind Hm. injection Hm as <- <-.
    solo_do. solo_do. solo_do. solo_do. rewrite Et. apply rtc_refl.
Qed.

Lemma solo_take n s1 c s' :
  (top ← fetch g_global_free_chunks;
   chunk ← (if negb (top =? NULL) then
              c ← chunk_at top;
              modify (set_g_global_free_chunks (chunk_next c));;
              mret top
            else mret NULL);
   global_pool_unlock;;
   mret chunk) s1 = Done c s' ->
  solo (GTop n, s1) (if c =? NULL then VRet NULL else GStamp n c, s').
Proof.
  intros Hm. apply bind_done in Hm as (top & s2 & E2 & Hm). solo_do.
  apply bind_done in Hm as (c1 & s3 & E3 & Hm). destruct (top =? NULL) eqn:Et; cbn [negb] in E3 |- *.
  - injection E3 as <- <-. solo_bind Hm. injection Hm as <- <-. solo_do. apply rtc_refl.
  - solo_bind E3. solo_bind E3. injection E3 as <- <-. solo_bind Hm. injection Hm as <- <-.
    solo_do. solo_do. solo_do. rewrite Et. apply rtc_refl.
Qed.

Lemma solo_pop_global n s c s' :
  pop_global s = Done c s' -> solo (GLock n false, s) (if c =? NULL then VRet NULL else GStamp n c, s').
Proof.
  unfold pop_global. intros Hm. apply bind_done in Hm as (u & s1 & E1 & Hm).
  eapply solo_act; [reflexivity|by eapply try_global_gets|]. apply bind_done in Hm as (top & s2 & E2 & Hm).
  apply bind_done in Hm as (u3 & s3 & E3 & Hm). apply (solo_take n) in Hm. solo_do. destruct (top =? NULL).
  - solo_bind E3. apply bind_done in E3 as (u4 & s4 & E4 & E3). solo_do. apply (solo_extent n) in E4.
    etrans; [exact E4|]. eapply solo_act; [reflexivity|by eapply try_global_gets|]. exact Hm.
  - injection E3 as _ <-. exact Hm.
Qed.

Lemma solo_alloc s r s' : lz_vmm_alloc_chunk s = Done r s' -> solo (ANode, s) (VRet r, s').
Proof.
  unfold lz_vmm_alloc_chunk. intros Hm. apply bind_done in Hm as (n & s1 & E1 & Hm). solo_do.
  apply bind_done in Hm as (c & s2 & E2 & Hm). apply solo_pop_pool in E2. etrans; [exact E2|].
  destruct (negb (c =? NULL)).
  - solo_bind Hm. injection Hm as <- <-. solo_do. apply rtc_refl.
  - apply bind_done in Hm as (d & s3 & E3 & Hm). apply (solo_pop_global n) in E3. etrans; [exact E3|].
    destruct (d =? NULL).
    + injection Hm as <- <-. apply rtc_refl.
    + do 6 solo_bind Hm. injection Hm as <- <-. solo_do. apply rtc_refl.
Qed.

Lemma solo_retire c k s u s' :
  retire_to_global c s = Done u s' -> after_push k = PushUnlock k -> solo (FDrop c k, s) (after_unlock k, s').
Proof.
  unfold retire_to_global. intros Hm Hk. solo_bind Hm. solo_do. apply bind_done in Hm as (u1 & s1 & E1 & Hm).
  eapply solo_act; [reflexivity|by eapply try_global_gets|]. apply bind_done in Hm as (u2 & s2 & E2 & Hm).
  apply (solo_push c k) in E2. rewrite Hk in E2. etrans; [exact E2|]. solo_do. apply rtc_refl.
Qed.

Lemma pool_at_same i s p s' : pool_at i s = Done p s' -> s' = s.
Proof. unfold pool_at. run_m. destruct (_ !! i); [|done]. by intros [= _ <-]. Qed.
Lemma chunk_at_same c s h s' : chunk_at c s = Done h s' -> s' = s.
Proof. unfold chunk_at, check_mapped. run_m. destruct (mapped s c); [|done]. by intros [= _ <-]. Qed.

Lemma solo_free c s u s' : lz_vmm_free_chunk c s = Done u s' -> solo (FStart c, s) (VIdle, s').
Proof.
  unfold lz_vmm_free_chunk. intros Hm. destruct (c =? NULL) eqn:Ec.
  { injection Hm as <- <-. eapply solo_act; [reflexivity|rewrite Ec; reflexivity|]. apply rtc_refl. }
  apply bind_done in Hm as (h & s1 & E1 & Hm).
  eapply solo_act; [reflexivity|rewrite Ec; unfold mbind, M_bind; rewrite E1; reflexivity|].
  destruct (negb (magic h =? LZ_CHUNK_MAGIC_V2)); [injection Hm as <- <-; apply rtc_refl|].
  apply bind_done in Hm as (u2 & s2 & E2 & Hm). eapply solo_act; [reflexivity|by eapply try_pool_gets|].
  apply bind_done in Hm as (p & s3 & E3 & Hm). pose proof (pool_at_same _ _ _ _ E3) as ->. solo_do.
  apply bind_done in Hm as (b & s4 & E4 & Hm). destruct (available_count p <? LZ_VMM_MAX_CACHED_CHUNKS).
  - do 3 solo_bind E4. injection E4 as <- <-. solo_bind Hm. injection Hm as _ <-.
    solo_do. solo_do. solo_do. solo_do. apply rtc_refl.
  - injection E4 as <- <-. solo_bind Hm. solo_do. by apply (solo_retire c ToFree) in Hm.
Qed.

(** The walk over the chunks of a cache. *)
Lemma solo_walk fuel i c s u s' :
  purge_loop fuel c s = Done u s' ->
  solo (PWalk i c, s) (if i + 1 <? LZ_MAX_NUMA_NODES then PLock (i + 1) else VIdle, s').
Proof.
  revert c s. induction fuel as [|fuel IH]; intros c s Hm; cbn [purge_loop] in Hm; [done|]. destruct (c =? NULL) eqn:Ec.
  - injection Hm as <- <-. eapply solo_act; [reflexivity|rewrite Ec; reflexivity|]. apply rtc_refl.
  - apply bind_done in Hm as (h & s1 & E1 & Hm). apply bind_done in Hm as (u2 & s2 & E2 & Hm).
    eapply solo_act; [reflexivity|rewrite Ec; unfold mbind, M_bind; rewrite E1; reflexivity|].
    apply (solo_retire c (ToPurge i (chunk_next h))) in E2; [|done]. etrans; [exact E2|]. by apply IH.
Qed.

(** The caches from node [i] on. *)
Lemma solo_purge_from k i s u s' :
  0 <= i -> i + Z.of_nat (S k) = LZ_MAX_NUMA_NODES ->
  for_loop (S k) i (fun i =>
    let pool := lz_topology_get_pool i in
    pool_lock i;;
    p ← pool_at pool;
    let chunk := free_chunks p in
    update_pool pool (set_free_chunks NULL);;
    update_pool pool (set_available_count 0);;
    pool_unlock i;;
    purge_loop (S (Z.to_nat LZ_VMM_MAX_CACHED_CHUNKS)) chunk) s = Done u s' ->
  solo (PLock i, s) (VIdle, s').
Proof.
  unfold LZ_MAX_NUMA_NODES. revert i s. induction k as [|k IH]; intros i s Hi Hk Hm; cbn [for_loop] in Hm;
    apply bind_done in Hm as (u0 & s0 & E & Hm); apply bind_done in E as (u1 & s1 & E1 & E);
    (eapply solo_act; [reflexivity|by eapply try_pool_gets|]); apply bind_done in E as (p & s2 & E2 & E);
    do 3 solo_bind E; apply (solo_walk _ i) in E; unfold LZ_MAX_NUMA_NODES in E; solo_do; solo_do; solo_do; (etrans; [exact E|]).
  - injection Hm as <- <-. zfalse (i + 1 <? 16). apply rtc_refl.
  - ztrue (i + 1 <? 16). apply IH; [lia|lia|exact Hm].
Qed.

(** C18. The sequential model is one of the interleavings: when the code of
    Vmm.v returns, a thread of the racing model that makes the same call and is
    the only one to act (no other thread, no client in between) comes to rest at
    the same result and the same final state and nowhere else, whatever the
    other threads were doing; its actions are steps of the racing model. *)
Theorem vmm_race_includes_sequential s K ps i :
  (i < length ps)%nat ->
  (forall r s', lz_vmm_alloc_chunk s = Done r s' ->
     settles i (mk_vc s K (<[i := ANode]> ps)) (mk_vc s' K (<[i := VRet r]> ps))) /\
  (forall c s', lz_vmm_free_chunk c s = Done tt s' ->
     settles i (mk_vc s K (<[i := FStart c]> ps)) (mk_vc s' K (<[i := VIdle]> ps))) /\
  (forall s', lz_vmm_purge_all_caches s = Done tt s' ->
     settles i (mk_vc s K (<[i := PLock 0]> ps)) (mk_vc s' K (<[i := VIdle]> ps))) /\
  (forall c c', own_step i c c' -> vm_step c c').
Proof.
  intros Hi. split_and!; [..|apply own_step_step].
  - intros r s' Hm. apply solo_settles; [done..|]. by apply solo_alloc.
  - intros c s' Hm. apply solo_settles; [done..|]. by eapply solo_free.
  - intros s' Hm. apply solo_settles; [done..|]. by apply (solo_purge_from 15 0) in Hm.
Qed.

End alone.

Lemma vmm_race_includes_sequential_witness : exists r s',
  lz_vmm_alloc_chunk boot_state = Done r s' /\ r <> NULL /\
  settles 0 (mk_vc boot_state [] [ANode; VIdle]) (mk_vc s' [] [VRet r; VIdle]).
Proof.
  destruct (lz_vmm_alloc_chunk boot_state) as [r s'|] eqn:E; [|by vm_compute in E]. exists r, s'. split; [reflexivity|]. split.
  - enough (match lz_vmm_alloc_chunk boot_state with Done r _ => negb (r =? NULL) | _ => true end = true) as Hr; [|vm_compute; reflexivity].
    rewrite E in Hr. by apply negb_true_iff, Z.eqb_neq in Hr.
  - exact (proj1 (vmm_race_includes_sequential boot_state [] [VIdle; VIdle] 0 ltac:(cbn; lia)) r s' E).
Defined.
