(* ===== verification/VmmAtomic.v ===== *)
(** * The racing chunk manager as an atomic object

    An abstract chunk manager whose operations are atomic: a list, sixteen
    caches and the chunks of the clients, with no locks, no links and no
    headers.  The threads of VmmRace.v, which work under spinlocks one memory
    access at a time, refine it: every execution is, step by step, one of the
    abstract manager in which each critical section happens at once. *)

From S2P Require Import Prelude Common Machine Wp Testbed Security Vmm VmmSpec Frame Interleave VmmRace VmmRaceSpec.

(** ** The abstract chunk manager *)

(** How far a call is.  An allocation: not begun, the cache of node [n] was
    empty, the list was empty too, an extent has been mapped at [a], a last look
    at the list remains, done.  A release of chunk [c] of node [n]: not begun,
    the cache is full, done.  A purge: at cache [i], with the chunks [l] of
    cache [i] to move. *)
Inductive apc :=
  | TIdle
  | TAlloc | TMiss (n : Z) | TGrow (n : Z) | TFresh (n a : Z) | TLast (n : Z) | TGot (c n : Z) | TNull
  | TFree (c n : Z) | TFull (c : Z) | TDone
  | TPurge (i : Z) | TMove (i : Z) (l : list Z).

(** Clients hold chunks together with the node they belong to. *)
Record aconfig := mk_ac {
  ac_global : list Z;
  ac_caches : list (list Z);
  ac_held : list (Z * Z);
  ac_threads : list apc;
}.

(** The chunks a call keeps. *)
Definition flight (t : apc) : list Z :=
  match t with
  | TFresh _ a => extent_rest a 0
  | TGot c _ | TFree c _ | TFull c => [c]
  | TMove _ l => l
  | _ => []
  end.

Definition a_places (a : aconfig) : list Z :=
  (ac_held a).*1 ++ ac_global a ++ concat (ac_caches a) ++ concat (flight <$> ac_threads a).

(** The atomic operations on the list [g] and the caches [P]; [used] are the
    chunks that exist. *)
Inductive a_moves (used : list Z) : list Z -> list (list Z) -> apc -> list Z -> list (list Z) -> apc -> Prop :=
  | a_hit g P n c l : node n -> P !! Z.to_nat n = Some (c :: l) ->
      a_moves used g P TAlloc g (<[Z.to_nat n := l]> P) (TGot c n)
  | a_miss g P n : node n -> P !! Z.to_nat n = Some [] -> a_moves used g P TAlloc g P (TMiss n)
  | a_pop g P n c : a_moves used (c :: g) P (TMiss n) g P (TGot c n)
  | a_empty P n : a_moves used [] P (TMiss n) [] P (TGrow n)
  | a_refused g P n : a_moves used g P (TGrow n) g P (TLast n)
  | a_mapped g P n a : (forall c, c ∈ extent_rest a 0 -> c mod 2 ^ 21 = 0 /\ 0 < c /\ c ∉ used) ->
      a_moves used g P (TGrow n) g P (TFresh n a)
  | a_extend g P n a : a_moves used g P (TFresh n a) (reverse (extent_rest a 0) ++ g) P (TLast n)
  | a_retry g P n c : a_moves used (c :: g) P (TLast n) g P (TGot c n)
  | a_null P n : a_moves used [] P (TLast n) [] P TNull
  | a_fail g P : a_moves used g P TNull g P TIdle
  | a_cache g P c n l : node n -> P !! Z.to_nat n = Some l -> (length l < 32)%nat ->
      a_moves used g P (TFree c n) g (<[Z.to_nat n := c :: l]> P) TDone
  | a_full g P c n l : node n -> P !! Z.to_nat n = Some l -> length l = 32%nat ->
      a_moves used g P (TFree c n) g P (TFull c)
  | a_retire g P c : a_moves used g P (TFull c) (c :: g) P TDone
  | a_done g P : a_moves used g P TDone g P TIdle
  | a_take g P i l : node i -> P !! Z.to_nat i = Some l ->
      a_moves used g P (TPurge i) g (<[Z.to_nat i := []]> P) (TMove i l)
  | a_move g P i c l : a_moves used g P (TMove i (c :: l)) (c :: g) P (TMove i l)
  | a_next g P i : i + 1 < 16 -> a_moves used g P (TMove i []) g P (TPurge (i + 1))
  | a_purged g P : a_moves used g P (TMove 15 []) g P TIdle.

Inductive a_step : aconfig -> aconfig -> Prop :=
  | a_call_alloc g P K ts i :
      ts !! i = Some TIdle -> a_step (mk_ac g P K ts) (mk_ac g P K (<[i := TAlloc]> ts))
  | a_call_free g P K1 c n K2 ts i :
      ts !! i = Some TIdle -> a_step (mk_ac g P (K1 ++ (c, n) :: K2) ts) (mk_ac g P (K1 ++ K2) (<[i := TFree c n]> ts))
  | a_call_purge g P K ts i :
      ts !! i = Some TIdle -> a_step (mk_ac g P K ts) (mk_ac g P K (<[i := TPurge 0]> ts))
  | a_acts g P K ts i t g' P' t' :
      ts !! i = Some t -> a_moves (a_places (mk_ac g P K ts)) g P t g' P' t' ->
      a_step (mk_ac g P K ts) (mk_ac g' P' K (<[i := t']> ts))
  | a_return g P K ts i c n :
      ts !! i = Some (TGot c n) -> a_step (mk_ac g P K ts) (mk_ac g P ((c, n) :: K) (<[i := TIdle]> ts)).

(** ** What the abstract manager guarantees *)

(** What an operation adds to the chunks of the list, the caches and the call. *)
Definition mapped_by (t t' : apc) : list Z :=
  match t, t' with TGrow _, TFresh _ a => extent_rest a 0 | _, _ => [] end.

Lemma a_moves_perm used g P t g' P' t' :
  a_moves used g P t g' P' t' -> g' ++ concat P' ++ flight t' ≡ₚ mapped_by t t' ++ g ++ concat P ++ flight t.
Proof.
  destruct 1 as [g P n c l _ Hl| | | | | | | | | |g P c n l _ Hl| | | |g P i l _ Hl| | |]; cbn [flight mapped_by app];
    rewrite ?app_nil_r; try done.
  - rewrite (concat_insert_perm P (Z.to_nat n) [c] l) by done. solve_Permutation.
  - solve_Permutation.
  - solve_Permutation.
  - rewrite reverse_Permutation. solve_Permutation.
  - solve_Permutation.
  - rewrite (concat_insert_perm P (Z.to_nat n) l []) by (by rewrite app_nil_r).
    rewrite (concat_insert_perm (<[Z.to_nat n := c :: l]> P) (Z.to_nat n) (c :: l) []).
    2:{ rewrite app_nil_r. apply list_lookup_insert_eq. by eapply lookup_lt_Some. }
    rewrite list_insert_insert_eq. solve_Permutation.
  - solve_Permutation.
  - rewrite (concat_insert_perm P (Z.to_nat i) l []) by (by rewrite app_nil_r). solve_Permutation.
  - solve_Permutation.
Qed.

Lemma a_moves_fresh used g P t g' P' t' :
  a_moves used g P t g' P' t' -> NoDup (mapped_by t t') /\ forall c, c ∈ mapped_by t t' -> c ∉ used.
Proof.
  destruct 1 as [| | | | |g P n a Hf| | | | | | | | | | | |]; cbn [mapped_by];
    try (split; [constructor|intros ? Hc; by apply not_elem_of_nil in Hc]).
  split; [apply NoDup_extent_rest|]. intros c Hc. by apply Hf.
Qed.

Record a_ok (a : aconfig) : Prop := {
  ao_once : NoDup (a_places a);
  ao_caches : forall l, l ∈ ac_caches a -> (length l <= 32)%nat
}.

(** The chunks of one call among all chunks. *)
Lemma a_places_own g P K ts i t :
  ts !! i = Some t ->
  a_places (mk_ac g P K ts) ≡ₚ K.*1 ++ (g ++ concat P ++ flight t) ++ concat (flight <$> <[i := TIdle]> ts).
Proof.
  intros Hi. unfold a_places. cbn. rewrite list_fmap_insert, (concat_insert_perm (flight <$> ts) i (flight t) []).
  - solve_Permutation.
  - by rewrite app_nil_r, list_lookup_fmap, Hi.
Qed.

Lemma a_places_set g P K ts i t t' :
  ts !! i = Some t ->
  a_places (mk_ac g P K (<[i := t']> ts)) ≡ₚ K.*1 ++ (g ++ concat P ++ flight t') ++ concat (flight <$> <[i := TIdle]> ts).
Proof.
  intros Hi. rewrite (a_places_own g P K _ i t') by (apply list_lookup_insert_eq; by eapply lookup_lt_Some).
  by rewrite list_insert_insert_eq.
Qed.

Lemma a_moves_caches used g P t g' P' t' :
  a_moves used g P t g' P' t' -> (forall l, l ∈ P -> (length l <= 32)%nat) -> forall l, l ∈ P' -> (length l <= 32)%nat.
Proof.
  assert (forall n l' l, l ∈ <[n := l']> P -> l = l' \/ l ∈ P) as Hin.
  { intros n l' l [j [(_ & <- & _)|[_ Hj]]%list_lookup_insert_Some]%list_elem_of_lookup; [by left|right].
    by eapply list_elem_of_lookup_2. }
  destruct 1 as [g P n c l _ Hl| | | | | | | | | |g P c n l _ Hl| | | |g P i l _ Hl| | |]; intros HP m Hm; try (by apply HP).
  - apply Hin in Hm as [->|Hm]; [|by apply HP]. apply list_elem_of_lookup_2, HP in Hl. cbn in Hl. lia.
  - apply Hin in Hm as [->|Hm]; [cbn; lia|by apply HP].
  - apply Hin in Hm as [->|Hm]; [cbn; lia|by apply HP].
Qed.

Lemma NoDup_by (l k : list Z) : k ≡ₚ l -> NoDup l -> NoDup k.
Proof. by intros ->. Qed.

Lemma a_step_ok a a' : a_ok a -> a_step a a' -> a_ok a'.
Proof.
  intros [Hnd Hca] Hs.
  destruct Hs as [g P K ts i Hi|g P K1 c n K2 ts i Hi|g P K ts i Hi|g P K ts i t g' P' t' Hi Hm|g P K ts i c n Hi];
    rewrite (a_places_own _ _ _ _ _ _ Hi) in Hnd; (constructor; [rewrite (a_places_set _ _ _ _ _ _ _ Hi)|try exact Hca]).
  - exact Hnd.
  - rewrite fmap_app in Hnd |- *. cbn in Hnd |- *. rewrite app_nil_r in Hnd. eapply NoDup_by, Hnd. solve_Permutation.
  - exact Hnd.
  - rewrite (a_moves_perm _ _ _ _ _ _ _ Hm). destruct (a_moves_fresh _ _ _ _ _ _ _ Hm) as [Hn Hx].
    eapply NoDup_by; [|apply NoDup_app; split_and!; [exact Hn| |exact Hnd]]; [solve_Permutation|].
    intros c Hc Hin. apply (Hx c Hc). by rewrite (a_places_own _ _ _ _ _ _ Hi).
  - by eapply a_moves_caches.
  - cbn. cbn in Hnd. rewrite app_nil_r. eapply NoDup_by, Hnd. solve_Permutation.
Qed.

(** ** How a thread of the code appears *)

(** Chunks 0 to [j - 1] of an extent, the last one first: what a thread that
    pushes chunk [j] has put on the list so far. *)
Definition extent_done (a j : Z) : list Z :=
  reverse ((fun i => a + i * LZ_HUGE_PAGE_SIZE) <$> seqZ 0 j).
Definition part (p : vpc) : list Z :=
  match p with
  | PushNext _ (ToExtent _ a j) | PushHead _ (ToExtent _ a j) => extent_done a j
  | _ => []
  end.

(** The abstract point of a thread that pushes, and after its last push. *)
Definition shows_push (k : push_goal) (c : Z) (N : list Z) : apc :=
  match k with ToFree => TFull c | ToPurge i _ => TMove i N | ToExtent n a _ => TFresh n a end.
Definition shows_pushed (k : push_goal) (N : list Z) : apc :=
  match k with ToFree => TDone | ToPurge i _ => TMove i N | ToExtent n _ _ => TLast n end.

(** Thread [p], which has the chunks [N] to itself, is at the abstract point
    [t].  Each critical section takes effect at one of its accesses: a cache or
    the list loses its head when the head is stored, an empty one is noticed
    when the head is read, an extent joins the list with its last chunk. *)
Definition shows (s : state) (G : list Z) (p : vpc) (N : list Z) (t : apc) : Prop :=
  match p with
  | VIdle => t = TIdle
  | VRet r => t = if r =? NULL then TNull else TGot r (node_id (chunk_of s r))
  | ANode | ALock _ | ATop _ | ANext _ _ | APop _ _ _ => t = TAlloc
  | ACount n top => t = TGot top n
  | AUnlock n top => t = if top =? NULL then TMiss n else TGot top n
  | AClear top => t = TGot top (node_id (chunk_of s top))
  | GLock n again => t = if again then TLast n else TMiss n
  | GTest n => t = TMiss n
  | GUnlockEmpty n | GExtent n => t = TGrow n
  | GTop n => t = TLast n \/ t = TMiss n /\ G <> []
  | GNext n _ | GPop n _ _ => t = TLast n \/ t = TMiss n
  | GUnlock n top => t = if top =? NULL then TNull else TGot top n
  | GStamp n top => t = TGot top n
  | PushLock c k => t = shows_push k c N /\ match k with ToExtent _ _ j => j = 0 | _ => True end
  | FDrop c k => t = shows_push k c N /\ match k with ToExtent _ _ _ => False | _ => True end
  | PushNext c k | PushHead c k => t = shows_push k c N
  | PushUnlock k => t = shows_pushed k N
  | FStart c => t = TFree c (node_id (chunk_of s c))
  | FLock n c | FCount n c | FTop n c | FHead n c => t = TFree c n
  | FInc _ => t = TDone
  | FUnlock _ r => t = match r with Some c => TFull c | None => TDone end
  | PLock i | PTake i => t = TPurge i
  | PZero i _ | PUnlock i _ | PWalk i _ => t = TMove i N
  end.

(** A chunk and its node. *)
Definition label (s : state) (d : Z) : Z * Z := (d, node_id (chunk_of s d)).

(** The abstract manager [a] stands for the configuration [c]. *)
Record vm_abs (c : vconfig) (G : list Z) (P : list (list Z)) (Ns : list (list Z)) (a : aconfig) : Prop := {
  ab_at : vm_at c G P Ns;
  ab_caches : ac_caches a = P;
  ab_global : G = concat (part <$> vc_threads c) ++ ac_global a;
  ab_held : ac_held a = label (vc_state c) <$> vc_held c;
  ab_length : length (ac_threads a) = length (vc_threads c);
  ab_threads : forall i p N t, vc_threads c !! i = Some p -> Ns !! i = Some N -> ac_threads a !! i = Some t ->
    shows (vc_state c) G p N t
}.

(** What a client sees: the chunks it holds, and which threads are in which
    call. *)
Inductive view := Outside | Allocating | Releasing | Purging.

Definition goal_view (k : push_goal) : view :=
  match k with ToFree => Releasing | ToPurge _ _ => Purging | ToExtent _ _ _ => Allocating end.
Definition view_of (p : vpc) : view :=
  match p with
  | VIdle => Outside
  | PushLock _ k | PushNext _ k | PushHead _ k | PushUnlock k | FDrop _ k => goal_view k
  | FStart _ | FLock _ _ | FCount _ _ | FTop _ _ | FHead _ _ | FInc _ | FUnlock _ _ => Releasing
  | PLock _ | PTake _ | PZero _ _ | PUnlock _ _ | PWalk _ _ => Purging
  | _ => Allocating
  end.
Definition a_view (t : apc) : view :=
  match t with
  | TIdle => Outside
  | TFree _ _ | TFull _ | TDone => Releasing
  | TPurge _ | TMove _ _ => Purging
  | _ => Allocating
  end.

Definition watch (c : vconfig) : list Z * list view := (vc_held c, view_of <$> vc_threads c).
Definition a_watch (a : aconfig) : list Z * list view := ((ac_held a).*1, a_view <$> ac_threads a).

Lemma shows_view s G p N t : shows s G p N t -> a_view t = view_of p.
Proof.
  destruct p; cbn [shows]; try (by intros ->); try (intros ->; by repeat case_match).
  - by intros [->|[-> _]].
  - by intros [->| ->].
  - by intros [->| ->].
  - intros [-> _]. by destruct k.
  - intros ->. by destruct k.
  - intros ->. by destruct k.
  - intros ->. by destruct k.
  - intros [-> _]. by destruct k.
Qed.

Lemma label_fst s (l : list Z) : (label s <$> l).*1 = l.
Proof. rewrite <- list_fmap_compose. by apply list_fmap_id. Qed.

Lemma vm_abs_watch c G P Ns a : vm_abs c G P Ns a -> a_watch a = watch c.
Proof.
  intros Ha. unfold watch, a_watch. rewrite (ab_held _ _ _ _ _ Ha). f_equal.
  - apply label_fst.
  - pose proof (ab_length _ _ _ _ _ Ha) as Hlen. pose proof (va_length _ _ _ _ (ab_at _ _ _ _ _ Ha)) as Hlen'.
    apply list_eq_same_length with (length (vc_threads c)); [by rewrite length_fmap|by rewrite length_fmap|].
    intros i x y Hi Hx Hy. apply list_lookup_fmap_Some in Hx as (t & -> & Ht), Hy as (p & -> & Hp).
    destruct (lookup_lt_is_Some_2 Ns i) as [N HN]; [lia|]. by eapply shows_view, (ab_threads _ _ _ _ _ Ha i).
Qed.

(** ** The lists after a step *)

(** The state determines the lists, so a step changes what it writes. *)
Section lists.
Context (s : state) (G : list Z) (P : list (list Z)) (p : vpc) (N : list Z).
Context (s' : state) (G' : list Z) (P' : list (list Z)) (p' : vpc) (N' new : list Z).
Hypothesis Hv : sees s G P p N.
Hypothesis Hst : stepped s G P p N s' G' P' p' N' new.

Lemma listed_header d : d ∈ G ++ concat P -> chunk_of s' d = chunk_of s d.
Proof.
  intros Hd. apply (sp_header _ _ _ _ _ _ _ _ _ _ _ Hst); [|by eapply listed_apart].
  eapply seen_mapped; [exact Hv|]. set_solver.
Qed.

Lemma listed_chain a l : (forall d, d ∈ l -> d ∈ G ++ concat P) -> chain s a l -> chain s' a l.
Proof. intros Hl. apply chain_ext. intros d Hd. by rewrite listed_header by auto. Qed.

Lemma global_is l : chain s' (g_global_free_chunks s') l -> G' = l.
Proof. intros Hl. by apply (chain_unique s' s' _ l G' (fun _ _ => eq_refl) Hl), (sp_lists _ _ _ _ _ _ _ _ _ _ _ Hst). Qed.

Lemma global_still : g_global_free_chunks s' = g_global_free_chunks s -> G' = G.
Proof.
  intros E. apply global_is. rewrite E. apply listed_chain; [set_solver|]. apply (lo_global _ _ _ (se_lists _ _ _ _ _ Hv)).
Qed.

Lemma cache_some n : node n -> exists l, P' !! Z.to_nat n = Some l.
Proof.
  intros Hn. destruct (lo_len _ _ _ (sp_lists _ _ _ _ _ _ _ _ _ _ _ Hst)) as [E _].
  apply lookup_lt_is_Some_2. unfold node in Hn. lia.
Qed.

Lemma cache_is n l : node n -> chain s' (free_chunks (pool_of s' n)) l -> P' !! Z.to_nat n = Some l.
Proof.
  intros Hn Hl. destruct (cache_some n Hn) as [l' El]. rewrite El. f_equal.
  destruct (lo_pool _ _ _ (sp_lists _ _ _ _ _ _ _ _ _ _ _ Hst) n l' Hn El) as [Hl' _].
  exact (chain_unique s' s' _ l l' (fun _ _ => eq_refl) Hl Hl').
Qed.

(** The thread changes at most cache [n]. *)
Lemma caches_but n l :
  (forall m, node m -> m <> n -> holding p <> Some (LPool m)) -> node n -> P' !! Z.to_nat n = Some l ->
  P' = <[Z.to_nat n := l]> P.
Proof.
  intros Hm Hn Hl. destruct (lo_len _ _ _ (sp_lists _ _ _ _ _ _ _ _ _ _ _ Hst)) as [E _].
  destruct (lo_len _ _ _ (se_lists _ _ _ _ _ Hv)) as [E' _].
  apply list_eq_same_length with 16%nat; [by rewrite length_insert|done|].
  intros i x y Hi Hx. unfold node in Hn. destruct (decide (i = Z.to_nat n)) as [->|Hne].
  - rewrite list_lookup_insert_eq by lia. congruence.
  - rewrite list_lookup_insert_ne by done. assert (node (Z.of_nat i)) as Hni by (unfold node; lia).
    destruct (sp_pool _ _ _ _ _ _ _ _ _ _ _ Hst (Z.of_nat i) Hni) as [_ Ep]; [apply Hm; [done|lia]|].
    rewrite Nat2Z.id in Ep. congruence.
Qed.

Lemma cache_set n l :
  holding p = Some (LPool n) -> node n -> chain s' (free_chunks (pool_of s' n)) l -> P' = <[Z.to_nat n := l]> P.
Proof. intros Hp Hn Hl. apply caches_but; [intros m _ ? E; congruence|done|by apply cache_is]. Qed.

Lemma caches_still :
  (forall n, holding p = Some (LPool n) -> free_chunks (pool_of s' n) = free_chunks (pool_of s n)) -> P' = P.
Proof.
  intros Hf. assert ((exists n, holding p = Some (LPool n)) \/ forall n, holding p <> Some (LPool n)) as [[n Hp]|Hno].
  { destruct (holding p) as [[n|]|]; [left; by exists n|by right..]. }
  - assert (node n) as Hn by (apply (local_node s G P p N (LPool n)); [apply Hv|done]).
    destruct (lo_len _ _ _ (se_lists _ _ _ _ _ Hv)) as [E _].
    destruct (lookup_lt_is_Some_2 P (Z.to_nat n)) as [l Hl]; [unfold node in Hn; lia|].
    rewrite (cache_set n l Hp Hn); [by apply list_insert_id|]. rewrite Hf by done.
    apply listed_chain; [intros d Hd; by eapply in_cache|].
    by destruct (lo_pool _ _ _ (se_lists _ _ _ _ _ Hv) n l Hn Hl).
  - assert (node 0) as Hn by (unfold node; lia). destruct (cache_some 0 Hn) as [l Hl].
    rewrite (caches_but 0 l); [|intros m _ _; apply Hno|done..]. apply list_insert_id.
    destruct (sp_pool _ _ _ _ _ _ _ _ _ _ _ Hst 0 Hn) as [_ <-]; [apply Hno|done].
Qed.

End lists.

(** ** One action *)

(** What the actions of a thread leave behind. *)
Lemma update_chunk_self c f s u s' : update_chunk c f s = Done u s' -> chunk_of s' c = f (chunk_of s c).
Proof.
  unfold update_chunk, check_mapped. run_m. destruct (mapped s c); [|done]. intros [= _ <-].
  rewrite chunk_of_insert. by rewrite decide_True.
Qed.
Lemma update_chunk_lists c f s u s' :
  update_chunk c f s = Done u s' ->
  g_global_free_chunks s' = g_global_free_chunks s /\ forall n, pool_of s' n = pool_of s n.
Proof. unfold update_chunk, check_mapped. run_m. destruct (mapped s c); [|done]. by intros [= _ <-]. Qed.
Lemma chunk_at_done c s h s' : chunk_at c s = Done h s' -> h = chunk_of s c /\ s' = s.
Proof. unfold chunk_at, check_mapped. run_m. destruct (mapped s c); [|done]. by intros [= <- <-]. Qed.

Lemma extent_done_next a j : 0 <= j -> extent_done a (j + 1) = (a + j * LZ_HUGE_PAGE_SIZE) :: extent_done a j.
Proof.
  intros Hj. unfold extent_done. rewrite (seqZ_app 0 j 1), fmap_app, reverse_app by lia.
  by rewrite (seqZ_cons _ 1), seqZ_nil by lia.
Qed.
Lemma extent_done_all a : extent_done a LZ_EXTENT_CHUNKS = reverse (extent_rest a 0).
Proof. done. Qed.

Section simulation.
Context `{EnvLaws}.
Context (s : state) (G : list Z) (P : list (list Z)) (N : list Z) (used g : list Z) (t : apc).
Context (s' : state) (G' : list Z) (P' : list (list Z)) (p' : vpc) (N' new : list Z).

(** An action leaves the abstract manager alone or is one of its operations. *)
Definition simulates (p : vpc) : Prop :=
  exists g' t', shows s' G' p' N' t' /\
    (if decide (holding p = Some LGlobal) then G' = part p' ++ g' else g' = g /\ part p' = []) /\
    (g' = g /\ P' = P /\ t' = t \/ a_moves used g P t g' P' t').

Lemma sim_still p :
  P' = P -> G' = G -> part p' = part p -> (holding p = Some LGlobal -> G = part p ++ g) ->
  (holding p <> Some LGlobal -> part p = []) -> shows s' G' p' N' t -> simulates p.
Proof.
  intros EP EG Ep Hg Hn Hs. exists g, t. split_and!; [done| |by left]. destruct (decide _); [|by rewrite Ep, Hn].
  rewrite EG, Ep. by apply Hg.
Qed.

Lemma sim_move p t' :
  holding p <> Some LGlobal -> part p' = [] -> shows s' G' p' N' t' -> a_moves used g P t g P' t' -> simulates p.
Proof. intros Hp Ep Hs Hm. exists g, t'. rewrite decide_False by done. eauto. Qed.

Lemma sim_list p g' t' :
  holding p = Some LGlobal -> G' = part p' ++ g' -> shows s' G' p' N' t' -> a_moves used g P t g' P' t' -> simulates p.
Proof. intros Hp Ep Hs Hm. exists g', t'. rewrite decide_True by done. eauto. Qed.

Lemma update_pool_done p n f u : sees s G P p N -> node n -> update_pool (lz_topology_get_pool n) f s = Done u s' ->
  pool_of s' n = f (pool_of s n) /\ g_global_free_chunks s' = g_global_free_chunks s /\ forall d, chunk_of s' d = chunk_of s d.
Proof.
  intros Hv Hn. destruct (node_pool s G P N p n Hv Hn) as [-> Hq]. unfold update_pool, pool_at. run_m. rewrite Hq.
  intros [= _ <-]. split_and!; [|done..]. unfold pool_of. cbn. rewrite list_lookup_insert_eq; [done|]. by eapply lookup_lt_Some.
Qed.
Lemma pool_at_done p n q s1 : sees s G P p N -> node n -> pool_at (lz_topology_get_pool n) s = Done q s1 ->
  q = pool_of s n /\ s1 = s.
Proof.
  intros Hv Hn. destruct (node_pool s G P N p n Hv Hn) as [-> Hq]. unfold pool_at. run_m. rewrite Hq. by intros [= <- <-].
Qed.

(** Outside of locks, and inside, what the thread cannot change. *)
Lemma free_lists p : sees s G P p N -> stepped s G P p N s' G' P' p' N' new -> holding p = None -> P' = P /\ G' = G.
Proof.
  intros Hv Hst Hp. split; [|by apply (sp_global _ _ _ _ _ _ _ _ _ _ _ Hst); rewrite Hp].
  eapply caches_still; [done..|]. intros n E. congruence.
Qed.

(** A thread at [p] has acted. *)
Record acted (p : vpc) : Prop := {
  ac_sees : sees s G P p N;
  ac_step : stepped s G P p N s' G' P' p' N' new;
  ac_shows : shows s G p N t;
  ac_list : holding p = Some LGlobal -> G = part p ++ g;
  ac_used : forall c, c ∈ used -> mapped s c = true
}.

(** Actions outside of the locks that the abstract manager does not see. *)
Lemma sim_free p : acted p -> holding p = None -> part p = [] -> part p' = [] -> shows s' G' p' N' t -> simulates p.
Proof.
  intros Ha Hp Ep Ep' Hs. destruct (free_lists p (ac_sees _ Ha) (ac_step _ Ha) Hp). apply sim_still; try done; congruence.
Qed.
(** The same in the critical section of a cache, and of the list. *)
Lemma sim_pool p n : acted p -> holding p = Some (LPool n) -> free_chunks (pool_of s' n) = free_chunks (pool_of s n) ->
  part p = [] -> part p' = [] -> shows s' G' p' N' t -> simulates p.
Proof.
  intros Ha Hp Hf Ep Ep' Hs. apply sim_still; try done; try congruence.
  - eapply caches_still; [apply Ha..|]. intros m Hm. congruence.
  - apply (sp_global _ _ _ _ _ _ _ _ _ _ _ (ac_step _ Ha)). congruence.
Qed.
Lemma sim_global p : acted p -> holding p = Some LGlobal -> g_global_free_chunks s' = g_global_free_chunks s ->
  part p' = part p -> shows s' G' p' N' t -> simulates p.
Proof.
  intros Ha Hp Hf Ep Hs. apply sim_still; try done.
  - eapply caches_still; [apply Ha..|]. intros m Hm. congruence.
  - eapply global_still; [apply Ha..|done].
  - apply Ha.
Qed.

(** The abstract operations on a cache, and those on the list. *)
Lemma sim_cache p n l t' : acted p -> holding p = Some (LPool n) -> node n -> chain s' (free_chunks (pool_of s' n)) l ->
  part p' = [] -> shows s' G' p' N' t' -> a_moves used g P t g (<[Z.to_nat n := l]> P) t' -> simulates p.
Proof.
  intros Ha Hp Hn Hl Ep Hs Hm. apply (sim_move p t'); [congruence|done|done|].
  assert (P' = <[Z.to_nat n := l]> P) as -> by (eapply cache_set; [apply Ha..|done|done|done]). exact Hm.
Qed.
Lemma sim_head p l g' t' : acted p -> holding p = Some LGlobal -> chain s' (g_global_free_chunks s') l ->
  l = part p' ++ g' -> shows s' l p' N' t' -> a_moves used g P t g' P t' -> simulates p.
Proof.
  intros Ha Hp Hl Ep Hs Hm. assert (G' = l) as EG by (eapply global_is; [apply Ha|done]).
  assert (P' = P) as EP by (eapply caches_still; [apply Ha..|]; intros m E; congruence).
  apply (sim_list p g' t'); [done|by rewrite EG|by rewrite EG|by rewrite EP].
Qed.

End simulation.

(** Every action at [p] is simulated. *)
Definition sim `{Env} (p : vpc) : Prop := forall s G P N used g t s' G' P' p' N' new m,
  acted s G P N used g t s' G' P' p' N' new p -> vm_act p = Some m -> m s = Done p' s' ->
  simulates P used g t s' G' P' p' N' p.

Ltac sim_intro := intros s G P N used g t s' G' P' p' N' new m Ha Hact Hm.
Ltac sim_facts Ha Hact :=
  apply (inj Some) in Hact as <-;
  pose proof (ac_sees _ _ _ _ _ _ _ _ _ _ _ _ _ _ Ha) as Hv; pose proof (ac_step _ _ _ _ _ _ _ _ _ _ _ _ _ _ Ha) as Hst;
  pose proof (se_local _ _ _ _ _ Hv) as Hl; pose proof (sp_local _ _ _ _ _ _ _ _ _ _ _ Hst) as Hl';
  pose proof (ac_shows _ _ _ _ _ _ _ _ _ _ _ _ _ _ Ha) as Hs; pose proof (ac_list _ _ _ _ _ _ _ _ _ _ _ _ _ _ Ha) as Hg;
  cbn [local shows holding] in Hl, Hs, Hg.
Ltac sim_start := intros s G P N used g t s' G' P' p' N' new m Ha Hact Hm; sim_facts Ha Hact.

Section cases.
Context `{EnvLaws}.

Lemma sim_anode : sim ANode.
Proof. sim_start. act_end Hm. by eapply sim_free. Qed.

Lemma sim_alock n : sim (ALock n).
Proof. sim_start. apply try_pool_end in Hm as [[-> ->]| ->]; by eapply sim_free. Qed.

Lemma sim_atop n : sim (ATop n).
Proof.
  sim_start. destruct Hl as (Hn & -> & l & El & _). apply bind_done in Hm as (q & s1 & Hq & Hm).
  apply (pool_at_done s G P [] _ n q s1 Hv Hn) in Hq as [-> ->]. act_end Hm.
  destruct (lo_pool _ _ _ (se_lists _ _ _ _ _ Hv) n l Hn El) as (Hch & _).
  destruct (Z.eqb_spec (free_chunks (pool_of s n)) NULL) as [E|E]; cbn [negb] in *.
  - destruct l as [|c l]; [|cbn in Hch; destruct Hch as (? & ? & _); congruence].
    eapply (sim_cache _ _ _ _ _ _ _ _ _ _ _ _ _ _ n []); [exact Ha|done|done|done|done|done|].
    rewrite list_insert_id by done. rewrite Hs. by apply a_miss.
  - by eapply sim_pool.
Qed.

Lemma sim_anext n top : sim (ANext n top).
Proof. sim_start. apply bind_done in Hm as (h & s1 & Hh & Hm). apply chunk_at_done in Hh as [-> ->]. act_end Hm. by eapply sim_pool. Qed.

Lemma sim_apop n top next : sim (APop n top next).
Proof.
  sim_start. destruct Hl as (Hn & -> & _ & Hnx & l & El). apply bind_done in Hm as (u & s1 & Hu & Hm). act_end Hm.
  destruct (update_pool_done _ _ _ _ _ _ _ _ _ Hv Hn Hu) as (Ep & _ & Eh).
  destruct (lo_pool _ _ _ (se_lists _ _ _ _ _ Hv) n _ Hn El) as ((_ & _ & Hch) & _).
  eapply (sim_cache _ _ _ _ _ _ _ _ _ _ _ _ _ _ n l (TGot top n)); [exact Ha|done|done| |done|done|].
  - rewrite Ep. cbn. rewrite <- Hnx. eapply chain_ext; [|exact Hch]. intros d _. by rewrite Eh.
  - rewrite Hs. by apply a_hit.
Qed.

Lemma sim_acount n top : sim (ACount n top).
Proof.
  sim_start. destruct Hl as (Hn & -> & _). apply bind_done in Hm as (u & s1 & Hu & Hm). act_end Hm.
  destruct (update_pool_done _ _ _ _ _ _ _ _ _ Hv Hn Hu) as (Ep & _ & Eh). eapply sim_pool; [done|done|by rewrite Ep|done|done|].
  cbn. assert (top <> NULL) by (eapply own_nonnull; [exact Hv|by left]). by zfalse (top =? NULL).
Qed.

Lemma sim_aunlock n top : sim (AUnlock n top).
Proof.
  sim_start. apply bind_done in Hm as (u & s1 & Hu & Hm). injection Hu as _ <-. act_end Hm.
  destruct Hl as (Hn & _ & [[-> _]|[-> [_ Hid]]]); [by eapply sim_pool|].
  assert ((top =? NULL) = false) as Enz by (apply Z.eqb_neq; eapply own_nonnull; [exact Hv|by left]). rewrite Enz in *.
  eapply sim_pool; [exact Ha|done..|]. cbn [negb shows]. rewrite Hs. f_equal. symmetry. exact Hid.
Qed.

Lemma sim_aclear top : sim (AClear top).
Proof.
  sim_start. destruct Hl as (-> & _). apply bind_done in Hm as (u & s1 & Hu & Hm). act_end Hm.
  eapply sim_free; [exact Ha|done..|]. cbn [shows]. rewrite (update_chunk_self _ _ _ _ _ Hu).
  assert (top <> NULL) by (eapply own_nonnull; [exact Hv|by left]). by zfalse (top =? NULL).
Qed.

Lemma sim_glock n again : sim (GLock n again).
Proof.
  sim_start. apply try_global_end in Hm as [[-> ->]| ->]; [by eapply sim_free|]. destruct again; (eapply sim_free; [exact Ha|done..|]).
  - by left.
  - done.
Qed.

Lemma sim_gtest n : sim (GTest n).
Proof.
  sim_start. apply bind_done in Hm as (top & s1 & Ht & Hm). injection Ht as <- <-. act_end Hm. specialize (Hg eq_refl). cbn in Hg.
  pose proof (lo_global _ _ _ (se_lists _ _ _ _ _ Hv)) as Hch.
  destruct (Z.eqb_spec (g_global_free_chunks s) NULL) as [E|E].
  - destruct G as [|c l]; [|cbn in Hch; destruct Hch as (? & ? & _); congruence]. subst g t.
    eapply (sim_head _ _ _ _ _ _ _ _ _ _ _ _ _ _ [] []); [exact Ha|done..|apply a_empty].
  - eapply sim_global; [exact Ha|done..|]. right. split; [done|].
    assert (G' = G) as -> by (by eapply global_still). intros ->. done.
Qed.

Lemma sim_gunlock_empty n : sim (GUnlockEmpty n).
Proof. sim_start. apply bind_done in Hm as (u & s1 & Hu & Hm). injection Hu as _ <-. act_end Hm. by eapply sim_global. Qed.

Lemma sim_gextent n : sim (GExtent n).
Proof.
  sim_start. destruct Hl as [Hn ->]. destruct (free_lists _ _ _ _ _ _ _ _ _ _ _ Hv Hst eq_refl) as [EP EG].
  apply bind_done in Hm as ([a|] & s1 & Hu & Hm).
  - apply bind_done in Hm as (u & s2 & Hu2 & Hm). act_end Hm. cbn [local] in Hl'. destruct Hl' as (M & EN & Hgo). cbn in Hgo.
    destruct Hgo as (_ & _ & _ & _ & Ec & EM). rewrite Ec, EM in EN.
    pose proof (sp_perm _ _ _ _ _ _ _ _ _ _ _ Hst) as Hp. rewrite EP, EG, app_nil_r in Hp.
    assert (N' = extent_rest a 0) as EN' by (by rewrite EN, (extent_rest_cons a 0)).
    assert (forall c, c ∈ extent_rest a 0 -> c ∈ new) as Hnew.
    { intros c Hc. rewrite <- EN' in Hc. assert (N' ≡ₚ new) as <-; [|done].
      apply (Permutation_app_inv_l (G ++ concat P)). rewrite <- app_assoc, Hp. solve_Permutation. }
    eapply sim_move with (t' := TFresh n a); [done|done|done|]. rewrite Hs, EP. apply a_mapped. intros c Hc.
    destruct (sp_new _ _ _ _ _ _ _ _ _ _ _ Hst) as [_ Hx]. destruct (Hx c (Hnew c Hc)) as [(? & ? & _) Hf]. split_and!; [done..|].
    intros Hin%(ac_used _ _ _ _ _ _ _ _ _ _ _ _ _ _ Ha). congruence.
  - act_end Hm. eapply sim_move with (t' := TLast n); [done|done|done|]. rewrite Hs, EP. apply a_refused.
Qed.

Lemma sim_gtop n : sim (GTop n).
Proof.
  sim_start. apply bind_done in Hm as (top & s1 & Ht & Hm). injection Ht as <- <-. act_end Hm. specialize (Hg eq_refl). cbn in Hg.
  pose proof (lo_global _ _ _ (se_lists _ _ _ _ _ Hv)) as Hch.
  destruct (Z.eqb_spec (g_global_free_chunks s) NULL) as [E|E]; cbn [negb] in *.
  - destruct G as [|c l]; [|cbn in Hch; destruct Hch as (? & ? & _); congruence]. subst g.
    destruct Hs as [->|[-> ?]]; [|done]. eapply (sim_head _ _ _ _ _ _ _ _ _ _ _ _ _ _ [] []); [exact Ha|done..|apply a_null].
  - eapply sim_global; [exact Ha|done..|]. cbn. tauto.
Qed.

Lemma sim_gnext n top : sim (GNext n top).
Proof.
  sim_start. apply bind_done in Hm as (h & s1 & Hh & Hm). apply chunk_at_done in Hh as [-> ->]. act_end Hm. by eapply sim_global.
Qed.

Lemma sim_gpop n top next : sim (GPop n top next).
Proof.
  sim_start. destruct Hl as (Hn & -> & Hnx & l & EG). apply bind_done in Hm as (u & s1 & Hu & Hm). injection Hu as _ <-. act_end Hm.
  specialize (Hg eq_refl). cbn in Hg. pose proof (lo_global _ _ _ (se_lists _ _ _ _ _ Hv)) as Hch. rewrite EG in Hch.
  destruct Hch as (_ & Hnz & Hch). rewrite Hnx in Hch.
  eapply (sim_head _ _ _ _ _ _ _ _ _ _ _ _ _ _ l l (TGot top n)); [exact Ha|done|by eapply chain_ext; [|exact Hch]|done| |].
  - cbn. by zfalse (top =? NULL).
  - rewrite <- Hg, EG. destruct Hs as [->| ->]; [apply a_retry|apply a_pop].
Qed.

Lemma sim_gunlock n top : sim (GUnlock n top).
Proof.
  sim_start. apply bind_done in Hm as (u & s1 & Hu & Hm). injection Hu as _ <-. act_end Hm.
  destruct (Z.eqb_spec top NULL) as [->|E]; (eapply sim_global; [exact Ha|done..|done]).
Qed.

Lemma sim_gstamp n top : sim (GStamp n top).
Proof.
  sim_start. destruct Hl as (Hn & ->). assert (top <> NULL) by (eapply own_nonnull; [exact Hv|by left]).
  do 6 (apply bind_done in Hm as (? & ? & ?%update_chunk_self & Hm)). act_end Hm.
  eapply sim_free; [exact Ha|done..|]. cbn [shows]. zfalse (top =? NULL).
  repeat match goal with E : chunk_of _ top = _ |- _ => rewrite E; clear E end. done.
Qed.

(** A thread that pushes keeps its chunks. *)
Lemma push_keeps s G P N used g t s' G' P' p' N' new p m c k :
  acted s G P N used g t s' G' P' p' N' new p -> vm_act p = Some m -> m s = Done p' s' -> moving p = true ->
  (local s G P p N -> exists M, N = c :: M /\ goal_ok s c k M) ->
  (local s' G' P' p' N' -> exists M, N' = c :: M /\ goal_ok s' c k M) ->
  (forall d, pushed p = Some d -> d = c) -> N' = N.
Proof.
  intros Ha Hact Hm Hmv Hl Hl' Hd. eapply (moving_goal s s' G P G' P' p m p' N N' c k); try done; [apply Ha|].
  apply (sp_local _ _ _ _ _ _ _ _ _ _ _ (ac_step _ _ _ _ _ _ _ _ _ _ _ _ _ _ Ha)).
Qed.
Lemma purge_keeps s G P N used g t s' G' P' p' N' new p m a :
  acted s G P N used g t s' G' P' p' N' new p -> vm_act p = Some m -> m s = Done p' s' -> moving p = true ->
  pushed p = None -> chain s a N -> chain s' a N' -> N' = N.
Proof. intros Ha Hact Hm Hmv Hp. by apply (moving_chain p m s p' s'). Qed.

Lemma sim_push_lock c k : sim (PushLock c k).
Proof.
  sim_intro. pose proof (push_keeps _ _ _ _ _ _ _ _ _ _ _ _ _ _ m c k Ha Hact Hm eq_refl) as Hk. sim_facts Ha Hact. destruct Hs as [Hs Hj].
  apply try_global_end in Hm as [[-> ->]| ->]; (eapply sim_free; [exact Ha|done|done| |]); cbn [part shows]; try done.
  - rewrite Hk; done.
  - destruct k as [| |n a j]; try done. by rewrite Hj.
  - rewrite Hk; done.
Qed.

Lemma sim_push_next c k : sim (PushNext c k).
Proof.
  sim_intro. pose proof (push_keeps _ _ _ _ _ _ _ _ _ _ _ _ _ _ m c k Ha Hact Hm eq_refl) as Hk. sim_facts Ha Hact.
  apply bind_done in Hm as (top & s1 & Ht & Hm). injection Ht as <- <-. apply bind_done in Hm as (u & s1 & Hu & Hm). act_end Hm.
  eapply sim_global; [exact Ha|done|by eapply update_chunk_lists|done|]. cbn [shows]. rewrite Hk; [done|done| |].
  - by intros [_ ?].
  - by intros d [= ->].
Qed.

Lemma sim_push_head c k : sim (PushHead c k).
Proof.
  sim_start. specialize (Hg eq_refl). destruct Hl as (Hnx & M & EN & Hgo).
  apply bind_done in Hm as (u & s1 & Hu & Hm). injection Hu as _ <-. act_end Hm.
  assert (chain (set_g_global_free_chunks c s) c (c :: G)) as Hch.
  { split_and!; [done|eapply own_nonnull; [exact Hv|rewrite EN; by left]|].
    change (chunk_of (set_g_global_free_chunks c s) c) with (chunk_of s c). rewrite Hnx.
    by eapply chain_ext; [|apply (lo_global _ _ _ (se_lists _ _ _ _ _ Hv))]. }
  destruct k as [|i next|n a j]; cbn [after_push part app] in *.
  - subst t g. eapply sim_head; [exact Ha|done|exact Hch|done|done|apply a_retire].
  - assert (N' = M) as EN'.
    { destruct Hgo as [_ Hc], Hl' as [_ Hc']. by eapply (chain_unique s); [|exact Hc|exact Hc']. }
    subst t g. eapply sim_head; [exact Ha|done|exact Hch|done|done|]. cbn. rewrite EN, EN'. apply a_move.
  - destruct Hgo as (_ & Hj & _ & _ & Ec & _). assert (c :: G = extent_done a (j + 1) ++ g) as EG.
    { by rewrite extent_done_next, <- Ec, Hg by lia. }
    unfold LZ_EXTENT_CHUNKS in *. destruct (Z.ltb_spec (j + 1) 32) as [Hlt|Hge].
    + assert (G' = c :: G) as EG' by (eapply global_is; [exact Hst|exact Hch]). exists g, t. rewrite decide_True by done.
      split_and!; [exact Hs|cbn [part]; by rewrite EG', EG|left]. split_and!; [done| |done].
      eapply caches_still; [exact Hv|exact Hst|]. intros m E. discriminate E.
    + assert (j + 1 = 32) as Ej by lia. rewrite Ej in EG. subst t.
      eapply sim_head; [exact Ha|done|exact Hch|exact EG|done|]. apply a_extend.
Qed.

Lemma sim_push_unlock k : sim (PushUnlock k).
Proof.
  sim_intro. pose proof (fun a => purge_keeps _ _ _ _ _ _ _ _ _ _ _ _ _ _ m a Ha Hact Hm eq_refl eq_refl) as Hk. sim_facts Ha Hact.
  apply bind_done in Hm as (u & s1 & Hu & Hm). injection Hu as _ <-. act_end Hm.
  specialize (Hg eq_refl). cbn in Hg.
  destruct k as [|i next|n a j]; cbn [after_unlock shows shows_pushed local goal_end] in *.
  - subst t g. eapply sim_head; [exact Ha|done| |done|done|apply a_done].
    by eapply chain_ext; [|apply (lo_global _ _ _ (se_lists _ _ _ _ _ Hv))].
  - destruct Hl as [_ Hc], Hl' as [_ Hc']. eapply sim_global; [exact Ha|done..|]. cbn [shows]. by rewrite (Hk next).
  - by eapply sim_global.
Qed.

Lemma sim_fstart c : sim (FStart c).
Proof.
  sim_start. destruct Hl as (-> & n & _ & Hmg & Hid). assert (c <> NULL) by (eapply own_nonnull; [exact Hv|by left]).
  revert Hm. zfalse (c =? NULL). intros Hm. apply bind_done in Hm as (h & s1 & Hh & Hm). apply chunk_at_done in Hh as [-> ->].
  rewrite Hmg in Hm. act_end Hm. by eapply sim_free.
Qed.

Lemma sim_flock n c : sim (FLock n c).
Proof. sim_start. apply try_pool_end in Hm as [[-> ->]| ->]; by eapply sim_free. Qed.

Lemma sim_fcount n c : sim (FCount n c).
Proof.
  sim_start. destruct Hl as (Hn & -> & _ & l & El & Ect). apply bind_done in Hm as (q & s1 & Hq & Hm).
  apply (pool_at_done s G P [c] _ n q s1 Hv Hn) in Hq as [-> ->]. act_end Hm.
  destruct (lo_pool _ _ _ (se_lists _ _ _ _ _ Hv) n l Hn El) as (Hch & Hle & _). rewrite Ect in *. unfold LZ_VMM_MAX_CACHED_CHUNKS in *.
  destruct (Z.ltb_spec (Z.of_nat (length l)) 32) as [Hlt|Hge]; [by eapply sim_pool|].
  eapply (sim_cache _ _ _ _ _ _ _ _ _ _ _ _ _ _ n l); [exact Ha|done|done|exact Hch|done|done|].
  rewrite list_insert_id by done. subst t. eapply a_full; [done|done|lia].
Qed.

Lemma sim_ftop n c : sim (FTop n c).
Proof.
  sim_start. destruct Hl as (Hn & -> & _). apply bind_done in Hm as (q & s1 & Hq & Hm).
  apply (pool_at_done s G P [c] _ n q s1 Hv Hn) in Hq as [-> ->]. apply bind_done in Hm as (u & s1 & Hu & Hm). act_end Hm.
  destruct (update_chunk_lists _ _ _ _ _ Hu) as [_ Ep]. eapply sim_pool; [exact Ha|done|by rewrite Ep|done..].
Qed.

Lemma sim_fhead n c : sim (FHead n c).
Proof.
  sim_start. destruct Hl as (Hn & -> & _ & (l & El & Ect) & Hlt & Hnx). apply bind_done in Hm as (u & s1 & Hu & Hm). act_end Hm.
  destruct (update_pool_done _ _ _ _ _ _ _ _ _ Hv Hn Hu) as (Ep & _ & Eh).
  destruct (lo_pool _ _ _ (se_lists _ _ _ _ _ Hv) n _ Hn El) as (Hch & _).
  assert (c <> NULL) by (eapply own_nonnull; [exact Hv|by left]). unfold LZ_VMM_MAX_CACHED_CHUNKS in *.
  eapply (sim_cache _ _ _ _ _ _ _ _ _ _ _ _ _ _ n (c :: l)); [exact Ha|done|done| |done|done|].
  - rewrite Ep. cbn. split_and!; [done|done|]. rewrite Eh, Hnx. eapply chain_ext; [|exact Hch]. intros d _. by rewrite Eh.
  - subst t. apply a_cache; [done|done|lia].
Qed.

Lemma sim_finc n : sim (FInc n).
Proof.
  sim_start. destruct Hl as (Hn & -> & _). apply bind_done in Hm as (u & s1 & Hu & Hm). act_end Hm.
  destruct (update_pool_done _ _ _ _ _ _ _ _ _ Hv Hn Hu) as (Ep & _). eapply sim_pool; [exact Ha|done|by rewrite Ep|done..].
Qed.

Lemma sim_funlock n r : sim (FUnlock n r).
Proof.
  sim_start. destruct Hl as (Hn & (l & El & _) & _). apply bind_done in Hm as (u & s1 & Hu & Hm). injection Hu as _ <-. act_end Hm.
  destruct r as [c|]; [by eapply sim_pool|]. destruct (lo_pool _ _ _ (se_lists _ _ _ _ _ Hv) n _ Hn El) as (Hch & _).
  eapply (sim_cache _ _ _ _ _ _ _ _ _ _ _ _ _ _ n l); [exact Ha|done|done| |done|done|].
  - by eapply chain_ext; [|exact Hch].
  - rewrite list_insert_id by done. subst t. apply a_done.
Qed.

Lemma sim_fdrop c k : sim (FDrop c k).
Proof.
  sim_intro. pose proof (push_keeps _ _ _ _ _ _ _ _ _ _ _ _ _ _ m c k Ha Hact Hm eq_refl) as Hk. sim_facts Ha Hact. destruct Hs as [Hs Hj].
  apply bind_done in Hm as (u & s1 & Hu & Hm). act_end Hm. eapply sim_free; [exact Ha|done..|]. cbn [shows].
  rewrite Hk by done. split; [done|]. by destruct k.
Qed.

Lemma sim_plock i : sim (PLock i).
Proof. sim_start. apply try_pool_end in Hm as [[-> ->]| ->]; by eapply sim_free. Qed.

Lemma sim_ptake i : sim (PTake i).
Proof.
  sim_start. destruct Hl as (Hn & ->). apply bind_done in Hm as (q & s1 & Hq & Hm).
  apply (pool_at_done s G P [] _ i q s1 Hv Hn) in Hq as [-> ->]. apply bind_done in Hm as (u & s1 & Hu & Hm). act_end Hm.
  destruct (update_pool_done _ _ _ _ _ _ _ _ _ Hv Hn Hu) as (Ep & _ & Eh). destruct Hl' as (_ & Hc' & _).
  destruct (lo_len _ _ _ (se_lists _ _ _ _ _ Hv)) as (Hlen & _).
  destruct (lookup_lt_is_Some_2 P (Z.to_nat i)) as [l El]; [unfold node in Hn; lia|].
  destruct (lo_pool _ _ _ (se_lists _ _ _ _ _ Hv) i l Hn El) as (Hch & _).
  assert (N' = l) as -> by (eapply (chain_unique s s1); [|exact Hch|exact Hc']; intros d _; by rewrite Eh).
  eapply (sim_cache _ _ _ _ _ _ _ _ _ _ _ _ _ _ i []); [exact Ha|done|done|by rewrite Ep|done|done|]. subst t. by apply a_take.
Qed.

Lemma sim_pzero i chunk : sim (PZero i chunk).
Proof.
  sim_intro. pose proof (purge_keeps _ _ _ _ _ _ _ _ _ _ _ _ _ _ m chunk Ha Hact Hm eq_refl eq_refl) as Hk. sim_facts Ha Hact.
  destruct Hl as (Hn & Hc & _). apply bind_done in Hm as (u & s1 & Hu & Hm). act_end Hm. destruct Hl' as (_ & Hc' & _).
  destruct (update_pool_done _ _ _ _ _ _ _ _ _ Hv Hn Hu) as (Ep & _).
  eapply sim_pool; [exact Ha|done|by rewrite Ep|done..|]. cbn [shows]. by rewrite Hk.
Qed.

Lemma sim_punlock i chunk : sim (PUnlock i chunk).
Proof.
  sim_intro. pose proof (purge_keeps _ _ _ _ _ _ _ _ _ _ _ _ _ _ m chunk Ha Hact Hm eq_refl eq_refl) as Hk. sim_facts Ha Hact.
  destruct Hl as (Hn & Hc & _). apply bind_done in Hm as (u & s1 & Hu & Hm). injection Hu as _ <-. act_end Hm. destruct Hl' as (_ & Hc').
  eapply sim_pool; [exact Ha|done..|]. cbn [shows]. by rewrite Hk.
Qed.

Lemma sim_pwalk i chunk : sim (PWalk i chunk).
Proof.
  sim_start. destruct Hl as (Hn & Hc). destruct (free_lists _ _ _ _ _ _ _ _ _ _ _ Hv Hst eq_refl) as [EP _].
  destruct (Z.eqb_spec chunk NULL) as [->|Hnz].
  - act_end Hm. destruct N as [|d N]; [|destruct Hc as (? & ? & _); congruence]. unfold node, LZ_MAX_NUMA_NODES in *.
    destruct (Z.ltb_spec (i + 1) 16) as [Hlt|Hge].
    + eapply sim_move with (t' := TPurge (i + 1)); [done..|]. subst t. rewrite EP. by apply a_next.
    + assert (i = 15) as -> by lia. eapply sim_move with (t' := TIdle); [done..|]. subst t. rewrite EP. apply a_purged.
  - apply bind_done in Hm as (h & s1 & Hh & Hm). apply chunk_at_done in Hh as [-> ->]. act_end Hm.
    destruct N as [|d M]; [done|]. destruct Hc as (-> & _ & Hc). destruct Hl' as (M' & -> & _ & Hc').
    rewrite (chain_unique s s _ M M' (fun _ _ => eq_refl) Hc Hc') in *. by eapply sim_free.
Qed.

Lemma act_sim p : sim p.
Proof.
  destruct p.
  1,2: intros s G P N used g t s' G' P' p' N' new m _ Hact; discriminate Hact.
  - apply sim_anode.
  - apply sim_alock.
  - apply sim_atop.
  - apply sim_anext.
  - apply sim_apop.
  - apply sim_acount.
  - apply sim_aunlock.
  - apply sim_aclear.
  - apply sim_glock.
  - apply sim_gtest.
  - apply sim_gunlock_empty.
  - apply sim_gextent.
  - apply sim_gtop.
  - apply sim_gnext.
  - apply sim_gpop.
  - apply sim_gunlock.
  - apply sim_gstamp.
  - apply sim_push_lock.
  - apply sim_push_next.
  - apply sim_push_head.
  - apply sim_push_unlock.
  - apply sim_fstart.
  - apply sim_flock.
  - apply sim_fcount.
  - apply sim_ftop.
  - apply sim_fhead.
  - apply sim_finc.
  - apply sim_funlock.
  - apply sim_fdrop.
  - apply sim_plock.
  - apply sim_ptake.
  - apply sim_pzero.
  - apply sim_punlock.
  - apply sim_pwalk.
Qed.

End cases.

(** ** All threads *)

Lemma part_free p : holding p <> Some LGlobal -> part p = [].
Proof. destruct p; try done; cbn; by destruct k. Qed.

(** At most one thread has an extent half on the list. *)
Lemma part_one ps i p :
  ps !! i = Some p -> (forall j q, j <> i -> ps !! j = Some q -> part q = []) -> concat (part <$> ps) = part p.
Proof.
  revert i. induction ps as [|q ps IH]; intros [|i] Hi Hq; [done..| |]; cbn in Hi |- *.
  - injection Hi as ->. assert (concat (part <$> ps) = []) as ->; [|by rewrite app_nil_r]. clear IH.
    assert (forall q, q ∈ ps -> part q = []) as Hall.
    { intros q [j Hj]%list_elem_of_lookup. by apply (Hq (S j) q). }
    clear Hq. induction ps as [|q ps IH]; [done|]. cbn. rewrite Hall by (by left). apply IH. intros r Hr. apply Hall. by right.
  - rewrite (Hq 0%nat q) by done. apply (IH i Hi). intros j r Hj Hr. apply (Hq (S j)); [lia|done].
Qed.
Lemma part_none ps : (forall q, q ∈ ps -> part q = []) -> concat (part <$> ps) = [].
Proof.
  induction ps as [|q ps IH]; intros Hq; [done|]. cbn. rewrite Hq by (by left). apply IH. intros r Hr. apply Hq. by right.
Qed.
Lemma part_insert ps i p p' :
  ps !! i = Some p -> part p = [] -> part p' = [] -> concat (part <$> <[i := p']> ps) = concat (part <$> ps).
Proof.
  intros Hi Hp Hp'. rewrite list_fmap_insert, Hp', list_insert_id; [done|]. by rewrite list_lookup_fmap, Hi; cbn; rewrite Hp.
Qed.

(** The chunks that exist for the abstract manager are in some place. *)
Lemma flight_in s G P p N t g d :
  local s G P p N -> shows s G p N t -> (holding p = Some LGlobal -> G = part p ++ g) -> d ∈ flight t -> d ∈ N \/ d ∈ G.
Proof.
  assert (forall a j, 0 <= j -> d ∈ extent_rest a 0 -> d ∈ extent_rest a j \/ d ∈ extent_done a j) as Hsplit.
  { unfold extent_rest, extent_done. intros a j Hj (i & -> & Hi%elem_of_seqZ)%list_elem_of_fmap.
    destruct (decide (j <= i)); [left|right; rewrite elem_of_reverse]; apply list_elem_of_fmap; exists i; (split; [done|]);
      apply elem_of_seqZ; lia. }
  assert (forall c k M, N = c :: M -> goal_ok s c k M -> part (PushNext c k) = part p -> holding p = Some LGlobal ->
    (holding p = Some LGlobal -> G = part p ++ g) -> d ∈ flight (shows_push k c N) -> d ∈ N \/ d ∈ G) as Hpush.
  { intros c k M -> Hgo Ep Hp Hg Hd. rewrite (Hg Hp), <- Ep. destruct k as [|i next|n a j]; cbn in Hd; [left; set_solver|by left|].
    destruct Hgo as (_ & Hj & _ & _ & -> & ->). cbn [part]. rewrite <- extent_rest_cons by done.
    destruct (Hsplit a j) as [?|?]; [lia|done|by left|right; set_solver]. }
  assert (forall d, d ∉ flight TNull) as Hnil by (intros ?; apply not_elem_of_nil).
  destruct p; cbn [local shows]; intros Hl Hs Hg Hd; try (subst t; by apply not_elem_of_nil in Hd);
    try (subst t; destruct_and? Hl; subst N; by left); try (subst t; by left).
  - subst t. destruct Hl as [[-> ->]|(-> & _)]; [by apply Hnil in Hd|]. destruct (r =? NULL); [by apply Hnil in Hd|by left].
  - subst t. destruct Hl as (_ & _ & [[-> ->]|[-> _]]); [by apply Hnil in Hd|]. destruct (top =? NULL); [by apply Hnil in Hd|by left].
  - subst t. by destruct again; apply Hnil in Hd.
  - by destruct Hs as [->|[-> _]]; apply Hnil in Hd.
  - by destruct Hs as [->| ->]; apply Hnil in Hd.
  - by destruct Hs as [->| ->]; apply Hnil in Hd.
  - subst t. destruct Hl as (_ & [[-> ->]| ->]); [by apply Hnil in Hd|]. destruct (top =? NULL); [by apply Hnil in Hd|by left].
  - destruct Hs as [-> Hj], Hl as (M & -> & Hgo). left. destruct k as [| |n a j]; cbn in *; [set_solver|done|]. subst j.
    destruct Hgo as (_ & _ & _ & _ & -> & ->). by rewrite <- extent_rest_cons.
  - subst t. destruct Hl as (M & EN & Hgo). by eapply Hpush.
  - subst t. destruct Hl as (_ & M & EN & Hgo). by eapply Hpush.
  - subst t. destruct k; cbn in Hd; [by apply Hnil in Hd|by left|by apply Hnil in Hd].
  - subst t. destruct Hl as (_ & _ & ->), r; [by left|by apply Hnil in Hd].
  - destruct Hs as [-> Hj], Hl as (M & -> & Hgo). left. destruct k; cbn in *; [set_solver|done|done].
Qed.

Lemma a_places_in c G P Ns a d : vm_abs c G P Ns a -> d ∈ a_places a -> d ∈ places c G P Ns.
Proof.
  intros Ha. pose proof (ab_at _ _ _ _ _ Ha) as Hc. unfold a_places, places. rewrite !elem_of_app.
  intros [Hd|[Hd|[Hd|Hd]]].
  - left. by rewrite (ab_held _ _ _ _ _ Ha), label_fst in Hd.
  - right. left. rewrite (ab_global _ _ _ _ _ Ha). set_solver.
  - do 2 right. left. by rewrite <- (ab_caches _ _ _ _ _ Ha).
  - apply list_elem_of_In, in_concat in Hd as (l & Hl%list_elem_of_In & Hd%list_elem_of_In).
    apply list_elem_of_fmap in Hl as (t & -> & [i Hi]%list_elem_of_lookup).
    pose proof (lookup_lt_Some _ _ _ Hi) as Hlt. rewrite (ab_length _ _ _ _ _ Ha) in Hlt.
    destruct (lookup_lt_is_Some_2 (vc_threads c) i Hlt) as [p Hp].
    destruct (lookup_lt_is_Some_2 Ns i) as [N HN]; [by rewrite (va_length _ _ _ _ Hc)|].
    destruct (flight_in (vc_state c) G P p N t (ac_global a) d) as [Hn|?]; [by eapply (va_local _ _ _ _ Hc)|by eapply (ab_threads _ _ _ _ _ Ha)| |done|..].
    + intros Hg. rewrite (ab_global _ _ _ _ _ Ha). f_equal. apply (part_one _ i); [done|]. intros j q Hj Hq.
      apply part_free. intros Hg'. apply Hj. by eapply (va_excl _ _ _ _ Hc).
    + do 3 right. by eapply elem_of_concat_lookup.
    + by right; left.
Qed.

(** A thread still appears as it did after the action of another one. *)
Lemma shows_frame s s' G G' P q M t :
  local s G P q M -> shows s G q M t -> (forall d, d ∈ M -> chunk_of s' d = chunk_of s d) ->
  (holding q = Some LGlobal -> G' = G) -> shows s' G' q M t.
Proof.
  intros Hl Hs Hh Hg. destruct q; cbn [shows local holding] in *; try done.
  - destruct Hl as [[-> ->]|(-> & _)]; [done|]. by rewrite Hh by (by left).
  - destruct Hl as (-> & _). by rewrite Hh by (by left).
  - by rewrite Hg.
  - destruct Hl as (-> & _). by rewrite Hh by (by left).
Qed.

Lemma label_kept s s' (K : list Z) :
  (forall d, d ∈ K -> node_id (chunk_of s' d) = node_id (chunk_of s d)) -> label s' <$> K = label s <$> K.
Proof. intros Hd. apply list_fmap_ext. intros i d Hi. unfold label. rewrite Hd; [done|]. by eapply list_elem_of_lookup_2. Qed.

(** One operation of the abstract manager, or none. *)
Definition a_may (a a' : aconfig) : Prop := a' = a \/ a_step a a'.

Section refinement.
Context `{EnvLaws}.

Lemma parts_elsewhere s K ps G P Ns i p j q :
  vm_at (mk_vc s K ps) G P Ns -> ps !! i = Some p -> holding p = Some LGlobal -> j <> i -> ps !! j = Some q -> part q = [].
Proof. intros Hc Hi Hp Hj Hq. apply part_free. intros Hq'. apply Hj. by eapply (va_excl _ _ _ _ Hc). Qed.

Lemma part_holder s K ps G P Ns a i p :
  vm_abs (mk_vc s K ps) G P Ns a -> ps !! i = Some p -> holding p = Some LGlobal -> G = part p ++ ac_global a.
Proof.
  intros Ha Hi Hp. pose proof (ab_global _ _ _ _ _ Ha) as Hg. cbn in Hg. rewrite (part_one ps i p) in Hg; [done|done|].
  intros j q. by eapply parts_elsewhere; [apply Ha|..].
Qed.

Lemma act_simulated s K ps G P Ns a i p m p' s' :
  vm_abs (mk_vc s K ps) G P Ns a -> ps !! i = Some p -> vm_act p = Some m -> m s = Done p' s' ->
  exists G' P' Ns' a', vm_abs (mk_vc s' K (<[i := p']> ps)) G' P' Ns' a' /\ a_may a a'.
Proof.
  intros Ha Hi Hact Hm. pose proof (ab_at _ _ _ _ _ Ha) as Hc.
  destruct (act_pays s K ps G P Ns i p m p' s' Hc Hi Hact Hm) as (G' & P' & N & N' & new & HN & Hst & Hc' & _).
  destruct a as [g A K' ts]. pose proof (ab_caches _ _ _ _ _ Ha) as EA. cbn in EA. subst A.
  destruct (lookup_lt_is_Some_2 ts i) as [t Ht].
  { pose proof (ab_length _ _ _ _ _ Ha) as Hlen. cbn in Hlen. rewrite Hlen. by eapply lookup_lt_Some. }
  pose proof (ab_threads _ _ _ _ _ Ha i p N t Hi HN Ht) as Hs. cbn in Hs.
  destruct (act_sim p s G P N (a_places (mk_ac g P K' ts)) g t s' G' P' p' N' new m) as (g' & t' & Hs' & Hg' & Hmv).
  { constructor; [by eapply vm_at_sees|done|done|intros Hp; by apply (part_holder _ _ _ _ _ _ _ i p Ha)|].
    intros d Hd%(a_places_in _ _ _ _ _ _ Ha). by apply (place_mapped s K ps G P Ns Hc). }
  { done. }
  { done. }
  exists G', P', (<[i := N']> Ns), (mk_ac g' P' K' (<[i := t']> ts)). split.
  2:{ destruct Hmv as [(-> & -> & ->)|Hmv]; [left; by rewrite list_insert_id|right; by eapply a_acts]. }
  constructor; cbn; [done|done| | | |].
  - pose proof (ab_global _ _ _ _ _ Ha) as HG. cbn in HG. destruct (decide _) as [Hp|Hp].
    + rewrite Hg'. f_equal. symmetry. apply (part_one _ i); [apply list_lookup_insert_eq; by eapply lookup_lt_Some|].
      intros j q Hj. rewrite list_lookup_insert_ne by done. by eapply parts_elsewhere.
    + destruct Hg' as [-> Hp']. rewrite (part_insert ps i p) by (done || by apply part_free).
      destruct (sp_global _ _ _ _ _ _ _ _ _ _ _ Hst Hp) as [_ ->]. done.
  - etrans; [apply (ab_held _ _ _ _ _ Ha)|]. symmetry. apply (label_kept s s'). intros d Hd. cbn in Hd.
    rewrite (header_kept s K ps G P Ns p N Hc s' G' P' p' N' new Hst); [done| |by eapply own_held; [exact Hc|..]].
    unfold places. set_solver.
  - rewrite !length_insert. apply (ab_length _ _ _ _ _ Ha).
  - intros j q M u [(<- & <- & _)|[Hne Hj]]%list_lookup_insert_Some HM Hu.
    + rewrite list_lookup_insert_eq in HM by (by eapply lookup_lt_Some). rewrite list_lookup_insert_eq in Hu by (by eapply lookup_lt_Some).
      by simplify_eq.
    + rewrite list_lookup_insert_ne in HM by done. rewrite list_lookup_insert_ne in Hu by done.
      eapply shows_frame; [by eapply (va_local _ _ _ _ Hc j)|by eapply (ab_threads _ _ _ _ _ Ha j)|..].
      * intros d Hd. eapply (header_kept s K ps G P Ns p N Hc s' G' P' p' N' new Hst); [|by eapply (own_other s K ps G P Ns i p N Hc Hi HN j M)].
        unfold places. assert (d ∈ concat Ns) by (by eapply elem_of_concat_lookup). set_solver.
      * intros Hq. apply (sp_global _ _ _ _ _ _ _ _ _ _ _ Hst). intros Hp. apply Hne. symmetry. by eapply (va_excl _ _ _ _ Hc).
Qed.

(** Chunks pass between the clients and a thread. *)
Lemma abs_hand_over s K ps G P Ns g A ts i p N K' p' N' t' :
  vm_abs (mk_vc s K ps) G P Ns (mk_ac g P A ts) -> ps !! i = Some p -> Ns !! i = Some N -> holding p = None -> holding p' = None ->
  local s G P p' N' -> K' ++ N' ≡ₚ K ++ N -> (forall d, d ∈ K' -> exists n, node n /\ stamped s n d) -> shows s G p' N' t' ->
  vm_abs (mk_vc s K' (<[i := p']> ps)) G P (<[i := N']> Ns) (mk_ac g P (label s <$> K') (<[i := t']> ts)).
Proof.
  intros Ha Hi HN Hp Hp' Hl Hpm Hst Hs.
  destruct (hand_over s K ps G P Ns i p N K' p' N' (ab_at _ _ _ _ _ Ha) Hi HN Hp Hp' Hl Hpm Hst) as [Hc _].
  assert (part p = [] /\ part p' = []) as [Ep Ep'] by (split; apply part_free; congruence).
  constructor; cbn; [done|done| |done| |].
  - rewrite (part_insert ps i p) by done. apply (ab_global _ _ _ _ _ Ha).
  - rewrite !length_insert. apply (ab_length _ _ _ _ _ Ha).
  - intros j q M u [(<- & <- & _)|[Hne Hj]]%list_lookup_insert_Some HM Hu.
    + rewrite list_lookup_insert_eq in HM by (by eapply lookup_lt_Some).
      apply list_lookup_insert_Some in Hu as [(_ & <- & _)|[? _]]; [by simplify_eq|done].
    + rewrite list_lookup_insert_ne in HM by done. rewrite list_lookup_insert_ne in Hu by done.
      by eapply (ab_threads _ _ _ _ _ Ha j).
Qed.

(** A thread that is between calls or returns a result. *)
Lemma abs_thread s K ps G P Ns g A ts i p :
  vm_abs (mk_vc s K ps) G P Ns (mk_ac g P A ts) -> ps !! i = Some p ->
  A = label s <$> K /\ exists N t, Ns !! i = Some N /\ ts !! i = Some t /\ local s G P p N /\ shows s G p N t.
Proof.
  intros Ha Hi. pose proof (ab_at _ _ _ _ _ Ha) as Hc. split; [apply (ab_held _ _ _ _ _ Ha)|].
  pose proof (lookup_lt_Some _ _ _ Hi) as Hlt.
  destruct (lookup_lt_is_Some_2 Ns i) as [N HN]; [by rewrite (va_length _ _ _ _ Hc)|].
  destruct (lookup_lt_is_Some_2 ts i) as [t Ht].
  { pose proof (ab_length _ _ _ _ _ Ha) as Hlen. cbn in Hlen. by rewrite Hlen. }
  exists N, t. split_and!; [done|done|by eapply (va_local _ _ _ _ Hc)|by eapply (ab_threads _ _ _ _ _ Ha)].
Qed.

Lemma return_simulated s K ps G P Ns a i r :
  vm_abs (mk_vc s K ps) G P Ns a -> ps !! i = Some (VRet r) ->
  exists Ns' a', vm_abs (mk_vc s (if r =? NULL then K else r :: K) (<[i := VIdle]> ps)) G P Ns' a' /\ a_may a a'.
Proof.
  intros Ha Hi. pose proof (ab_at _ _ _ _ _ Ha) as Hc. pose proof (va_held _ _ _ _ Hc) as Hst. cbn in Hst.
  destruct a as [g A K' ts]. pose proof (ab_caches _ _ _ _ _ Ha) as EA. cbn in EA. subst A.
  destruct (abs_thread _ _ _ _ _ _ _ _ _ _ _ Ha Hi) as (-> & N & t & HN & Ht & Hl & Hs). cbn [local shows] in Hl, Hs.
  destruct Hl as [[-> ->]|(-> & _ & n & Hn & Hr)].
  - do 2 eexists. split; [by eapply abs_hand_over|]. subst t. right. eapply a_acts; [exact Ht|apply a_fail].
  - assert (r <> NULL) as Hnz by (by eapply own_nonnull; [by eapply vm_at_sees|left]).
    revert Hs. zfalse (r =? NULL). intros ->. do 2 eexists. split; [eapply (abs_hand_over s K ps G P Ns g _ ts i (VRet r) [r]); try done|].
    + solve_Permutation.
    + intros d [->|Hd]%elem_of_cons; eauto.
    + right. cbn. by apply a_return.
Qed.

Lemma clients_simulated s K ps G P Ns a s' :
  vm_abs (mk_vc s K ps) G P Ns a -> clients_act K s s' -> vm_abs (mk_vc s' K ps) G P Ns a.
Proof.
  intros Ha Hu. pose proof (ab_at _ _ _ _ _ Ha) as Hc.
  constructor; cbn [vc_state vc_held vc_threads]; try apply Ha; [by eapply clients_ok| |].
  - etrans; [apply (ab_held _ _ _ _ _ Ha)|]. symmetry. apply (label_kept s s'). intros d Hd. by apply Hu.
  - intros i p N t Hi HN Ht.
    eapply shows_frame; [by eapply (va_local _ _ _ _ Hc)|by eapply (ab_threads _ _ _ _ _ Ha)| |done].
    intros d Hd. apply Hu. intros Hk. by eapply (own_held s K ps G P Ns i p N).
Qed.

Lemma step_simulated c G P Ns a c' :
  vm_abs c G P Ns a -> vm_step c c' -> exists G' P' Ns' a', vm_abs c' G' P' Ns' a' /\ a_may a a'.
Proof.
  intros Ha Hs. pose proof (va_held _ _ _ _ (ab_at _ _ _ _ _ Ha)) as Hst.
  destruct Hs as [s K ps i Hi|s K1 c K2 ps i Hi|s K ps i Hi|s K ps i p m p' s' Hi Hact Hm|s K ps i r Hi|s K ps s' Hu].
  4: by eapply act_simulated.
  4: destruct (return_simulated _ _ _ _ _ _ _ _ _ Ha Hi) as (Ns' & a' & ? & ?); by exists G, P, Ns', a'.
  4: exists G, P, Ns, a; split; [by eapply clients_simulated|by left].
  all: destruct a as [g A K' ts]; pose proof (ab_caches _ _ _ _ _ Ha) as EA; cbn in EA; subst A;
    destruct (abs_thread _ _ _ _ _ _ _ _ _ _ _ Ha Hi) as (-> & N & t & HN & Ht & Hl & Hsh); cbn [local shows] in Hl, Hsh; subst N t.
  - do 4 eexists. split; [by eapply abs_hand_over|]. right. by apply a_call_alloc.
  - cbn in Hst. do 4 eexists. split; [eapply (abs_hand_over s (K1 ++ c :: K2) ps G P Ns g _ ts i VIdle [] (K1 ++ K2)); try done|].
    + cbn. split; [done|]. apply Hst. set_solver.
    + solve_Permutation.
    + intros d Hd. apply Hst. set_solver.
    + right. rewrite !fmap_app. cbn. by apply a_call_free.
  - do 4 eexists. split; [by eapply abs_hand_over|]. right. by apply a_call_purge.
Qed.

End refinement.

(** ** Executions *)

(** The configurations that an execution from [x] passes. *)
Fixpoint path {A} (R : A -> A -> Prop) (x : A) (l : list A) : Prop :=
  match l with [] => True | y :: l => R x y /\ path R y l end.

(** [k] threads between calls. *)
Definition a_start (G : list Z) (P : list (list Z)) (K : list (Z * Z)) (k : nat) : aconfig :=
  mk_ac G P K (replicate k TIdle).

(** What the abstract manager says of a configuration: the clients hold the same
    chunks, each thread is in the same call, no chunk is in two places; and
    while no call is under way its list and caches are the real ones. *)
Definition agrees (c : vconfig) (a : aconfig) : Prop :=
  a_watch a = watch c /\ a_ok a /\
  ((forall p, p ∈ vc_threads c -> p = VIdle) -> vmm_inv (vc_state c) (ac_global a) (ac_caches a)).

Section theorem.
Context `{EnvLaws}.

Lemma vm_abs_agrees c G P Ns a : vm_abs c G P Ns a -> a_ok a -> agrees c a.
Proof.
  intros Ha Hok. split_and!; [by eapply vm_abs_watch|done|]. intros Hq.
  pose proof (vm_at_idle c G P Ns (ab_at _ _ _ _ _ Ha) Hq) as Hv. rewrite (ab_caches _ _ _ _ _ Ha).
  pose proof (ab_global _ _ _ _ _ Ha) as EG. rewrite part_none in EG by (by intros q ->%Hq). cbn in EG. by rewrite <- EG.
Qed.

Lemma a_may_ok a a' : a_ok a -> a_may a a' -> a_ok a'.
Proof. intros Ha [->|Hs]; [done|by eapply a_step_ok]. Qed.

Lemma path_simulated c G P Ns a cs :
  vm_abs c G P Ns a -> a_ok a -> path vm_step c cs -> exists l, path a_may a l /\ Forall2 agrees cs l.
Proof.
  revert c G P Ns a. induction cs as [|c1 cs IH]; intros c G P Ns a Ha Hok; [exists []; split; [done|constructor]|].
  intros [Hs Hp]. destruct (step_simulated c G P Ns a c1 Ha Hs) as (G1 & P1 & Ns1 & a1 & Ha1 & Hm).
  pose proof (a_may_ok a a1 Hok Hm) as Hok1. destruct (IH c1 G1 P1 Ns1 a1 Ha1 Hok1 Hp) as (l & Hl & Hf).
  exists (a1 :: l). split; [done|]. constructor; [by eapply vm_abs_agrees|done].
Qed.

Lemma a_start_abs s K k G P :
  vmm_inv s G P -> NoDup (K ++ G ++ concat P) ->
  (forall d, d ∈ K -> chunk_ok s d /\ exists n, node n /\ stamped s n d) ->
  vm_abs (vm_start s K k) G P (replicate k []) (a_start G P (label s <$> K) k) /\ a_ok (a_start G P (label s <$> K) k).
Proof.
  intros Hv Hnd HK. split.
  - constructor; cbn; [by apply vm_start_at|done| |done|by rewrite !length_replicate|].
    + rewrite part_none; [done|]. by intros q [-> _]%elem_of_replicate.
    + by intros i p N t [-> _]%lookup_replicate [-> _]%lookup_replicate [-> _]%lookup_replicate.
  - constructor; unfold a_places; cbn.
    + rewrite label_fst. assert (concat (flight <$> replicate k TIdle) = []) as -> by (clear; by induction k).
      by rewrite app_nil_r.
    + intros l [n Hl]%list_elem_of_lookup. by destruct (vi_pool _ _ _ Hv n l Hl) as (pool & _ & _ & _ & ? & _).
Qed.

(** C4. The racing chunk manager refines an atomic one: threads allocate,
    release and purge chunks under the spinlocks, one memory access at a time
    and interleaved in any way, while clients use the chunks they hold.
    Every such execution is followed step by step by the abstract manager, which
    pops and pushes whole lists, adds an extent of 32 chunks, empties a cache
    and hands out chunks in single atomic operations: each step of the code is
    one operation of it or none, at each point clients hold the same chunks and
    the threads are in the same calls, every chunk is in one place only, and
    whenever no call is under way the abstract list and caches are exactly the
    ones in memory. *)
Theorem vmm_race_refines s K k G P cs :
  vmm_inv s G P -> NoDup (K ++ G ++ concat P) ->
  (forall d, d ∈ K -> chunk_ok s d /\ exists n, node n /\ stamped s n d) ->
  path vm_step (vm_start s K k) cs ->
  exists l, path a_may (a_start G P (label s <$> K) k) l /\ Forall2 agrees cs l.
Proof. intros Hv Hnd HK Hp. destruct (a_start_abs s K k G P Hv Hnd HK). by eapply path_simulated. Qed.

End theorem.

(** ** Witness *)

(** The configurations a schedule passes. *)
Fixpoint vm_visits `{Env} (es : list vm_event) (c : vconfig) : list vconfig :=
  match es with
  | [] => []
  | e :: es => match vm_event_step e c with Some c' => c' :: vm_visits es c' | None => [] end
  end.

Lemma visits_path `{Env} es c : path vm_step c (vm_visits es c).
Proof.
  revert c. induction es as [|e es IH]; intros c; cbn; [done|].
  destruct (vm_event_step e c) as [c'|] eqn:E; [|done]. split; [by eapply event_step_sound|apply IH].
Qed.

(** One thread allocates a chunk from a new extent while another one waits for
    the lock of its cache; then the first releases the chunk. *)
Definition busy_pair : list vm_event :=
  [EAlloc 0; EAlloc 1; EAct 0; EAct 1; EAct 0; EAct 1] ++ run_thread 0 78 ++ [ERet 0; EFree 0] ++ run_thread 0 7.

Lemma busy_pair_runs : length (vm_visits busy_pair (vm_start boot_state [] 2)) = 93%nat.
Proof. vm_compute. reflexivity. Qed.

Lemma vmm_race_refines_witness : exists l,
  path a_may (a_start [] (replicate 16 []) [] 2) l /\ length l = 93%nat.
Proof.
  destruct (vmm_race_refines boot_state [] 2 [] (replicate 16 []) (vm_visits busy_pair (vm_start boot_state [] 2)))
    as (l & Hl & Hf).
  - by apply vmm_inv_boot.
  - exact boot_nodup.
  - exact (no_chunk_held _).
  - apply visits_path.
  - exists l. split; [exact Hl|]. etrans; [symmetry; exact (Forall2_length _ _ _ Hf)|exact busy_pair_runs].
Defined.
